(* ===== verification/_CoqProject ===== *)
-Q . S2P
Prelude.v
GoStd.v
ApiTypes.v
Interfaces.v
Reference.v
Effects.v
Samples.v
Store.v
Metadata.v
Rbac.v
ControllerAccess.v
Validation.v
Conditions.v
Children.v
Placement.v
Rollout.v
RolloutPlan.v
Cleanup.v
ReconcileChildren.v
ChildrenSafety.v
Isolation.v
Reconcile.v
ReconcileSafety.v
StatusSchema.v
System.v
Evaluation.v
Convergence.v
Liveness.v
Quiescence.v
Watches.v
NamespaceResolver.v
NamespaceCaches.v
CacheRegistry.v
Manager.v
