(* ===== verification/Prelude.v ===== *)
(** * Verification of the OCM ManagedServiceAccount ReplicaSet controller

    The program is a Kubernetes controller (Go, under src/).  A
    ManagedServiceAccountReplicaSet names OCM Placements, a service account
    template and RBAC grants; for every selected managed cluster the controller
    keeps a ManagedServiceAccount and one ManifestWork per RBAC slice in the
    cluster's namespace on the hub, rolls changes out progressively, reports
    status, and removes everything in order when the set is deleted.

    ** Parts, and the files that model them

    - src/api/v1alpha1/managedserviceaccountreplicaset_types.go: [ApiTypes]
      (with the fields of the Kubernetes and OCM types the controller uses).
    - src/internal/controller/metadata.go: [Metadata] (ownership labels,
      sanitizing, stable names, the map from a child to its set).
    - src/internal/controller/rbac.go: [Rbac] (rendering grants to slices) and,
      for [ensureManifestWork], [Children].
    - src/internal/controller/controller_access.go: [ControllerAccess],
      [Children].
    - src/internal/controller/managedserviceaccountreplicaset_controller.go:
      [Validation] (validateRuntimeSpec), [Conditions] (conditions and the
      result of a pass), [Children] (ensureChild and the builders), [Placement]
      (resolvePlacementRefs), [Rollout] and [RolloutPlan] (planRollout),
      [Cleanup] (deleteStaleChildren, reconcileDelete, patchStatus),
      [ReconcileChildren], [ChildrenSafety] and [Isolation]
      (reconcileChildren), [Reconcile], [ReconcileSafety] and [StatusSchema]
      (Reconcile and the type of the status it writes),
      [Watches] (the index and the map functions), [Manager]
      (SetupWithManager).
    - src/internal/controller/namespace_resolver.go: [NamespaceResolver] (the
      ClusterProfile of a cluster, the access configuration),
      [NamespaceCaches] (the caches, their life cycle and their events) and
      [CacheRegistry] (the abstract registry they implement).
    - src/cmd/manager/main.go: [Manager] (the scheme, the flags, the order in
      which the process comes up, the readiness probe).

    Shared by them: [Prelude] (Go integers, sets and maps, tactics, hints),
    [GoStd] (errors, slices, strings, SHA-256), [Interfaces] (one class per
    third-party package with its documented behaviour), [Reference] (an
    instance of each class), [Effects] (programs over API requests and their
    logic), [Samples] and [Store] (concrete inputs, a reference API server),
    [System] (the controller against that server), [Evaluation],
    [Convergence], [Liveness] and [Quiescence] (what a whole pass computes on
    it, what rounds of passes lead to, and that they come to rest).

    ** How the code is modelled

    A function that talks to the API server is a program ([Effects.prog]): a
    tree whose nodes are requests and whose branches are the answers.  Nothing
    is assumed about an answer unless a theorem says so ([api_contract]: a get
    answers the object asked for, a list holds matching objects, the rollout
    handler labels its timeouts); in particular caches may lag and other writers
    may act between two requests.  A theorem about a program therefore holds
    for every API server.  [wp] is the program logic: a guarantee for every
    request, given the history of the pass, and a postcondition; [wp_run_ok]
    carries it to runs.  Programs are finite trees, so every run terminates and
    no fuel is needed.

    Go values become records and inductive types with the fields of the
    sources; nil and empty slices and maps are identified, as semantic equality
    does.  int32 counters wrap around ([int32], [int32_add]).  Where the sources
    share memory the model does too: pointers into [status.Placements] are
    indices, exec configurations and the backing arrays of provider slices live
    in a heap, and namespace caches are objects with an identity.  The namespace
    resolver is concurrent: its critical sections are atomic operations and
    their interleaving is the step relation [NamespaceCaches.sys_step].  A cache
    counts as unstopped until its own stop function is called; that the context
    it was started under may end as well is [cacheDone].  The whole call of
    [ResolveNamespaceSelector], with its wait and its read of the store, is run
    without interference.

    Third-party code is a parameter with named laws: the OCM placement tracker
    ([PlacementTracker], [TrackerScope]) and rollout handler (a request), the
    condition helpers, label selectors, finalizer helpers, semantic equality,
    JSON, for the resolver the access library and client-go informers, and for
    [Manager] the answers of controller-runtime and the flags of libraries.
    [Reference], [Placement.reference_tracker] and [Store.server] instantiate
    them, and every theorem with hypotheses is applied to concrete inputs.

    ** What the theorems show

    - A whole pass ([ReconcileSafety]): no object of another owner is written
      or deleted; the finalizer protocol; Ready is only claimed with evidence
      from the same pass; the table of the end of a pass with its events, its
      error and its requeue.  The shape of the status is an invariant: from an
      empty status on, every status it writes is within the list bounds and
      map keys of the schema, as long as no one else adds conditions of other
      types ([StatusSchema]).
    - Its parts: the rollout window and the meaning of the result
      ([ChildrenSafety]); exactness and order of cleanup and finalization
      ([Cleanup]); soundness of the rollout plan and of its counters
      ([RolloutPlan]); the union of the placements and the status of each ref
      ([Placement]); least privilege and completeness of the rendered RBAC
      ([Rbac]); validation against a declarative specification ([Validation]);
      labels that cannot be spoofed, exclusive ownership, names ([Metadata],
      [ControllerAccess]); the conditions ([Conditions]).
    - Failures ([Isolation]): an error of one child or cluster keeps nothing
      else from being attempted, and every error is noted in the result.
    - Liveness on the reference server: three passes finish a deletion, ensuring
      a child converges and is idempotent ([System]); a live set converges in
      at most two rounds more than it has clusters, whatever the rollout policy
      as long as it makes progress and times nothing out ([Liveness]); then
      further passes leave everything as it is, the status included
      ([Quiescence]).  These theorems assume the server of [Store] and the
      agents of [System]: requests do not fail, reads are fresh, and the
      managed clusters report between two passes.  [Liveness] also shows that
      works whose grants were removed from a settled set stay where they are,
      which docs/operations.md rules out.
    - Wake-ups ([Watches]): events on placements, decisions and owned children
      that a pass asked about enqueue its set again, and each watch wakes
      exactly the sets concerned.  Hub namespaces and children of other owners
      wake no one.
    - The namespace resolver: in every interleaving a caller gets the cache of
      its own set and cluster, at most one cache per set and cluster exists, no
      informer leaks, stopping and shutdown are exact, events are dropped only
      when the channel is full; the shared access configuration, its provider
      array included, is never written.  The caches refine a registry that has at most one live cache
      per set and cluster ([CacheRegistry]).
    - The process ([Manager]): command lines round-trip through the flags; the
      operations of a fixed plan are carried out in order up to the first
      error, and the exit code tells; what a completed controller is wired to;
      the readiness probe succeeds only after the informer cache synced.

    ** Bounds

    The capacity of the event channel (1024) and the limit of names (253 bytes)
    are those of the sources.  SHA-256 iterates over the blocks of the padded
    message, of which there are as many as the fuel it computes from the
    length.  The flag parser has the length of the command line as fuel, which
    is enough because every flag takes an argument away.  The number of rounds
    to convergence is the size of the selection plus two: every round before
    that settles a cluster, and two remove the works and then the accounts of
    deselected clusters and report.  Theorems about counters say for which
    fleet sizes no int32 wraps.

    ** Not modelled

    Log lines; what controller-runtime does behind the operations of [Manager];
    generated deep copies and scheme registration (values of the model are
    immutable); the Helm chart.  The CRD's admission rules are assumed by
    [StatusSchema] only (the bounds on placement refs); elsewhere runtime
    validation is what the theorems rely on.  Of the schema of the status the
    length of messages and the lower bound of counters are left out.  Waiting for an informer to sync is modelled
    from what it observes, not in time.  That a deletion finishes and that a live
    set converges is proved on the reference server only, with the agents of
    the managed clusters acting between two passes; against an arbitrary server
    safety and the isolation of failures are claimed. *)

From stdpp Require Export base tactics option list gmap strings sorting pretty fin_maps.
From Stdlib Require Import ZArith Lia.

(** ** Scope and notations *)

Declare Scope controller_scope.
Delimit Scope controller_scope with controller.

(** Go's index expression on a [map[string]string]: the zero value [""] on a
    missing key. *)
Definition map_index (m : gmap string string) (k : string) : string :=
  default "" (m !! k).

Notation "m .[ k ]" := (map_index m k)
  (at level 1, k at level 200, left associativity, format "m .[ k ]") : controller_scope.

Global Open Scope controller_scope.

(** ** Machine integers *)

(** Conversion to Go's [int32]: two's complement wrap-around. *)
Definition int32 (z : Z) : Z := ((z + 2^31) `mod` 2^32 - 2^31)%Z.

(** The value range in which a count of objects is stored exactly. *)
Definition int32_count (n : nat) : Prop := (Z.of_nat n < 2^31)%Z.

(** [int32(len(l))]. *)
Definition int32_len {A} (l : list A) : Z := int32 (Z.of_nat (length l)).

(** [a += b] on [int32] operands. *)
Definition int32_add (a b : Z) : Z := int32 (a + b).

(** ** Sets of strings ([k8s.io/apimachinery/pkg/util/sets]) *)

(** [sets.List(s)]: the members in ascending byte-wise order. *)
Definition sets_List (X : gset string) : list string := merge_sort String.le (elements X).

(** [sets.New(l...)]. *)
Definition sets_New (l : list string) : gset string := list_to_set l.

(** [s.Has(x)]. *)
Definition sets_Has (X : gset string) (x : string) : bool := bool_decide (x ∈ X).

(** [s.Len()]. *)
Definition sets_Len (X : gset string) : nat := size X.

(** ** Tactics *)

(** Case analysis on the scrutinee of the first [match] or [if] of the goal. *)
Ltac case_goal :=
  match goal with
  | |- context [match ?x with _ => _ end] => destruct x eqn:?
  end.

(** The same in a hypothesis. *)
Ltac case_hyp H :=
  match type of H with
  | context [match ?x with _ => _ end] => destruct x eqn:?
  end.

(** Turn boolean facts of the context into propositions. *)
Ltac breflect :=
  repeat match goal with
  | H : andb _ _ = true |- _ => apply andb_true_iff in H as [? ?]
  | H : orb _ _ = false |- _ => apply orb_false_iff in H as [? ?]
  | H : negb _ = true |- _ => apply negb_true_iff in H
  | H : negb _ = false |- _ => apply negb_false_iff in H
  | H : bool_decide _ = true |- _ => apply bool_decide_eq_true_1 in H
  | H : bool_decide _ = false |- _ => apply bool_decide_eq_false_1 in H
  | H : Is_true _ |- _ => apply Is_true_true_1 in H
  end.

Create HintDb msars.
Create Rewrite HintDb msars.

(** ** Generic lemmas *)

Lemma int32_small (z : Z) : (- 2^31 <= z < 2^31)%Z → int32 z = z.
Proof. intros ?. unfold int32. rewrite Z.mod_small; lia. Qed.

Lemma int32_range (z : Z) : (- 2^31 <= int32 z < 2^31)%Z.
Proof.
  unfold int32. pose proof (Z.mod_pos_bound (z + 2^31) (2^32) ltac:(lia)). lia.
Qed.

(** Counting in [int32] is addition in Z followed by one conversion. *)
Lemma int32_add_int32_l (a b : Z) : int32_add (int32 a) b = int32 (a + b).
Proof.
  unfold int32_add, int32.
  replace ((a + 2 ^ 31) `mod` 2 ^ 32 - 2 ^ 31 + b + 2 ^ 31)%Z
    with ((a + 2 ^ 31) `mod` 2 ^ 32 + b)%Z by lia.
  rewrite Zplus_mod_idemp_l. do 2 f_equal. lia.
Qed.

Lemma elem_of_middle {A} (l1 l2 : list A) (x : A) : x ∈ l1 ++ x :: l2.
Proof. apply elem_of_app. right. by left. Qed.

(** A sublist that is as long as the list is the list. *)
Lemma sublist_full {A} (l1 l2 : list A) :
  l1 `sublist_of` l2 → length l2 <= length l1 → l1 = l2.
Proof.
  induction 1 as [|x l1 l2 _ IH|x l1 l2 Hs _]; simpl; intros Hl; [done|f_equal; apply IH; lia|].
  apply sublist_length in Hs. lia.
Qed.

Lemma sets_List_elem_of (X : gset string) x : x ∈ sets_List X ↔ x ∈ X.
Proof.
  unfold sets_List. rewrite (merge_sort_Permutation String.le (elements X)).
  apply elem_of_elements.
Qed.

Lemma sets_List_NoDup (X : gset string) : NoDup (sets_List X).
Proof.
  unfold sets_List. rewrite (merge_sort_Permutation String.le (elements X)).
  apply NoDup_elements.
Qed.

Lemma sets_List_length (X : gset string) : length (sets_List X) = size X.
Proof.
  unfold sets_List. by rewrite (merge_sort_Permutation String.le (elements X)).
Qed.

Lemma sets_List_Sorted (X : gset string) : StronglySorted String.le (sets_List X).
Proof. apply StronglySorted_merge_sort; apply _. Qed.

Lemma sets_List_empty : sets_List ∅ = [].
Proof. reflexivity. Qed.

Lemma sets_Has_true X x : sets_Has X x = true ↔ x ∈ X.
Proof. apply bool_decide_eq_true. Qed.

Lemma sets_Has_false X x : sets_Has X x = false ↔ x ∉ X.
Proof. apply bool_decide_eq_false. Qed.

Lemma sets_New_elem_of l x : x ∈ sets_New l ↔ x ∈ l.
Proof. apply elem_of_list_to_set. Qed.

#[export] Hint Resolve sets_List_NoDup sets_List_Sorted int32_range : msars.
#[export] Hint Rewrite sets_List_elem_of sets_New_elem_of sets_List_length : msars.
