(* ===== verification/GoStd.v ===== *)
(** * The parts of Go and of its standard library the controller uses

    Error values ([errors.New], [fmt.Errorf] with and without [%w],
    [errors.Join], [errors.Is]), results of fallible calls, string helpers
    ([strings.Join], [strings.TrimSuffix], [strings.HasPrefix], [%q] and [%d]
    formatting), [slices.Index]/[slices.IndexFunc], and [crypto/sha256] with
    [encoding/hex], written out so that the generated child names can be
    computed. *)

From S2P Require Import Prelude.
From Stdlib Require Import ZArith Lia Ascii.

(** ** Errors *)

(** Go error values as the controller builds and inspects them.
    [ErrChildConflict] is the package variable [errChildConflict], which is
    compared by identity; [ErrNew] stands for every other [errors.New] value
    and for [fmt.Errorf] without [%w]; [ErrWrap] for [fmt.Errorf] with [%w]
    (the full text and the wrapped error); [ErrJoin] for [errors.Join];
    [ErrStatus] for an error answered by the API server, with its reason. *)
#[warnings="-register-all"]
Inductive error : Type :=
| ErrNew (msg : string)
| ErrChildConflict
| ErrWrap (msg : string) (inner : error)
| ErrJoin (errs : list error)
| ErrStatus (reason msg : string).

Definition newline : string := String (ascii_of_nat 10) EmptyString.

Definition msgErrChildConflict : string := "generated child conflicts with an existing object".

(** [strings.Join(parts, sep)]. *)
Definition strings_Join (parts : list string) (sep : string) : string :=
  String.concat sep parts.

(** [err.Error()]. *)
Fixpoint Error (e : error) : string :=
  match e with
  | ErrNew m => m
  | ErrChildConflict => msgErrChildConflict
  | ErrWrap m _ => m
  | ErrJoin es => strings_Join (map Error es) newline
  | ErrStatus _ m => m
  end.

(** [errors.Is(err, errChildConflict)]: identity with the sentinel, through
    every [Unwrap]. *)
Fixpoint is_errChildConflict (e : error) : bool :=
  match e with
  | ErrChildConflict => true
  | ErrWrap _ inner => is_errChildConflict inner
  | ErrJoin es => existsb is_errChildConflict es
  | ErrNew _ | ErrStatus _ _ => false
  end.

(** [errors.Join(errs...)]: nil errors are discarded, and the result is nil
    when nothing is left. *)
Definition errors_Join (errs : list (option error)) : option error :=
  match omap id errs with
  | [] => None
  | es => Some (ErrJoin es)
  end.

(** A pair (value, error) of which only one component is meaningful. *)
Inductive result (A : Type) : Type :=
| Ok (a : A)
| Err (e : error).
Arguments Ok {A} _.
Arguments Err {A} _.

(** ** Strings *)

(** [strings.HasPrefix(s, p)]. *)
Definition HasPrefix (s p : string) : bool := String.prefix p s.

(** [strings.TrimSuffix(s, "-")]. *)
Fixpoint TrimSuffixDash (s : string) : string :=
  match s with
  | EmptyString => EmptyString
  | String c EmptyString => if Ascii.eqb c "-" then EmptyString else s
  | String c rest => String c (TrimSuffixDash rest)
  end.

(** [s[:n]] for [n <= len(s)]. *)
Definition take_bytes (n : nat) (s : string) : string := String.substring 0 n s.

(** [%d]. *)
Definition fmt_d (z : Z) : string := pretty z.

(** Byte [b] as two lower-case hexadecimal digits. *)
Definition hex_digit (n : Z) : ascii :=
  ascii_of_nat (Z.to_nat (if (n <? 10)%Z then 48 + n else 87 + n)).

Definition hex_byte (b : Z) : string :=
  String (hex_digit (b `div` 16)) (String (hex_digit (b `mod` 16)) EmptyString).

(** One byte inside [%q] ([strconv.Quote]): exact on ASCII, and multi-byte
    runes are kept as they are, which is what Quote does for printable ones. *)
Definition quote_byte (c : ascii) : string :=
  let n := Z.of_nat (nat_of_ascii c) in
  let esc (k : nat) := String (ascii_of_nat 92) (String (ascii_of_nat k) EmptyString) in
  if (n =? 34)%Z then esc 34 else
  if (n =? 92)%Z then esc 92 else
  if (n =? 7)%Z then esc 97 else
  if (n =? 8)%Z then esc 98 else
  if (n =? 12)%Z then esc 102 else
  if (n =? 10)%Z then esc 110 else
  if (n =? 13)%Z then esc 114 else
  if (n =? 9)%Z then esc 116 else
  if (n =? 11)%Z then esc 118 else
  if ((n <? 32) || (n =? 127))%Z
  then String (ascii_of_nat 92) (String "x" (hex_byte n))
  else String c EmptyString.

Fixpoint quote_body (s : string) : string :=
  match s with
  | EmptyString => EmptyString
  | String c rest => quote_byte c +:+ quote_body rest
  end.

(** [%q]. *)
Definition fmt_q (s : string) : string :=
  let dq := String (ascii_of_nat 34) EmptyString in dq +:+ quote_body s +:+ dq.

(** ** Slices *)

(** [slices.IndexFunc(l, f)], [None] for -1. *)
Fixpoint IndexFunc {A} (f : A → bool) (l : list A) : option nat :=
  match l with
  | [] => None
  | x :: l' => if f x then Some 0 else S <$> IndexFunc f l'
  end.

(** [slices.ContainsFunc(l, f)]. *)
Definition ContainsFunc {A} (f : A → bool) (l : list A) : bool := existsb f l.

(** ** SHA-256 (FIPS 180-4), over 32-bit words held in [Z] *)

Module Sha256.
Local Open Scope Z_scope.

Definition mask32 : Z := 0xffffffff.
Definition w32 (z : Z) : Z := Z.land z mask32.
Definition rotr (n x : Z) : Z := Z.lor (Z.shiftr x n) (w32 (Z.shiftl x (32 - n))).

Definition Ch (x y z : Z) : Z := Z.lxor (Z.land x y) (Z.land (Z.lxor x mask32) z).
Definition Maj (x y z : Z) : Z := Z.lxor (Z.lxor (Z.land x y) (Z.land x z)) (Z.land y z).
Definition Sigma0 (x : Z) : Z := Z.lxor (Z.lxor (rotr 2 x) (rotr 13 x)) (rotr 22 x).
Definition Sigma1 (x : Z) : Z := Z.lxor (Z.lxor (rotr 6 x) (rotr 11 x)) (rotr 25 x).
Definition sigma0 (x : Z) : Z := Z.lxor (Z.lxor (rotr 7 x) (rotr 18 x)) (Z.shiftr x 3).
Definition sigma1 (x : Z) : Z := Z.lxor (Z.lxor (rotr 17 x) (rotr 19 x)) (Z.shiftr x 10).

(** The constants of FIPS 180-4, section 4.2.2 and 5.3.3, from their
    definition: the first 32 bits of the fractional parts of the cube roots of
    the first 64 primes, and of the square roots of the first eight. *)
Definition divides_none (ps : list Z) (n : Z) : bool :=
  forallb (λ p, negb (n `mod` p =? 0)) ps.

Fixpoint primes_upto (fuel : nat) (n : Z) (found : list Z) : list Z :=
  match fuel with
  | O => rev found
  | S fuel' => primes_upto fuel' (n + 1) (if divides_none found n then n :: found else found)
  end.

(** The 64th prime is 311. *)
Definition primes : list Z := primes_upto 310 2 [].

(** The largest [r + x] with [x < 2 ^ bits] whose cube is at most [n]. *)
Fixpoint cube_root (bits : nat) (r n : Z) : Z :=
  match bits with
  | O => r
  | S b => let r' := r + 2 ^ Z.of_nat b in
           cube_root b (if r' * r' * r' <=? n then r' else r) n
  end.

Definition K : list Z := Eval vm_compute in
  map (λ p, w32 (cube_root 36 0 (p * 2 ^ 96))) primes.

Definition H0 : list Z := Eval vm_compute in
  map (λ p, w32 (Z.sqrt (p * 2 ^ 64))) (take 8 primes).

Definition bytes_of (s : string) : list Z :=
  map (λ c, Z.of_nat (nat_of_ascii c)) (String.list_ascii_of_string s).

Definition be64 (n : Z) : list Z :=
  map (λ i, Z.land (Z.shiftr n (8 * i)) 255) [7; 6; 5; 4; 3; 2; 1; 0].

Definition padding (len : nat) : list Z :=
  let l := Z.of_nat len in
  let k := (119 - l `mod` 64) `mod` 64 in
  0x80 :: repeat 0 (Z.to_nat k) ++ be64 (8 * l).

Fixpoint words_of (bs : list Z) : list Z :=
  match bs with
  | a :: b :: c :: d :: rest =>
      Z.lor (Z.shiftl a 24) (Z.lor (Z.shiftl b 16) (Z.lor (Z.shiftl c 8) d)) :: words_of rest
  | _ => []
  end.

(** The message schedule, kept as the last 16 words, most recent first. *)
Fixpoint schedule (n : nat) (win : list Z) (acc : list Z) : list Z :=
  match n with
  | O => rev acc
  | S n' =>
      let w := w32 (sigma1 (nth 1 win 0) + nth 6 win 0 + sigma0 (nth 14 win 0) + nth 15 win 0) in
      schedule n' (w :: take 15 win) (w :: acc)
  end.

Definition round (st : list Z) (kw : Z * Z) : list Z :=
  match st with
  | [a; b; c; d; e; f; g; h] =>
      let t1 := h + Sigma1 e + Ch e f g + fst kw + snd kw in
      let t2 := Sigma0 a + Maj a b c in
      [w32 (t1 + t2); a; b; c; w32 (d + t1); e; f; g]
  | _ => st
  end.

Definition compress (h : list Z) (block : list Z) : list Z :=
  let w := block ++ schedule 48 (rev block) [] in
  zip_with (λ x y, w32 (x + y)) h (fold_left round (zip K w) h).

(** The words of the padded message in blocks of sixteen; the fuel is the
    number of words, which bounds the number of blocks. *)
Fixpoint blocks (fuel : nat) (ws : list Z) (h : list Z) : list Z :=
  match fuel with
  | O => h
  | S fuel' =>
      match ws with
      | [] => h
      | _ => blocks fuel' (drop 16 ws) (compress h (take 16 ws))
      end
  end.

Definition digest (msg : list Z) : list Z :=
  let ws := words_of (msg ++ padding (length msg)) in
  blocks (length ws) ws H0.

Definition be32 (w : Z) : list Z :=
  map (λ i, Z.land (Z.shiftr w (8 * i)) 255) [3; 2; 1; 0].

End Sha256.

(** [hex.EncodeToString(sha256.Sum256([]byte(s))[:])]. *)
Definition sha256_hex (s : string) : string :=
  String.concat "" (map hex_byte (flat_map Sha256.be32 (Sha256.digest (Sha256.bytes_of s)))).

(** ** Lemmas *)

Lemma errors_Join_acc (acc : option error) (e : error) :
  is_Some (errors_Join [acc; Some e]).
Proof. by destruct acc; eexists. Qed.

(** ** Errors inside joined errors *)

(** [e] is the error or a part of a join. *)
Inductive mentions (e : error) : error → Prop :=
| mentions_here : mentions e e
| mentions_join es e' : e' ∈ es → mentions e e' → mentions e (ErrJoin es).

Definition reports (err : option error) (e : error) : Prop := ∃ j, err = Some j ∧ mentions e j.

Lemma reports_join_l err e e' : reports err e → reports (errors_Join [err; Some e']) e.
Proof. intros (j & -> & Hm). eexists. split; [done|]. eapply mentions_join; [left|done]. Qed.

Lemma reports_join_r err e : reports (errors_Join [err; Some e]) e.
Proof.
  destruct err as [j|]; (eexists; split; [done|]); eapply mentions_join; [|apply mentions_here| |apply mentions_here].
  - right. left.
  - left.
Qed.

(** [errs] are the errors joined in [err]: it is nil exactly when there are
    none, and reports each of them. *)
Definition joins (err : option error) (errs : list error) : Prop :=
  (err = None ↔ errs = []) ∧ ∀ e, e ∈ errs → reports err e.

Lemma joins_nil : joins None [].
Proof. split; [done|]. by intros e ?%elem_of_nil. Qed.

Lemma joins_snoc err errs e : joins err errs → joins (errors_Join [err; Some e]) (errs ++ [e]).
Proof.
  intros [_ Hall]. destruct (errors_Join_acc err e) as [j Hj]. split.
  - rewrite Hj. split; [done|]. intros Hnil. by destruct errs.
  - intros e' [He| ->%list_elem_of_singleton]%elem_of_app; [by apply reports_join_l, Hall|apply reports_join_r].
Qed.

Lemma append_cons (c : ascii) (a b : string) : String c a +:+ b = String c (a +:+ b).
Proof. reflexivity. Qed.

Lemma append_nil_r (s : string) : s +:+ "" = s.
Proof. induction s as [|c s IH]; [done|]. by rewrite append_cons, IH. Qed.

Lemma append_assoc (a b c : string) : (a +:+ b) +:+ c = a +:+ (b +:+ c).
Proof. induction a as [|x a IH]; [done|]. by rewrite !append_cons, IH. Qed.

Lemma length_append (a b : string) :
  String.length (a +:+ b) = String.length a + String.length b.
Proof. induction a as [|x a IH]; [done|]. rewrite append_cons. simpl. by rewrite IH. Qed.

Lemma take_bytes_length (n : nat) (s : string) :
  n <= String.length s → String.length (take_bytes n s) = n.
Proof.
  unfold take_bytes. revert n. induction s as [|c s IH]; intros [|n]; simpl; try lia.
  intros ?. rewrite IH; lia.
Qed.

Lemma TrimSuffixDash_length (s : string) : String.length (TrimSuffixDash s) <= String.length s.
Proof.
  induction s as [|c s IH]; [simpl; lia|].
  destruct s as [|c' s']; simpl in *; [case_goal; simpl; lia|lia].
Qed.

(** A string whose last byte is not a dash is left alone. *)
Lemma TrimSuffixDash_snoc (s : string) (c : ascii) :
  c ≠ "-"%char → TrimSuffixDash (s +:+ String c EmptyString) = s +:+ String c EmptyString.
Proof.
  intros Hc. induction s as [|x s IH].
  - simpl. by destruct (Ascii.eqb_spec c "-").
  - rewrite append_cons. destruct (s +:+ String c EmptyString) eqn:E; [by destruct s|].
    cbn [TrimSuffixDash] in *. by rewrite IH.
Qed.

Lemma IndexFunc_Some {A} (f : A → bool) (l : list A) i :
  IndexFunc f l = Some i →
  ∃ x, l !! i = Some x ∧ f x = true ∧ ∀ j y, j < i → l !! j = Some y → f y = false.
Proof.
  revert i. induction l as [|x l IH]; intros i; simpl; [done|].
  destruct (f x) eqn:E; [intros [= <-]; exists x; split_and!; [done..|intros; lia]|].
  intros H. destruct (IndexFunc f l) as [k|]; simplify_eq/=.
  destruct (IH k eq_refl) as (y & ? & ? & Hlt). exists y. split_and!; [done..|].
  intros [|j] z ? Hz; simplify_eq/=; [done|]. apply (Hlt j); [lia|done].
Qed.

Lemma IndexFunc_None {A} (f : A → bool) (l : list A) :
  IndexFunc f l = None ↔ Forall (λ x, f x = false) l.
Proof.
  induction l as [|x l IH]; simpl; [by split|].
  destruct (f x) eqn:E; rewrite Forall_cons.
  - split; [done|]. intros [? _]. congruence.
  - rewrite <- IH. destruct (IndexFunc f l); simpl; [|done]. by split; [|intros []].
Qed.

(** The FIPS 180-4 test vectors. *)
Example sha256_abc :
  sha256_hex "abc" = "ba7816bf8f01cfea414140de5dae2223b00361a396177a9cb410ff61f20015ad".
Proof. vm_compute. reflexivity. Qed.

Example sha256_two_blocks :
  sha256_hex "abcdbcdecdefdefgefghfghighijhijkijkljklmklmnlmnomnopnopq"
  = "248d6a61d20638b8e5c026930c3e6039a33ce45964ff2167f6ecedd419db06c1".
Proof. vm_compute. reflexivity. Qed.

Example sha256_empty :
  sha256_hex "" = "e3b0c44298fc1c149afbf4c8996fb92427ae41e4649b934ca495991b7852b855".
Proof. vm_compute. reflexivity. Qed.

#[export] Hint Rewrite append_assoc length_append : msars.
