(* ===== verification/ApiTypes.v ===== *)
(** * Data types

    [Module Meta]-style external shapes first: the fields of the Kubernetes,
    OCM and Cluster Inventory types that the controller reads or writes.  Then
    the API of this repository, one record per struct of
    [api/v1alpha1/managedserviceaccountreplicaset_types.go], in the order of
    that file.  A Go pointer that may be nil is an [option]; a Go map is a
    [gmap] (nil and empty are identified, as the semantic equality the
    controller uses does); a slice is a list; [metav1.Time] is the number of
    nanoseconds, with [None] for the zero time. *)

From S2P Require Import Prelude.
From Stdlib Require Import ZArith.

Abbreviation labels_Set := (gmap string string).

(** ** Kubernetes metadata *)

Record NamespacedName := mkNamespacedName {
  nnNamespace : string;
  nnName : string;
}.

Record TypeMeta := mkTypeMeta {
  tmAPIVersion : string;
  tmKind : string;
}.

Record ObjectMeta := mkObjectMeta {
  omName : string;
  omNamespace : string;
  omUID : string;
  omGeneration : Z;
  omResourceVersion : string;
  omLabels : labels_Set;
  omAnnotations : labels_Set;
  omFinalizers : list string;
  omDeletionTimestamp : option Z;
}.

Record Condition := mkCondition {
  condType : string;
  condStatus : string;
  condObservedGeneration : Z;
  condLastTransitionTime : option Z;
  condReason : string;
  condMessage : string;
}.

Definition ConditionTrue : string := "True".
Definition ConditionFalse : string := "False".

(** [metav1.LabelSelector], and the parsed [labels.Selector] as its list of
    requirements. *)
Record LabelSelectorRequirement := mkLabelSelectorRequirement {
  lsrKey : string;
  lsrOperator : string;
  lsrValues : list string;
}.

Record LabelSelector := mkLabelSelector {
  lsMatchLabels : labels_Set;
  lsMatchExpressions : list LabelSelectorRequirement;
}.

Record Requirement := mkRequirement {
  reqKey : string;
  reqOperator : string;
  reqValues : list string;
}.

Abbreviation Selector := (list Requirement).

(** ** Kubernetes RBAC objects *)

Record PolicyRule := mkPolicyRule {
  prVerbs : list string;
  prAPIGroups : list string;
  prResources : list string;
  prResourceNames : list string;
  prNonResourceURLs : list string;
}.

Record Subject := mkSubject {
  subjKind : string;
  subjAPIGroup : string;
  subjName : string;
  subjNamespace : string;
}.

Record RoleRef := mkRoleRef {
  rrAPIGroup : string;
  rrKind : string;
  rrName : string;
}.

(** The [runtime.Object] values the controller puts in manifests. *)
Inductive RuntimeObject :=
| ORole (tm : TypeMeta) (om : ObjectMeta) (rules : list PolicyRule)
| ORoleBinding (tm : TypeMeta) (om : ObjectMeta) (subjects : list Subject) (ref : RoleRef)
| OClusterRole (tm : TypeMeta) (om : ObjectMeta) (rules : list PolicyRule)
| OClusterRoleBinding (tm : TypeMeta) (om : ObjectMeta) (subjects : list Subject) (ref : RoleRef).

Record RawExtension := mkRawExtension {
  rawRaw : string;
  rawObject : option RuntimeObject;
}.

(** ** OCM objects *)

(** [workv1.Manifest] embeds a [RawExtension]. *)
Abbreviation Manifest := RawExtension.

Record DeleteOption := mkDeleteOption {
  doPropagationPolicy : string;
}.

Definition DeletePropagationPolicyTypeForeground : string := "Foreground".

(** [mwsOther] holds the remaining fields of [workv1.ManifestWorkSpec]
    (manifestConfigs, executor, ...) by their JSON name: the controller only
    compares and overwrites them as a whole. *)
Record ManifestWorkSpec := mkManifestWorkSpec {
  mwsManifests : list Manifest;
  mwsDeleteOption : option DeleteOption;
  mwsOther : gmap string string;
}.

Record ManifestWork := mkManifestWork {
  mwTypeMeta : TypeMeta;
  mwMeta : ObjectMeta;
  mwSpec : ManifestWorkSpec;
  mwConditions : list Condition;
}.

Definition WorkApplied : string := "Applied".
Definition WorkAvailable : string := "Available".
Definition WorkDegraded : string := "Degraded".
Definition WorkProgressing : string := "Progressing".

Record ManagedServiceAccountSpec := mkManagedServiceAccountSpec {
  msasRotationEnabled : bool;
  msasRotationValidity : Z;
  msasTTLSecondsAfterCreation : option Z;
}.

Record ManagedServiceAccount := mkManagedServiceAccount {
  msaTypeMeta : TypeMeta;
  msaMeta : ObjectMeta;
  msaSpec : ManagedServiceAccountSpec;
  msaConditions : list Condition;
}.

Definition ConditionTypeTokenReported : string := "TokenReported".
Definition ConditionTypeSecretCreated : string := "SecretCreated".

Record DecisionGroupStatus := mkDecisionGroupStatus {
  dgIndex : Z;
  dgName : string;
}.

Record Placement := mkPlacement {
  plMeta : ObjectMeta;
  plDecisionGroups : list DecisionGroupStatus;
  plNumberOfSelectedClusters : Z;
}.

Record PlacementDecision := mkPlacementDecision {
  pdMeta : ObjectMeta;
  pdClusterNames : list string;
}.

Definition PlacementLabel : string := "cluster.open-cluster-management.io/placement".

(** [clustersdkv1beta1.ClusterGroupsMap]: decision group (name and index) to
    the clusters of the group. *)
Abbreviation ClusterGroupsMap := (gmap (string * Z) (gset string)).

(** [clusterv1alpha1.RolloutStrategy]: the controller reads the type and hands
    the rest to the OCM rollout handler. *)
Record RolloutConfig := mkRolloutConfig {
  rcMinSuccessTime : Z;
  rcProgressDeadline : string;
  rcMaxFailures : string;
}.

Record RolloutProgressive := mkRolloutProgressive {
  rpConfig : RolloutConfig;
  rpMandatoryDecisionGroups : list (string * Z);
  rpMaxConcurrency : string;
}.

Record RolloutStrategy := mkRolloutStrategy {
  rsType : string;
  rsAll : option RolloutConfig;
  rsProgressive : option RolloutProgressive;
  rsProgressivePerGroup : option (RolloutConfig * list (string * Z));
}.

Definition RolloutTypeAll : string := "All".
Definition RolloutTypeProgressive : string := "Progressive".
Definition RolloutTypeProgressivePerGroup : string := "ProgressivePerGroup".

(** [clustersdkv1alpha1.RolloutStatus]; [ToApply] is its zero value. *)
Inductive RolloutStatus := ToApply | Progressing | Succeeded | Failed | TimeOut | Skip.

Record ClusterRolloutStatus := mkClusterRolloutStatus {
  crsClusterName : string;
  crsStatus : RolloutStatus;
  crsLastTransitionTime : option Z;
}.

Record RolloutResult := mkRolloutResult {
  rrClustersToRollout : list ClusterRolloutStatus;
  rrClustersTimeOut : list ClusterRolloutStatus;
  rrRecheckAfter : option Z;
}.

(** ** api/v1alpha1 *)

Record ManagedServiceAccountRotation := mkRotation {
  rotEnabled : option bool;
  rotValidity : option Z;
}.

Record ManagedServiceAccountTemplateSpec := mkTemplateSpec {
  tsRotation : ManagedServiceAccountRotation;
  tsTTLSecondsAfterCreation : option Z;
}.

Record ManagedServiceAccountTemplateMetadata := mkTemplateMetadata {
  tmName : string;
  tmNamespace : string;
  tmLabels : labels_Set;
  tmAnnotations : labels_Set;
}.

Record ManagedServiceAccountTemplate := mkTemplate {
  tplMetadata : ManagedServiceAccountTemplateMetadata;
  tplSpec : ManagedServiceAccountTemplateSpec;
}.

Record PlacementRef := mkPlacementRef {
  prefName : string;
  prefRolloutStrategy : RolloutStrategy;
}.

Record NamespaceIterator := mkNamespaceIterator {
  niName : string;
  niNames : list string;
  niSelector : option LabelSelector;
}.

Record RBACGrantMetadata := mkRBACGrantMetadata {
  gmName : string;
  gmLabels : labels_Set;
  gmAnnotations : labels_Set;
}.

(** [RBACGrantType] is a string type with two declared constants. *)
Abbreviation RBACGrantType := string.
Definition RBACGrantTypeRole : RBACGrantType := "Role".
Definition RBACGrantTypeClusterRole : RBACGrantType := "ClusterRole".

Record RBACGrant := mkRBACGrant {
  grantID : string;
  grantType : RBACGrantType;
  grantForEachNamespace : option NamespaceIterator;
  grantMetadata : RBACGrantMetadata;
  grantRules : list PolicyRule;
}.

Record RBAC := mkRBAC {
  rbacGrants : list RBACGrant;
}.

Record ManagedServiceAccountReplicaSetSpec := mkSpec {
  specPlacementRefs : list PlacementRef;
  specTemplate : ManagedServiceAccountTemplate;
  specRBAC : option RBAC;
}.

Record ControllerAccessStatus := mkControllerAccessStatus {
  caDesiredClusterCount : Z;
  caReadyClusterCount : Z;
  caConditions : list Condition;
}.

Record Summary := mkSummary {
  sumDesiredTotal : Z;
  sumTotal : Z;
  sumApplied : Z;
  sumAvailable : Z;
  sumDegraded : Z;
  sumProgressing : Z;
  sumUpdated : Z;
}.

Record RolloutSummary := mkRolloutSummary {
  rsumTotal : Z;
  rsumUpdating : Z;
  rsumSucceeded : Z;
  rsumFailed : Z;
  rsumTimedOut : Z;
  rsumConditions : list Condition;
}.

Record PlacementStatus := mkPlacementStatus {
  psName : string;
  psSelectedClusterCount : Z;
  psSummary : option Summary;
  psRollout : option RolloutSummary;
  psAvailableDecisionGroups : string;
  psConditions : list Condition;
}.

Record ManagedServiceAccountReplicaSetStatus := mkStatus {
  stObservedGeneration : Z;
  stSelectedClusterCount : Z;
  stReadyClusterCount : Z;
  stSummary : option Summary;
  stRollout : option RolloutSummary;
  stControllerAccess : option ControllerAccessStatus;
  stPlacements : list PlacementStatus;
  stConditions : list Condition;
}.

Record ManagedServiceAccountReplicaSet := mkReplicaSet {
  setMeta : ObjectMeta;
  setSpec : ManagedServiceAccountReplicaSetSpec;
  setStatus : ManagedServiceAccountReplicaSetStatus;
}.

(** ** Equality *)

#[export] Instance NamespacedName_eq : EqDecision NamespacedName.
Proof. solve_decision. Defined.
#[export] Instance TypeMeta_eq : EqDecision TypeMeta.
Proof. solve_decision. Defined.
#[export] Instance ObjectMeta_eq : EqDecision ObjectMeta.
Proof. solve_decision. Defined.
#[export] Instance Condition_eq : EqDecision Condition.
Proof. solve_decision. Defined.
#[export] Instance Requirement_eq : EqDecision Requirement.
Proof. solve_decision. Defined.
#[export] Instance PolicyRule_eq : EqDecision PolicyRule.
Proof. solve_decision. Defined.
#[export] Instance Subject_eq : EqDecision Subject.
Proof. solve_decision. Defined.
#[export] Instance RoleRef_eq : EqDecision RoleRef.
Proof. solve_decision. Defined.
#[export] Instance RuntimeObject_eq : EqDecision RuntimeObject.
Proof. solve_decision. Defined.
#[export] Instance RawExtension_eq : EqDecision RawExtension.
Proof. solve_decision. Defined.
#[export] Instance DeleteOption_eq : EqDecision DeleteOption.
Proof. solve_decision. Defined.
#[export] Instance ManifestWorkSpec_eq : EqDecision ManifestWorkSpec.
Proof. solve_decision. Defined.
#[export] Instance ManifestWork_eq : EqDecision ManifestWork.
Proof. solve_decision. Defined.
#[export] Instance MSASpec_eq : EqDecision ManagedServiceAccountSpec.
Proof. solve_decision. Defined.
#[export] Instance MSA_eq : EqDecision ManagedServiceAccount.
Proof. solve_decision. Defined.
#[export] Instance RolloutStatus_eq : EqDecision RolloutStatus.
Proof. solve_decision. Defined.
#[export] Instance ClusterRolloutStatus_eq : EqDecision ClusterRolloutStatus.
Proof. solve_decision. Defined.
#[export] Instance ControllerAccessStatus_eq : EqDecision ControllerAccessStatus.
Proof. solve_decision. Defined.
#[export] Instance Summary_eq : EqDecision Summary.
Proof. solve_decision. Defined.
#[export] Instance RolloutSummary_eq : EqDecision RolloutSummary.
Proof. solve_decision. Defined.
#[export] Instance PlacementStatus_eq : EqDecision PlacementStatus.
Proof. solve_decision. Defined.
#[export] Instance Status_eq : EqDecision ManagedServiceAccountReplicaSetStatus.
Proof. solve_decision. Defined.

#[export] Instance NamespacedName_countable : Countable NamespacedName.
Proof.
  refine (inj_countable' (λ n, (nnNamespace n, nnName n)) (λ p, mkNamespacedName p.1 p.2) _).
  by intros [].
Defined.

(** ** Field assignments *)

Definition with_labels (om : ObjectMeta) (l : labels_Set) : ObjectMeta :=
  mkObjectMeta (omName om) (omNamespace om) (omUID om) (omGeneration om) (omResourceVersion om)
    l (omAnnotations om) (omFinalizers om) (omDeletionTimestamp om).

Definition with_annotations (om : ObjectMeta) (a : labels_Set) : ObjectMeta :=
  mkObjectMeta (omName om) (omNamespace om) (omUID om) (omGeneration om) (omResourceVersion om)
    (omLabels om) a (omFinalizers om) (omDeletionTimestamp om).

Definition with_finalizers (om : ObjectMeta) (f : list string) : ObjectMeta :=
  mkObjectMeta (omName om) (omNamespace om) (omUID om) (omGeneration om) (omResourceVersion om)
    (omLabels om) (omAnnotations om) f (omDeletionTimestamp om).

Definition with_meta (s : ManagedServiceAccountReplicaSet) (om : ObjectMeta) :=
  mkReplicaSet om (setSpec s) (setStatus s).

Definition with_status (s : ManagedServiceAccountReplicaSet)
    (st : ManagedServiceAccountReplicaSetStatus) : ManagedServiceAccountReplicaSet :=
  mkReplicaSet (setMeta s) (setSpec s) st.

Definition with_stObservedGeneration (st : ManagedServiceAccountReplicaSetStatus) (g : Z) :=
  mkStatus g (stSelectedClusterCount st) (stReadyClusterCount st) (stSummary st)
    (stRollout st) (stControllerAccess st) (stPlacements st) (stConditions st).

Definition with_stSelectedClusterCount (st : ManagedServiceAccountReplicaSetStatus) (n : Z) :=
  mkStatus (stObservedGeneration st) n (stReadyClusterCount st) (stSummary st)
    (stRollout st) (stControllerAccess st) (stPlacements st) (stConditions st).

Definition with_stReadyClusterCount (st : ManagedServiceAccountReplicaSetStatus) (n : Z) :=
  mkStatus (stObservedGeneration st) (stSelectedClusterCount st) n (stSummary st)
    (stRollout st) (stControllerAccess st) (stPlacements st) (stConditions st).

Definition with_stSummary (st : ManagedServiceAccountReplicaSetStatus) (s : option Summary) :=
  mkStatus (stObservedGeneration st) (stSelectedClusterCount st) (stReadyClusterCount st) s
    (stRollout st) (stControllerAccess st) (stPlacements st) (stConditions st).

Definition with_stRollout (st : ManagedServiceAccountReplicaSetStatus) (r : option RolloutSummary) :=
  mkStatus (stObservedGeneration st) (stSelectedClusterCount st) (stReadyClusterCount st)
    (stSummary st) r (stControllerAccess st) (stPlacements st) (stConditions st).

Definition with_stControllerAccess (st : ManagedServiceAccountReplicaSetStatus)
    (c : option ControllerAccessStatus) :=
  mkStatus (stObservedGeneration st) (stSelectedClusterCount st) (stReadyClusterCount st)
    (stSummary st) (stRollout st) c (stPlacements st) (stConditions st).

Definition with_stPlacements (st : ManagedServiceAccountReplicaSetStatus) (p : list PlacementStatus) :=
  mkStatus (stObservedGeneration st) (stSelectedClusterCount st) (stReadyClusterCount st)
    (stSummary st) (stRollout st) (stControllerAccess st) p (stConditions st).

Definition with_stConditions (st : ManagedServiceAccountReplicaSetStatus) (c : list Condition) :=
  mkStatus (stObservedGeneration st) (stSelectedClusterCount st) (stReadyClusterCount st)
    (stSummary st) (stRollout st) (stControllerAccess st) (stPlacements st) c.

Definition with_psConditions (p : PlacementStatus) (c : list Condition) : PlacementStatus :=
  mkPlacementStatus (psName p) (psSelectedClusterCount p) (psSummary p) (psRollout p)
    (psAvailableDecisionGroups p) c.

Definition with_psSelectedClusterCount (p : PlacementStatus) (n : Z) : PlacementStatus :=
  mkPlacementStatus (psName p) n (psSummary p) (psRollout p)
    (psAvailableDecisionGroups p) (psConditions p).

Definition with_psSummary (p : PlacementStatus) (s : option Summary) : PlacementStatus :=
  mkPlacementStatus (psName p) (psSelectedClusterCount p) s (psRollout p)
    (psAvailableDecisionGroups p) (psConditions p).

Definition with_psRollout (p : PlacementStatus) (r : option RolloutSummary) (adg : string)
    : PlacementStatus :=
  mkPlacementStatus (psName p) (psSelectedClusterCount p) (psSummary p) r adg (psConditions p).

(** [types.NamespacedName] of an object ([client.ObjectKeyFromObject]). *)
Definition ObjectKey (om : ObjectMeta) : NamespacedName :=
  mkNamespacedName (omNamespace om) (omName om).

(** Shorthands for the set's metadata. *)
Abbreviation setName s := (omName (setMeta s)).
Abbreviation setNamespace s := (omNamespace (setMeta s)).
Abbreviation setUID s := (omUID (setMeta s)).
Abbreviation setGeneration s := (omGeneration (setMeta s)).

(** [metav1.ObjectMeta{Name: n, Namespace: ns, Labels: l, Annotations: a}]. *)
Definition newMeta (n ns : string) (l a : labels_Set) : ObjectMeta :=
  mkObjectMeta n ns "" 0 "" l a [] None.
