(* ===== verification/Interfaces.v ===== *)
(** * Contracts of the pure library functions the controller calls

    One class per third-party package: the operations the sources call and the
    part of their documented behaviour the proofs rely on.  Every definition of
    the model takes the classes it needs as arguments; [Reference.v] gives an
    instance of each, so that none of the contracts is vacuous and every
    operation of the model can be evaluated. *)

From S2P Require Import Prelude GoStd ApiTypes.
From Stdlib Require Import ZArith.

(** [k8s.io/apimachinery/pkg/api/meta], condition helpers.  The first argument
    of [SetStatusCondition] is the reading of the wall clock that the library
    takes when a transition time has to be set. *)
Class MetaConditions := {
  FindStatusCondition : list Condition → string → option Condition;
  SetStatusCondition : Z → list Condition → Condition → list Condition;
  RemoveStatusCondition : list Condition → string → list Condition;
  IsStatusConditionTrue : list Condition → string → bool;

  FindStatusCondition_nil t : FindStatusCondition [] t = None;
  FindStatusCondition_type cs t c : FindStatusCondition cs t = Some c → condType c = t;
  (** The condition of that type now carries the new content; the transition
      time moves only when the status does. *)
  FindStatusCondition_set_eq now cs c :
    condLastTransitionTime c = None →
    FindStatusCondition (SetStatusCondition now cs c) (condType c) =
      Some (mkCondition (condType c) (condStatus c) (condObservedGeneration c)
              (match FindStatusCondition cs (condType c) with
               | Some old => if decide (condStatus old = condStatus c)
                             then condLastTransitionTime old else Some now
               | None => Some now
               end)
              (condReason c) (condMessage c));
  FindStatusCondition_set_ne now cs c t :
    t ≠ condType c →
    FindStatusCondition (SetStatusCondition now cs c) t = FindStatusCondition cs t;
  FindStatusCondition_remove_eq cs t :
    FindStatusCondition (RemoveStatusCondition cs t) t = None;
  FindStatusCondition_remove_ne cs t t' :
    t' ≠ t → FindStatusCondition (RemoveStatusCondition cs t) t' = FindStatusCondition cs t';
  IsStatusConditionTrue_spec cs t :
    IsStatusConditionTrue cs t = true ↔
    ∃ c, FindStatusCondition cs t = Some c ∧ condStatus c = ConditionTrue;
}.

(** [k8s.io/apimachinery/pkg/labels] and [metav1.LabelSelectorAsSelector]. *)
Class LabelsLib := {
  labels_Merge : labels_Set → labels_Set → labels_Set;
  SelectorFromValidatedSet : labels_Set → Selector;
  Matches : Selector → labels_Set → bool;
  LabelSelectorAsSelector : LabelSelector → result Selector;

  (** On a key of both maps the second one wins. *)
  labels_Merge_spec a b : labels_Merge a b = b ∪ a;
  (** The selector built from a set matches exactly the label sets that carry
      every pair of it. *)
  Matches_SelectorFromValidatedSet s l :
    Matches (SelectorFromValidatedSet s) l = true ↔ s ⊆ l;
}.

(** [sigs.k8s.io/controller-runtime/pkg/controller/controllerutil], on the
    finalizer list of an object. *)
Class ControllerUtil := {
  AddFinalizer : list string → string → list string * bool;
  RemoveFinalizer : list string → string → list string * bool;

  AddFinalizer_present l f : f ∈ l → AddFinalizer l f = (l, false);
  AddFinalizer_absent l f : f ∉ l → AddFinalizer l f = (l ++ [f], true);
  RemoveFinalizer_absent l f : f ∉ l → RemoveFinalizer l f = (l, false);
  RemoveFinalizer_present l f :
    f ∈ l → (RemoveFinalizer l f).2 = true ∧
      ∀ x, x ∈ (RemoveFinalizer l f).1 ↔ x ∈ l ∧ x ≠ f;
}.

(** [equality.Semantic.DeepEqual].  The data model identifies nil and empty
    slices and maps, which is where semantic equality is coarser than
    structural equality. *)
Class SemanticEquality := {
  DeepEqual {A} `{EqDecision A} : A → A → bool;
  DeepEqual_spec {A} `{EqDecision A} (x y : A) : DeepEqual x y = true ↔ x = y;
}.

(** [apierrors.IsNotFound] and [client.IgnoreNotFound]. *)
Class ApiErrors := {
  IsNotFound : error → bool;
  IgnoreNotFound : error → option error;
  IsNotFound_status m : IsNotFound (ErrStatus "NotFound" m) = true;
  IgnoreNotFound_spec e : IgnoreNotFound e = if IsNotFound e then None else Some e;
}.

(** [json.Marshal] of the RBAC types, which fixes their JSON field names, and
    [json.Unmarshal] into [any]. *)
Class JSONCodec := {
  jsonValue : Type;
  jsonValue_eq :: EqDecision jsonValue;
  json_Marshal : RuntimeObject → option string;
  json_Unmarshal : string → option jsonValue;
}.

(** [ClusterGroupsMap.GetClusters] of the OCM placement SDK. *)
Class ClusterGroups := {
  GetClusters : ClusterGroupsMap → gset string;
  GetClusters_spec g x :
    x ∈ GetClusters g ↔ ∃ k s, g !! k = Some s ∧ x ∈ s;
}.

Section lemmas.
Context `{MetaConditions} `{SemanticEquality}.

Lemma DeepEqual_refl {A} `{EqDecision A} (x : A) : DeepEqual x x = true.
Proof. by apply DeepEqual_spec. Qed.

(** What [FindStatusCondition] returns after [SetStatusCondition]. *)
Lemma find_set (now : Z) cs c t :
  condLastTransitionTime c = None →
  FindStatusCondition (SetStatusCondition now cs c) t =
  if decide (t = condType c) then
    Some (mkCondition (condType c) (condStatus c) (condObservedGeneration c)
            (match FindStatusCondition cs (condType c) with
             | Some old => if decide (condStatus old = condStatus c)
                           then condLastTransitionTime old else Some now
             | None => Some now
             end)
            (condReason c) (condMessage c))
  else FindStatusCondition cs t.
Proof.
  intros Hz. case_decide as Ht.
  - subst. by apply FindStatusCondition_set_eq.
  - by apply FindStatusCondition_set_ne.
Qed.

End lemmas.
