(* ===== verification/Reference.v ===== *)
(** * Reference instances of the library contracts

    A concrete function for every operation of [Interfaces.v], with the
    proofs that it meets its contract.  The theorems of the development are
    proved for any instance; these are the instances their witnesses run on. *)

From S2P Require Import Prelude GoStd ApiTypes Interfaces.
From Stdlib Require Import ZArith.

Module Ref.

(** ** Conditions *)

Fixpoint find_condition (cs : list Condition) (t : string) : option Condition :=
  match cs with
  | [] => None
  | c :: cs' => if decide (condType c = t) then Some c else find_condition cs' t
  end.

Definition stamp (now : Z) (old : option Condition) (c : Condition) : Condition :=
  mkCondition (condType c) (condStatus c) (condObservedGeneration c)
    (match old with
     | Some o => if decide (condStatus o = condStatus c) then condLastTransitionTime o
                 else Some (default now (condLastTransitionTime c))
     | None => Some (default now (condLastTransitionTime c))
     end)
    (condReason c) (condMessage c).

Fixpoint set_condition (now : Z) (cs : list Condition) (c : Condition) : list Condition :=
  match cs with
  | [] => [stamp now None c]
  | x :: cs' => if decide (condType x = condType c) then stamp now (Some x) c :: cs'
                else x :: set_condition now cs' c
  end.

Definition remove_condition (cs : list Condition) (t : string) : list Condition :=
  filter (λ c, condType c ≠ t) cs.

Definition condition_true (cs : list Condition) (t : string) : bool :=
  match find_condition cs t with
  | Some c => bool_decide (condStatus c = ConditionTrue)
  | None => false
  end.

Lemma find_condition_type cs t c : find_condition cs t = Some c → condType c = t.
Proof. induction cs as [|x cs IH]; simpl; [done|]. case_decide; naive_solver. Qed.

Lemma find_set_condition now cs c t :
  find_condition (set_condition now cs c) t =
  if decide (t = condType c) then Some (stamp now (find_condition cs (condType c)) c)
  else find_condition cs t.
Proof.
  induction cs as [|x cs IH]; simpl.
  - repeat case_decide; naive_solver.
  - destruct (decide (condType x = condType c)) as [Hx|Hx]; simpl.
    + repeat case_decide; naive_solver.
    + rewrite IH. repeat case_decide; naive_solver.
Qed.

Lemma find_remove_condition cs t t' :
  find_condition (remove_condition cs t) t' =
  if decide (t' = t) then None else find_condition cs t'.
Proof.
  induction cs as [|x cs IH]; simpl; [by case_decide|].
  unfold remove_condition in *. rewrite filter_cons.
  destruct (decide (condType x ≠ t)) as [Hx|Hx]; simpl; rewrite IH.
  - repeat case_decide; naive_solver.
  - repeat case_decide; try done; naive_solver.
Qed.

#[export] Program Instance conditions : MetaConditions := {|
  FindStatusCondition := find_condition;
  SetStatusCondition := set_condition;
  RemoveStatusCondition := remove_condition;
  IsStatusConditionTrue := condition_true;
|}.
Next Obligation. done. Qed.
Next Obligation. apply find_condition_type. Qed.
Next Obligation.
  intros now cs c Hz. rewrite find_set_condition, decide_True by done.
  unfold stamp. by rewrite Hz.
Qed.
Next Obligation. intros now cs c t Ht. by rewrite find_set_condition, decide_False. Qed.
Next Obligation. intros cs t. by rewrite find_remove_condition, decide_True. Qed.
Next Obligation. intros cs t t' Ht. by rewrite find_remove_condition, decide_False. Qed.
Next Obligation.
  intros cs t. unfold condition_true. destruct (find_condition cs t) as [c|].
  - rewrite bool_decide_eq_true. naive_solver.
  - naive_solver.
Qed.

(** ** Labels *)

Definition req_matches (l : labels_Set) (r : Requirement) : bool :=
  if bool_decide (reqOperator r = "in") then
    match l !! reqKey r with Some v => bool_decide (v ∈ reqValues r) | None => false end
  else if bool_decide (reqOperator r = "notin") then
    match l !! reqKey r with Some v => bool_decide (v ∉ reqValues r) | None => true end
  else if bool_decide (reqOperator r = "exists") then bool_decide (is_Some (l !! reqKey r))
  else bool_decide (l !! reqKey r = None).

Definition selector_matches (s : Selector) (l : labels_Set) : bool := forallb (req_matches l) s.

Definition selector_of_set (s : labels_Set) : Selector :=
  (λ kv : string * string, mkRequirement kv.1 "in" [kv.2]) <$> map_to_list s.

Definition operator_of (op : string) : option string :=
  if bool_decide (op = "In") then Some "in" else
  if bool_decide (op = "NotIn") then Some "notin" else
  if bool_decide (op = "Exists") then Some "exists" else
  if bool_decide (op = "DoesNotExist") then Some "!" else None.

Definition selector_of_label_selector (s : LabelSelector) : result Selector :=
  match mapM (λ e, op ← operator_of (lsrOperator e);
                   Some (mkRequirement (lsrKey e) op (lsrValues e))) (lsMatchExpressions s) with
  | Some reqs => Ok (selector_of_set (lsMatchLabels s) ++ reqs)
  | None => Err (ErrNew "is not a valid label selector operator")
  end.

Lemma selector_of_set_matches s l :
  selector_matches (selector_of_set s) l = true ↔ s ⊆ l.
Proof.
  unfold selector_matches. rewrite forallb_forall, map_subseteq_spec. split.
  - intros Hf k v Hk. specialize (Hf (mkRequirement k "in" [v])).
    unfold req_matches in Hf. simpl in Hf.
    assert (In (mkRequirement k "in" [v]) (selector_of_set s)) as Hin.
    { apply list_elem_of_In, list_elem_of_fmap. exists (k, v). split; [done|].
      by apply elem_of_map_to_list. }
    specialize (Hf Hin). destruct (l !! k) as [v'|]; [|done].
    apply bool_decide_eq_true_1 in Hf. f_equal. set_solver.
  - intros Hs r Hr. apply list_elem_of_In, list_elem_of_fmap in Hr as ([k v] & -> & Hkv).
    apply elem_of_map_to_list in Hkv. unfold req_matches. simpl.
    rewrite (Hs k v Hkv). apply bool_decide_eq_true. set_solver.
Qed.

#[export] Program Instance labels : LabelsLib := {|
  labels_Merge a b := b ∪ a;
  SelectorFromValidatedSet := selector_of_set;
  Matches := selector_matches;
  LabelSelectorAsSelector := selector_of_label_selector;
|}.
Next Obligation. done. Qed.
Next Obligation. apply selector_of_set_matches. Qed.

(** ** Finalizers *)

Definition add_finalizer (l : list string) (f : string) : list string * bool :=
  if decide (f ∈ l) then (l, false) else (l ++ [f], true).

Definition remove_finalizer (l : list string) (f : string) : list string * bool :=
  if decide (f ∈ l) then (filter (λ x, x ≠ f) l, true) else (l, false).

#[export] Program Instance controllerutil : ControllerUtil := {|
  AddFinalizer := add_finalizer;
  RemoveFinalizer := remove_finalizer;
|}.
Next Obligation. intros. unfold add_finalizer. by rewrite decide_True. Qed.
Next Obligation. intros. unfold add_finalizer. by rewrite decide_False. Qed.
Next Obligation. intros. unfold remove_finalizer. by rewrite decide_False. Qed.
Next Obligation.
  intros l f Hf. unfold remove_finalizer. rewrite decide_True by done. split; [done|].
  intros x. simpl. rewrite list_elem_of_filter. tauto.
Qed.

(** ** Equality, errors, JSON, cluster groups *)

#[export] Program Instance equality : SemanticEquality := {|
  DeepEqual A _ x y := bool_decide (x = y);
|}.
Next Obligation. intros. apply bool_decide_eq_true. Qed.

Fixpoint is_not_found (e : error) : bool :=
  match e with
  | ErrStatus reason _ => bool_decide (reason = "NotFound")
  | ErrWrap _ inner => is_not_found inner
  | _ => false
  end.

#[export] Program Instance apierrors : ApiErrors := {|
  IsNotFound := is_not_found;
  IgnoreNotFound e := if is_not_found e then None else Some e;
|}.
Next Obligation. done. Qed.
Next Obligation. done. Qed.

Definition json_list (l : list string) : string := "[" +:+ strings_Join (map fmt_q l) "," +:+ "]".

Definition json_map (m : labels_Set) : string :=
  "{" +:+ strings_Join
    (map (λ kv : string * string, fmt_q kv.1 +:+ ":" +:+ fmt_q kv.2) (map_to_list m)) "," +:+ "}".

Definition json_meta (om : ObjectMeta) : string :=
  fmt_q (omNamespace om) +:+ "/" +:+ fmt_q (omName om) +:+
  json_map (omLabels om) +:+ json_map (omAnnotations om).

Definition json_rule (r : PolicyRule) : string :=
  json_list (prVerbs r) +:+ json_list (prAPIGroups r) +:+ json_list (prResources r).

Definition json_subject (s : Subject) : string :=
  json_list [subjKind s; subjNamespace s; subjName s].

Definition json_object (o : RuntimeObject) : string :=
  match o with
  | ORole tm om rules => tmKind tm +:+ json_meta om +:+ strings_Join (map json_rule rules) ","
  | OClusterRole tm om rules => tmKind tm +:+ json_meta om +:+ strings_Join (map json_rule rules) ","
  | ORoleBinding tm om ss rr | OClusterRoleBinding tm om ss rr =>
      tmKind tm +:+ json_meta om +:+ strings_Join (map json_subject ss) "," +:+ rrKind rr +:+ rrName rr
  end.

#[export] Instance json : JSONCodec := {|
  jsonValue := string;
  json_Marshal o := Some (json_object o);
  json_Unmarshal s := if bool_decide (s = "") then None else Some s;
|}.

Definition clusters_of (g : ClusterGroupsMap) : gset string := ⋃ ((map_to_list g).*2).

#[export] Program Instance groups : ClusterGroups := {| GetClusters := clusters_of |}.
Next Obligation.
  intros g x. unfold clusters_of. rewrite elem_of_union_list. split.
  - intros (s & Hs & Hx). apply list_elem_of_fmap in Hs as ([k s'] & -> & Hk).
    exists k, s'. by apply elem_of_map_to_list in Hk.
  - intros (k & s & Hk & Hx). exists s. split; [|done].
    apply list_elem_of_fmap. exists (k, s). split; [done|]. by apply elem_of_map_to_list.
Qed.

End Ref.
