(* ===== verification/Effects.v ===== *)
(** * Programs that talk to the API server

    The reconciler is modelled as a program over the requests it sends: an
    inductive tree ([prog]) whose nodes are requests ([call]) and whose
    branches are the answers ([resp]).  Nothing is assumed about the answers,
    so a theorem about a program holds for every API server, every cache lag
    and every interleaving with other writers between two requests.

    [exec] runs a program against a handler with a state of its own and
    records the requests with their answers; programs are finite trees, so
    [exec] is total.  [wp] is the corresponding program logic: a guarantee for
    every request the program may send, given what happened before, and a
    postcondition; [wp_exec] carries a [wp] fact over to every run. *)

From S2P Require Import Prelude GoStd ApiTypes Interfaces.
From Stdlib Require Import ZArith.

(** ** Requests *)

Inductive call : Type :=
(** ManagedServiceAccountReplicaSet *)
| CGetSet (key : NamespacedName)
| CPatchSet (base modified : ManagedServiceAccountReplicaSet) (optimisticLock : bool)
| CPatchSetStatus (base modified : ManagedServiceAccountReplicaSet)
| CListSets (namespace : option string) (field : option (string * string))
(** Placement and PlacementDecision *)
| CGetPlacement (key : NamespacedName)
| CListPlacementDecisions (namespace : string) (selector : Selector)
(** Namespace, through the uncached reader *)
| CGetNamespace (name : string)
(** ManagedServiceAccount *)
| CGetMSA (key : NamespacedName)
| CCreateMSA (obj : ManagedServiceAccount)
| CPatchMSA (base modified : ManagedServiceAccount)
| CDeleteMSA (obj : ManagedServiceAccount)
| CListMSAs (selector : Selector)
(** ManifestWork *)
| CGetWork (key : NamespacedName)
| CCreateWork (obj : ManifestWork)
| CPatchWork (base modified : ManifestWork)
| CDeleteWork (obj : ManifestWork)
| CListWorks (selector : Selector)
(** OCM rollout handler (reads the clock) *)
| CGetRolloutCluster (groups : ClusterGroupsMap)
    (statusFunc : string → result ClusterRolloutStatus)
    (strategy : RolloutStrategy) (existing : list ClusterRolloutStatus)
(** NamespaceSelectorResolver and NamespaceCacheJanitor *)
| CResolveNamespaceSelector (set : ManagedServiceAccountReplicaSet) (clusterName : string)
    (grant : RBACGrant) (selector : Selector)
| CStopNamespaceCaches (set : ManagedServiceAccountReplicaSet) (keepClusters : gset string)
(** EventRecorder *)
| CEventf (set : ManagedServiceAccountReplicaSet) (reason action note : string).

(** ** Answers *)

Definition resp (c : call) : Type :=
  match c with
  | CGetSet _ => result ManagedServiceAccountReplicaSet
  | CPatchSet _ _ _ => result ManagedServiceAccountReplicaSet
  | CPatchSetStatus _ _ => result ManagedServiceAccountReplicaSet
  | CListSets _ _ => result (list ManagedServiceAccountReplicaSet)
  | CGetPlacement _ => result Placement
  | CListPlacementDecisions _ _ => result (list PlacementDecision)
  | CGetNamespace _ => result unit
  | CGetMSA _ => result ManagedServiceAccount
  | CCreateMSA _ => result ManagedServiceAccount
  | CPatchMSA _ _ => result ManagedServiceAccount
  | CDeleteMSA _ => result unit
  | CListMSAs _ => result (list ManagedServiceAccount)
  | CGetWork _ => result ManifestWork
  | CCreateWork _ => result ManifestWork
  | CPatchWork _ _ => result ManifestWork
  | CDeleteWork _ => result unit
  | CListWorks _ => result (list ManifestWork)
  | CGetRolloutCluster _ _ _ _ => result RolloutResult
  | CResolveNamespaceSelector _ _ _ _ => result (list string)
  | CStopNamespaceCaches _ _ => unit
  | CEventf _ _ _ _ => unit
  end.

(** A request together with its answer, and histories, most recent first. *)
Inductive event : Type := Ev (c : call) (r : resp c).
Abbreviation trace := (list event).

Definition ev_call (e : event) : call := match e with Ev c _ => c end.

(** ** Programs *)

Inductive prog (A : Type) : Type :=
| Ret (a : A)
| Call (c : call) (k : resp c → prog A).
Arguments Ret {A} _.
Arguments Call {A} _ _.

Fixpoint prog_bind_def {A B} (f : A → prog B) (p : prog A) : prog B :=
  match p with
  | Ret a => f a
  | Call c k => Call c (λ r, prog_bind_def f (k r))
  end.

#[export] Instance prog_ret : MRet prog := @Ret.
#[export] Instance prog_bind : MBind prog := @prog_bind_def.

(** Send one request. *)
Definition send (c : call) : prog (resp c) := Call c Ret.

(** [for _, x := range l { b = f(b, x) }]. *)
Fixpoint foldM {A B} (f : B → A → prog B) (b : B) (l : list A) : prog B :=
  match l with
  | [] => mret b
  | x :: l' => b' ← f b x; foldM f b' l'
  end.

(** The same for a loop body that may return an error out of the function. *)
Fixpoint foldE {A B} (f : B → A → prog (B * option error)) (b : B) (l : list A)
    : prog (B * option error) :=
  match l with
  | [] => mret (b, None)
  | x :: l' =>
      r ← f b x;
      match r.2 with
      | Some e => mret (r.1, Some e)
      | None => foldE f r.1 l'
      end
  end.

(** ** Execution *)

Definition handler (W : Type) : Type := ∀ c : call, W → resp c * W.

Record outcome (W A : Type) : Type := mkOutcome {
  out_val : A;
  out_world : W;
  out_trace : trace;
}.
Arguments mkOutcome {W A} _ _ _.
Arguments out_val {W A} _.
Arguments out_world {W A} _.
Arguments out_trace {W A} _.

Fixpoint exec {W A} (h : handler W) (p : prog A) (w : W) (tr : trace) : outcome W A :=
  match p with
  | Ret a => mkOutcome a w tr
  | Call c k => let '(r, w') := h c w in exec h (k r) w' (Ev c r :: tr)
  end.

(** A run from the empty history. *)
Definition run {W A} (h : handler W) (p : prog A) (w : W) : outcome W A := exec h p w [].

(** ** Program logic *)

(** [wp R G p Q tr]: if every answer satisfies [R] (given the history), then
    every request [p] sends after the history [tr] satisfies [G], and [p]
    returns in a state satisfying [Q]. *)
Fixpoint wp {A} (R : trace → ∀ c, resp c → Prop) (G : trace → call → Prop)
    (p : prog A) (Q : trace → A → Prop) (tr : trace) : Prop :=
  match p with
  | Ret a => Q tr a
  | Call c k => G tr c ∧ ∀ r, R tr c r → wp R G (k r) Q (Ev c r :: tr)
  end.

(** No assumption on the answers. *)
Definition any_answer : trace → ∀ c, resp c → Prop := λ _ _ _, True.
(** No obligation on the requests. *)
Definition any_call : trace → call → Prop := λ _ _, True.

(** Every request of a history, each with what preceded it. *)
Fixpoint trace_ok (G : trace → call → Prop) (tr : trace) : Prop :=
  match tr with
  | [] => True
  | Ev c r :: tr' => G tr' c ∧ trace_ok G tr'
  end.

(** Every request the program may send, on every branch, satisfies [P]. *)
Fixpoint all_calls {A} (P : call → Prop) (p : prog A) : Prop :=
  match p with
  | Ret _ => True
  | Call c k => P c ∧ ∀ r, all_calls P (k r)
  end.

(** A handler that keeps an invariant of its own state and, in the states that
    satisfy it, answers within [R]. *)
Definition handler_ok {W} (Inv : W → Prop) (R : trace → ∀ c, resp c → Prop) (h : handler W) : Prop :=
  ∀ tr c w, Inv w → R tr c (h c w).1 ∧ Inv (h c w).2.

(** ** Assumptions on the API server *)

Section assumptions.
Context `{LabelsLib}.

(** What the theorems that need it assume of the API server: a get answers the
    object that was asked for, and a list holds only objects whose labels match
    the selector; and of the OCM rollout handler that the clusters it reports
    as timed out carry the status TimeOut.  Nothing is assumed about
    freshness. *)
Definition api_contract (tr : trace) (c : call) : resp c → Prop :=
  match c return resp c → Prop with
  | CGetSet k => λ r, ∀ o, r = Ok o → ObjectKey (setMeta o) = k
  | CGetMSA k => λ r, ∀ o, r = Ok o → ObjectKey (msaMeta o) = k
  | CGetWork k => λ r, ∀ o, r = Ok o → ObjectKey (mwMeta o) = k
  | CGetRolloutCluster _ _ _ _ =>
      λ r, ∀ rr x, r = Ok rr → x ∈ rrClustersTimeOut rr → crsStatus x = TimeOut
  | CListMSAs sel => λ r, ∀ items o, r = Ok items → o ∈ items → Matches sel (omLabels (msaMeta o)) = true
  | CListWorks sel => λ r, ∀ items o, r = Ok items → o ∈ items → Matches sel (omLabels (mwMeta o)) = true
  | _ => λ _, True
  end.

End assumptions.

(** ** Rules *)

Section rules.
Context (R : trace → ∀ c, resp c → Prop) (G : trace → call → Prop).

Lemma wp_ret {A} (a : A) Q tr : Q tr a → wp R G (mret a) Q tr.
Proof. done. Qed.

Lemma wp_mono {A} (p : prog A) (Q Q' : trace → A → Prop) tr :
  wp R G p Q tr → (∀ tr' a, Q tr' a → Q' tr' a) → wp R G p Q' tr.
Proof.
  intros Hp HQ. revert tr Hp. induction p as [a|c k IH]; intros tr; simpl; [by auto|].
  intros [HG Hk]. split; [done|]. intros r Hr. by apply IH, Hk.
Qed.

Lemma wp_bind {A B} (p : prog A) (f : A → prog B) Q tr :
  wp R G p (λ tr' a, wp R G (f a) Q tr') tr → wp R G (p ≫= f) Q tr.
Proof.
  revert tr. induction p as [a|c k IH]; intros tr; simpl; [done|].
  intros [HG Hk]. split; [done|]. intros r Hr. apply IH, Hk, Hr.
Qed.

Lemma wp_send (c : call) (Q : trace → resp c → Prop) tr :
  G tr c → (∀ r, R tr c r → Q (Ev c r :: tr) r) → wp R G (send c) Q tr.
Proof. intros HG HQ. split; [done|]. intros r Hr. by apply HQ. Qed.

(** Loop rule: an invariant on the history, the elements done so far and the
    accumulator. *)
Lemma wp_foldM {A B} (f : B → A → prog B) (I : trace → list A → B → Prop) (l : list A) b tr Q :
  I tr [] b →
  (∀ done x rest b tr, l = done ++ x :: rest → I tr done b →
     wp R G (f b x) (λ tr' b', I tr' (done ++ [x]) b') tr) →
  (∀ tr b, I tr l b → Q tr b) →
  wp R G (foldM f b l) Q tr.
Proof.
  intros H0 Hstep HQ.
  enough (∀ todo done b tr, l = done ++ todo → I tr done b → wp R G (foldM f b todo) Q tr) as Hgen.
  { by apply (Hgen l [] b tr). }
  intros todo. induction todo as [|x todo IH]; intros done b' tr' Hl HI; cbn [foldM].
  - apply HQ. rewrite app_nil_r in Hl. by subst.
  - apply wp_bind. eapply wp_mono; [by eapply Hstep|].
    intros tr2 b2 HI2. apply (IH (done ++ [x])); [by rewrite <- app_assoc|done].
Qed.

(** The same for a loop that may be left with an error. *)
Lemma wp_foldE {A B} (f : B → A → prog (B * option error)) (I : trace → list A → B → Prop)
    (l : list A) b tr (Q : trace → B * option error → Prop) :
  I tr [] b →
  (∀ done x rest b tr, l = done ++ x :: rest → I tr done b →
     wp R G (f b x) (λ tr' r, match r.2 with
                               | Some _ => Q tr' r
                               | None => I tr' (done ++ [x]) r.1
                               end) tr) →
  (∀ tr b, I tr l b → Q tr (b, None)) →
  wp R G (foldE f b l) Q tr.
Proof.
  intros H0 Hstep HQ.
  enough (∀ todo done b tr, l = done ++ todo → I tr done b → wp R G (foldE f b todo) Q tr) as Hgen.
  { by apply (Hgen l [] b tr). }
  intros todo. induction todo as [|x todo IH]; intros done b' tr' Hl HI; cbn [foldE].
  - apply HQ. rewrite app_nil_r in Hl. by subst.
  - apply wp_bind. eapply wp_mono; [by eapply Hstep|].
    intros tr2 [b2 [e|]]; cbn [fst snd]; [intros HQ2; by apply wp_ret|intros HI2].
    apply (IH (done ++ [x])); [by rewrite <- app_assoc|done].
Qed.

End rules.

Lemma wp_weaken {A} (R R' : trace → ∀ c, resp c → Prop) (G G' : trace → call → Prop)
    (p : prog A) Q tr :
  (∀ tr c r, R' tr c r → R tr c r) → (∀ tr c, G tr c → G' tr c) →
  wp R G p Q tr → wp R' G' p Q tr.
Proof.
  intros HR HG. revert tr. induction p as [a|c k IH]; intros tr; simpl; [done|].
  intros [? Hk]. split; [by apply HG|]. intros r Hr. by apply IH, Hk, HR.
Qed.

(** A program all of whose requests are harmless keeps any invariant of the
    history that harmless requests keep. *)
Lemma wp_all_calls {A} (R : trace → ∀ c, resp c → Prop) (G : trace → call → Prop)
    (P : call → Prop) (I : trace → Prop) (p : prog A) tr :
  all_calls P p →
  (∀ tr c, P c → I tr → G tr c) →
  (∀ tr c r, P c → R tr c r → I tr → I (Ev c r :: tr)) →
  I tr → wp R G p (λ tr' _, I tr') tr.
Proof.
  intros Hp HG HI. revert tr Hp. induction p as [a|c k IH]; intros tr; simpl; [done|].
  intros [Hc Hk] Ht. split; [by apply HG|]. intros r Hr. apply IH; [done|]. by apply HI.
Qed.

(** The answers of the history are within the contract too. *)
Definition ev_contract `{LabelsLib} (e : event) : Prop :=
  match e with Ev c r => api_contract [] c r end.

Lemma wp_history `{LabelsLib} {A} (G : trace → call → Prop) (p : prog A) Q tr :
  wp api_contract G p Q tr → Forall ev_contract tr →
  wp api_contract (λ tr c, G tr c ∧ Forall ev_contract tr) p Q tr.
Proof.
  revert tr. induction p as [a|c k IH]; intros tr; simpl; [done|].
  intros [HG Hk] Ht. split; [done|]. intros r Hr. apply IH; [by apply Hk|].
  constructor; [|done]. by destruct c.
Qed.

(** [p] ran from the history [tr] to the history [tr'] and returned [a]: the
    answers it got are those that [tr'] has on top of [tr]. *)
Fixpoint ran {A} (p : prog A) (tr tr' : trace) (a : A) : Prop :=
  match p with
  | Ret a' => a' = a ∧ tr' = tr
  | Call c k => ∃ r, ran (k r) (Ev c r :: tr) tr' a
  end.

Lemma wp_ran {A} (R : trace → ∀ c, resp c → Prop) (G : trace → call → Prop) (p : prog A) Q tr :
  wp R G p Q tr → wp R G p (λ tr' a, Q tr' a ∧ ran p tr tr' a) tr.
Proof.
  revert tr. induction p as [a|c k IH]; intros tr; simpl; [done|].
  intros [HG Hk]. split; [done|]. intros r Hr. eapply wp_mono; [by apply IH, Hk|].
  intros tr' a [HQ Hran]. split; [done|]. by exists r.
Qed.

(** What a program returns whatever the answers are. *)
Definition returns {A} (P : A → Prop) (p : prog A) : Prop :=
  ∀ tr, wp any_answer any_call p (λ _ a, P a) tr.

Lemma wp_returns {A} (R : trace → ∀ c, resp c → Prop) (G : trace → call → Prop)
    (P : A → Prop) (p : prog A) Q tr :
  wp R G p Q tr → returns P p → wp R G p (λ tr' a, Q tr' a ∧ P a) tr.
Proof.
  intros Hp HP. specialize (HP tr). revert tr Hp HP.
  induction p as [a|c k IH]; intros tr; simpl; [done|].
  intros [HG Hk] [_ Hk']. split; [done|]. intros r Hr. apply IH; [by apply Hk|by apply Hk'].
Qed.

Lemma returns_ret {A} (P : A → Prop) (a : A) : P a → returns P (mret a).
Proof. intros Ha tr. exact Ha. Qed.

Lemma returns_bind {A B} (P : A → Prop) (Q : B → Prop) (p : prog A) (f : A → prog B) :
  returns P p → (∀ a, P a → returns Q (f a)) → returns Q (p ≫= f).
Proof.
  intros Hp Hf tr. apply wp_bind. eapply wp_mono; [apply Hp|]. intros tr' a Ha. by apply Hf.
Qed.

Lemma returns_any {A} (p : prog A) : returns (λ _, True) p.
Proof. intros tr. revert tr. induction p as [a|c k IH]; intros tr; simpl; [done|]. split; [done|]. auto. Qed.

Lemma returns_foldM {A B} (P : B → Prop) (f : B → A → prog B) b (l : list A) :
  P b → (∀ b x, P b → returns P (f b x)) → returns P (foldM f b l).
Proof.
  intros Hb Hf. revert b Hb. induction l as [|x l IH]; intros b Hb; cbn [foldM]; [by apply returns_ret|].
  eapply returns_bind; [by apply Hf|done].
Qed.

Lemma returns_foldE {A B} (P : B → Prop) (f : B → A → prog (B * option error)) b (l : list A) :
  P b → (∀ b x, P b → returns (λ r, P r.1) (f b x)) → returns (λ r, P r.1) (foldE f b l).
Proof.
  intros Hb Hf. revert b Hb. induction l as [|x l IH]; intros b Hb; cbn [foldE]; [by apply returns_ret|].
  eapply returns_bind; [by apply Hf|]. intros [b' [e|]] Hb'; [by apply returns_ret|by apply IH].
Qed.

(** What is known of the requests and of the result of a program, together. *)
Lemma wp_calls_returns {A} (R : trace → ∀ c, resp c → Prop) (G : trace → call → Prop)
    (P : call → Prop) (Q : A → Prop) (p : prog A) tr :
  all_calls P p → returns Q p → (∀ tr c, P c → G tr c) → wp R G p (λ _ a, Q a) tr.
Proof.
  intros Hc Hr HG. specialize (Hr tr). revert tr Hc Hr.
  induction p as [a|c k IH]; intros tr; simpl; [done|].
  intros [Hc Hk] [_ Hk']. split; [by apply HG|]. intros r _. apply IH; [done|by apply Hk'].
Qed.

(** Read-only and similarly restricted programs satisfy any guarantee their
    requests satisfy. *)
Lemma wp_calls {A} (R : trace → ∀ c, resp c → Prop) (G : trace → call → Prop)
    (P : call → Prop) (p : prog A) tr :
  all_calls P p → (∀ tr c, P c → G tr c) → wp R G p (λ _ _, True) tr.
Proof. intros Hp HG. apply (wp_all_calls R G P (λ _, True)); auto. Qed.

(** An invariant of the history that the guarantee keeps. *)
Lemma wp_invariant {A} (R : trace → ∀ c, resp c → Prop) (G : trace → call → Prop)
    (I : trace → Prop) (p : prog A) Q tr :
  wp R G p Q tr → (∀ tr c r, G tr c → I tr → I (Ev c r :: tr)) → I tr →
  wp R G p (λ tr' a, Q tr' a ∧ I tr') tr.
Proof.
  intros Hp HI. revert tr Hp. induction p as [a|c k IH]; intros tr; simpl; [done|].
  intros [HG Hk] Ht. split; [done|]. intros r Hr. apply IH; [by apply Hk|]. by apply HI.
Qed.

(** The same, with the invariant available at each request. *)
Lemma wp_invariant_at {A} (R : trace → ∀ c, resp c → Prop) (G : trace → call → Prop)
    (I : trace → Prop) (p : prog A) Q tr :
  wp R G p Q tr → (∀ tr c r, G tr c → I tr → I (Ev c r :: tr)) → I tr →
  wp R (λ tr c, G tr c ∧ I tr) p (λ tr' a, Q tr' a ∧ I tr') tr.
Proof.
  intros Hp HI. revert tr Hp. induction p as [a|c k IH]; intros tr; simpl; [done|].
  intros [HG Hk] Ht. split; [done|]. intros r Hr. apply IH; [by apply Hk|]. by apply HI.
Qed.

(** Histories only grow. *)
Lemma wp_suffix {A} (R : trace → ∀ c, resp c → Prop) (G : trace → call → Prop)
    (p : prog A) Q tr :
  wp R G p Q tr → wp R G p (λ tr' a, Q tr' a ∧ tr `suffix_of` tr') tr.
Proof.
  revert tr. induction p as [a|c k IH]; intros tr; simpl; [done|].
  intros [HG Hk]. split; [done|]. intros r Hr. eapply wp_mono; [by apply IH, Hk|].
  intros tr' a [HQ Hs]. split; [done|]. by eapply suffix_cons_l.
Qed.

Lemma all_calls_bind {A B} (P : call → Prop) (p : prog A) (f : A → prog B) :
  all_calls P p → (∀ a, all_calls P (f a)) → all_calls P (p ≫= f).
Proof.
  intros Hp Hf. induction p as [a|c k IH]; simpl in *; [by apply Hf|].
  destruct Hp as [? Hk]. split; [done|]. intros r. apply IH, Hk.
Qed.

Lemma all_calls_foldM {A B} (P : call → Prop) (f : B → A → prog B) b (l : list A) :
  (∀ b x, all_calls P (f b x)) → all_calls P (foldM f b l).
Proof.
  intros Hf. revert b. induction l as [|x l IH]; intros b; cbn [foldM]; [done|].
  apply all_calls_bind; [apply Hf|done].
Qed.

Lemma all_calls_foldE {A B} (P : call → Prop) (f : B → A → prog (B * option error)) b (l : list A) :
  (∀ b x, all_calls P (f b x)) → all_calls P (foldE f b l).
Proof.
  intros Hf. revert b. induction l as [|x l IH]; intros b; cbn [foldE]; [done|].
  apply all_calls_bind; [apply Hf|]. intros r. destruct (r.2); [done|apply IH].
Qed.

Lemma all_calls_mono {A} (P P' : call → Prop) (p : prog A) :
  all_calls P p → (∀ c, P c → P' c) → all_calls P' p.
Proof.
  intros Hp HP. induction p as [a|c k IH]; simpl in *; [done|].
  destruct Hp. split; [by apply HP|]. intros r. by apply IH.
Qed.

(** ** Adequacy *)

(** A [wp] fact holds of every run against a handler that answers within [R]. *)
Lemma wp_exec {W A} (h : handler W) Inv R G (p : prog A) Q (w : W) tr :
  handler_ok Inv R h → Inv w → wp R G p Q tr → trace_ok G tr →
  let o := exec h p w tr in
  Q (out_trace o) (out_val o) ∧ trace_ok G (out_trace o) ∧ Inv (out_world o).
Proof.
  intros Hh. revert w tr. induction p as [a|c k IH]; intros w tr Hw; simpl; [done|].
  intros [HG Hk] Htr. specialize (Hh tr c w Hw). destruct (h c w) as [r w'], Hh. by apply IH; [|apply Hk|].
Qed.

Lemma wp_run_ok {W A} (h : handler W) Inv R G (p : prog A) Q (w : W) :
  handler_ok Inv R h → Inv w → wp R G p Q [] →
  Q (out_trace (run h p w)) (out_val (run h p w)) ∧ trace_ok G (out_trace (run h p w)) ∧
  Inv (out_world (run h p w)).
Proof. intros Hh Hw Hp. by apply (wp_exec h Inv R). Qed.

Lemma wp_run {W A} (h : handler W) G (p : prog A) Q (w : W) :
  wp any_answer G p Q [] →
  Q (out_trace (run h p w)) (out_val (run h p w)) ∧ trace_ok G (out_trace (run h p w)).
Proof.
  intros Hp. destruct (wp_run_ok h (λ _, True) any_answer G p Q w) as (? & ? & _); done.
Qed.

(** The first request of a program, with the answer it gets. *)
Lemma exec_send_bind {W A} (h : handler W) c (k : resp c → prog A) (w : W) tr :
  exec h (send c ≫= k) w tr = exec h (k (h c w).1) (h c w).2 (Ev c (h c w).1 :: tr).
Proof. cbn. by destruct (h c w). Qed.

(** Every answer of a run is within a contract that does not look at the
    history. *)
Lemma exec_answers {W A} (h : handler W) Inv (C : ∀ c, resp c → Prop) (p : prog A) (w : W) tr :
  handler_ok Inv (λ _, C) h → Inv w → Forall (λ e, match e with Ev c r => C c r end) tr →
  Forall (λ e, match e with Ev c r => C c r end) (out_trace (exec h p w tr)).
Proof.
  intros Hh. revert w tr. induction p as [a|c k IH]; intros w tr Hw Htr; simpl; [done|].
  specialize (Hh tr c w Hw). destruct (h c w) as [r w'], Hh. apply IH; [done|]. by constructor.
Qed.

Lemma run_answers {W A} (h : handler W) Inv (C : ∀ c, resp c → Prop) (p : prog A) (w : W) :
  handler_ok Inv (λ _, C) h → Inv w →
  Forall (λ e, match e with Ev c r => C c r end) (out_trace (run h p w)).
Proof. intros Hh Hw. by apply (exec_answers h Inv C). Qed.

(** A run without its history: the program as a state transformer. *)
Fixpoint eval {W A} (h : handler W) (p : prog A) (w : W) : A * W :=
  match p with
  | Ret a => (a, w)
  | Call c k => let '(r, w') := h c w in eval h (k r) w'
  end.

Lemma eval_bind {W A B} (h : handler W) (p : prog A) (f : A → prog B) (w : W) :
  eval h (p ≫= f) w = eval h (f (eval h p w).1) (eval h p w).2.
Proof.
  revert w. induction p as [a|c k IH]; intros w; simpl; [done|]. destruct (h c w) as [r w']. apply IH.
Qed.

Lemma eval_send {W} (h : handler W) (c : call) (w : W) : eval h (send c) w = h c w.
Proof. simpl. by destruct (h c w). Qed.

Lemma suffix_elem (tr tr' : trace) e : tr `suffix_of` tr' → e ∈ tr → e ∈ tr'.
Proof. intros [k ->] He. apply elem_of_app. by right. Qed.

Lemma trace_ok_mono (G G' : trace → call → Prop) tr :
  (∀ tr c, G tr c → G' tr c) → trace_ok G tr → trace_ok G' tr.
Proof. intros HG. induction tr as [|[c r] tr IH]; simpl; [done|]. intros [? ?]. auto. Qed.

Lemma trace_ok_elem (G : trace → call → Prop) tr c r :
  trace_ok G tr → Ev c r ∈ tr → ∃ before after, tr = after ++ Ev c r :: before ∧ G before c.
Proof.
  induction tr as [|[c' r'] tr IH]; simpl; [by intros _ ?%elem_of_nil|].
  intros [HG Htr] [Heq|Hin]%elem_of_cons.
  - exists tr, []. rewrite <- Heq. apply (f_equal ev_call) in Heq. simpl in Heq. by subst.
  - destruct (IH Htr Hin) as (b & a & -> & ?). by exists b, (Ev c' r' :: a).
Qed.

(** The usual steps of a [wp] proof: sequencing after a program whose result
    does not matter, and one request. *)
Ltac wp_then H := apply wp_bind; eapply wp_mono; [apply H|].
Ltac wp_send := apply wp_bind, wp_send; [|intros ? ?].
(** Decompose a program built from returns, requests, binds and branches into
    the obligations of its requests. *)
Ltac calls_step :=
  match goal with
  | |- all_calls _ (mret _) => exact I
  | |- all_calls _ (Ret _) => exact I
  | |- all_calls _ (send _) => split; [|intros; exact I]
  | |- all_calls _ (_ ≫= _) => apply all_calls_bind; [|intros ?]
  | |- all_calls _ (foldM _ _ _) => apply all_calls_foldM; intros ? ?
  | |- all_calls _ (foldE _ _ _) => apply all_calls_foldE; intros ? ?
  | |- all_calls _ (match ?x with _ => _ end) => destruct x
  end.
Ltac calls_steps := repeat (calls_step; cbn beta iota zeta).
