(* ===== verification/Samples.v ===== *)
(** * Concrete inputs

    The replica set of the repository's unit tests ([testReplicaSet]) with two
    grants, and an API server that knows no object: the inputs on which the
    theorems of the following files are instantiated. *)

From S2P Require Import Prelude GoStd ApiTypes Effects.
From Stdlib Require Import ZArith.

Definition notFound : error := ErrStatus "NotFound" "not found".

(** Every read and write is answered with NotFound. *)
Definition offline : handler unit := λ c w,
  (match c return resp c with
   | CGetSet _ | CPatchSet _ _ _ | CPatchSetStatus _ _ => Err notFound
   | CListSets _ _ => Err notFound
   | CGetPlacement _ => Err notFound
   | CListPlacementDecisions _ _ => Err notFound
   | CGetNamespace _ => Err notFound
   | CGetMSA _ | CCreateMSA _ | CPatchMSA _ _ => Err notFound
   | CDeleteMSA _ => Err notFound
   | CListMSAs _ => Err notFound
   | CGetWork _ | CCreateWork _ | CPatchWork _ _ => Err notFound
   | CDeleteWork _ => Err notFound
   | CListWorks _ => Err notFound
   | CGetRolloutCluster _ _ _ _ => Err notFound
   | CResolveNamespaceSelector _ _ _ _ => Err notFound
   | CStopNamespaceCaches _ _ => tt
   | CEventf _ _ _ _ => tt
   end, w).

Definition strategyOf (t : string) : RolloutStrategy := mkRolloutStrategy t None None None.

Definition sampleRule (verbs resources : list string) : PolicyRule :=
  mkPolicyRule verbs [""] resources [] [].

Definition grantReadSecrets : RBACGrant :=
  mkRBACGrant "read-secrets" RBACGrantTypeRole
    (Some (mkNamespaceIterator "" ["app-b"; "app-a"] None))
    (mkRBACGrantMetadata "read-secrets" ∅ ∅)
    [sampleRule ["get"; "list"] ["secrets"]].

Definition grantReadNodes : RBACGrant :=
  mkRBACGrant "read-nodes" RBACGrantTypeClusterRole None
    (mkRBACGrantMetadata "read-nodes" ∅ ∅)
    [sampleRule ["get"] ["nodes"]].

Definition sampleMeta (finalizers : list string) (deleted : option Z) : ObjectMeta :=
  mkObjectMeta "set" "tenant" "set-uid" 7 "1" ∅ ∅ finalizers deleted.

Definition sampleTemplate : ManagedServiceAccountTemplate :=
  mkTemplate
    (mkTemplateMetadata "msa" "open-cluster-management-managed-serviceaccount"
       {["team" := "platform"; "authentication.appthrust.io/set-uid" := "spoofed"]} ∅)
    (mkTemplateSpec (mkRotation (Some true) None) None).

Definition emptyStatus : ManagedServiceAccountReplicaSetStatus :=
  mkStatus 0 0 0 None None None [] [].

Definition sampleSetWith (grants : list RBACGrant) (refs : list string)
    (finalizers : list string) (deleted : option Z) : ManagedServiceAccountReplicaSet :=
  mkReplicaSet (sampleMeta finalizers deleted)
    (mkSpec (map (λ n, mkPlacementRef n (strategyOf "")) refs) sampleTemplate
       (Some (mkRBAC grants)))
    emptyStatus.

Definition sampleSet : ManagedServiceAccountReplicaSet :=
  sampleSetWith [grantReadSecrets; grantReadNodes] ["placement-a"]
    ["authentication.appthrust.io/managedserviceaccountreplicaset-cleanup"] None.
