(* ===== verification/Store.v ===== *)
(** * A reference API server

    A sequentially consistent, in-memory API server with the OCM agents beside
    it: the handler on which the theorems that quantify over handlers are
    instantiated, and against which convergence is proved.  It implements the
    part of the documented API semantics the controller meets: NotFound and
    AlreadyExists, optimistic locks, the status subresource, label selectors,
    and deletion that waits for finalizers. *)

From S2P Require Import Prelude GoStd ApiTypes Interfaces Effects Samples.
From Stdlib Require Import ZArith.

Record Cluster := mkCluster {
  wSets : gmap NamespacedName ManagedServiceAccountReplicaSet;
  wPlacements : gmap NamespacedName Placement;
  wDecisions : list PlacementDecision;
  wNamespaces : gset string;
  wMSAs : gmap NamespacedName ManagedServiceAccount;
  wWorks : gmap NamespacedName ManifestWork;
  (** the namespaces of each managed cluster with their labels *)
  wRemote : gmap string (list (string * labels_Set));
}.

Definition with_wSets (w : Cluster) x :=
  mkCluster x (wPlacements w) (wDecisions w) (wNamespaces w) (wMSAs w) (wWorks w) (wRemote w).
Definition with_wMSAs (w : Cluster) x :=
  mkCluster (wSets w) (wPlacements w) (wDecisions w) (wNamespaces w) x (wWorks w) (wRemote w).
Definition with_wWorks (w : Cluster) x :=
  mkCluster (wSets w) (wPlacements w) (wDecisions w) (wNamespaces w) (wMSAs w) x (wRemote w).

Definition alreadyExists : error := ErrStatus "AlreadyExists" "already exists".
Definition conflict : error := ErrStatus "Conflict" "the object has been modified".

Definition find_obj {A} (m : gmap NamespacedName A) (k : NamespacedName) : result A :=
  match m !! k with Some o => Ok o | None => Err notFound end.

Definition with_deletion (om : ObjectMeta) (t : Z) : ObjectMeta :=
  mkObjectMeta (omName om) (omNamespace om) (omUID om) (omGeneration om) (omResourceVersion om)
    (omLabels om) (omAnnotations om) (omFinalizers om) (Some t).

(** The metadata of [stored] after a patch that sets labels and annotations. *)
Definition patch_meta (stored modified : ObjectMeta) : ObjectMeta :=
  with_annotations (with_labels stored (omLabels modified)) (omAnnotations modified).

(** The OCM rollout handler beside the server, of whose answers this much is
    used: a rollout window holds clusters that were handed in and have not
    succeeded; it is not empty as long as there is such a cluster; and nothing
    is reported as timed out.  This is documented for the strategies All,
    Progressive and ProgressivePerGroup as long as no deadline has passed and no
    minimum success time holds the next batch back. *)
Class RolloutPolicy := {
  policy_GetRolloutCluster :
    ClusterGroupsMap → RolloutStrategy → list ClusterRolloutStatus → RolloutResult;
  policy_window g st ex c :
    c ∈ rrClustersToRollout (policy_GetRolloutCluster g st ex) → c ∈ ex ∧ crsStatus c ≠ Succeeded;
  policy_progress g st ex c :
    c ∈ ex → crsStatus c ≠ Succeeded → rrClustersToRollout (policy_GetRolloutCluster g st ex) ≠ [];
  policy_timeOut g st ex : rrClustersTimeOut (policy_GetRolloutCluster g st ex) = [];
}.

(** The strategy All: every cluster that has not succeeded, at once. *)
Definition rollout_all (existing : list ClusterRolloutStatus) : RolloutResult :=
  mkRolloutResult (filter (λ c, crsStatus c ≠ Succeeded) existing) [] None.

#[export] Program Instance policy_all : RolloutPolicy :=
  {| policy_GetRolloutCluster _ _ existing := rollout_all existing |}.
Next Obligation. intros g st ex c [? ?]%list_elem_of_filter. done. Qed.
Next Obligation.
  intros g st ex c Hc Hs Hn. assert (c ∈ filter (λ c, crsStatus c ≠ Succeeded) ex) as Hin
    by (by apply list_elem_of_filter). cbn in Hn. rewrite Hn in Hin. by apply elem_of_nil in Hin.
Qed.
Next Obligation. done. Qed.

(** Progressive with a maximum concurrency of one: the first cluster that has
    not succeeded. *)
Definition rollout_one (existing : list ClusterRolloutStatus) : RolloutResult :=
  mkRolloutResult (take 1 (filter (λ c, crsStatus c ≠ Succeeded) existing)) [] None.

Program Definition policy_one : RolloutPolicy :=
  {| policy_GetRolloutCluster _ _ existing := rollout_one existing |}.
Next Obligation.
  intros g st ex c (i & Hi%list_elem_of_lookup_2 & _)%elem_of_take.
  by apply list_elem_of_filter in Hi as [? ?].
Qed.
Next Obligation.
  intros g st ex c Hc Hs Hn. assert (c ∈ filter (λ c, crsStatus c ≠ Succeeded) ex) as Hin
    by (by apply list_elem_of_filter). cbn in Hn.
  destruct (filter _ ex); [by apply elem_of_nil in Hin|done].
Qed.
Next Obligation. done. Qed.

Section server.
Context `{LabelsLib} `{RolloutPolicy}.

Definition create_msa (o : ManagedServiceAccount) (w : Cluster) : result ManagedServiceAccount * Cluster :=
  match wMSAs w !! ObjectKey (msaMeta o) with
  | Some _ => (Err alreadyExists, w)
  | None => (Ok o, with_wMSAs w (<[ObjectKey (msaMeta o) := o]> (wMSAs w)))
  end.

Definition patch_msa (o : ManagedServiceAccount) (w : Cluster) : result ManagedServiceAccount * Cluster :=
  match wMSAs w !! ObjectKey (msaMeta o) with
  | None => (Err notFound, w)
  | Some s =>
      let o' := mkManagedServiceAccount (msaTypeMeta s) (patch_meta (msaMeta s) (msaMeta o))
                  (msaSpec o) (msaConditions s) in
      (Ok o', with_wMSAs w (<[ObjectKey (msaMeta o) := o']> (wMSAs w)))
  end.

(** An object with finalizers is only marked. *)
Definition delete_msa (k : NamespacedName) (w : Cluster) : result unit * Cluster :=
  match wMSAs w !! k with
  | None => (Err notFound, w)
  | Some s =>
      match omFinalizers (msaMeta s) with
      | [] => (Ok tt, with_wMSAs w (delete k (wMSAs w)))
      | _ => (Ok tt, with_wMSAs w (<[k := mkManagedServiceAccount (msaTypeMeta s)
                        (with_deletion (msaMeta s) 1) (msaSpec s) (msaConditions s)]> (wMSAs w)))
      end
  end.

Definition create_work (o : ManifestWork) (w : Cluster) : result ManifestWork * Cluster :=
  match wWorks w !! ObjectKey (mwMeta o) with
  | Some _ => (Err alreadyExists, w)
  | None => (Ok o, with_wWorks w (<[ObjectKey (mwMeta o) := o]> (wWorks w)))
  end.

Definition patch_work (o : ManifestWork) (w : Cluster) : result ManifestWork * Cluster :=
  match wWorks w !! ObjectKey (mwMeta o) with
  | None => (Err notFound, w)
  | Some s =>
      let o' := mkManifestWork (mwTypeMeta s) (patch_meta (mwMeta s) (mwMeta o))
                  (mwSpec o) (mwConditions s) in
      (Ok o', with_wWorks w (<[ObjectKey (mwMeta o) := o']> (wWorks w)))
  end.

Definition delete_work (k : NamespacedName) (w : Cluster) : result unit * Cluster :=
  match wWorks w !! k with
  | None => (Err notFound, w)
  | Some s =>
      match omFinalizers (mwMeta s) with
      | [] => (Ok tt, with_wWorks w (delete k (wWorks w)))
      | _ => (Ok tt, with_wWorks w (<[k := mkManifestWork (mwTypeMeta s)
                        (with_deletion (mwMeta s) 1) (mwSpec s) (mwConditions s)]> (wWorks w)))
      end
  end.

(** A patch of the metadata of a set; an object that is being deleted goes
    away with its last finalizer. *)
Definition patch_set (b m : ManagedServiceAccountReplicaSet) (lock : bool) (w : Cluster)
    : result ManagedServiceAccountReplicaSet * Cluster :=
  let k := ObjectKey (setMeta m) in
  match wSets w !! k with
  | None => (Err notFound, w)
  | Some s =>
      if lock && negb (bool_decide (omResourceVersion (setMeta s) = omResourceVersion (setMeta b)))
      then (Err conflict, w)
      else
        let s' := with_meta s (with_finalizers (setMeta s) (omFinalizers (setMeta m))) in
        match omFinalizers (setMeta m), omDeletionTimestamp (setMeta s) with
        | [], Some _ => (Ok s', with_wSets w (delete k (wSets w)))
        | _, _ => (Ok s', with_wSets w (<[k := s']> (wSets w)))
        end
  end.

Definition patch_set_status (m : ManagedServiceAccountReplicaSet) (w : Cluster)
    : result ManagedServiceAccountReplicaSet * Cluster :=
  let k := ObjectKey (setMeta m) in
  match wSets w !! k with
  | None => (Err notFound, w)
  | Some s => let s' := with_status s (setStatus m) in
              (Ok s', with_wSets w (<[k := s']> (wSets w)))
  end.

Definition list_sets (ns : option string) (field : option (string * string)) (w : Cluster)
    : list ManagedServiceAccountReplicaSet :=
  List.filter (λ s,
    match ns with None => true | Some n => bool_decide (setNamespace s = n) end &&
    match field with
    | None => true
    | Some (_, v) => bool_decide (v ∈ map prefName (specPlacementRefs (setSpec s)))
    end) (map snd (map_to_list (wSets w))).

Definition server : handler Cluster := λ c w,
  match c return resp c * Cluster with
  | CGetSet k => (find_obj (wSets w) k, w)
  | CPatchSet b m lock => patch_set b m lock w
  | CPatchSetStatus b m => patch_set_status m w
  | CListSets ns field => (Ok (list_sets ns field w), w)
  | CGetPlacement k => (find_obj (wPlacements w) k, w)
  | CListPlacementDecisions ns sel =>
      (Ok (filter (λ d, omNamespace (pdMeta d) = ns ∧ Matches sel (omLabels (pdMeta d)) = true)
             (wDecisions w)), w)
  | CGetNamespace n => (if sets_Has (wNamespaces w) n then Ok tt else Err notFound, w)
  | CGetMSA k => (find_obj (wMSAs w) k, w)
  | CCreateMSA o => create_msa o w
  | CPatchMSA _ o => patch_msa o w
  | CDeleteMSA o => delete_msa (ObjectKey (msaMeta o)) w
  | CListMSAs sel =>
      (Ok (filter (λ o, Matches sel (omLabels (msaMeta o)) = true) (map snd (map_to_list (wMSAs w)))), w)
  | CGetWork k => (find_obj (wWorks w) k, w)
  | CCreateWork o => create_work o w
  | CPatchWork _ o => patch_work o w
  | CDeleteWork o => delete_work (ObjectKey (mwMeta o)) w
  | CListWorks sel =>
      (Ok (filter (λ o, Matches sel (omLabels (mwMeta o)) = true) (map snd (map_to_list (wWorks w)))), w)
  | CGetRolloutCluster groups _ strategy existing =>
      (Ok (policy_GetRolloutCluster groups strategy existing), w)
  | CResolveNamespaceSelector _ cl _ sel =>
      (Ok (map fst (filter (λ n : string * labels_Set, Matches sel n.2 = true)
                      (default [] (wRemote w !! cl)))), w)
  | CStopNamespaceCaches _ _ => (tt, w)
  | CEventf _ _ _ _ => (tt, w)
  end.

(** The agents of the managed clusters release the children that are being
    deleted. *)
Definition agents (w : Cluster) : Cluster :=
  with_wWorks
    (with_wMSAs w (filter (λ kv, omDeletionTimestamp (msaMeta kv.2) = None) (wMSAs w)))
    (filter (λ kv, omDeletionTimestamp (mwMeta kv.2) = None) (wWorks w)).

(** The agents report every child as applied and ready, with the condition
    helpers the controller uses too. *)
Definition report `{MetaConditions} (g : Z) (cs : list Condition) (ts : string * string) : list Condition :=
  SetStatusCondition 1 cs (mkCondition ts.1 ts.2 g None "" "").

Definition settledMSA `{MetaConditions} (o : ManagedServiceAccount) : ManagedServiceAccount :=
  mkManagedServiceAccount (msaTypeMeta o) (msaMeta o) (msaSpec o)
    (report (omGeneration (msaMeta o)) (msaConditions o) (ConditionTypeTokenReported, ConditionTrue)).

Definition settledWork `{MetaConditions} (o : ManifestWork) : ManifestWork :=
  mkManifestWork (mwTypeMeta o) (mwMeta o) (mwSpec o)
    (foldl (report (omGeneration (mwMeta o))) (mwConditions o)
       [(WorkApplied, ConditionTrue); (WorkAvailable, ConditionTrue);
        (WorkProgressing, ConditionFalse); (WorkDegraded, ConditionFalse)]).

Definition settle `{MetaConditions} (w : Cluster) : Cluster :=
  with_wWorks (with_wMSAs w (settledMSA <$> wMSAs w)) (settledWork <$> wWorks w).

(** Objects are stored under their own key; the server keeps it that way. *)
Definition keyed (w : Cluster) : Prop :=
  (∀ k o, wSets w !! k = Some o → ObjectKey (setMeta o) = k) ∧
  (∀ k o, wMSAs w !! k = Some o → ObjectKey (msaMeta o) = k) ∧
  (∀ k o, wWorks w !! k = Some o → ObjectKey (mwMeta o) = k).

Lemma keyed_insert {A} (key : A → NamespacedName) (m : gmap NamespacedName A) k o :
  (∀ k o, m !! k = Some o → key o = k) → key o = k →
  ∀ k' o', <[k := o]> m !! k' = Some o' → key o' = k'.
Proof. intros Hm Ho k' o' [[-> <-]|[_ ?]]%lookup_insert_Some; [done|by apply Hm]. Qed.

Lemma keyed_delete {A} (key : A → NamespacedName) (m : gmap NamespacedName A) k :
  (∀ k o, m !! k = Some o → key o = k) → ∀ k' o', delete k m !! k' = Some o' → key o' = k'.
Proof. intros Hm k' o' [_ ?]%lookup_delete_Some. by apply Hm. Qed.

Lemma find_obj_key {A} (key : A → NamespacedName) (m : gmap NamespacedName A) k o :
  (∀ k o, m !! k = Some o → key o = k) → find_obj m k = Ok o → key o = k.
Proof. unfold find_obj. intros Hm. destruct (m !! k) eqn:E; [|done]. intros [= <-]. by apply Hm. Qed.

Local Abbreviation sKey := (λ o, ObjectKey (setMeta o)).
Local Abbreviation mKey := (λ o, ObjectKey (msaMeta o)).
Local Abbreviation wKey := (λ o, ObjectKey (mwMeta o)).

Lemma keyed_sets w m : keyed w → (∀ k o, m !! k = Some o → sKey o = k) → keyed (with_wSets w m).
Proof. by intros (? & ? & ?). Qed.

Lemma keyed_msas w m : keyed w → (∀ k o, m !! k = Some o → mKey o = k) → keyed (with_wMSAs w m).
Proof. by intros (? & ? & ?). Qed.

Lemma keyed_works w m : keyed w → (∀ k o, m !! k = Some o → wKey o = k) → keyed (with_wWorks w m).
Proof. by intros (? & ? & ?). Qed.

Lemma settle_keyed `{MetaConditions} w : keyed w → keyed (settle w).
Proof.
  intros (Hs & Hm & Hw). unfold settle, keyed. cbn [wSets wMSAs wWorks with_wMSAs with_wWorks]. split_and!; [done|..].
  - intros k o (o' & <- & Ho)%lookup_fmap_Some. exact (Hm _ _ Ho).
  - intros k o (o' & <- & Ho)%lookup_fmap_Some. exact (Hw _ _ Ho).
Qed.

(** The server keeps objects under their own key. *)
Lemma server_keyed c w : keyed w → keyed (server c w).2.
Proof.
  intros Hk. pose proof Hk as (Hs & Hm & Hw). destruct c; try exact Hk; simpl.
  - unfold patch_set. destruct (_ !! _) as [s|] eqn:E; [|done]. destruct (_ && _); [done|].
    specialize (Hs _ _ E) as Hks.
    repeat case_goal; apply keyed_sets; try exact Hk;
      first [by apply (keyed_delete sKey)|by apply (keyed_insert sKey)].
  - unfold patch_set_status. destruct (_ !! _) as [s|] eqn:E; [|done].
    apply keyed_sets; [done|]. apply (keyed_insert sKey); [done|]. apply (Hs _ _ E).
  - unfold create_msa. destruct (_ !! _); [done|]. apply keyed_msas; [done|].
    by apply (keyed_insert mKey).
  - unfold patch_msa. destruct (_ !! _) as [s|] eqn:E; [|done]. apply keyed_msas; [done|].
    apply (keyed_insert mKey); [done|]. apply (Hm _ _ E).
  - unfold delete_msa. destruct (_ !! _) as [s|] eqn:E; [|done].
    case_goal; (apply keyed_msas; [done|]); [by apply (keyed_delete mKey)|].
    apply (keyed_insert mKey); [done|]. apply (Hm _ _ E).
  - unfold create_work. destruct (_ !! _); [done|]. apply keyed_works; [done|].
    by apply (keyed_insert wKey).
  - unfold patch_work. destruct (_ !! _) as [s|] eqn:E; [|done]. apply keyed_works; [done|].
    apply (keyed_insert wKey); [done|]. apply (Hw _ _ E).
  - unfold delete_work. destruct (_ !! _) as [s|] eqn:E; [|done].
    case_goal; (apply keyed_works; [done|]); [by apply (keyed_delete wKey)|].
    apply (keyed_insert wKey); [done|]. apply (Hw _ _ E).
Qed.

(** The server answers gets and lists as the contract says. *)
Lemma server_contract : handler_ok keyed api_contract server.
Proof.
  intros tr c w Hk. split; [|by apply server_keyed]. destruct Hk as (Hs & Hm & Hw).
  destruct c; try exact I; simpl.
  - intros o. by apply (find_obj_key sKey).
  - intros o. by apply (find_obj_key mKey).
  - intros items o [= <-] Ho. by apply list_elem_of_filter in Ho as [? _].
  - intros o. by apply (find_obj_key wKey).
  - intros items o [= <-] Ho. by apply list_elem_of_filter in Ho as [? _].
  - intros rr x [= <-]. rewrite policy_timeOut. by intros ?%elem_of_nil.
Qed.

End server.

(** ** A small fleet

    The sample set with one placement that selects cluster-a and cluster-b. *)

Definition sampleKey : NamespacedName := mkNamespacedName "tenant" "set".

Definition samplePlacement : Placement :=
  mkPlacement (newMeta "placement-a" "tenant" ∅ ∅) [] 2.

Definition sampleDecision : PlacementDecision :=
  mkPlacementDecision (newMeta "placement-a-decision-1" "tenant" {[PlacementLabel := "placement-a"]} ∅)
    ["cluster-b"; "cluster-a"].

Definition sampleWorldWith (set : ManagedServiceAccountReplicaSet)
    (msas : list ManagedServiceAccount) (works : list ManifestWork) : Cluster :=
  mkCluster {[ObjectKey (setMeta set) := set]}
    {[mkNamespacedName "tenant" "placement-a" := samplePlacement]} [sampleDecision]
    {["cluster-a"; "cluster-b"]}
    (list_to_map (map (λ o, (ObjectKey (msaMeta o), o)) msas))
    (list_to_map (map (λ o, (ObjectKey (mwMeta o), o)) works)) ∅.

Definition sampleWorld : Cluster := sampleWorldWith sampleSet [] [].

Lemma sampleWorldWith_keyed set msas works : keyed (sampleWorldWith set msas works).
Proof.
  unfold keyed, sampleWorldWith. cbn [wSets wMSAs wWorks]. split_and!.
  - intros k o [<- <-]%lookup_singleton_Some. done.
  - intros k o Ho. apply elem_of_list_to_map_2, list_elem_of_fmap in Ho as (o' & [= -> ->] & _). done.
  - intros k o Ho. apply elem_of_list_to_map_2, list_elem_of_fmap in Ho as (o' & [= -> ->] & _). done.
Qed.
