(* ===== verification/Metadata.v ===== *)
(** * Ownership metadata and child names ([internal/controller/metadata.go])

    The labels and annotations that mark an object as generated by a replica
    set, the ownership test built from them, the request a watch event maps
    to, and the deterministic names of generated children. *)

From S2P Require Import Prelude GoStd ApiTypes Interfaces Reference Effects Samples.
From Stdlib Require Import ZArith Lia Ascii.

(** ** Constants *)

Definition controllerName := "ocm-managed-serviceaccount-replicaset-controller".
Definition finalizerName := "authentication.appthrust.io/managedserviceaccountreplicaset-cleanup".

Definition labelManagedBy := "app.kubernetes.io/managed-by".
Definition labelPartOf := "app.kubernetes.io/part-of".
Definition labelSetName := "authentication.appthrust.io/set-name".
Definition labelSetNamespace := "authentication.appthrust.io/set-namespace".
Definition labelSetUID := "authentication.appthrust.io/set-uid".
Definition labelPlacementRefName := "authentication.appthrust.io/placement-ref-name".
Definition labelGrantID := "authentication.appthrust.io/grant-id".
Definition labelSliceType := "authentication.appthrust.io/slice-type".
Definition labelTargetNamespace := "authentication.appthrust.io/target-namespace".
Definition labelTargetNamespaceHash := "authentication.appthrust.io/target-namespace-hash".
Definition labelSyncToClusterProfile :=
  "authentication.open-cluster-management.io/sync-to-clusterprofile".
Definition ocmClusterNameLabel := "open-cluster-management.io/cluster-name".

Definition annotationSpecHash := "authentication.appthrust.io/spec-hash".
Definition annotationTargetNamespace := "authentication.appthrust.io/target-namespace".

Definition reservedChildMetadataKeys : gset string := sets_New [
  labelManagedBy;
  labelPartOf;
  labelSetName;
  labelSetNamespace;
  labelSetUID;
  labelPlacementRefName;
  labelGrantID;
  labelSliceType;
  labelTargetNamespace;
  labelTargetNamespaceHash;
  annotationSpecHash].

Definition reservedGrantMetadataKeys : gset string :=
  {[labelSyncToClusterProfile]} ∪ reservedChildMetadataKeys.

(** ** Operations *)

Definition sourceLabels (set : ManagedServiceAccountReplicaSet) : labels_Set :=
  list_to_map [
    (labelManagedBy, controllerName);
    (labelPartOf, setName set);
    (labelSetName, setName set);
    (labelSetNamespace, setNamespace set);
    (labelSetUID, setUID set)].

Definition sourceAnnotations (set : ManagedServiceAccountReplicaSet) : labels_Set :=
  list_to_map [
    (labelSetName, setName set);
    (labelSetNamespace, setNamespace set);
    (labelSetUID, setUID set)].

Definition sanitizedMetadata (values : labels_Set) : labels_Set :=
  filter (λ kv, kv.1 ∉ reservedChildMetadataKeys) values.

Section operations.
Context `{LabelsLib}.

Definition childLabels (set : ManagedServiceAccountReplicaSet) (placementRefName : string)
    (extra : labels_Set) : labels_Set :=
  let owner := <[labelPlacementRefName := placementRefName]> (sourceLabels set) in
  let lbls := labels_Merge (sanitizedMetadata extra) owner in
  match lbls !! labelSyncToClusterProfile with
  | Some _ => lbls
  | None => <[labelSyncToClusterProfile := "true"]> lbls
  end.

Definition childAnnotations (set : ManagedServiceAccountReplicaSet) (extra : labels_Set)
    : labels_Set :=
  labels_Merge (sanitizedMetadata extra) (sourceAnnotations set).

Definition ownedSelector (set : ManagedServiceAccountReplicaSet) : Selector :=
  SelectorFromValidatedSet (sourceLabels set).

Definition ownedBySet (set : ManagedServiceAccountReplicaSet) (lbls : labels_Set) : bool :=
  Matches (ownedSelector set) lbls.

End operations.

Definition requestFromSourceLabels (lbls : labels_Set) : option NamespacedName :=
  let name := lbls.[labelSetName] in
  let namespace := lbls.[labelSetNamespace] in
  if bool_decide (name = "") || bool_decide (namespace = "") then None
  else Some (mkNamespacedName namespace name).

(** [rbac.go]: the first ten hexadecimal digits of the SHA-256 of a string. *)
Definition stableHash (value : string) : string := take_bytes 10 (sha256_hex value).

Definition DNS1123SubdomainMaxLength : nat := 253.

Definition stableChildName (parts : list string) : string :=
  let name := strings_Join parts "-" in
  if String.length name <=? DNS1123SubdomainMaxLength then TrimSuffixDash name
  else
    let suffix := stableHash name in
    let prefixLimit := DNS1123SubdomainMaxLength - String.length suffix - 1 in
    let prefix := TrimSuffixDash (take_bytes prefixLimit name) in
    prefix +:+ "-" +:+ suffix.

(** ** Label lemmas *)

Section labels.
Context `{LabelsLib}.

Lemma ownedBySet_spec set lbls :
  ownedBySet set lbls = true ↔ sourceLabels set ⊆ lbls.
Proof. apply Matches_SelectorFromValidatedSet. Qed.

(** What [childLabels] holds under each key: the owner's entries, then the
    sanitised user entries, then the sync default. *)
Lemma childLabels_lookup set ref extra k :
  childLabels set ref extra !! k =
  match (<[labelPlacementRefName := ref]> (sourceLabels set)) !! k with
  | Some v => Some v
  | None =>
      match sanitizedMetadata extra !! k with
      | Some v => Some v
      | None => if decide (k = labelSyncToClusterProfile) then Some "true" else None
      end
  end.
Proof.
  unfold childLabels. rewrite labels_Merge_spec.
  set (owner := <[labelPlacementRefName := ref]> (sourceLabels set)).
  assert (∀ k, (owner ∪ sanitizedMetadata extra) !! k =
    match owner !! k with Some v => Some v | None => sanitizedMetadata extra !! k end) as Hu.
  { intros k'. rewrite lookup_union. by destruct (owner !! k'), (sanitizedMetadata extra !! k'). }
  destruct ((owner ∪ sanitizedMetadata extra) !! labelSyncToClusterProfile) eqn:E.
  - rewrite Hu. destruct (owner !! k) eqn:Eo; [done|].
    destruct (sanitizedMetadata extra !! k) eqn:Es; [done|].
    case_decide; [|done]. subst. rewrite Hu, Eo, Es in E. done.
  - rewrite lookup_insert, Hu. case_decide as Hk.
    + subst. rewrite Hu in E. destruct (owner !! labelSyncToClusterProfile); [done|].
      rewrite E. by rewrite decide_True.
    + destruct (owner !! k); [done|]. destruct (sanitizedMetadata extra !! k); [done|].
      by rewrite decide_False.
Qed.

Lemma sanitizedMetadata_lookup values k :
  sanitizedMetadata values !! k =
  if decide (k ∈ reservedChildMetadataKeys) then None else values !! k.
Proof.
  unfold sanitizedMetadata. rewrite map_lookup_filter.
  destruct (values !! k) as [v|]; simpl; [|by case_decide].
  repeat case_guard; repeat case_decide; naive_solver.
Qed.

Lemma sourceLabels_subseteq_childLabels set ref extra :
  sourceLabels set ⊆ childLabels set ref extra.
Proof.
  apply map_subseteq_spec. intros k v Hk. rewrite childLabels_lookup.
  rewrite lookup_insert_ne; [by rewrite Hk|].
  intros <-. vm_compute in Hk. done.
Qed.

Lemma map_index_subseteq (a b : labels_Set) k v :
  a ⊆ b → a !! k = Some v → b.[k] = v.
Proof.
  intros Hs Hk. unfold map_index. rewrite (lookup_weaken _ _ _ _ Hk Hs). done.
Qed.

Lemma sourceLabels_setName set : sourceLabels set !! labelSetName = Some (setName set).
Proof. reflexivity. Qed.

Lemma sourceLabels_setNamespace set :
  sourceLabels set !! labelSetNamespace = Some (setNamespace set).
Proof. reflexivity. Qed.

Lemma sourceLabels_setUID set : sourceLabels set !! labelSetUID = Some (setUID set).
Proof. reflexivity. Qed.

(** Adding keys the owner does not use keeps an object owned. *)
Lemma sourceLabels_insert set lbls k v :
  sourceLabels set ⊆ lbls → k ∉ [labelManagedBy; labelPartOf; labelSetName; labelSetNamespace; labelSetUID] →
  sourceLabels set ⊆ <[k := v]> lbls.
Proof.
  intros Hs Hk. apply insert_subseteq_r; [|done].
  unfold sourceLabels. apply not_elem_of_list_to_map_1. exact Hk.
Qed.

End labels.

(** ** Name lemmas *)

Section names.

Fixpoint all_chars (P : ascii → Prop) (s : string) : Prop :=
  match s with
  | EmptyString => True
  | String c rest => P c ∧ all_chars P rest
  end.

Lemma all_chars_app P a b : all_chars P (a +:+ b) ↔ all_chars P a ∧ all_chars P b.
Proof.
  induction a as [|c a IH]; [by split; [|intros []]|].
  rewrite append_cons. simpl. rewrite IH. tauto.
Qed.

Lemma hex_digit_not_dash n : (0 <= n < 16)%Z → hex_digit n ≠ "-"%char.
Proof.
  intros Hn. unfold hex_digit. intros Hd.
  apply (f_equal nat_of_ascii) in Hd. rewrite nat_ascii_embedding in Hd.
  - change (nat_of_ascii "-") with 45%nat in Hd.
    destruct (n <? 10)%Z eqn:E; lia.
  - destruct (n <? 10)%Z eqn:E; lia.
Qed.

Lemma hex_byte_length b : String.length (hex_byte b) = 2.
Proof. reflexivity. Qed.

Lemma hex_byte_no_dash b : (0 <= b < 256)%Z → all_chars (λ c, c ≠ "-"%char) (hex_byte b).
Proof.
  intros Hb. unfold hex_byte. split; [|split; [|done]]; apply hex_digit_not_dash;
    Z.div_mod_to_equations; lia.
Qed.

Lemma be32_byte w : Forall (λ b, (0 <= b < 256)%Z) (Sha256.be32 w).
Proof.
  unfold Sha256.be32. apply Forall_forall. intros b Hb.
  apply list_elem_of_In, in_map_iff in Hb as (i & <- & _).
  change 255%Z with (Z.ones 8). rewrite Z.land_ones by done.
  apply Z.mod_pos_bound. done.
Qed.

Lemma round_length st kw : length st = 8 → length (Sha256.round st kw) = 8.
Proof. do 9 (destruct st as [|? st]; try done). Qed.

Lemma fold_round_length l st : length st = 8 → length (fold_left Sha256.round l st) = 8.
Proof.
  revert st. induction l as [|kw l IH]; intros st Hst; [done|].
  simpl. apply IH, round_length, Hst.
Qed.

Lemma compress_length h b : length h = 8 → length (Sha256.compress h b) = 8.
Proof.
  intros Hh. unfold Sha256.compress. rewrite length_zip_with, fold_round_length; [|done].
  by rewrite Hh.
Qed.

Lemma digest_length msg : length (Sha256.digest msg) = 8.
Proof.
  unfold Sha256.digest. generalize (length (Sha256.words_of (msg ++ Sha256.padding (length msg)))).
  generalize (Sha256.words_of (msg ++ Sha256.padding (length msg))).
  assert (length Sha256.H0 = 8) as H by done. revert H.
  generalize Sha256.H0. intros h Hh ws n. revert h ws Hh.
  induction n as [|n IH]; intros h ws Hh; [done|]. simpl.
  destruct ws; [done|]. apply IH. by apply compress_length.
Qed.

Lemma concat_empty_cons x l : String.concat "" (x :: l) = x +:+ String.concat "" l.
Proof. destruct l; simpl; [by rewrite append_nil_r|done]. Qed.

Lemma concat_hex bs :
  Forall (λ b, (0 <= b < 256)%Z) bs →
  String.length (String.concat "" (map hex_byte bs)) = 2 * length bs ∧
  all_chars (λ c, c ≠ "-"%char) (String.concat "" (map hex_byte bs)).
Proof.
  induction 1 as [|b bs Hb _ [IHl IHc]]; [done|]. cbn [map].
  rewrite concat_empty_cons. split.
  - rewrite length_append, hex_byte_length, IHl. simpl. lia.
  - apply all_chars_app. split; [by apply hex_byte_no_dash|done].
Qed.

Lemma length_flat_map_be32 ws : length (flat_map Sha256.be32 ws) = 4 * length ws.
Proof. induction ws as [|w ws IH]; [done|]. cbn [flat_map]. rewrite length_app, IH. simpl. lia. Qed.

Lemma sha256_hex_shape s :
  String.length (sha256_hex s) = 64 ∧ all_chars (λ c, c ≠ "-"%char) (sha256_hex s).
Proof.
  unfold sha256_hex. set (bs := flat_map _ _).
  destruct (concat_hex bs) as [Hl Hc].
  - unfold bs. apply Forall_forall. intros b Hb. apply list_elem_of_In, in_flat_map in Hb as (w & _ & Hb).
    pose proof (be32_byte w) as Hf. rewrite Forall_forall in Hf. by apply Hf, list_elem_of_In.
  - split; [|done]. rewrite Hl. unfold bs. by rewrite length_flat_map_be32, digest_length.
Qed.

Lemma take_bytes_all_chars P n s : all_chars P s → all_chars P (take_bytes n s).
Proof.
  unfold take_bytes. revert n. induction s as [|c s IH]; intros [|n]; simpl; [done..|].
  intros [? ?]. split; [done|]. by apply IH.
Qed.

Lemma stableHash_length v : String.length (stableHash v) = 10.
Proof.
  unfold stableHash. apply take_bytes_length. destruct (sha256_hex_shape v). lia.
Qed.

Lemma stableHash_no_dash v : all_chars (λ c, c ≠ "-"%char) (stableHash v).
Proof. apply take_bytes_all_chars, sha256_hex_shape. Qed.

(** A string with a dash-free tail is not shortened. *)
Lemma TrimSuffixDash_no_dash a b :
  b ≠ "" → all_chars (λ c, c ≠ "-"%char) b → TrimSuffixDash (a +:+ b) = a +:+ b.
Proof.
  revert a. induction b as [|c b IH]; intros a Hb Hc; [done|].
  destruct Hc as [Hc Hcs]. destruct (decide (b = "")) as [->|Hne].
  - by apply TrimSuffixDash_snoc.
  - assert (a +:+ String c b = (a +:+ String c "") +:+ b) as ->.
    { by rewrite append_assoc. }
    by apply IH.
Qed.

Lemma append_inj_l a b c : a +:+ b = a +:+ c → b = c.
Proof.
  induction a as [|x a IH]; [done|]. rewrite !append_cons. intros [= Heq]. by apply IH.
Qed.

(** Within the length limit the name is the plain join. *)
Lemma stableChildName_short parts tail :
  String.length (strings_Join parts "-") <= DNS1123SubdomainMaxLength →
  (∃ head, strings_Join parts "-" = head +:+ tail) →
  tail ≠ "" → all_chars (λ c, c ≠ "-"%char) tail →
  stableChildName parts = strings_Join parts "-".
Proof.
  intros Hl [head Hh] Hne Hc. unfold stableChildName.
  rewrite (proj2 (Nat.leb_le _ _) Hl), Hh. by apply TrimSuffixDash_no_dash.
Qed.

Lemma append_inj_r a b c : a +:+ c = b +:+ c → a = b.
Proof.
  revert b. induction a as [|x a IH]; intros [|y b] Heq; [done|..].
  - apply (f_equal String.length) in Heq. rewrite !length_append in Heq. cbn in Heq. lia.
  - apply (f_equal String.length) in Heq. rewrite !length_append in Heq. cbn in Heq. lia.
  - rewrite !append_cons in Heq. injection Heq as -> Heq. f_equal. by apply IH.
Qed.

(** [strings.TrimSuffix(s, "-")] drops the last byte if it is a dash. *)
Lemma TrimSuffixDash_cases s :
  (∃ t, s = t +:+ "-" ∧ TrimSuffixDash s = t) ∨ ((∀ t, s ≠ t +:+ "-") ∧ TrimSuffixDash s = s).
Proof.
  induction s as [|c s IH]; [right; split; [|done]; by intros []|].
  destruct s as [|d s].
  - destruct (decide (c = "-"%char)) as [->|Hne]; [left; by exists ""|right].
    split; [|by apply (TrimSuffixDash_snoc "" c)].
    intros [|x [|? ?]]; cbn; intros [=]; done.
  - assert (TrimSuffixDash (String c (String d s)) = String c (TrimSuffixDash (String d s))) as -> by done.
    destruct IH as [(t & -> & ->)|[Hn ->]]; [left; by exists (String c t)|right].
    split; [|done]. intros [|x t]; [done|]. cbn. intros [= _ Heq]. by apply (Hn t).
Qed.

Lemma take_bytes_prefix n s : ∃ rest, s = take_bytes n s +:+ rest.
Proof.
  unfold take_bytes. revert n. induction s as [|c s IH]; intros [|n]; cbn; [by exists ""..|by eexists|].
  destruct (IH n) as [rest Hr]. exists rest. by rewrite append_cons, <- Hr.
Qed.

(** Beyond the limit: a long prefix and the hash. *)
Lemma stableChildName_long parts :
  let name := strings_Join parts "-" in
  DNS1123SubdomainMaxLength < String.length name → ∃ prefix rest, name = prefix +:+ rest ∧
    241 <= String.length prefix <= 242 ∧ stableChildName parts = prefix +:+ "-" +:+ stableHash name.
Proof.
  intros name Hl. unfold stableChildName. fold name. rewrite (proj2 (Nat.leb_gt _ _) Hl), stableHash_length.
  change (DNS1123SubdomainMaxLength - 10 - 1) with 242.
  assert (String.length (take_bytes 242 name) = 242) as Hlen
    by (apply take_bytes_length; unfold DNS1123SubdomainMaxLength in Hl; lia).
  destruct (take_bytes_prefix 242 name) as [rest Hr].
  destruct (TrimSuffixDash_cases (take_bytes 242 name)) as [(t & Ht & Htr)|[_ Htr]]; rewrite Htr.
  - exists t, ("-" +:+ rest). rewrite <- append_assoc, <- Ht. split_and!; try done;
      rewrite Ht, length_append in Hlen; cbn in Hlen; lia.
  - exists (take_bytes 242 name), rest. split_and!; [done|lia|lia|done].
Qed.

Lemma stableChildName_bound parts :
  String.length (stableChildName parts) <= DNS1123SubdomainMaxLength.
Proof.
  unfold stableChildName. destruct (Nat.leb_spec (String.length (strings_Join parts "-"))
    DNS1123SubdomainMaxLength) as [Hle|Hgt].
  - etrans; [apply TrimSuffixDash_length|done].
  - rewrite !length_append, stableHash_length.
    pose proof (TrimSuffixDash_length
      (take_bytes (DNS1123SubdomainMaxLength - 10 - 1) (strings_Join parts "-"))) as Ht.
    rewrite take_bytes_length in Ht by (unfold DNS1123SubdomainMaxLength in *; lia).
    change (String.length "-") with 1. unfold DNS1123SubdomainMaxLength in *. lia.
Qed.

End names.

#[export] Hint Resolve stableHash_length stableHash_no_dash sourceLabels_subseteq_childLabels : msars.

Lemma sync_not_reserved : labelSyncToClusterProfile ∉ reservedChildMetadataKeys.
Proof. apply (bool_decide_unpack _). vm_compute. exact I. Qed.

(** ** Properties *)

Section properties.
Context `{LabelsLib}.

(** C16: Source labels cannot be spoofed: whatever labels the template asks
    for, a generated child carries exactly the controller's value under every
    reserved key, is owned by the replica set, and any watch event on it maps
    back to that replica set; every unreserved user label is kept. *)
Theorem childLabels_spoof_proof set ref extra :
  ownedBySet set (childLabels set ref extra) = true ∧
  (∀ k, k ∈ reservedChildMetadataKeys →
     childLabels set ref extra !! k = (<[labelPlacementRefName := ref]> (sourceLabels set)) !! k) ∧
  (∀ k v, k ∉ reservedChildMetadataKeys → extra !! k = Some v →
     childLabels set ref extra !! k = Some v).
Proof.
  split_and!.
  - apply ownedBySet_spec, sourceLabels_subseteq_childLabels.
  - intros k Hk. rewrite childLabels_lookup, sanitizedMetadata_lookup, decide_True by done.
    destruct (_ !! k); [done|]. case_decide; [|done]. subst k. by destruct sync_not_reserved.
  - intros k v Hk He. rewrite childLabels_lookup, sanitizedMetadata_lookup, decide_False by done.
    rewrite He. destruct (<[labelPlacementRefName:=ref]> (sourceLabels set) !! k) eqn:E; [|done].
    destruct Hk.
    apply elem_of_list_to_set.
    apply lookup_insert_Some in E as [[<- _]|[_ E]]; [by apply (bool_decide_unpack _)|].
    apply elem_of_list_to_map_2 in E. clear -E. set_solver.
Qed.

(** A watch event on an owned object is mapped to the owning replica set and to
    nothing else. *)
Lemma owned_maps set lbls :
  ownedBySet set lbls = true → setName set ≠ "" → setNamespace set ≠ "" →
  requestFromSourceLabels lbls = Some (ObjectKey (setMeta set)).
Proof.
  intros Ho%ownedBySet_spec Hn Hns. unfold requestFromSourceLabels.
  rewrite (map_index_subseteq _ _ _ _ Ho (sourceLabels_setName set)).
  rewrite (map_index_subseteq _ _ _ _ Ho (sourceLabels_setNamespace set)).
  by rewrite !bool_decide_eq_false_2.
Qed.

(** Ownership is exclusive: an object cannot be owned by two replica sets
    that differ in name, namespace or UID, so a set recreated under the same
    name never adopts or deletes the children of its predecessor. *)
Theorem ownership_exclusive s1 s2 lbls :
  ownedBySet s1 lbls = true → ownedBySet s2 lbls = true →
  setName s1 = setName s2 ∧ setNamespace s1 = setNamespace s2 ∧ setUID s1 = setUID s2.
Proof.
  intros H1%ownedBySet_spec H2%ownedBySet_spec. split_and!.
  - by rewrite <- (map_index_subseteq _ _ _ _ H1 (sourceLabels_setName s1)),
      (map_index_subseteq _ _ _ _ H2 (sourceLabels_setName s2)).
  - by rewrite <- (map_index_subseteq _ _ _ _ H1 (sourceLabels_setNamespace s1)),
      (map_index_subseteq _ _ _ _ H2 (sourceLabels_setNamespace s2)).
  - by rewrite <- (map_index_subseteq _ _ _ _ H1 (sourceLabels_setUID s1)),
      (map_index_subseteq _ _ _ _ H2 (sourceLabels_setUID s2)).
Qed.

(** C39: The shape of a generated name, for any parts: it never exceeds the 253
    bytes of a DNS-1123 subdomain; when the parts joined by dashes fit, it is
    the joined name, without the dash at its end if it has one; when they do
    not fit, it is a prefix of the joined name of 241 or 242 bytes, a dash and
    the short hash of the whole joined name; and it ends in a dash at most when
    the joined name fits and ends in two. *)
Theorem stableChildName_shape parts :
  let name := strings_Join parts "-" in
  String.length (stableChildName parts) <= DNS1123SubdomainMaxLength ∧
  (String.length name <= DNS1123SubdomainMaxLength → ¬ (∃ t, name = t +:+ "-") → stableChildName parts = name) ∧
  (String.length name <= DNS1123SubdomainMaxLength → ∀ t, name = t +:+ "-" → stableChildName parts = t) ∧
  (DNS1123SubdomainMaxLength < String.length name → ∃ prefix rest, name = prefix +:+ rest ∧
     241 <= String.length prefix <= 242 ∧ stableChildName parts = prefix +:+ "-" +:+ stableHash name) ∧
  ((∃ t, stableChildName parts = t +:+ "-") →
     String.length name <= DNS1123SubdomainMaxLength ∧ ∃ t, name = t +:+ "--").
Proof.
  intros name. split_and!; [apply stableChildName_bound| | | |].
  - intros Hl Hd. unfold stableChildName. fold name. rewrite (proj2 (Nat.leb_le _ _) Hl).
    destruct (TrimSuffixDash_cases name) as [[? [? _]]|[_ ?]]; [by destruct Hd; eexists|done].
  - intros Hl t Ht. unfold stableChildName. fold name. rewrite (proj2 (Nat.leb_le _ _) Hl).
    destruct (TrimSuffixDash_cases name) as [[t' [Ht' ->]]|[Hn _]]; [|by destruct (Hn t)].
    rewrite Ht in Ht'. by apply append_inj_r in Ht'.
  - intros Hl. apply stableChildName_long, Hl.
  - intros [t Ht]. unfold stableChildName in Ht. fold name in Ht.
    destruct (Nat.leb_spec (String.length name) DNS1123SubdomainMaxLength) as [Hle|Hgt].
    + split; [done|]. destruct (TrimSuffixDash_cases name) as [[t' [Ht' Htr]]|[Hn Htr]]; rewrite Htr in Ht.
      * exists t. by rewrite Ht', Ht, append_assoc.
      * by destruct (Hn t).
    + exfalso. rewrite <- append_assoc in Ht.
      assert (stableHash name ≠ "") as Hne
        by (intros Hnil; pose proof (stableHash_length name) as Hlen; by rewrite Hnil in Hlen).
      pose proof (TrimSuffixDash_no_dash (TrimSuffixDash (take_bytes (DNS1123SubdomainMaxLength -
        String.length (stableHash name) - 1) name) +:+ "-") _ Hne (stableHash_no_dash name)) as Htr.
      rewrite Ht in Htr. destruct (TrimSuffixDash_cases (t +:+ "-")) as [[t' [Ht' Htr']]|[Hn _]]; [|by destruct (Hn t)].
      rewrite Htr in Htr'. rewrite <- Htr' in Ht'. apply (f_equal String.length) in Ht'.
      rewrite !length_append in Ht'. cbn in Ht'. lia.
Qed.

End properties.

Section witnesses.
Import Ref.

Definition sampleChildLabels : labels_Set :=
  childLabels sampleSet "placement-a" (tmLabels (tplMetadata sampleTemplate)).

Lemma childLabels_spoof_proof_witness :
  ownedBySet sampleSet sampleChildLabels = true ∧
  sampleChildLabels !! labelSetUID = Some "set-uid" ∧ sampleChildLabels !! "team" = Some "platform".
Proof.
  destruct (childLabels_spoof_proof sampleSet "placement-a" (tmLabels (tplMetadata sampleTemplate)))
    as (H1 & H2 & H3). split_and!; [exact H1| |].
  - unfold sampleChildLabels. rewrite H2; [reflexivity|]. apply (bool_decide_unpack _). vm_compute. exact I.
  - apply H3; [|reflexivity]. apply (bool_decide_unpack _). vm_compute. exact I.
Defined.

(** The same set before and after its deletion was requested. *)
Lemma ownership_exclusive_witness :
  ownedBySet (sampleSetWith [] ["placement-a"] [] (Some 5%Z)) sampleChildLabels = true ∧
  setUID sampleSet = setUID (sampleSetWith [] ["placement-a"] [] (Some 5%Z)).
Proof.
  split; [vm_compute; reflexivity|].
  apply (ownership_exclusive sampleSet (sampleSetWith [] ["placement-a"] [] (Some 5%Z))
           sampleChildLabels); vm_compute; reflexivity.
Defined.

Lemma stableChildName_shape_witness : stableChildName ["set"; "rbac"; "cluster"] = "set-rbac-cluster".
Proof.
  apply (proj1 (proj2 (stableChildName_shape ["set"; "rbac"; "cluster"]))); [vm_compute; lia|].
  intros [t Ht]. destruct (TrimSuffixDash_cases "set-rbac-cluster") as [(t' & Ht' & Htr)|[Hn _]];
    [|exact (Hn t Ht)]. vm_compute in Htr. subst t'. discriminate Ht'.
Defined.

End witnesses.
