(* ===== verification/Rbac.v ===== *)
(** * Remote RBAC rendering ([internal/controller/rbac.go])

    How the grants of a replica set become RBAC objects, how the objects are
    cut into ManifestWork slices (one for the cluster-scoped objects and one
    per target namespace), and how the state of those ManifestWorks is
    summarised. *)

From S2P Require Import Prelude GoStd ApiTypes Interfaces Reference Effects Metadata Samples.
From Stdlib Require Import ZArith Lia Ascii.

Definition rbacClusterSliceType := "workload-rbac-cluster".
Definition rbacNamespaceSliceType := "workload-rbac-namespace".

Definition rbacGroupName := "rbac.authorization.k8s.io".
Definition rbacSchemeGroupVersion := "rbac.authorization.k8s.io/v1".
Definition workGroupVersion := "work.open-cluster-management.io/v1".

Record rbacSlice := mkRbacSlice {
  sliceName : string;
  sliceType : string;
  sliceTargetNamespace : string;
  sliceManifests : list Manifest;
  sliceManifestsHash : string;
}.

Definition rbacEnabled (set : ManagedServiceAccountReplicaSet) : bool :=
  match specRBAC (setSpec set) with
  | None => false
  | Some rbac => 0 <? length (rbacGrants rbac)
  end.

Definition rbacClusterManifestWorkName (set : ManagedServiceAccountReplicaSet) : string :=
  stableChildName [setName set; "rbac"; "cluster"].

Definition rbacNamespaceManifestWorkName (set : ManagedServiceAccountReplicaSet)
    (namespace : string) : string :=
  stableChildName [setName set; "rbac"; "ns"; stableHash namespace].

Definition rawManifest (obj : RuntimeObject) : Manifest := mkRawExtension "" (Some obj).

Section rendering.
Context `{LabelsLib} `{JSONCodec}.

Definition buildManifestWork (set : ManagedServiceAccountReplicaSet)
    (clusterName placementRefName : string) (slice : rbacSlice) : ManifestWork :=
  let annotations := <[annotationSpecHash := sliceManifestsHash slice]> (sourceAnnotations set) in
  let lbls := <[labelSliceType := sliceType slice]> (childLabels set placementRefName ∅) in
  let targeted := negb (bool_decide (sliceTargetNamespace slice = "")) in
  let lbls' :=
    if targeted
    then <[labelTargetNamespaceHash := stableHash (sliceTargetNamespace slice)]>
           (<[labelTargetNamespace := sliceTargetNamespace slice]> lbls)
    else lbls in
  let annotations' :=
    if targeted
    then <[annotationTargetNamespace := sliceTargetNamespace slice]> annotations
    else annotations in
  mkManifestWork (mkTypeMeta workGroupVersion "ManifestWork")
    (newMeta (sliceName slice) clusterName lbls' annotations')
    (mkManifestWorkSpec (sliceManifests slice)
       (Some (mkDeleteOption DeletePropagationPolicyTypeForeground)) ∅)
    [].

Definition rbacObjectLabels (set : ManagedServiceAccountReplicaSet) (grant : RBACGrant)
    (namespace : string) : labels_Set :=
  let lbls := labels_Merge (sanitizedMetadata (gmLabels (grantMetadata grant))) (sourceLabels set) in
  let lbls := <[labelGrantID := grantID grant]> lbls in
  if bool_decide (namespace = "") then lbls
  else <[labelTargetNamespaceHash := stableHash namespace]>
         (<[labelTargetNamespace := namespace]> lbls).

Definition rbacObjectAnnotations (set : ManagedServiceAccountReplicaSet) (grant : RBACGrant)
    (namespace : string) : labels_Set :=
  let annotations :=
    labels_Merge (sanitizedMetadata (gmAnnotations (grantMetadata grant))) (sourceAnnotations set) in
  if bool_decide (namespace = "") then annotations
  else <[annotationTargetNamespace := namespace]> annotations.

Definition renderNamespacedGrant (set : ManagedServiceAccountReplicaSet) (grant : RBACGrant)
    (namespace : string) (subject : Subject) : list Manifest :=
  let roleName := gmName (grantMetadata grant) in
  let objectLabels := rbacObjectLabels set grant namespace in
  let objectAnnotations := rbacObjectAnnotations set grant namespace in
  let om := newMeta roleName namespace objectLabels objectAnnotations in
  [rawManifest (ORole (mkTypeMeta rbacSchemeGroupVersion "Role") om (grantRules grant));
   rawManifest (ORoleBinding (mkTypeMeta rbacSchemeGroupVersion "RoleBinding") om
                  [subject] (mkRoleRef rbacGroupName "Role" roleName))].

Definition renderClusterGrant (set : ManagedServiceAccountReplicaSet) (grant : RBACGrant)
    (subject : Subject) : list Manifest :=
  let roleName := gmName (grantMetadata grant) in
  let objectLabels := rbacObjectLabels set grant "" in
  let objectAnnotations := rbacObjectAnnotations set grant "" in
  let om := newMeta roleName "" objectLabels objectAnnotations in
  [rawManifest (OClusterRole (mkTypeMeta rbacSchemeGroupVersion "ClusterRole") om (grantRules grant));
   rawManifest (OClusterRoleBinding (mkTypeMeta rbacSchemeGroupVersion "ClusterRoleBinding") om
                  [subject] (mkRoleRef rbacGroupName "ClusterRole" roleName))].

(** What the JSON encoder writes for one manifest: nothing when encoding
    fails, the encoding and a newline otherwise. *)
Definition encodeManifest (m : Manifest) : string :=
  match rawObject m with
  | None => "null" +:+ newline
  | Some o => match json_Marshal o with
              | Some j => j +:+ newline
              | None => ""
              end
  end.

Definition manifestsHash (manifests : list Manifest) : string :=
  match manifests with
  | [] => ""
  | _ => take_bytes 16 (sha256_hex (String.concat "" (map encodeManifest manifests)))
  end.

(** ** Namespace resolution *)

(** [resolver] says whether a NamespaceSelectorResolver is configured. *)
Definition resolveGrantNamespaces (set : ManagedServiceAccountReplicaSet) (clusterName : string)
    (grant : RBACGrant) (resolver : bool) : prog (result (list string)) :=
  match grantForEachNamespace grant with
  | None =>
      mret (Err (ErrNew ("role grant " +:+ fmt_q (grantID grant) +:+ " requires forEachNamespace")))
  | Some iterator =>
      if negb (bool_decide (niName iterator = "")) then mret (Ok [niName iterator])
      else if 0 <? length (niNames iterator) then mret (Ok (sets_List (sets_New (niNames iterator))))
      else
        match niSelector iterator with
        | Some ls =>
            match LabelSelectorAsSelector ls with
            | Err e =>
                mret (Err (ErrWrap ("invalid namespace selector for grant " +:+ fmt_q (grantID grant)
                                    +:+ ": " +:+ Error e) e))
            | Ok selector =>
                if resolver then
                  namespaces ← send (CResolveNamespaceSelector set clusterName grant selector);
                  match namespaces with
                  | Err e => mret (Err e)
                  | Ok nss => mret (Ok (sets_List (sets_New nss)))
                  end
                else
                  mret (Err (ErrNew ("selector-targeted RBAC grant " +:+ fmt_q (grantID grant)
                                     +:+ " is waiting for controller namespace access")))
            end
        | None =>
            mret (Err (ErrNew ("role grant " +:+ fmt_q (grantID grant)
                               +:+ " requires exactly one namespace iterator mode")))
        end
  end.

(** ** Slices *)

(** The accumulators of [desiredRBACSlices]. *)
Record sliceAcc := mkSliceAcc {
  accCluster : list Manifest;
  accNamespaces : gmap string (list Manifest);
  accJoined : option error;
}.

Definition appendNamespace (set : ManagedServiceAccountReplicaSet) (grant : RBACGrant)
    (subject : Subject) (m : gmap string (list Manifest)) (namespace : string)
    : gmap string (list Manifest) :=
  <[namespace := default [] (m !! namespace) ++ renderNamespacedGrant set grant namespace subject]> m.

Definition grantSubject (set : ManagedServiceAccountReplicaSet) : Subject :=
  let md := tplMetadata (specTemplate (setSpec set)) in
  mkSubject "ServiceAccount" "" (tmName md) (tmNamespace md).

Definition sliceGrant (set : ManagedServiceAccountReplicaSet) (clusterName : string)
    (resolver : bool) (subject : Subject) (acc : sliceAcc) (grant : RBACGrant)
    : prog (sliceAcc * option error) :=
  if bool_decide (grantType grant = RBACGrantTypeClusterRole) then
    mret (mkSliceAcc (accCluster acc ++ renderClusterGrant set grant subject)
            (accNamespaces acc) (accJoined acc), None)
  else if bool_decide (grantType grant = RBACGrantTypeRole) then
    namespaces ← resolveGrantNamespaces set clusterName grant resolver;
    match namespaces with
    | Err e => mret (mkSliceAcc (accCluster acc) (accNamespaces acc)
                       (errors_Join [accJoined acc; Some e]), None)
    | Ok nss => mret (mkSliceAcc (accCluster acc)
                        (foldl (appendNamespace set grant subject) (accNamespaces acc) nss)
                        (accJoined acc), None)
    end
  else
    mret (acc, Some (ErrNew ("unsupported RBAC grant type " +:+ fmt_q (grantType grant)
                             +:+ " for grant " +:+ fmt_q (grantID grant)))).

Definition namespaceSlice (set : ManagedServiceAccountReplicaSet)
    (m : gmap string (list Manifest)) (namespace : string) : rbacSlice :=
  let manifests := default [] (m !! namespace) in
  mkRbacSlice (rbacNamespaceManifestWorkName set namespace) rbacNamespaceSliceType namespace
    manifests (manifestsHash manifests).

Definition slicesOut (set : ManagedServiceAccountReplicaSet) (acc : sliceAcc) : list rbacSlice :=
  (if 0 <? length (accCluster acc)
   then [mkRbacSlice (rbacClusterManifestWorkName set) rbacClusterSliceType ""
           (accCluster acc) (manifestsHash (accCluster acc))]
   else [])
  ++ map (namespaceSlice set (accNamespaces acc)) (sets_List (dom (accNamespaces acc))).

(** The slices and the joined error are both returned: a failed namespace
    resolution does not discard the slices of the other grants. *)
Definition desiredRBACSlices (set : ManagedServiceAccountReplicaSet) (clusterName : string)
    (resolver : bool) : prog (list rbacSlice * option error) :=
  match specRBAC (setSpec set) with
  | None => mret ([], None)
  | Some rbac =>
      r ← foldE (sliceGrant set clusterName resolver (grantSubject set))
            (mkSliceAcc [] ∅ None) (rbacGrants rbac);
      match r.2 with
      | Some e => mret ([], Some e)
      | None => mret (slicesOut set r.1, accJoined r.1)
      end
  end.

End rendering.

(** ** ManifestWork state *)

Section summaries.
Context `{MetaConditions}.

Definition manifestWorkConditionTrue (work : ManifestWork) (conditionType : string) : bool :=
  match FindStatusCondition (mwConditions work) conditionType with
  | None => false
  | Some condition =>
      bool_decide (condStatus condition = ConditionTrue) &&
      bool_decide (condObservedGeneration condition = omGeneration (mwMeta work))
  end.

Definition manifestWorkAvailable (work : ManifestWork) : bool :=
  manifestWorkConditionTrue work WorkAvailable.

Definition one_if (b : bool) : Z := if b then 1 else 0.

Definition summarizeManifestWork (work : ManifestWork) (expectedHash : string) : Summary :=
  mkSummary 0 1
    (one_if (manifestWorkConditionTrue work WorkApplied))
    (one_if (manifestWorkConditionTrue work WorkAvailable))
    (one_if (manifestWorkConditionTrue work WorkDegraded))
    (one_if (manifestWorkConditionTrue work WorkProgressing))
    (one_if (bool_decide ((omAnnotations (mwMeta work)).[annotationSpecHash] = expectedHash))).

End summaries.

Definition addSummary (dst src : Summary) : Summary :=
  mkSummary
    (int32_add (sumDesiredTotal dst) (sumDesiredTotal src))
    (int32_add (sumTotal dst) (sumTotal src))
    (int32_add (sumApplied dst) (sumApplied src))
    (int32_add (sumAvailable dst) (sumAvailable src))
    (int32_add (sumDegraded dst) (sumDegraded src))
    (int32_add (sumProgressing dst) (sumProgressing src))
    (int32_add (sumUpdated dst) (sumUpdated src)).

(** ** Specification vocabulary *)

Definition setGrants (set : ManagedServiceAccountReplicaSet) : list RBACGrant :=
  match specRBAC (setSpec set) with None => [] | Some r => rbacGrants r end.

Definition supportedType (g : RBACGrant) : Prop :=
  grantType g = RBACGrantTypeRole ∨ grantType g = RBACGrantTypeClusterRole.

(** The namespaces a Role grant names itself (without a selector). *)
Definition fixedNamespaces (g : RBACGrant) : list string :=
  match grantForEachNamespace g with
  | None => []
  | Some it => if bool_decide (niName it = "") then niNames it else [niName it]
  end.

Definition fixedGrant (g : RBACGrant) : Prop := fixedNamespaces g ≠ [].

(** What one manifest of a slice may be: a Role or ClusterRole carrying the
    rules of one grant of the matching type, or the binding of an object of
    the same name in the same slice to the generated service account and to
    nobody else. *)
Definition least_privilege (set : ManagedServiceAccountReplicaSet) (s : rbacSlice) (m : Manifest)
    : Prop :=
  match rawObject m with
  | Some (ORole _ om rules) =>
      sliceType s = rbacNamespaceSliceType ∧ omNamespace om = sliceTargetNamespace s ∧
      ∃ g, g ∈ setGrants set ∧ grantType g = RBACGrantTypeRole ∧
           omName om = gmName (grantMetadata g) ∧ rules = grantRules g
  | Some (ORoleBinding _ om subjects ref) =>
      sliceType s = rbacNamespaceSliceType ∧ omNamespace om = sliceTargetNamespace s ∧
      subjects = [grantSubject set] ∧ ref = mkRoleRef rbacGroupName "Role" (omName om) ∧
      ∃ tm rules, rawManifest (ORole tm om rules) ∈ sliceManifests s
  | Some (OClusterRole _ om rules) =>
      sliceType s = rbacClusterSliceType ∧ omNamespace om = "" ∧
      ∃ g, g ∈ setGrants set ∧ grantType g = RBACGrantTypeClusterRole ∧
           omName om = gmName (grantMetadata g) ∧ rules = grantRules g
  | Some (OClusterRoleBinding _ om subjects ref) =>
      sliceType s = rbacClusterSliceType ∧ omNamespace om = "" ∧
      subjects = [grantSubject set] ∧ ref = mkRoleRef rbacGroupName "ClusterRole" (omName om) ∧
      ∃ tm rules, rawManifest (OClusterRole tm om rules) ∈ sliceManifests s
  | None => False
  end.

Lemma grantTypes_differ : RBACGrantTypeRole ≠ RBACGrantTypeClusterRole.
Proof. done. Qed.

(** Close a goal whose context gives one grant both types. *)
Ltac grant_types := pose proof grantTypes_differ; congruence.

(** The grant and the answer of a request to the namespace resolver. *)
Definition resolver_answer (e : event) : option (RBACGrant * result (list string)) :=
  match e with
  | Ev c r =>
      match c return resp c → option (RBACGrant * result (list string)) with
      | CResolveNamespaceSelector _ _ g _ => λ r, Some (g, r)
      | _ => λ _, None
      end r
  end.

Section slices.
Context `{LabelsLib} `{JSONCodec}.
Context (set : ManagedServiceAccountReplicaSet) (clusterName : string) (resolver : bool).

Local Abbreviation subject := (grantSubject set).

(** The slices hold exactly what the grants processed so far ask for. *)
Record acc_sound (gs : list RBACGrant) (acc : sliceAcc) : Prop := {
  acc_cluster_only m : m ∈ accCluster acc →
    ∃ g, g ∈ gs ∧ grantType g = RBACGrantTypeClusterRole ∧
         m ∈ renderClusterGrant set g subject ∧
         renderClusterGrant set g subject ⊆ accCluster acc;
  acc_namespace_only ns l m : accNamespaces acc !! ns = Some l → m ∈ l →
    ∃ g, g ∈ gs ∧ grantType g = RBACGrantTypeRole ∧
         m ∈ renderNamespacedGrant set g ns subject ∧
         renderNamespacedGrant set g ns subject ⊆ l;
  acc_cluster_all g : g ∈ gs → grantType g = RBACGrantTypeClusterRole →
    renderClusterGrant set g subject ⊆ accCluster acc;
  acc_namespace_all g ns : g ∈ gs → grantType g = RBACGrantTypeRole → ns ∈ fixedNamespaces g →
    ∃ l, accNamespaces acc !! ns = Some l ∧ renderNamespacedGrant set g ns subject ⊆ l;
  acc_no_error : (∀ g, g ∈ gs → grantType g = RBACGrantTypeRole → fixedGrant g) →
    accJoined acc = None;
  acc_nonempty ns l : accNamespaces acc !! ns = Some l → l ≠ [];
}.

(** The answer of the namespace resolver for a grant that selects namespaces,
    among the events [seg]: the selector asked about is that of the grant. *)
Definition asked (seg : trace) (g : RBACGrant) (names : list string) : Prop :=
  ∃ it ls sel, grantForEachNamespace g = Some it ∧ niSelector it = Some ls ∧
    LabelSelectorAsSelector ls = Ok sel ∧
    Ev (CResolveNamespaceSelector set clusterName g sel) (Ok names) ∈ seg.

(** The namespaces of a Role grant: those it names, or those the resolver
    answered for it. *)
Definition grantCovers (seg : trace) (g : RBACGrant) (ns : string) : Prop :=
  ns ∈ fixedNamespaces g ∨ (¬ fixedGrant g ∧ ∃ names, asked seg g names ∧ ns ∈ names).

(** The slices cover every namespace of every grant, no other namespace, and
    without an error every grant has its namespaces. *)
Record acc_complete (seg : trace) (gs : list RBACGrant) (acc : sliceAcc) : Prop := {
  ac_all g ns : g ∈ gs → grantType g = RBACGrantTypeRole → grantCovers seg g ns →
    ∃ l, accNamespaces acc !! ns = Some l ∧ renderNamespacedGrant set g ns subject ⊆ l;
  ac_only ns : is_Some (accNamespaces acc !! ns) →
    ∃ g, g ∈ gs ∧ grantType g = RBACGrantTypeRole ∧ grantCovers seg g ns;
  ac_resolved : accJoined acc = None →
    ∀ g, g ∈ gs → grantType g = RBACGrantTypeRole → fixedGrant g ∨ ∃ names, asked seg g names;
  ac_asked g names : asked seg g names → g ∈ gs;
}.

(** The resolver refused to answer for the grant, or could not be asked: the
    grant has no usable selector or no resolver is configured. *)
Definition refused (seg : trace) (g : RBACGrant) : Prop :=
  ∀ it ls sel, grantForEachNamespace g = Some it → niSelector it = Some ls →
    LabelSelectorAsSelector ls = Ok sel → resolver = true →
    ∃ e, Ev (CResolveNamespaceSelector set clusterName g sel) (Err e) ∈ seg.

(** Every Role grant has its namespaces, or was refused. *)
Definition grants_tried (seg : trace) (gs : list RBACGrant) : Prop :=
  ∀ g, g ∈ gs → grantType g = RBACGrantTypeRole →
    fixedGrant g ∨ (∃ names, asked seg g names) ∨ refused seg g.

Lemma acc_complete_nil : acc_complete [] [] (mkSliceAcc [] ∅ None).
Proof.
  constructor; simpl.
  - by intros ?? ?%elem_of_nil.
  - intros ns. rewrite lookup_empty. by intros [].
  - by intros _ ? ?%elem_of_nil.
  - by intros g names (? & ? & ? & _ & _ & _ & ?%elem_of_nil).
Qed.

Lemma asked_app seg1 seg2 g names : asked (seg1 ++ seg2) g names ↔ asked seg1 g names ∨ asked seg2 g names.
Proof. unfold asked. setoid_rewrite elem_of_app. naive_solver. Qed.

Lemma grants_tried_more seg new gs : grants_tried seg gs → grants_tried (new ++ seg) gs.
Proof.
  intros Ht g Hg Hr. destruct (Ht g Hg Hr) as [?|[(names & ?)|Href]]; [by left|right; left; exists names|].
  { rewrite asked_app. auto. }
  right; right. intros it ls sel H1 H2 H3 H4. destruct (Href it ls sel H1 H2 H3 H4) as [e ?].
  exists e. apply elem_of_app. auto.
Qed.

Lemma grants_tried_snoc seg gs g :
  grants_tried seg gs →
  (grantType g = RBACGrantTypeRole → fixedGrant g ∨ (∃ names, asked seg g names) ∨ refused seg g) →
  grants_tried seg (gs ++ [g]).
Proof. intros Ht Hg g' [?| ->%list_elem_of_singleton]%elem_of_app; auto. Qed.

Lemma refused_more seg new g : refused new g → refused (new ++ seg) g.
Proof.
  intros Href it ls sel H1 H2 H3 H4. destruct (Href it ls sel H1 H2 H3 H4) as [e ?].
  exists e. apply elem_of_app. auto.
Qed.

Lemma fixed_in g ns : ns ∈ fixedNamespaces g → fixedGrant g.
Proof. intros Hns Hnil. rewrite Hnil in Hns. by apply elem_of_nil in Hns. Qed.

Lemma acc_sound_nil : acc_sound [] (mkSliceAcc [] ∅ None).
Proof.
  constructor; simpl; [by intros ? ?%elem_of_nil|by intros ???; rewrite lookup_empty|
    by intros ? ?%elem_of_nil|by intros ?? ?%elem_of_nil|done|
    by intros ??; rewrite lookup_empty].
Qed.

Lemma foldl_appendNamespace_lookup g nss m ns :
  NoDup nss →
  foldl (appendNamespace set g subject) m nss !! ns =
  if decide (ns ∈ nss) then Some (default [] (m !! ns) ++ renderNamespacedGrant set g ns subject)
  else m !! ns.
Proof.
  revert m. induction nss as [|n nss IH]; intros m Hnd; simpl; [done|].
  apply NoDup_cons in Hnd as [Hn Hnd]. rewrite IH by done. unfold appendNamespace.
  destruct (decide (n = ns)) as [->|Hne].
  - rewrite lookup_insert_eq. repeat case_decide; try done; set_solver.
  - rewrite !lookup_insert_ne by done. repeat case_decide; try done; set_solver.
Qed.

(** Resolution answers with the namespaces of the grant, without duplicates; it
    sends a request only for a selector. *)
Lemma resolveGrantNamespaces_spec R G g tr :
  (fixedGrant g ∨ ∀ tr sel, G tr (CResolveNamespaceSelector set clusterName g sel)) →
  wp R G (resolveGrantNamespaces set clusterName g resolver)
    (λ tr' r, ∃ new, tr' = new ++ tr ∧ (∀ g' names, asked new g' names → g' = g) ∧
       match r with
       | Ok nss => NoDup nss ∧ (∀ ns, ns ∈ nss ↔ grantCovers new g ns) ∧
                   (fixedGrant g ∨ ∃ names, asked new g names)
       | Err _ => ¬ fixedGrant g ∧ (∀ names, ¬ asked new g names) ∧ refused new g
       end) tr.
Proof.
  assert (∀ g' names, ¬ asked [] g' names) as Hnil by (by intros ?? (? & ? & ? & _ & _ & _ & ?%elem_of_nil)).
  assert (∀ c (r : resp c) g' names, asked [Ev c r] g' names →
    ∃ sel, Ev c r = Ev (CResolveNamespaceSelector set clusterName g' sel) (Ok names)) as Hone.
  { intros c r g' names (? & ? & sel & _ & _ & _ & Hin%list_elem_of_singleton). by exists sel. }
  assert (∀ r nss, fixedGrant g → (∀ ns, ns ∈ nss ↔ ns ∈ fixedNamespaces g) → NoDup nss → r = Ok nss →
    ∃ new, tr = new ++ tr ∧ (∀ g' names, asked new g' names → g' = g) ∧
      match r with
      | Ok nss => NoDup nss ∧ (∀ ns, ns ∈ nss ↔ grantCovers new g ns) ∧ (fixedGrant g ∨ ∃ names, asked new g names)
      | Err _ => ¬ fixedGrant g ∧ (∀ names, ¬ asked new g names) ∧ refused new g
      end) as Hfixed.
  { intros r nss Hf Hn Hnd ->. exists []. split_and!; [done|by intros ?? ?%Hnil|done| |by left].
    intros ns. rewrite Hn. unfold grantCovers. naive_solver. }
  assert (∀ e : error, ¬ fixedGrant g → refused [] g →
    ∃ new, tr = new ++ tr ∧ (∀ g' names, asked new g' names → g' = g) ∧
    ¬ fixedGrant g ∧ (∀ names, ¬ asked new g names) ∧ refused new g) as Herr.
  { intros _ Hf Href. exists []. split_and!; [done|by intros ?? ?%Hnil|done|apply Hnil|done]. }
  unfold resolveGrantNamespaces. intros HG.
  destruct (grantForEachNamespace g) as [it|] eqn:Eit; [|apply wp_ret, Herr; [exact (ErrNew "")| |
    intros ?; congruence]; intros Hf; apply Hf; unfold fixedNamespaces; by rewrite Eit].
  assert (fixedNamespaces g = if bool_decide (niName it = "") then niNames it else [niName it]) as Hfx
    by (unfold fixedNamespaces; by rewrite Eit).
  destruct (bool_decide (niName it = "")) eqn:En; cbn [negb]; cycle 1.
  { apply wp_ret. apply (Hfixed (Ok [niName it]) [niName it]); [unfold fixedGrant; by rewrite Hfx|by rewrite Hfx|
      apply NoDup_singleton|done]. }
  destruct (niNames it) as [|n names] eqn:Ens; cbn [length Nat.ltb Nat.leb]; cycle 1.
  { apply wp_ret. apply (Hfixed (Ok (sets_List (sets_New (n :: names)))) (sets_List (sets_New (n :: names)))); [unfold fixedGrant; by rewrite Hfx| |
      apply sets_List_NoDup|done].
    intros ns. by rewrite Hfx, sets_List_elem_of, sets_New_elem_of. }
  assert (¬ fixedGrant g) as Hnf by (intros Hf; by apply Hf).
  destruct (niSelector it) as [ls|] eqn:Els; [|by apply wp_ret, Herr; [exact (ErrNew "")| |intros ?; congruence]].
  destruct (LabelSelectorAsSelector ls) as [sel|e] eqn:Esel;
    [|by apply wp_ret, Herr; [exact (ErrNew "")| |intros ?; congruence]].
  destruct resolver eqn:Eres; [|by apply wp_ret, Herr; [exact (ErrNew "")| |intros ?; congruence]].
  apply wp_bind, wp_send; [by destruct HG|]. intros r _.
  assert (∀ g' names', asked [Ev (CResolveNamespaceSelector set clusterName g sel) r] g' names' → g' = g ∧ r = Ok names')
    as Hone'.
  { intros g' names' (sel' & Heq)%Hone. apply (f_equal resolver_answer) in Heq. cbn in Heq. by simplify_eq. }
  destruct r as [nss|e]; apply wp_ret; eexists [_]; (split; [done|]).
  - assert (asked [Ev (CResolveNamespaceSelector set clusterName g sel) (Ok nss)] g nss) as Hask
      by (exists it, ls, sel; split_and!; [done..|left]).
    split_and!; [by intros ?? [? _]%Hone'|apply sets_List_NoDup| |right; by exists nss].
    intros ns. rewrite sets_List_elem_of, sets_New_elem_of. split.
    + intros Hns. right. split; [done|by exists nss].
    + intros [?%fixed_in|(_ & nss' & [_ [= ->]]%Hone' & ?)]; done.
  - split_and!; [by intros ?? [? _]%Hone'|done|by intros names' [_ ?]%Hone'|].
    intros it' ls' sel' H1 H2 H3 _. exists e. replace sel' with sel by congruence. left.
Qed.

Lemma acc_sound_cluster gs acc g :
  acc_sound gs acc → grantType g = RBACGrantTypeClusterRole →
  acc_sound (gs ++ [g])
    (mkSliceAcc (accCluster acc ++ renderClusterGrant set g subject) (accNamespaces acc) (accJoined acc)).
Proof.
  intros [H1 H2 H3 H4 H5 H6] Hg. constructor; cbn [accCluster accNamespaces accJoined].
  - intros m [Hm|Hm]%elem_of_app.
    + destruct (H1 m Hm) as (g' & ? & ? & ? & ?). exists g'. set_solver.
    + exists g. set_solver.
  - intros ns l m Hl Hm. destruct (H2 ns l m Hl Hm) as (g' & ? & ? & ? & ?). exists g'. set_solver.
  - intros g' [Hg'| ->%list_elem_of_singleton]%elem_of_app Ht; [specialize (H3 g' Hg' Ht); set_solver|set_solver].
  - intros g' ns [Hg'| ->%list_elem_of_singleton]%elem_of_app Ht Hns; [by eapply H4|grant_types].
  - intros Hf. apply H5. intros g' Hg'. apply Hf. set_solver.
  - done.
Qed.

Lemma acc_sound_role_ok gs acc g nss :
  acc_sound gs acc → grantType g = RBACGrantTypeRole → NoDup nss →
  (fixedGrant g → ∀ ns, ns ∈ nss ↔ ns ∈ fixedNamespaces g) →
  acc_sound (gs ++ [g])
    (mkSliceAcc (accCluster acc) (foldl (appendNamespace set g subject) (accNamespaces acc) nss)
       (accJoined acc)).
Proof.
  intros [H1 H2 H3 H4 H5 H6] Hg Hnd Hfix. constructor; cbn [accCluster accNamespaces accJoined].
  - intros m Hm. destruct (H1 m Hm) as (g' & ? & ? & ? & ?). exists g'. set_solver.
  - intros ns l m. rewrite foldl_appendNamespace_lookup by done. case_decide as Hns.
    + intros [= <-] [Hm|Hm]%elem_of_app; [|exists g; set_solver].
      destruct (accNamespaces acc !! ns) as [l|] eqn:El; [|by apply elem_of_nil in Hm].
      destruct (H2 ns l m El Hm) as (g' & ? & ? & ? & ?). exists g'. set_solver.
    + intros Hl Hm. destruct (H2 ns l m Hl Hm) as (g' & ? & ? & ? & ?). exists g'. set_solver.
  - intros g' [Hg'| ->%list_elem_of_singleton]%elem_of_app Ht; [by apply H3|grant_types].
  - intros g' ns Hg' Ht Hns. rewrite foldl_appendNamespace_lookup by done.
    apply elem_of_app in Hg' as [Hg'|Hg'%list_elem_of_singleton].
    + destruct (H4 g' ns Hg' Ht Hns) as (l & Hl & Hsub). rewrite Hl. case_decide.
      * eexists. split; [done|]. simpl. set_solver.
      * by exists l.
    + subst g'. rewrite decide_True; [eexists; split; [done|set_solver]|].
      apply Hfix; [|done]. intros Hnil. rewrite Hnil in Hns. by apply elem_of_nil in Hns.
  - intros Hf. apply H5. intros g' Hg'. apply Hf. set_solver.
  - intros ns l. rewrite foldl_appendNamespace_lookup by done. case_decide; [|by apply H6].
    intros [= <-] Hnil. apply app_nil in Hnil as [_ Hnil]. done.
Qed.

Lemma acc_sound_role_err gs acc g e :
  acc_sound gs acc → grantType g = RBACGrantTypeRole → ¬ fixedGrant g →
  acc_sound (gs ++ [g])
    (mkSliceAcc (accCluster acc) (accNamespaces acc) (errors_Join [accJoined acc; Some e])).
Proof.
  intros [H1 H2 H3 H4 H5 H6] Hg Hnf. constructor; cbn [accCluster accNamespaces accJoined].
  - intros m Hm. destruct (H1 m Hm) as (g' & ? & ? & ? & ?). exists g'. set_solver.
  - intros ns l m Hl Hm. destruct (H2 ns l m Hl Hm) as (g' & ? & ? & ? & ?). exists g'. set_solver.
  - intros g' [Hg'| ->%list_elem_of_singleton]%elem_of_app Ht; [by apply H3|grant_types].
  - intros g' ns [Hg'| ->%list_elem_of_singleton]%elem_of_app Ht Hns; [by eapply H4|].
    destruct Hnf. intros Hnil. rewrite Hnil in Hns. by apply elem_of_nil in Hns.
  - intros Hf. destruct Hnf. apply Hf; [set_solver|done].
  - done.
Qed.

Lemma acc_complete_cluster seg gs acc g :
  acc_complete seg gs acc → grantType g = RBACGrantTypeClusterRole →
  acc_complete seg (gs ++ [g])
    (mkSliceAcc (accCluster acc ++ renderClusterGrant set g subject) (accNamespaces acc) (accJoined acc)).
Proof.
  intros [H1 H2 H3 H4] Hg. constructor; cbn [accCluster accNamespaces accJoined].
  - intros g' ns [Hg'| ->%list_elem_of_singleton]%elem_of_app Ht Hc; [by eapply H1|grant_types].
  - intros ns Hns. destruct (H2 ns Hns) as (g' & ? & ? & ?). exists g'. set_solver.
  - intros Hj g' [Hg'| ->%list_elem_of_singleton]%elem_of_app Ht; [by apply H3|grant_types].
  - intros g' names Ha. apply elem_of_app. left. by eapply H4.
Qed.

Lemma acc_complete_role_ok seg new gs acc g nss :
  acc_complete seg gs acc → grantType g = RBACGrantTypeRole → NoDup nss →
  (∀ g' names, asked new g' names → g' = g) → (∀ ns, ns ∈ nss ↔ grantCovers new g ns) →
  (fixedGrant g ∨ ∃ names, asked new g names) →
  acc_complete (new ++ seg) (gs ++ [g])
    (mkSliceAcc (accCluster acc) (foldl (appendNamespace set g subject) (accNamespaces acc) nss)
       (accJoined acc)).
Proof.
  intros [H1 H2 H3 H4] Hg Hnd Hnew Hnss Hres. constructor; cbn [accCluster accNamespaces accJoined].
  - intros g' ns Hg' Ht Hc. rewrite foldl_appendNamespace_lookup by done.
    assert ((g' ∈ gs ∧ grantCovers seg g' ns) ∨ (g' = g ∧ ns ∈ nss)) as [[Hin Hold]|[-> Hns]].
    { destruct Hc as [Hf|(Hnf & names & [Ha|Ha]%asked_app & Hns)].
      - apply elem_of_app in Hg' as [Hg'| ->%list_elem_of_singleton]; [left; split; [done|by left]|].
        right. split; [done|]. apply Hnss. by left.
      - right. pose proof (Hnew _ _ Ha) as ->. split; [done|]. apply Hnss. right. by eauto.
      - left. split; [by eapply H4|]. right. by eauto. }
    + destruct (H1 g' ns Hin Ht Hold) as (l & Hl & Hsub). rewrite Hl. case_decide; [|by exists l].
      eexists. split; [done|]. simpl. set_solver.
    + rewrite decide_True by done. eexists. split; [done|]. set_solver.
  - intros ns. rewrite foldl_appendNamespace_lookup by done. case_decide as Hns; intros Hsome.
    + exists g. split_and!; [set_solver|done|]. apply Hnss in Hns as [?|(? & names & ? & ?)]; [by left|].
      right. split; [done|]. exists names. rewrite asked_app. auto.
    + destruct (H2 ns Hsome) as (g' & ? & ? & Hc). exists g'. split_and!; [set_solver|done|].
      destruct Hc as [?|(? & names & ? & ?)]; [by left|]. right. split; [done|]. exists names. rewrite asked_app. auto.
  - intros Hj g' Hg' Ht. setoid_rewrite asked_app.
    apply elem_of_app in Hg' as [Hg'| ->%list_elem_of_singleton]; [destruct (H3 Hj g' Hg' Ht)|]; naive_solver.
  - intros g' names [Ha|Ha]%asked_app; apply elem_of_app; [right; by rewrite (Hnew _ _ Ha); left|left; by eapply H4].
Qed.

Lemma acc_complete_role_err seg new gs acc g e :
  acc_complete seg gs acc → grantType g = RBACGrantTypeRole →
  ¬ fixedGrant g → (∀ g' names, asked new g' names → g' = g) → (∀ names, ¬ asked new g names) →
  acc_complete (new ++ seg) (gs ++ [g])
    (mkSliceAcc (accCluster acc) (accNamespaces acc) (errors_Join [accJoined acc; Some e])).
Proof.
  intros [H1 H2 H3 H4] Hg Hnf Hnew Hnone.
  assert (∀ g' names, asked (new ++ seg) g' names ↔ asked seg g' names) as Hsame.
  { intros g' names. rewrite asked_app. split; [|auto]. intros [Ha|?]; [|done].
    pose proof (Hnew _ _ Ha) as ->. by apply Hnone in Ha. }
  assert (∀ g' ns, grantCovers (new ++ seg) g' ns ↔ grantCovers seg g' ns) as Hcov.
  { intros g' ns. unfold grantCovers. by setoid_rewrite Hsame. }
  constructor; cbn [accCluster accNamespaces accJoined].
  - intros g' ns Hg' Ht Hc%Hcov. apply (H1 g' ns); [|done|done].
    apply elem_of_app in Hg' as [Hg'| ->%list_elem_of_singleton]; [done|].
    destruct Hc as [?%fixed_in|(_ & names & Ha & _)]; [done|by eapply H4].
  - intros ns Hns. destruct (H2 ns Hns) as (g' & ? & ? & ?). exists g'. rewrite Hcov. set_solver.
  - destruct (errors_Join_acc (accJoined acc) e) as [j ->]. done.
  - intros g' names Ha%Hsame. apply elem_of_app. left. by eapply H4.
Qed.

(** The loop over the grants, for any answers of the resolver. *)
Lemma desiredRBACSlices_wp R G tr :
  ((∀ g, g ∈ setGrants set → grantType g = RBACGrantTypeRole → fixedGrant g) ∨
   ∀ tr g sel, G tr (CResolveNamespaceSelector set clusterName g sel)) →
  wp R G (desiredRBACSlices set clusterName resolver)
    (λ tr' r, (∃ acc seg, tr' = seg ++ tr ∧ acc_sound (setGrants set) acc ∧
                 (acc_complete seg (setGrants set) acc ∧ grants_tried seg (setGrants set)) ∧
                 r = (slicesOut set acc, accJoined acc)) ∨
              ((∃ g, g ∈ setGrants set ∧ ¬ supportedType g) ∧ ∃ e, r = ([], Some e))) tr.
Proof.
  intros HG. unfold desiredRBACSlices. unfold setGrants in *.
  destruct (specRBAC (setSpec set)) as [rbac|]; cycle 1.
  { apply wp_ret. left. exists (mkSliceAcc [] ∅ None), [].
    split_and!; [done|apply acc_sound_nil|apply acc_complete_nil|by intros ? ?%elem_of_nil|done]. }
  apply wp_bind.
  apply (wp_foldE R G _ (λ tr' done acc, ∃ seg, tr' = seg ++ tr ∧ acc_sound done acc ∧
    acc_complete seg done acc ∧ grants_tried seg done)).
  - exists []. split_and!; [done|apply acc_sound_nil|apply acc_complete_nil|by intros ? ?%elem_of_nil].
  - intros done g rest acc tr' Hl (seg & -> & Hacc & Hcomp & Htry). unfold sliceGrant.
    destruct (bool_decide (grantType g = RBACGrantTypeClusterRole)) eqn:Ec; breflect.
    { apply wp_ret. exists seg. split_and!; [done|by apply acc_sound_cluster|by apply acc_complete_cluster|].
      apply grants_tried_snoc; [done|intros; grant_types]. }
    destruct (bool_decide (grantType g = RBACGrantTypeRole)) eqn:Er; breflect.
    + apply wp_bind. eapply wp_mono; [apply (resolveGrantNamespaces_spec R G g)|].
      * destruct HG as [HG|HG]; [|by right; intros; apply HG].
        left. apply HG; [rewrite Hl; apply elem_of_middle|done].
      * intros tr2 r (new & -> & Hnew & Hr). destruct r as [nss|e]; apply wp_ret; simpl;
          exists (new ++ seg); (split; [by rewrite app_assoc|]).
        -- destruct Hr as (Hnd & Hnss & Hres). split_and!; [|by apply acc_complete_role_ok|].
           { apply acc_sound_role_ok; [done..|]. intros Hf ns. rewrite Hnss. unfold grantCovers. naive_solver. }
           apply grants_tried_snoc; [by apply grants_tried_more|]. intros _. setoid_rewrite asked_app. naive_solver.
        -- destruct Hr as (Hnf & Hnone & Href). split_and!; [by apply acc_sound_role_err|by apply acc_complete_role_err|].
           apply grants_tried_snoc; [by apply grants_tried_more|]. intros _. right; right. by apply refused_more.
    + apply wp_ret. simpl. right. split; [|by eexists].
      exists g. split; [rewrite Hl; apply elem_of_middle|]. by intros [?|?].
  - intros tr' acc (seg & -> & Hacc & Hcomp & Htry). apply wp_ret. left. by exists acc, seg.
Qed.

(** The slices of the set for the cluster, as resolved at some point of the
    history without an error: every Role grant had its namespaces, and the
    slices cover all of them. *)
Definition slices_resolved (tr : trace) (slices : list rbacSlice) : Prop :=
  ∃ acc seg before, seg ++ before `suffix_of` tr ∧ acc_sound (setGrants set) acc ∧
    acc_complete seg (setGrants set) acc ∧ accJoined acc = None ∧ slices = slicesOut set acc.

Lemma slices_resolved_suffix tr tr' slices :
  tr `suffix_of` tr' → slices_resolved tr slices → slices_resolved tr' slices.
Proof. intros Hs (acc & seg & before & Hseg & ?). exists acc, seg, before. split; [by etrans|done]. Qed.

Lemma slicesOut_elem acc s :
  s ∈ slicesOut set acc ↔
  (accCluster acc ≠ [] ∧ s = mkRbacSlice (rbacClusterManifestWorkName set) rbacClusterSliceType ""
                             (accCluster acc) (manifestsHash (accCluster acc))) ∨
  (∃ ns l, accNamespaces acc !! ns = Some l ∧
     s = mkRbacSlice (rbacNamespaceManifestWorkName set ns) rbacNamespaceSliceType ns l (manifestsHash l)).
Proof.
  unfold slicesOut. rewrite elem_of_app. f_equiv.
  - destruct (accCluster acc); simpl; [split; [by intros ?%elem_of_nil|by intros []]|].
    rewrite list_elem_of_singleton. naive_solver.
  - rewrite list_elem_of_fmap. split.
    + intros (ns & -> & Hns%sets_List_elem_of%elem_of_dom). destruct Hns as [l Hl].
      exists ns, l. split; [done|]. unfold namespaceSlice. by rewrite Hl.
    + intros (ns & l & Hl & ->). exists ns. unfold namespaceSlice. rewrite Hl. split; [done|].
      apply sets_List_elem_of, elem_of_dom. by exists l.
Qed.

Lemma acc_sound_least_privilege acc s m :
  acc_sound (setGrants set) acc → s ∈ slicesOut set acc → m ∈ sliceManifests s →
  least_privilege set s m.
Proof.
  intros Hacc [[_ ->]|(ns & l & Hl & ->)]%slicesOut_elem Hm; cbn [sliceManifests] in Hm.
  - destruct (acc_cluster_only _ _ Hacc m Hm) as (g & Hg & Ht & Hr & Hsub).
    apply elem_of_cons in Hr as [->|Hr%list_elem_of_singleton]; [|subst m];
      unfold least_privilege; simpl; split_and!; try done.
    + by exists g.
    + do 2 eexists. apply Hsub. by left.
  - destruct (acc_namespace_only _ _ Hacc ns l m Hl Hm) as (g & Hg & Ht & Hr & Hsub).
    apply elem_of_cons in Hr as [->|Hr%list_elem_of_singleton]; [|subst m];
      unfold least_privilege; simpl; split_and!; try done.
    + by exists g.
    + do 2 eexists. apply Hsub. by left.
Qed.

End slices.

(** ** Properties *)

Section properties.
Context `{LabelsLib} `{JSONCodec}.

(** C5: Whatever the API server and the namespace resolver answer, every
    manifest of every RBAC slice is a Role or ClusterRole carrying the rules of
    one grant of the matching type, or the binding of that object to the
    generated service account alone; cluster-scoped objects live only in the
    cluster slice, namespaced objects only in the slice of their own
    namespace. *)
Theorem desiredRBACSlices_least_privilege {W} (h : handler W) (w : W) set clusterName resolver s m :
  s ∈ (out_val (run h (desiredRBACSlices set clusterName resolver) w)).1 →
  m ∈ sliceManifests s → least_privilege set s m.
Proof.
  intros Hs Hm.
  destruct (wp_run h any_call _ _ w (desiredRBACSlices_wp set clusterName resolver any_answer any_call []
    ltac:(by right))) as [[(acc & seg & _ & Hacc & _ & Heq)|(_ & e & Heq)] _]; rewrite Heq in Hs; simpl in Hs.
  - by eapply acc_sound_least_privilege.
  - by apply elem_of_nil in Hs.
Qed.

(** C20: No requested permission is dropped and none is spread: for a set whose
    grants have supported types, every ClusterRole grant is rendered in the
    cluster slice and every Role grant in the slice of each of its namespaces,
    those it names as well as those the resolver answered for its selector,
    even when the namespaces of another grant could not be resolved and an
    error is returned beside the slices; every namespace slice is a namespace of
    some Role grant; without an error every Role grant had its namespaces; and
    when every Role grant names its namespaces there is no error and the
    resolver is not asked. *)
Theorem desiredRBACSlices_complete {W} (h : handler W) (w : W) set clusterName resolver :
  (∀ g, g ∈ setGrants set → supportedType g) →
  let o := run h (desiredRBACSlices set clusterName resolver) w in
  (∀ g, g ∈ setGrants set → grantType g = RBACGrantTypeClusterRole →
     ∃ s, s ∈ (out_val o).1 ∧ sliceName s = rbacClusterManifestWorkName set ∧
          renderClusterGrant set g (grantSubject set) ⊆ sliceManifests s) ∧
  (∀ g ns, g ∈ setGrants set → grantType g = RBACGrantTypeRole →
     grantCovers set clusterName (out_trace o) g ns →
     ∃ s, s ∈ (out_val o).1 ∧ sliceName s = rbacNamespaceManifestWorkName set ns ∧
          sliceTargetNamespace s = ns ∧
          renderNamespacedGrant set g ns (grantSubject set) ⊆ sliceManifests s) ∧
  (∀ s, s ∈ (out_val o).1 → sliceType s = rbacNamespaceSliceType →
     ∃ g, g ∈ setGrants set ∧ grantType g = RBACGrantTypeRole ∧
          grantCovers set clusterName (out_trace o) g (sliceTargetNamespace s)) ∧
  ((out_val o).2 = None → ∀ g, g ∈ setGrants set → grantType g = RBACGrantTypeRole →
     fixedGrant g ∨ ∃ names, asked set clusterName (out_trace o) g names) ∧
  ((∀ g, g ∈ setGrants set → grantType g = RBACGrantTypeRole → fixedGrant g) →
     (out_val o).2 = None ∧ out_trace o = []).
Proof.
  intros Hsup o.
  destruct (wp_run h any_call _ _ w (desiredRBACSlices_wp set clusterName resolver any_answer any_call []
    ltac:(by right))) as [[(acc & seg & Htr & Hacc & [Hcomp _] & Heq)|((g & Hg & Hn) & _)] _];
    [|by destruct Hn; apply Hsup].
  rewrite app_nil_r in Htr. fold o in Heq, Htr. rewrite Heq, Htr. cbn [fst snd]. split_and!.
  - intros g Hg Ht. pose proof (acc_cluster_all _ _ _ Hacc g Hg Ht) as Hsub.
    exists (mkRbacSlice (rbacClusterManifestWorkName set) rbacClusterSliceType ""
              (accCluster acc) (manifestsHash (accCluster acc))).
    split; [|done]. apply slicesOut_elem. left. split; [|done].
    intros Hnil. rewrite Hnil in Hsub. by apply list_nil_subseteq in Hsub.
  - intros g ns Hg Ht Hns.
    destruct (ac_all _ _ _ _ _ Hcomp g ns Hg Ht Hns) as (l & Hl & Hsub).
    exists (mkRbacSlice (rbacNamespaceManifestWorkName set ns) rbacNamespaceSliceType ns l (manifestsHash l)).
    split; [|done]. apply slicesOut_elem. right. by exists ns, l.
  - intros s [[_ ->]|(ns & l & Hl & ->)]%slicesOut_elem; [done|]. intros _. cbn.
    apply (ac_only _ _ _ _ _ Hcomp). by exists l.
  - apply (ac_resolved _ _ _ _ _ Hcomp).
  - intros Hfix. split; [by apply (acc_no_error _ _ _ Hacc)|]. rewrite <- Htr.
    pose proof (wp_run h (λ _ _, False) _ _ w
      (desiredRBACSlices_wp set clusterName resolver any_answer (λ _ _, False) [] ltac:(by left))) as [_ Ht].
    fold o in Ht. destruct (out_trace o) as [|[c r] tr]; [done|]. by destruct Ht.
Qed.

End properties.

Section witnesses.
Import Ref.

(** The slice of namespace app-a of the sample replica set. *)
Definition sampleSlices : list rbacSlice * option error :=
  out_val (run offline (desiredRBACSlices sampleSet "cluster-a" false) tt).

Definition sampleNamespaceSlice : rbacSlice :=
  default (mkRbacSlice "" "" "" [] "") (sampleSlices.1 !! 1).

Lemma desiredRBACSlices_least_privilege_witness :
  sliceTargetNamespace sampleNamespaceSlice = "app-a" ∧
  ∀ m, m ∈ sliceManifests sampleNamespaceSlice → least_privilege sampleSet sampleNamespaceSlice m.
Proof.
  split; [vm_compute; reflexivity|].
  intros m. apply (desiredRBACSlices_least_privilege offline tt sampleSet "cluster-a" false).
  apply (list_elem_of_lookup_2 _ 1). vm_compute. reflexivity.
Defined.

(** A grant that selects namespaces by label, and a resolver that answers. *)
Definition selectorGrant : RBACGrant :=
  mkRBACGrant "by-label" RBACGrantTypeRole
    (Some (mkNamespaceIterator "" [] (Some (mkLabelSelector {["env" := "prod"]} []))))
    (mkRBACGrantMetadata "by-label" ∅ ∅) [sampleRule ["get"] ["secrets"]].

Definition selectorSet : ManagedServiceAccountReplicaSet :=
  sampleSetWith [selectorGrant] ["placement-a"] [finalizerName] None.

Definition answering : handler unit := λ c w,
  (match c return resp c with
   | CResolveNamespaceSelector _ _ _ _ => Ok ["prod-b"; "prod-a"]
   | c => (offline c w).1
   end, w).

Lemma desiredRBACSlices_complete_witness :
  let o := run answering (desiredRBACSlices selectorSet "cluster-a" true) tt in
  map sliceTargetNamespace (out_val o).1 = ["prod-a"; "prod-b"] ∧ (out_val o).2 = None ∧
  ∃ s, s ∈ (out_val o).1 ∧ sliceTargetNamespace s = "prod-b" ∧
       renderNamespacedGrant selectorSet selectorGrant "prod-b" (grantSubject selectorSet) ⊆ sliceManifests s.
Proof.
  intros o.
  destruct (desiredRBACSlices_complete answering tt selectorSet "cluster-a" true) as (_ & Hrole & _).
  { intros g ->%list_elem_of_singleton. by left. }
  split; [vm_compute; reflexivity|]. split; [vm_compute; reflexivity|].
  destruct (Hrole selectorGrant "prod-b") as (s & Hs & _ & Ht & Hm); [by left|done| |by exists s].
  right. split; [intros Hf; by apply Hf|]. exists ["prod-b"; "prod-a"]. split; [|left].
  do 3 eexists. split_and!; [reflexivity|reflexivity|reflexivity|vm_compute; left].
Defined.

End witnesses.
