(* ===== verification/ControllerAccess.v ===== *)
(** * Controller access bootstrap ([internal/controller/controller_access.go])

    The internal service account and the namespace-reader RBAC that the
    controller installs on a cluster when a grant selects namespaces by label,
    with the names of all generated children. *)

From S2P Require Import Prelude GoStd ApiTypes Interfaces Reference Effects Metadata Samples Rbac.
From Stdlib Require Import ZArith Lia Ascii.

Definition controllerAccessRBACSliceType := "controller-access-rbac".

Definition msaGroupVersion := "authentication.open-cluster-management.io/v1beta1".

(** 360 days in nanoseconds. *)
Definition defaultTokenValidity : Z := 360 * 24 * 3600 * 1000000000.

Definition selectorRBACEnabled (set : ManagedServiceAccountReplicaSet) : bool :=
  match specRBAC (setSpec set) with
  | None => false
  | Some rbac =>
      existsb (λ grant, match grantForEachNamespace grant with
                        | Some it => bool_decide (is_Some (niSelector it))
                        | None => false
                        end) (rbacGrants rbac)
  end.

Definition controllerAccessManagedServiceAccountName (set : ManagedServiceAccountReplicaSet) : string :=
  stableChildName [setName set; "controller-access"].

Definition controllerAccessManifestWorkName (set : ManagedServiceAccountReplicaSet) : string :=
  stableChildName [setName set; "access"; "rbac"].

Definition desiredManagedServiceAccountNames (set : ManagedServiceAccountReplicaSet) : gset string :=
  let names := sets_New [tmName (tplMetadata (specTemplate (setSpec set)))] in
  if selectorRBACEnabled set then {[controllerAccessManagedServiceAccountName set]} ∪ names
  else names.

Section building.
Context `{LabelsLib} `{JSONCodec}.

Definition buildControllerAccessManagedServiceAccount (set : ManagedServiceAccountReplicaSet)
    (clusterName placementRefName : string) : ManagedServiceAccount :=
  mkManagedServiceAccount (mkTypeMeta msaGroupVersion "ManagedServiceAccount")
    (newMeta (controllerAccessManagedServiceAccountName set) clusterName
       (childLabels set placementRefName ∅) (sourceAnnotations set))
    (mkManagedServiceAccountSpec true defaultTokenValidity None)
    [].

Definition controllerAccessManifests (set : ManagedServiceAccountReplicaSet) : list Manifest :=
  let name := controllerAccessManagedServiceAccountName set in
  let om := newMeta name "" (sourceLabels set) (sourceAnnotations set) in
  [rawManifest (OClusterRole (mkTypeMeta rbacSchemeGroupVersion "ClusterRole") om
     [mkPolicyRule ["get"; "list"; "watch"] [""] ["namespaces"] [] []]);
   rawManifest (OClusterRoleBinding (mkTypeMeta rbacSchemeGroupVersion "ClusterRoleBinding") om
     [mkSubject "ServiceAccount" "" name (tmNamespace (tplMetadata (specTemplate (setSpec set))))]
     (mkRoleRef rbacGroupName "ClusterRole" name))].

Definition buildControllerAccessManifestWork (set : ManagedServiceAccountReplicaSet)
    (clusterName placementRefName : string) : ManifestWork :=
  let manifests := controllerAccessManifests set in
  buildManifestWork set clusterName placementRefName
    (mkRbacSlice (controllerAccessManifestWorkName set) controllerAccessRBACSliceType ""
       manifests (manifestsHash manifests)).

End building.

(** ** Lemmas on generated names *)

Section names.
Context (set : ManagedServiceAccountReplicaSet).
Context (Hlen : String.length (setName set) + 19 <= DNS1123SubdomainMaxLength).

Lemma short_cluster_name :
  rbacClusterManifestWorkName set = setName set +:+ "-rbac-cluster".
Proof.
  unfold rbacClusterManifestWorkName.
  rewrite (stableChildName_short _ "cluster"); [done|..]; try done.
  - change (strings_Join [setName set; "rbac"; "cluster"] "-")
      with (setName set +:+ "-rbac-cluster"). rewrite length_append. simpl. lia.
  - exists (setName set +:+ "-rbac-"). by rewrite append_assoc.
Qed.

Lemma short_access_name :
  controllerAccessManifestWorkName set = setName set +:+ "-access-rbac".
Proof.
  unfold controllerAccessManifestWorkName.
  rewrite (stableChildName_short _ "rbac"); [done|..]; try done.
  - change (strings_Join [setName set; "access"; "rbac"] "-")
      with (setName set +:+ "-access-rbac"). rewrite length_append. simpl. lia.
  - exists (setName set +:+ "-access-"). by rewrite append_assoc.
Qed.

Lemma short_namespace_name ns :
  rbacNamespaceManifestWorkName set ns = setName set +:+ "-rbac-ns-" +:+ stableHash ns.
Proof.
  unfold rbacNamespaceManifestWorkName.
  rewrite (stableChildName_short _ (stableHash ns)); [done|..].
  - change (strings_Join [setName set; "rbac"; "ns"; stableHash ns] "-")
      with (setName set +:+ "-rbac-ns-" +:+ stableHash ns).
    rewrite !length_append, stableHash_length. simpl. lia.
  - exists (setName set +:+ "-rbac-ns-"). by rewrite append_assoc.
  - intros Hnil. pose proof (stableHash_length ns) as Hl. by rewrite Hnil in Hl.
  - apply stableHash_no_dash.
Qed.

Lemma cluster_ne_access : rbacClusterManifestWorkName set ≠ controllerAccessManifestWorkName set.
Proof. rewrite short_cluster_name, short_access_name. by intros ?%append_inj_l. Qed.

Lemma namespace_ne_access ns :
  rbacNamespaceManifestWorkName set ns ≠ controllerAccessManifestWorkName set.
Proof. rewrite short_namespace_name, short_access_name. by intros ?%append_inj_l. Qed.

Lemma namespace_ne_cluster ns :
  rbacNamespaceManifestWorkName set ns ≠ rbacClusterManifestWorkName set.
Proof. rewrite short_namespace_name, short_cluster_name. by intros ?%append_inj_l. Qed.

Lemma namespace_name_inj ns1 ns2 :
  rbacNamespaceManifestWorkName set ns1 = rbacNamespaceManifestWorkName set ns2 →
  stableHash ns1 = stableHash ns2.
Proof. rewrite !short_namespace_name. by intros ?%append_inj_l%append_inj_l. Qed.

End names.

Section properties.
Context `{LabelsLib} `{JSONCodec}.

(** C26: The ManifestWorks generated for one cluster never collide: for a set
    name that leaves room for the suffixes, and target namespaces whose short
    hashes differ, the names of all RBAC slices are pairwise distinct, the
    slices come in a fixed order (cluster slice first, then the namespaces in
    byte order), and none of them is the name of the controller-access work. *)
Theorem generated_work_names_distinct {W} (h : handler W) (w : W) set clusterName resolver :
  String.length (setName set) + 19 <= DNS1123SubdomainMaxLength →
  let slices := (out_val (run h (desiredRBACSlices set clusterName resolver) w)).1 in
  (∀ s1 s2, s1 ∈ slices → s2 ∈ slices →
     stableHash (sliceTargetNamespace s1) = stableHash (sliceTargetNamespace s2) →
     sliceTargetNamespace s1 = sliceTargetNamespace s2) →
  NoDup (map sliceName slices) ∧
  (controllerAccessManifestWorkName set ∉ map sliceName slices) ∧
  StronglySorted String.le (omap (λ s, if bool_decide (sliceType s = rbacNamespaceSliceType)
                                       then Some (sliceTargetNamespace s) else None) slices).
Proof.
  intros Hlen slices Hhash.
  destruct (wp_run h any_call _ _ w (desiredRBACSlices_wp set clusterName resolver any_answer any_call []
    ltac:(by right))) as [[(acc & seg & _ & Hacc & _ & Heq)|(_ & e & Heq)] _];
    unfold slices in *; rewrite Heq in *; cbn [fst] in *; clear slices Heq;
    [|split_and!; [by apply NoDup_nil|by apply not_elem_of_nil|constructor]].
  assert (∀ s, s ∈ slicesOut set acc → sliceName s ≠ controllerAccessManifestWorkName set) as Hacc'.
  { intros s [[_ ->]|(ns & l & _ & ->)]%slicesOut_elem; simpl;
      [by apply cluster_ne_access|by apply namespace_ne_access]. }
  split_and!.
  - unfold slicesOut in *. rewrite map_app. apply NoDup_app. split_and!.
    + case_goal; [apply NoDup_singleton|by apply NoDup_nil].
    + intros x Hx. case_hyp Hx; [|by apply elem_of_nil in Hx].
      apply list_elem_of_singleton in Hx as ->. rewrite map_map.
      intros (ns & Heq & _)%list_elem_of_fmap. simpl in Heq. by eapply namespace_ne_cluster.
    + rewrite map_map. apply NoDup_fmap_2_strong; [|apply sets_List_NoDup].
      intros ns1 ns2 H1 H2 Heq%namespace_name_inj; [|done].
      apply (Hhash (namespaceSlice set (accNamespaces acc) ns1)
                   (namespaceSlice set (accNamespaces acc) ns2)); [..|done];
        apply elem_of_app; right; by apply list_elem_of_fmap_2.
  - intros (s & Heq & Hs)%list_elem_of_fmap. by eapply Hacc'.
  - unfold slicesOut. rewrite omap_app.
    assert (omap (λ s, if bool_decide (sliceType s = rbacNamespaceSliceType)
                      then Some (sliceTargetNamespace s) else None)
             (map (namespaceSlice set (accNamespaces acc)) (sets_List (dom (accNamespaces acc))))
           = sets_List (dom (accNamespaces acc))) as ->.
    { generalize (sets_List (dom (accNamespaces acc))). intros l.
      induction l as [|x l IH]; [done|]. cbn [map omap list_omap]. simpl. by f_equal. }
    case_goal; simpl; apply sets_List_Sorted.
Qed.

End properties.

Section witnesses.
Import Ref.

Lemma generated_work_names_distinct_witness :
  let slices := (out_val (run offline (desiredRBACSlices sampleSet "cluster-a" false) tt)).1 in
  NoDup (map sliceName slices) ∧ length slices = 3.
Proof.
  split; [|vm_compute; reflexivity].
  apply (generated_work_names_distinct offline tt sampleSet "cluster-a" false).
  - vm_compute. lia.
  - intros s1 s2 H1 H2. revert s2 H2. rewrite <- Forall_forall. revert s1 H1.
    rewrite <- Forall_forall. apply (bool_decide_unpack _). vm_compute. exact I.
Defined.

End witnesses.
