(* ===== verification/Validation.v ===== *)
(** * Runtime validation of a spec
    ([validateRuntimeSpec], [validateGrantObjectNames], [validateGrantMetadata])

    The checks that run on every reconcile before anything is written, with a
    declarative statement of what they accept. *)

From S2P Require Import Prelude GoStd ApiTypes Interfaces Reference Effects Samples Metadata Rbac.
From Stdlib Require Import ZArith Lia.

Definition defaultRolloutStrategy (strategy : RolloutStrategy) : RolloutStrategy :=
  if bool_decide (rsType strategy = "")
  then mkRolloutStrategy RolloutTypeAll (rsAll strategy) (rsProgressive strategy)
         (rsProgressivePerGroup strategy)
  else strategy.

(** The first error a loop body returns. *)
Fixpoint firstError {A} (f : A → option error) (l : list A) : option error :=
  match l with
  | [] => None
  | x :: l' => match f x with Some e => Some e | None => firstError f l' end
  end.

Definition validatePlacementRef (ref : PlacementRef) : option error :=
  if bool_decide (prefName ref = "") then Some (ErrNew "spec.placementRefs[].name is required")
  else
    let t := rsType (defaultRolloutStrategy (prefRolloutStrategy ref)) in
    if bool_decide (t = RolloutTypeAll) || bool_decide (t = RolloutTypeProgressive)
       || bool_decide (t = RolloutTypeProgressivePerGroup)
    then None
    else Some (ErrNew ("unsupported placementRef " +:+ fmt_q (prefName ref)
                       +:+ " rolloutStrategy.type " +:+ fmt_q (rsType (prefRolloutStrategy ref)))).

Definition grantPrefix (grant : RBACGrant) : string := "spec.rbac.grants[" +:+ fmt_q (grantID grant) +:+ "]".

(** Go visits the keys of the two maps in an unspecified order; the model
    takes the order of [map_to_list], which can only change which reserved key
    the message names. *)
Definition validateGrantMetadata (grant : RBACGrant) : option error :=
  let check field (m : labels_Set) :=
    firstError (λ key : string,
      if sets_Has reservedGrantMetadataKeys key
      then Some (ErrNew (grantPrefix grant +:+ ".metadata." +:+ field
                         +:+ " contains reserved key " +:+ fmt_q key))
      else None) (map fst (map_to_list m)) in
  match check "labels" (gmLabels (grantMetadata grant)) with
  | Some e => Some e
  | None => check "annotations" (gmAnnotations (grantMetadata grant))
  end.

Definition namespaceModes (grant : RBACGrant) : nat :=
  match grantForEachNamespace grant with
  | None => 0
  | Some it =>
      (if bool_decide (niName it = "") then 0 else 1) +
      (if 0 <? length (niNames it) then 1 else 0) +
      (match niSelector it with Some _ => 1 | None => 0 end)
  end.

Definition validateGrant (ids : gset string) (grant : RBACGrant) : option error :=
  if bool_decide (grantID grant = "") then Some (ErrNew "spec.rbac.grants[].id is required")
  else if sets_Has ids (grantID grant) then
    Some (ErrNew ("spec.rbac.grants[].id " +:+ fmt_q (grantID grant) +:+ " must be unique"))
  else if bool_decide (gmName (grantMetadata grant) = "") then
    Some (ErrNew (grantPrefix grant +:+ ".metadata.name is required"))
  else if length (grantRules grant) =? 0 then
    Some (ErrNew (grantPrefix grant +:+ ".rules must be non-empty"))
  else
    match validateGrantMetadata grant with
    | Some e => Some e
    | None =>
        if bool_decide (grantType grant = RBACGrantTypeRole) then
          if namespaceModes grant =? 1 then None
          else Some (ErrNew (grantPrefix grant
                             +:+ " type Role requires exactly one forEachNamespace mode"))
        else if bool_decide (grantType grant = RBACGrantTypeClusterRole) then
          if namespaceModes grant =? 0 then None
          else Some (ErrNew (grantPrefix grant
                             +:+ " type ClusterRole must not set forEachNamespace"))
        else Some (ErrNew (grantPrefix grant +:+ ".type " +:+ fmt_q (grantType grant)
                           +:+ " is unsupported"))
    end.

Fixpoint validateGrants (ids : gset string) (grants : list RBACGrant) : option error :=
  match grants with
  | [] => None
  | grant :: rest =>
      match validateGrant ids grant with
      | Some e => Some e
      | None => validateGrants ({[grantID grant]} ∪ ids) rest
      end
  end.

(** [sets.List(namespaces)] of [validateGrantObjectNames]: the fixed
    namespaces of a Role grant. *)
Definition grantNamespaces (it : NamespaceIterator) : list string :=
  let namespaces := if bool_decide (niName it = "") then ∅ else {[niName it]} in
  sets_List (sets_New (niNames it) ∪ namespaces).

Definition namespacedKey (name namespace : string) : string := namespace +:+ "/" +:+ name.

Fixpoint claimNames (name : string) (seen : gset string) (namespaces : list string)
    : result (gset string) :=
  match namespaces with
  | [] => Ok seen
  | namespace :: rest =>
      let key := namespacedKey name namespace in
      if sets_Has seen key then
        Err (ErrNew ("spec.rbac.grants contains duplicate Role metadata.name " +:+ fmt_q name
                     +:+ " for namespace " +:+ fmt_q namespace))
      else claimNames name ({[key]} ∪ seen) rest
  end.

Fixpoint validateObjectNamesLoop (clusterNames namespacedNames : gset string)
    (grants : list RBACGrant) : option error :=
  match grants with
  | [] => None
  | grant :: rest =>
      let name := gmName (grantMetadata grant) in
      if bool_decide (grantType grant = RBACGrantTypeClusterRole) then
        if sets_Has clusterNames name then
          Some (ErrNew ("spec.rbac.grants contains duplicate ClusterRole metadata.name " +:+ fmt_q name))
        else validateObjectNamesLoop ({[name]} ∪ clusterNames) namespacedNames rest
      else if bool_decide (grantType grant = RBACGrantTypeRole) then
        match grantForEachNamespace grant with
        | None => validateObjectNamesLoop clusterNames namespacedNames rest
        | Some it =>
            match claimNames name namespacedNames (grantNamespaces it) with
            | Err e => Some e
            | Ok seen => validateObjectNamesLoop clusterNames seen rest
            end
        end
      else validateObjectNamesLoop clusterNames namespacedNames rest
  end.

Definition validateGrantObjectNames (grants : list RBACGrant) : option error :=
  validateObjectNamesLoop ∅ ∅ grants.

Definition validateRuntimeSpec (set : ManagedServiceAccountReplicaSet) : option error :=
  let spec := setSpec set in
  if length (specPlacementRefs spec) =? 0 then Some (ErrNew "spec.placementRefs must be non-empty")
  else
    match firstError validatePlacementRef (specPlacementRefs spec) with
    | Some e => Some e
    | None =>
        let md := tplMetadata (specTemplate spec) in
        if bool_decide (tmName md = "") || bool_decide (tmNamespace md = "") then
          Some (ErrNew "spec.template.metadata.name and namespace are required")
        else
          match specRBAC spec with
          | None => None
          | Some rbac =>
              match validateGrants ∅ (rbacGrants rbac) with
              | Some e => Some e
              | None => validateGrantObjectNames (rbacGrants rbac)
              end
          end
    end.

(** ** Declarative specification *)

Definition placementRefValid (ref : PlacementRef) : Prop :=
  prefName ref ≠ "" ∧
  rsType (prefRolloutStrategy ref) ∈
    [""; RolloutTypeAll; RolloutTypeProgressive; RolloutTypeProgressivePerGroup].

Definition grantValid (g : RBACGrant) : Prop :=
  grantID g ≠ "" ∧ gmName (grantMetadata g) ≠ "" ∧ grantRules g ≠ [] ∧
  dom (gmLabels (grantMetadata g)) ## reservedGrantMetadataKeys ∧
  dom (gmAnnotations (grantMetadata g)) ## reservedGrantMetadataKeys ∧
  ((grantType g = RBACGrantTypeRole ∧ namespaceModes g = 1) ∨
   (grantType g = RBACGrantTypeClusterRole ∧ namespaceModes g = 0)).

(** The ClusterRole names, and the keys namespace/name of the Roles with fixed
    namespaces, that a list of grants asks for. *)
Definition clusterRoleNames (grants : list RBACGrant) : list string :=
  map (λ g, gmName (grantMetadata g))
    (filter (λ g, grantType g = RBACGrantTypeClusterRole) grants).

Definition roleKeys (g : RBACGrant) : list string :=
  if bool_decide (grantType g = RBACGrantTypeRole) then
    match grantForEachNamespace g with
    | None => []
    | Some it => map (namespacedKey (gmName (grantMetadata g))) (grantNamespaces it)
    end
  else [].

Record specValid (set : ManagedServiceAccountReplicaSet) : Prop := {
  sv_refs : specPlacementRefs (setSpec set) ≠ [];
  sv_ref ref : ref ∈ specPlacementRefs (setSpec set) → placementRefValid ref;
  sv_name : tmName (tplMetadata (specTemplate (setSpec set))) ≠ "";
  sv_namespace : tmNamespace (tplMetadata (specTemplate (setSpec set))) ≠ "";
  sv_grant g : g ∈ setGrants set → grantValid g;
  sv_ids : NoDup (map grantID (setGrants set));
  sv_clusterRoles : NoDup (clusterRoleNames (setGrants set));
  sv_roles : NoDup (flat_map roleKeys (setGrants set));
}.

(** ** Lemmas *)

Lemma firstError_None {A} (f : A → option error) (l : list A) :
  firstError f l = None ↔ ∀ x, x ∈ l → f x = None.
Proof.
  induction l as [|x l IH]; simpl; [split; [by intros _ ? ?%elem_of_nil|done]|].
  destruct (f x) eqn:E.
  - split; [done|]. intros Hf. rewrite <- E. apply Hf. by left.
  - rewrite IH. split; [intros Hf y [->|Hy]%elem_of_cons; auto|].
    intros Hf y Hy. apply Hf. by right.
Qed.

Lemma validatePlacementRef_None ref : validatePlacementRef ref = None ↔ placementRefValid ref.
Proof.
  unfold validatePlacementRef, placementRefValid, defaultRolloutStrategy.
  destruct (bool_decide (prefName ref = "")) eqn:En; breflect; [naive_solver|].
  destruct (bool_decide (rsType (prefRolloutStrategy ref) = "")) eqn:Et; breflect; simpl.
  - rewrite Et. split; [intros _; split; [done|by left]|done].
  - destruct (bool_decide (rsType _ = RolloutTypeAll)) eqn:E1,
      (bool_decide (rsType _ = RolloutTypeProgressive)) eqn:E2,
      (bool_decide (rsType _ = RolloutTypeProgressivePerGroup)) eqn:E3;
      breflect; simpl; set_solver.
Qed.

Lemma reserved_keys_check (m : labels_Set) (msg : string → error) :
  firstError (λ key : string, if sets_Has reservedGrantMetadataKeys key then Some (msg key) else None)
    (map fst (map_to_list m)) = None ↔ dom m ## reservedGrantMetadataKeys.
Proof.
  rewrite firstError_None. split.
  - intros Hf k Hk Hr. apply elem_of_dom in Hk as [v Hv].
    specialize (Hf k). apply sets_Has_true in Hr. rewrite Hr in Hf.
    enough (k ∈ map fst (map_to_list m)) as Hin
      by (specialize (Hf Hin); discriminate Hf).
    apply list_elem_of_fmap. exists (k, v). split; [done|]. by apply elem_of_map_to_list.
  - intros Hd k (kv & -> & Hkv)%list_elem_of_fmap. destruct kv as [k v].
    apply elem_of_map_to_list in Hkv. destruct (sets_Has _ _) eqn:E; [|done].
    apply sets_Has_true in E. destruct (Hd k); [|done]. apply elem_of_dom. by exists v.
Qed.

Lemma validateGrantMetadata_None g :
  validateGrantMetadata g = None ↔
  dom (gmLabels (grantMetadata g)) ## reservedGrantMetadataKeys ∧
  dom (gmAnnotations (grantMetadata g)) ## reservedGrantMetadataKeys.
Proof.
  unfold validateGrantMetadata.
  rewrite <- (reserved_keys_check (gmLabels (grantMetadata g)) (λ key, ErrNew (grantPrefix g +:+ ".metadata." +:+ "labels"
                         +:+ " contains reserved key " +:+ fmt_q key))).
  rewrite <- (reserved_keys_check (gmAnnotations (grantMetadata g)) (λ key, ErrNew (grantPrefix g +:+ ".metadata." +:+ "annotations"
                         +:+ " contains reserved key " +:+ fmt_q key))).
  destruct (firstError _ (map fst (map_to_list (gmLabels _)))); naive_solver.
Qed.

Lemma validateGrant_None ids g :
  validateGrant ids g = None ↔ grantValid g ∧ grantID g ∉ ids.
Proof.
  unfold validateGrant, grantValid.
  destruct (bool_decide (grantID g = "")) eqn:E1; breflect; [naive_solver|].
  destruct (sets_Has ids (grantID g)) eqn:E2.
  { apply sets_Has_true in E2. naive_solver. }
  apply sets_Has_false in E2.
  destruct (bool_decide (gmName (grantMetadata g) = "")) eqn:E3; breflect; [naive_solver|].
  destruct (grantRules g) eqn:E4; simpl; [naive_solver|].
  destruct (validateGrantMetadata g) eqn:E5.
  { split; [done|]. intros [(? & ? & ? & ? & ? & ?) ?].
    by rewrite (proj2 (validateGrantMetadata_None g)) in E5. }
  apply validateGrantMetadata_None in E5 as [??].
  destruct (bool_decide (grantType g = RBACGrantTypeRole)) eqn:E6; breflect.
  - destruct (Nat.eqb_spec (namespaceModes g) 1).
    + split; [|done]. intros _. split_and!; try done. by left.
    + split; [done|]. intros [(? & ? & ? & ? & ? & [[??]|[??]]) ?]; [done|grant_types].
  - destruct (bool_decide (grantType g = RBACGrantTypeClusterRole)) eqn:E7; breflect.
    + destruct (Nat.eqb_spec (namespaceModes g) 0).
      * split; [|done]. intros _. split_and!; try done. by right.
      * split; [done|]. intros [(? & ? & ? & ? & ? & [[??]|[??]]) ?]; [done|done].
    + split; [done|]. intros [(? & ? & ? & ? & ? & [[??]|[??]]) ?]; done.
Qed.

Lemma validateGrants_None ids grants :
  validateGrants ids grants = None ↔
  (∀ g, g ∈ grants → grantValid g ∧ grantID g ∉ ids) ∧ NoDup (map grantID grants).
Proof.
  revert ids. induction grants as [|g grants IH]; intros ids; simpl.
  { split; [|done]. intros _. split; [by intros ? ?%elem_of_nil|by apply NoDup_nil]. }
  destruct (validateGrant ids g) eqn:E.
  - split; [done|]. intros [Hf _].
    rewrite (proj2 (validateGrant_None ids g)) in E; [done|]. apply Hf. by left.
  - apply validateGrant_None in E. rewrite IH, NoDup_cons. split.
    + intros [Hf Hnd]. split_and!; [|intros (g' & Heq & Hg')%list_elem_of_fmap|done].
      * intros g' [->|Hg']%elem_of_cons; [done|]. destruct (Hf g' Hg'). set_solver.
      * destruct (Hf g' Hg') as [_ Hn]. rewrite Heq in Hn. set_solver.
    + intros [Hf [Hg Hnd]]. split; [|done]. intros g' Hg'.
      destruct (Hf g' ltac:(by right)) as [??]. split; [done|].
      rewrite not_elem_of_union, not_elem_of_singleton. split; [|done].
      intros Heq. destruct Hg. apply list_elem_of_fmap. by exists g'.
Qed.

Lemma claimNames_spec name seen nss :
  match claimNames name seen nss with
  | Ok seen' => NoDup (map (namespacedKey name) nss) ∧
                (∀ k, k ∈ map (namespacedKey name) nss → k ∉ seen) ∧
                seen' = seen ∪ sets_New (map (namespacedKey name) nss)
  | Err _ => ¬ (NoDup (map (namespacedKey name) nss) ∧
                ∀ k, k ∈ map (namespacedKey name) nss → k ∉ seen)
  end.
Proof.
  revert seen. induction nss as [|n nss IH]; intros seen; simpl.
  { split_and!; [by apply NoDup_nil|by intros ? ?%elem_of_nil|set_solver]. }
  destruct (sets_Has seen (namespacedKey name n)) eqn:E.
  - apply sets_Has_true in E. intros [_ Hf]. apply (Hf (namespacedKey name n)); [by left|done].
  - apply sets_Has_false in E. specialize (IH ({[namespacedKey name n]} ∪ seen)).
    destruct (claimNames _ _ nss) as [seen'|e].
    + destruct IH as (Hnd & Hf & ->). split_and!.
      * apply NoDup_cons. split; [|done]. intros Hin. apply (Hf _ Hin). set_solver.
      * intros k [->|Hk]%elem_of_cons; [done|]. specialize (Hf k Hk). set_solver.
      * unfold sets_New. cbn [list_to_set]. set_solver.
    + intros [[Hn Hnd]%NoDup_cons Hf]. destruct IH. split; [done|].
      intros k Hk. rewrite not_elem_of_union, not_elem_of_singleton. split; [by intros ->|].
      apply Hf. by right.
Qed.

(** One grant's share of the two name lists. *)
Lemma clusterRoleNames_cons g grants :
  clusterRoleNames (g :: grants) =
  (if bool_decide (grantType g = RBACGrantTypeClusterRole) then [gmName (grantMetadata g)] else [])
  ++ clusterRoleNames grants.
Proof.
  unfold clusterRoleNames. rewrite filter_cons.
  destruct (bool_decide (grantType g = RBACGrantTypeClusterRole)) eqn:E; breflect.
  - by rewrite decide_True.
  - by rewrite decide_False.
Qed.

Definition fresh_for (names : list string) (seen : gset string) : Prop :=
  NoDup names ∧ ∀ n, n ∈ names → n ∉ seen.

Lemma fresh_for_app l1 l2 seen :
  fresh_for (l1 ++ l2) seen ↔ fresh_for l1 seen ∧ fresh_for l2 (seen ∪ sets_New l1).
Proof.
  unfold fresh_for. rewrite NoDup_app. setoid_rewrite elem_of_app.
  setoid_rewrite not_elem_of_union. setoid_rewrite sets_New_elem_of. naive_solver.
Qed.

Lemma validateObjectNamesLoop_None cn nn grants :
  validateObjectNamesLoop cn nn grants = None ↔
  fresh_for (clusterRoleNames grants) cn ∧ fresh_for (flat_map roleKeys grants) nn.
Proof.
  revert cn nn. induction grants as [|g grants IH]; intros cn nn.
  { split; [|done]. intros _. split; (split; [by apply NoDup_nil|by intros ? ?%elem_of_nil]). }
  rewrite clusterRoleNames_cons. cbn [validateObjectNamesLoop flat_map].
  rewrite !fresh_for_app. unfold roleKeys at 1 3.
  assert (∀ X : gset string, fresh_for [] X) as Hnil
    by (intros X; split; [by apply NoDup_nil|by intros ? ?%elem_of_nil]).
  assert (∀ X : gset string, X ∪ sets_New [] = X) as Hun
    by (intros X; unfold sets_New; simpl; set_solver).
  destruct (bool_decide (grantType g = RBACGrantTypeClusterRole)) eqn:Ec; breflect.
  - rewrite bool_decide_eq_false_2 by grant_types. rewrite Hun.
    destruct (sets_Has cn (gmName (grantMetadata g))) eqn:Eh.
    + apply sets_Has_true in Eh. split; [done|]. intros [[[_ Hf] _] _]. destruct (Hf _ (list_elem_of_here _ _) Eh).
    + apply sets_Has_false in Eh. rewrite IH.
      replace (cn ∪ sets_New [gmName (grantMetadata g)]) with ({[gmName (grantMetadata g)]} ∪ cn)
        by (unfold sets_New; cbn [list_to_set]; set_solver).
      split; [intros [??]|intros [[??][??]]]; split_and!; try done.
      split; [apply NoDup_singleton|]. by intros ? ->%list_elem_of_singleton.
  - rewrite Hun. destruct (bool_decide (grantType g = RBACGrantTypeRole)) eqn:Er.
    + destruct (grantForEachNamespace g) as [it|]; [|rewrite Hun, IH; pose proof (Hnil cn); pose proof (Hnil nn); tauto].
      pose proof (claimNames_spec (gmName (grantMetadata g)) nn (grantNamespaces it)) as Hc.
      destruct (claimNames _ _ _) as [seen|e].
      * destruct Hc as (Hnd & Hf & ->). rewrite IH.
        assert (fresh_for (map (namespacedKey (gmName (grantMetadata g))) (grantNamespaces it)) nn)
          by done. pose proof (Hnil cn). tauto.
      * split; [done|]. intros [_ [Hf _]]. by destruct Hc.
    + rewrite Hun, IH. pose proof (Hnil cn). pose proof (Hnil nn). tauto.
Qed.

Lemma validateRuntimeSpec_None set : validateRuntimeSpec set = None ↔ specValid set.
Proof.
  unfold validateRuntimeSpec.
  destruct (specPlacementRefs (setSpec set)) as [|ref refs] eqn:Er; cbn [length Nat.eqb].
  { split; [done|]. intros [Hr _ _ _ _ _ _ _]. by rewrite Er in Hr. }
  rewrite <- Er.
  destruct (firstError _ _) eqn:Ef.
  { split; [done|]. intros [_ Hr _ _ _ _ _ _]. rewrite <- Ef.
    apply firstError_None. intros x Hx. by apply validatePlacementRef_None, Hr. }
  pose proof (proj1 (firstError_None _ _) Ef) as Hrefs.
  destruct (bool_decide (tmName _ = "")) eqn:En; breflect; simpl.
  { split; [done|]. by intros [_ _ ? _ _ _ _ _]. }
  destruct (bool_decide (tmNamespace _ = "")) eqn:Ens; breflect; simpl.
  { split; [done|]. by intros [_ _ _ ? _ _ _ _]. }
  assert ((∀ g, g ∈ setGrants set → grantValid g ∧ grantID g ∉ (∅ : gset string)) ∧
          NoDup (map grantID (setGrants set)) ∧
          fresh_for (clusterRoleNames (setGrants set)) ∅ ∧
          fresh_for (flat_map roleKeys (setGrants set)) ∅ ↔ specValid set) as Hiff.
  { split.
    - intros (Hg & Hid & [Hc _] & [Hk _]).
      constructor; [rewrite Er; discriminate| |exact En|exact Ens| |exact Hid|exact Hc|exact Hk].
      + intros r Hr. apply validatePlacementRef_None, Hrefs, Hr.
      + intros g Hg'. apply (Hg g Hg').
    - intros [_ _ _ _ Hg Hid Hc Hk].
      split; [intros g Hg'; split; [apply (Hg g Hg')|apply not_elem_of_empty]|].
      split; [exact Hid|]. split; (split; [assumption|intros n _; apply not_elem_of_empty]). }
  rewrite <- Hiff. unfold setGrants. destruct (specRBAC (setSpec set)) as [rbac|]; cycle 1.
  { split; [|done]. intros _.
    split_and!; [by intros ? ?%elem_of_nil|by apply NoDup_nil|..];
      (split; [by apply NoDup_nil|by intros ? ?%elem_of_nil]). }
  destruct (validateGrants ∅ (rbacGrants rbac)) eqn:Eg.
  - split; [done|]. intros (Hg & Hid & _). rewrite <- Eg. by apply validateGrants_None.
  - apply validateGrants_None in Eg as [??]. unfold validateGrantObjectNames.
    rewrite validateObjectNamesLoop_None. tauto.
Qed.

(** ** Properties *)

(** C19: [validateRuntimeSpec] accepts exactly the specs with at least one
    placement ref, all of them named and with a known rollout type, a named
    template, and grants with unique ids, names, rules, no reserved metadata
    key and exactly the namespace mode their type allows, such that no two
    grants render the same ClusterRole or the same Role in the same fixed
    namespace. *)
Theorem validateRuntimeSpec_spec set : validateRuntimeSpec set = None ↔ specValid set.
Proof. apply validateRuntimeSpec_None. Qed.

Section witnesses.
Import Ref.

Lemma validateRuntimeSpec_spec_witness : specValid sampleSet.
Proof. apply (validateRuntimeSpec_spec sampleSet). vm_compute. reflexivity. Defined.

End witnesses.
