(* ===== verification/Conditions.v ===== *)
(** * Status conditions ([setCondition], [applyChildResultConditions], ...)

    The top-level conditions of a replica set as functions of what a reconcile
    pass found.  [now] is the wall clock of the pass. *)

From S2P Require Import Prelude GoStd ApiTypes Interfaces Reference Effects Samples.
From Stdlib Require Import ZArith Lia.

(** ** Condition types, reasons and messages *)

Definition conditionPlacementResolved := "PlacementResolved".
Definition conditionManagedServiceAccountsReady := "ManagedServiceAccountsReady".
Definition conditionRemotePermissionsApplied := "RemotePermissionsApplied".
Definition conditionCleanupBlocked := "CleanupBlocked".
Definition conditionReady := "Ready".
Definition conditionPlacementRolledOut := "PlacementRolledOut".
Definition conditionPlacementEmpty := "PlacementEmpty".
Definition conditionProgressing := "Progressing".

Definition reasonInvalidSpec := "InvalidSpec".
Definition reasonPlacementUnavailable := "PlacementUnavailable".
Definition reasonResolved := "AsExpected".
Definition reasonNoDecisions := "NoDecisions".
Definition reasonApplyFailed := "ApplyFailed".
Definition reasonChildConflict := "ChildConflict".
Definition reasonClusterFailed := "ClusterFailed".
Definition reasonWaitingForCredentials := "WaitingForCredentials".
Definition reasonWaitingForRBAC := "WaitingForRBAC".
Definition reasonReady := "Ready".
Definition reasonProgressing := "Progressing".
Definition reasonCompleted := "Completed".
Definition reasonComplete := "Complete".
Definition reasonDisabled := "Disabled".
Definition reasonApplied := "Applied".
Definition reasonNotDeleting := "NotDeleting".
Definition reasonWaitingForOCMCleanup := "WaitingForOCMCleanup".
Definition reasonCleanupBlocked := "CleanupBlocked".

Definition msgChildConflict := "one or more generated children conflict with existing objects".
Definition msgClusterFailed := "one or more selected clusters could not be reconciled".
Definition msgWaitingForCredentials :=
  "generated ManagedServiceAccounts are not ready on every selected cluster".
Definition msgWaitingForRBAC :=
  "generated RBAC ManifestWorks are not available on every selected cluster".
Definition msgStaleCleanupBlocked :=
  "waiting for stale ManifestWork cleanup before deleting stale ManagedServiceAccounts".
Definition msgStaleCleanupInProgress := "stale child cleanup is still in progress".

(** [10 * time.Second] and [30 * time.Second]. *)
Definition cleanupRequeueInterval : Z := 10000000000.
Definition selectorRequeueInterval : Z := 30000000000.

(** ** The outcome of reconciling the children *)

Record childReconcileResult := mkChildResult {
  crReady : Z;
  crConflicts : Z;
  crFailures : Z;
  crCleanupPending : bool;
  crErr : option error;
}.

Definition emptyChildResult : childReconcileResult := mkChildResult 0 0 0 false None.

(** [recordErr]: a conflict is counted, any other error is also kept. *)
Definition recordErr (r : childReconcileResult) (err : error) : childReconcileResult :=
  if is_errChildConflict err
  then mkChildResult (crReady r) (int32_add (crConflicts r) 1) (crFailures r)
         (crCleanupPending r) (crErr r)
  else mkChildResult (crReady r) (crConflicts r) (int32_add (crFailures r) 1)
         (crCleanupPending r) (errors_Join [crErr r; Some err]).

(** ** Operations *)

Section operations.
Context `{MetaConditions} (now : Z).

Definition setCondition (conditions : list Condition)
    (conditionType conditionStatus reason message : string) (generation : Z) : list Condition :=
  SetStatusCondition now conditions
    (mkCondition conditionType conditionStatus generation None reason message).

(** [setCondition(&status.Conditions, ...)]. *)
Definition setStatusCondition (status : ManagedServiceAccountReplicaSetStatus)
    (conditionType conditionStatus reason message : string) (generation : Z)
    : ManagedServiceAccountReplicaSetStatus :=
  with_stConditions status
    (setCondition (stConditions status) conditionType conditionStatus reason message generation).

Definition newStatus (set : ManagedServiceAccountReplicaSet)
    : ManagedServiceAccountReplicaSetStatus :=
  mkStatus (stObservedGeneration (setStatus set)) 0 0 None None None []
    (stConditions (setStatus set)).

Definition setNotDeletingCondition (status : ManagedServiceAccountReplicaSetStatus) (generation : Z) :=
  setStatusCondition status conditionCleanupBlocked ConditionFalse reasonNotDeleting
    "cleanup is not active" generation.

Definition setEarlyReturnConditions (status : ManagedServiceAccountReplicaSetStatus)
    (reason msg : string) (generation : Z) : ManagedServiceAccountReplicaSetStatus :=
  setNotDeletingCondition
    (foldl (λ st t, setStatusCondition st t ConditionFalse reason msg generation) status
       [conditionPlacementResolved;
        conditionManagedServiceAccountsReady;
        conditionRemotePermissionsApplied;
        conditionPlacementRolledOut;
        conditionReady])
    generation.

Definition summaryRBACPending (s : option Summary) : bool :=
  match s with
  | None => false
  | Some s => (sumAvailable s <? sumDesiredTotal s)%Z
  end.

Definition setBoth (status : ManagedServiceAccountReplicaSetStatus) (s reason msg : string)
    (generation : Z) : ManagedServiceAccountReplicaSetStatus :=
  setStatusCondition
    (setStatusCondition status conditionManagedServiceAccountsReady s reason msg generation)
    conditionReady s reason msg generation.

Definition applyReadyConditions (status : ManagedServiceAccountReplicaSetStatus)
    (result : childReconcileResult) (totalClusters : nat) (generation : Z) (remoteEnabled : bool)
    : ManagedServiceAccountReplicaSetStatus :=
  match crErr result with
  | Some e => setBoth status ConditionFalse reasonApplyFailed (Error e) generation
  | None =>
      if (0 <? crConflicts result)%Z then
        setBoth status ConditionFalse reasonChildConflict msgChildConflict generation
      else if (0 <? crFailures result)%Z then
        setBoth status ConditionFalse reasonClusterFailed msgClusterFailed generation
      else if (crReady result <? int32 (Z.of_nat totalClusters))%Z then
        if remoteEnabled && summaryRBACPending (stSummary status) then
          setBoth status ConditionFalse reasonWaitingForRBAC msgWaitingForRBAC generation
        else
          setBoth status ConditionFalse reasonWaitingForCredentials msgWaitingForCredentials generation
      else
        setStatusCondition
          (setStatusCondition status conditionManagedServiceAccountsReady ConditionTrue reasonReady
             "generated ManagedServiceAccounts are ready" generation)
          conditionReady ConditionTrue reasonReady "all selected clusters are reconciled" generation
  end.

Definition applyRemoteCondition (status : ManagedServiceAccountReplicaSetStatus)
    (result : childReconcileResult) (generation : Z) (remoteEnabled : bool)
    : ManagedServiceAccountReplicaSetStatus :=
  if negb remoteEnabled then
    setStatusCondition status conditionRemotePermissionsApplied ConditionTrue reasonDisabled
      "remote permissions are disabled" generation
  else if bool_decide (is_Some (crErr result)) || (0 <? crConflicts result)%Z
          || (0 <? crFailures result)%Z then
    setStatusCondition status conditionRemotePermissionsApplied ConditionFalse reasonApplyFailed
      "remote permissions were not applied to every selected cluster" generation
  else if summaryRBACPending (stSummary status) then
    setStatusCondition status conditionRemotePermissionsApplied ConditionFalse reasonWaitingForRBAC
      msgWaitingForRBAC generation
  else
    setStatusCondition status conditionRemotePermissionsApplied ConditionTrue reasonApplied
      "remote permissions were applied" generation.

Definition applyChildResultConditions (status : ManagedServiceAccountReplicaSetStatus)
    (result : childReconcileResult) (totalClusters : nat) (generation : Z) (remoteEnabled : bool)
    : ManagedServiceAccountReplicaSetStatus :=
  applyRemoteCondition (applyReadyConditions status result totalClusters generation remoteEnabled)
    result generation remoteEnabled.

Definition applyPlacementRolledOutCondition (status : ManagedServiceAccountReplicaSetStatus)
    (summary : option RolloutSummary) (generation : Z) : ManagedServiceAccountReplicaSetStatus :=
  match summary with
  | None => status
  | Some summary =>
      match FindStatusCondition (rsumConditions summary) conditionProgressing with
      | None => status
      | Some progressing =>
          if bool_decide (condStatus progressing = ConditionFalse)
             && bool_decide (condReason progressing = reasonCompleted)
          then setStatusCondition status conditionPlacementRolledOut ConditionTrue reasonComplete
                 (condMessage progressing) generation
          else setStatusCondition status conditionPlacementRolledOut ConditionFalse reasonProgressing
                 (condMessage progressing) generation
      end
  end.

End operations.

(** ** Reading conditions back *)

Section reading.
Context `{MetaConditions}.

Definition conditionIs (cs : list Condition) (t s reason : string) (generation : Z) : Prop :=
  ∃ c, FindStatusCondition cs t = Some c ∧ condStatus c = s ∧ condReason c = reason ∧
       condObservedGeneration c = generation.

Definition statusOf (cs : list Condition) (t : string) : option string :=
  condStatus <$> FindStatusCondition cs t.

Definition reasonOf (cs : list Condition) (t : string) : option string :=
  condReason <$> FindStatusCondition cs t.

Lemma find_setCondition now cs t s reason msg g t' :
  FindStatusCondition (setCondition now cs t s reason msg g) t' =
  if decide (t' = t) then
    Some (mkCondition t s g
            (match FindStatusCondition cs t with
             | Some old => if decide (condStatus old = s) then condLastTransitionTime old else Some now
             | None => Some now
             end) reason msg)
  else FindStatusCondition cs t'.
Proof. unfold setCondition. by rewrite find_set. Qed.

Lemma statusOf_setCondition now cs t s reason msg g t' :
  statusOf (setCondition now cs t s reason msg g) t' =
  if decide (t' = t) then Some s else statusOf cs t'.
Proof. unfold statusOf. rewrite find_setCondition. by case_decide. Qed.

Lemma reasonOf_setCondition now cs t s reason msg g t' :
  reasonOf (setCondition now cs t s reason msg g) t' =
  if decide (t' = t) then Some reason else reasonOf cs t'.
Proof. unfold reasonOf. rewrite find_setCondition. by case_decide. Qed.

Lemma conditionIs_setCondition_eq now cs t s reason msg g :
  conditionIs (setCondition now cs t s reason msg g) t s reason g.
Proof. unfold conditionIs. rewrite find_setCondition, decide_True by done. by eexists. Qed.

Lemma conditionIs_setCondition_ne now cs t s reason msg g t' s' reason' g' :
  t' ≠ t → conditionIs (setCondition now cs t s reason msg g) t' s' reason' g' ↔
           conditionIs cs t' s' reason' g'.
Proof. intros Hne. unfold conditionIs. by rewrite find_setCondition, decide_False. Qed.

(** The transition time of a condition moves only when its status does. *)
Lemma setCondition_keeps_time now cs t s reason msg g old :
  FindStatusCondition cs t = Some old → condStatus old = s →
  ∃ c, FindStatusCondition (setCondition now cs t s reason msg g) t = Some c ∧
       condLastTransitionTime c = condLastTransitionTime old.
Proof.
  intros Hf Hs. rewrite find_setCondition, decide_True, Hf, decide_True by done. by eexists.
Qed.

Lemma stConditions_setStatusCondition now st t s reason msg g :
  stConditions (setStatusCondition now st t s reason msg g) =
  setCondition now (stConditions st) t s reason msg g.
Proof. done. Qed.

End reading.

(** Evaluate the status or reason of a named condition through a chain of
    [setCondition]s on literal condition types. *)
Ltac read_conditions :=
  repeat first
    [ rewrite stConditions_setStatusCondition
    | rewrite statusOf_setCondition | rewrite reasonOf_setCondition
    | rewrite decide_True by reflexivity | rewrite decide_False by discriminate ].

(** ** Properties *)

(** The invariant of [childReconcileResult] kept by [recordErr] while the
    counters do not overflow. *)
Definition childResultInv (r : childReconcileResult) : Prop :=
  (crFailures r = 0%Z ↔ crErr r = None) ∧ (0 <= crConflicts r)%Z ∧ (0 <= crFailures r)%Z.

Lemma recordErr_inv r e :
  childResultInv r → (crConflicts r + 1 < 2^31)%Z → (crFailures r + 1 < 2^31)%Z →
  childResultInv (recordErr r e).
Proof.
  intros (Hiff & Hc & Hf) Hcb Hfb. unfold recordErr, childResultInv, int32_add.
  destruct (is_errChildConflict e); cbn [crFailures crErr crConflicts].
  - rewrite int32_small by lia. split_and!; [done|lia|lia].
  - rewrite int32_small by lia. split_and!; [|lia|lia].
    destruct (errors_Join_acc (crErr r) e) as [j ->]. split; [lia|done].
Qed.

Section properties.
Context `{MetaConditions}.

Lemma applyChildResultConditions_spec now status result total generation remote :
  let cs := stConditions (applyChildResultConditions now status result total generation remote) in
  statusOf cs conditionReady =
    Some (if bool_decide (crErr result = None) && negb (0 <? crConflicts result)%Z
             && negb (0 <? crFailures result)%Z && (int32 (Z.of_nat total) <=? crReady result)%Z
          then ConditionTrue else ConditionFalse) ∧
  statusOf cs conditionManagedServiceAccountsReady = statusOf cs conditionReady ∧
  statusOf cs conditionRemotePermissionsApplied =
    Some (if negb remote
             || (bool_decide (crErr result = None) && negb (0 <? crConflicts result)%Z
                 && negb (0 <? crFailures result)%Z && negb (summaryRBACPending (stSummary status)))
          then ConditionTrue else ConditionFalse).
Proof.
  unfold applyChildResultConditions.
  set (st1 := applyReadyConditions now status result total generation remote).
  assert (stSummary st1 = stSummary status) as Hsum.
  { unfold st1, applyReadyConditions. repeat case_goal; done. }
  assert (∀ t, t ≠ conditionRemotePermissionsApplied →
    statusOf (stConditions (applyRemoteCondition now st1 result generation remote)) t =
    statusOf (stConditions st1) t) as Hother.
  { intros t Ht. unfold applyRemoteCondition.
    repeat case_goal; rewrite stConditions_setStatusCondition, statusOf_setCondition, decide_False; done. }
  cbn zeta. rewrite !Hother by discriminate. split_and!.
  - unfold st1, applyReadyConditions, setBoth. rewrite Z.leb_antisym.
    destruct (crErr result) eqn:Ee; [rewrite bool_decide_eq_false_2 by done|rewrite bool_decide_eq_true_2 by done];
      repeat case_goal; read_conditions; simpl; try done.
  - unfold st1, applyReadyConditions, setBoth. repeat case_goal; read_conditions; done.
  - unfold applyRemoteCondition. rewrite Hsum.
    destruct remote; simpl; [|by read_conditions].
    destruct (crErr result) eqn:Ee; simpl;
      [by read_conditions|].
    destruct (0 <? crConflicts result)%Z, (0 <? crFailures result)%Z, (summaryRBACPending (stSummary status));
      simpl; by read_conditions.
Qed.

(** Readiness is honest: after [applyChildResultConditions] the condition
    Ready is True exactly when the pass recorded no error, no conflict and no
    failure and every selected cluster is ready; ManagedServiceAccountsReady
    always agrees with it; and RemotePermissionsApplied is True exactly when
    remote RBAC is disabled or the pass was clean and every desired RBAC work
    is available. *)
Theorem applyChildResultConditions_ready now status result total generation remote :
  let cs := stConditions (applyChildResultConditions now status result total generation remote) in
  statusOf cs conditionReady =
    Some (if bool_decide (crErr result = None) && negb (0 <? crConflicts result)%Z
             && negb (0 <? crFailures result)%Z && (int32 (Z.of_nat total) <=? crReady result)%Z
          then ConditionTrue else ConditionFalse) ∧
  statusOf cs conditionManagedServiceAccountsReady = statusOf cs conditionReady ∧
  statusOf cs conditionRemotePermissionsApplied =
    Some (if negb remote
             || (bool_decide (crErr result = None) && negb (0 <? crConflicts result)%Z
                 && negb (0 <? crFailures result)%Z && negb (summaryRBACPending (stSummary status)))
          then ConditionTrue else ConditionFalse).
Proof. apply applyChildResultConditions_spec. Qed.

End properties.
