(* ===== verification/Children.v ===== *)
(** * Generated children ([ensureChild], [childMatches], the builders)

    Creating or patching one generated ManagedServiceAccount or ManifestWork.
    The generic [ensureChild] of the sources is generic here too: the class
    [ClientObject] is the [client.Object] constraint, and [childSpecOps] the
    record of spec operations that is passed along. *)

From S2P Require Import Prelude GoStd ApiTypes Interfaces Reference Effects Samples.
From S2P Require Import Metadata Rbac ControllerAccess.
From Stdlib Require Import ZArith Lia.

(** ** Client objects *)

Class ClientObject (T : Type) := {
  objMeta : T → ObjectMeta;
  objKind : T → string;
  withObjMeta : T → ObjectMeta → T;
  client_Get : NamespacedName → prog (result T);
  client_Create : T → prog (result T);
  client_Patch : T → T → prog (result T);
}.

#[export] Instance msaObject : ClientObject ManagedServiceAccount := {|
  objMeta := msaMeta;
  objKind o := tmKind (msaTypeMeta o);
  withObjMeta o m := mkManagedServiceAccount (msaTypeMeta o) m (msaSpec o) (msaConditions o);
  client_Get key := send (CGetMSA key);
  client_Create o := send (CCreateMSA o);
  client_Patch base o := send (CPatchMSA base o);
|}.

#[export] Instance workObject : ClientObject ManifestWork := {|
  objMeta := mwMeta;
  objKind o := tmKind (mwTypeMeta o);
  withObjMeta o m := mkManifestWork (mwTypeMeta o) m (mwSpec o) (mwConditions o);
  client_Get key := send (CGetWork key);
  client_Create o := send (CCreateWork o);
  client_Patch base o := send (CPatchWork base o);
|}.

Record childSpecOps (T : Type) := mkChildSpecOps {
  ops_apply : T → T → T;
  ops_equal : T → T → bool;
}.
Arguments mkChildSpecOps {T} _ _.
Arguments ops_apply {T} _ _ _.
Arguments ops_equal {T} _ _ _.

(** ** Equality of ManifestWork specs *)

Section equality.
Context `{SemanticEquality} `{JSONCodec}.

(** [None] when marshalling fails; nil bytes are the empty string. *)
Definition rawExtensionJSON (raw : RawExtension) : option string :=
  if 0 <? String.length (rawRaw raw) then Some (rawRaw raw)
  else match rawObject raw with
       | None => Some ""
       | Some o => json_Marshal o
       end.

Definition rawExtensionsEqual (current desired : RawExtension) : bool :=
  match rawExtensionJSON current with
  | None => false
  | Some currentJSON =>
      match rawExtensionJSON desired with
      | None => false
      | Some desiredJSON =>
          if (String.length currentJSON =? 0) || (String.length desiredJSON =? 0)
          then String.length currentJSON =? String.length desiredJSON
          else if bool_decide (currentJSON = desiredJSON) then true
          else
            match json_Unmarshal currentJSON, json_Unmarshal desiredJSON with
            | Some currentValue, Some desiredValue => DeepEqual currentValue desiredValue
            | _, _ => false
            end
      end
  end.

Definition withoutManifests (spec : ManifestWorkSpec) : ManifestWorkSpec :=
  mkManifestWorkSpec [] (mwsDeleteOption spec) (mwsOther spec).

Definition manifestWorkSpecsEqual (current desired : ManifestWorkSpec) : bool :=
  if negb (length (mwsManifests current) =? length (mwsManifests desired)) then false
  else if negb (DeepEqual (withoutManifests current) (withoutManifests desired)) then false
  else forallb (λ p, rawExtensionsEqual p.1 p.2) (zip (mwsManifests current) (mwsManifests desired)).

Definition msaSpecOps : childSpecOps ManagedServiceAccount := mkChildSpecOps
  (λ current desired,
     mkManagedServiceAccount (msaTypeMeta current) (msaMeta current) (msaSpec desired) (msaConditions current))
  (λ current desired, DeepEqual (msaSpec current) (msaSpec desired)).

Definition manifestWorkSpecOps : childSpecOps ManifestWork := mkChildSpecOps
  (λ current desired,
     mkManifestWork (mwTypeMeta current) (mwMeta current) (mwSpec desired) (mwConditions current))
  (λ current desired, manifestWorkSpecsEqual (mwSpec current) (mwSpec desired)).

Definition childMatches {T} `{ClientObject T} (current desired : T) (ops : childSpecOps T) : bool :=
  DeepEqual (omLabels (objMeta current)) (omLabels (objMeta desired)) &&
  DeepEqual (omAnnotations (objMeta current)) (omAnnotations (objMeta desired)) &&
  ops_equal ops current desired.

End equality.

(** ** Ensuring a child *)

Section ensure.
Context `{LabelsLib} `{SemanticEquality} `{JSONCodec} `{ApiErrors}.

Definition notOwnedError (kind namespace name : string) : error :=
  ErrWrap (msgErrChildConflict +:+ ": " +:+ kind +:+ " " +:+ namespace +:+ "/" +:+ name
           +:+ " is not owned by this set") ErrChildConflict.

(** The object [ensureChild] sends as the patch: [current] with the labels,
    annotations and spec of [desired]. *)
Definition patchedChild {T} `{ClientObject T} (current desired : T) (ops : childSpecOps T) : T :=
  ops_apply ops
    (withObjMeta current
       (with_annotations (with_labels (objMeta current) (omLabels (objMeta desired)))
          (omAnnotations (objMeta desired))))
    desired.

Definition ensureChild {T} `{ClientObject T} (set : ManagedServiceAccountReplicaSet) (desired : T)
    (ops : childSpecOps T) : prog (result T) :=
  got ← client_Get (ObjectKey (objMeta desired));
  match got with
  | Err e => if IsNotFound e then client_Create desired else mret (Err e)
  | Ok current =>
      if negb (ownedBySet set (omLabels (objMeta current))) then
        mret (Err (notOwnedError (objKind desired) (omNamespace (objMeta current))
                     (omName (objMeta current))))
      else if childMatches current desired ops then mret (Ok current)
      else client_Patch current (patchedChild current desired ops)
  end.

(** ** Builders *)

Definition buildManagedServiceAccount (set : ManagedServiceAccountReplicaSet)
    (clusterName placementRefName : string) : ManagedServiceAccount :=
  let tpl := specTemplate (setSpec set) in
  let rotation := tsRotation (tplSpec tpl) in
  let validity := default defaultTokenValidity (rotValidity rotation) in
  mkManagedServiceAccount (mkTypeMeta msaGroupVersion "ManagedServiceAccount")
    (newMeta (tmName (tplMetadata tpl)) clusterName
       (childLabels set placementRefName (tmLabels (tplMetadata tpl)))
       (childAnnotations set (tmAnnotations (tplMetadata tpl))))
    (mkManagedServiceAccountSpec (default true (rotEnabled rotation)) validity
       (tsTTLSecondsAfterCreation (tplSpec tpl)))
    [].

Definition ensureManagedServiceAccount (set : ManagedServiceAccountReplicaSet)
    (clusterName placementRefName : string) : prog (result ManagedServiceAccount) :=
  ensureChild set (buildManagedServiceAccount set clusterName placementRefName) msaSpecOps.

Definition ensureControllerAccessManagedServiceAccount (set : ManagedServiceAccountReplicaSet)
    (clusterName placementRefName : string) : prog (result ManagedServiceAccount) :=
  ensureChild set (buildControllerAccessManagedServiceAccount set clusterName placementRefName)
    msaSpecOps.

Definition ensureControllerAccessManifestWork (set : ManagedServiceAccountReplicaSet)
    (clusterName placementRefName : string) : prog (result ManifestWork) :=
  ensureChild set (buildControllerAccessManifestWork set clusterName placementRefName)
    manifestWorkSpecOps.

Definition ensureManifestWork (set : ManagedServiceAccountReplicaSet)
    (clusterName placementRefName : string) (slice : rbacSlice) : prog (result ManifestWork) :=
  ensureChild set (buildManifestWork set clusterName placementRefName slice) manifestWorkSpecOps.

End ensure.

Section ready.
Context `{MetaConditions}.

Definition managedServiceAccountReady (msa : ManagedServiceAccount) : bool :=
  IsStatusConditionTrue (msaConditions msa) ConditionTypeTokenReported ||
  IsStatusConditionTrue (msaConditions msa) ConditionTypeSecretCreated.

End ready.

(** ** Lemmas *)

Section lemmas.
Context `{LabelsLib} `{SemanticEquality} `{JSONCodec} `{ApiErrors}.

Lemma buildMSA_owned set cl ref :
  ownedBySet set (omLabels (msaMeta (buildManagedServiceAccount set cl ref))) = true.
Proof. apply ownedBySet_spec, sourceLabels_subseteq_childLabels. Qed.

Lemma buildAccessMSA_owned set cl ref :
  ownedBySet set (omLabels (msaMeta (buildControllerAccessManagedServiceAccount set cl ref))) = true.
Proof. apply ownedBySet_spec, sourceLabels_subseteq_childLabels. Qed.

Lemma buildWork_owned set cl ref slice :
  ownedBySet set (omLabels (mwMeta (buildManifestWork set cl ref slice))) = true.
Proof.
  apply ownedBySet_spec. unfold buildManifestWork. cbn [mwMeta omLabels newMeta].
  assert (sourceLabels set ⊆ <[labelSliceType := sliceType slice]> (childLabels set ref ∅)) as Hs.
  { apply sourceLabels_insert; [apply sourceLabels_subseteq_childLabels|].
    apply (bool_decide_unpack _). vm_compute. exact I. }
  destruct (bool_decide _); cbn [negb]; [exact Hs|].
  apply sourceLabels_insert; [apply sourceLabels_insert; [exact Hs|]|];
    apply (bool_decide_unpack _); vm_compute; exact I.
Qed.

Lemma buildAccessWork_owned set cl ref :
  ownedBySet set (omLabels (mwMeta (buildControllerAccessManifestWork set cl ref))) = true.
Proof.
  apply ownedBySet_spec. apply sourceLabels_insert; [apply sourceLabels_subseteq_childLabels|].
  apply (bool_decide_unpack _). vm_compute. exact I.
Qed.

Lemma rawExtensionsEqual_refl raw :
  is_Some (rawExtensionJSON raw) → rawExtensionsEqual raw raw = true.
Proof.
  intros [j Hj]. unfold rawExtensionsEqual. rewrite Hj.
  destruct (_ || _); [apply Nat.eqb_refl|]. by rewrite bool_decide_eq_true_2.
Qed.

Lemma manifestWorkSpecsEqual_refl spec :
  (∀ m, m ∈ mwsManifests spec → is_Some (rawExtensionJSON m)) →
  manifestWorkSpecsEqual spec spec = true.
Proof.
  intros Hm. unfold manifestWorkSpecsEqual. rewrite Nat.eqb_refl, DeepEqual_refl. simpl.
  induction (mwsManifests spec) as [|m l IH]; simpl; [done|].
  rewrite rawExtensionsEqual_refl by (apply Hm; by left). apply IH. intros m' Hm'. apply Hm. by right.
Qed.

(** The manifests a spec carries can be marshalled. *)
Definition encodable (spec : ManifestWorkSpec) : Prop :=
  ∀ m, m ∈ mwsManifests spec → is_Some (rawExtensionJSON m).

End lemmas.

(** ** Write discipline

    What every write of a child must satisfy, given the history of the pass. *)

Section discipline.
Context `{LabelsLib} `{SemanticEquality} `{JSONCodec} `{ApiErrors}.

Definition ownedMSA (set : ManagedServiceAccountReplicaSet) (o : ManagedServiceAccount) : Prop :=
  ownedBySet set (omLabels (msaMeta o)) = true.

Definition ownedWork (set : ManagedServiceAccountReplicaSet) (o : ManifestWork) : Prop :=
  ownedBySet set (omLabels (mwMeta o)) = true.

(** The accounts and works the controller generates for a cluster. *)
Definition generatedMSA (set : ManagedServiceAccountReplicaSet) (o : ManagedServiceAccount) : Prop :=
  ∃ cl ref, o = buildManagedServiceAccount set cl ref ∨
            (selectorRBACEnabled set = true ∧ o = buildControllerAccessManagedServiceAccount set cl ref).

Definition generatedWork (set : ManagedServiceAccountReplicaSet) (o : ManifestWork) : Prop :=
  ∃ cl ref,
    (∃ s, o = buildManifestWork set cl ref s ∧
          ∀ m, m ∈ sliceManifests s → least_privilege set s m) ∨
    (selectorRBACEnabled set = true ∧ o = buildControllerAccessManifestWork set cl ref).

(** An object is created only after its key was read as absent and only with
    generated content; patched only from a state that was read, is owned by
    the set and keeps its key, into the generated content; deleted only when
    owned and listed under the set's selector. *)
Definition child_write_ok (set : ManagedServiceAccountReplicaSet) (tr : trace) (c : call) : Prop :=
  match c with
  | CCreateMSA o =>
      ownedMSA set o ∧ generatedMSA set o ∧
      ∃ e, IsNotFound e = true ∧ Ev (CGetMSA (ObjectKey (msaMeta o))) (Err e) ∈ tr
  | CPatchMSA b o =>
      ownedMSA set b ∧ ownedMSA set o ∧ ObjectKey (msaMeta o) = ObjectKey (msaMeta b) ∧
      (∃ d, generatedMSA set d ∧ o = patchedChild b d msaSpecOps ∧
            Ev (CGetMSA (ObjectKey (msaMeta d))) (Ok b) ∈ tr)
  | CDeleteMSA o =>
      ownedMSA set o ∧ ∃ items, Ev (CListMSAs (ownedSelector set)) (Ok items) ∈ tr ∧ o ∈ items
  | CCreateWork o =>
      ownedWork set o ∧ generatedWork set o ∧
      ∃ e, IsNotFound e = true ∧ Ev (CGetWork (ObjectKey (mwMeta o))) (Err e) ∈ tr
  | CPatchWork b o =>
      ownedWork set b ∧ ownedWork set o ∧ ObjectKey (mwMeta o) = ObjectKey (mwMeta b) ∧
      (∃ d, generatedWork set d ∧ o = patchedChild b d manifestWorkSpecOps ∧
            Ev (CGetWork (ObjectKey (mwMeta d))) (Ok b) ∈ tr)
  | CDeleteWork o =>
      ownedWork set o ∧ ∃ items, Ev (CListWorks (ownedSelector set)) (Ok items) ∈ tr ∧ o ∈ items
  | _ => True
  end.

(** The writes of children. *)
Definition child_write (c : call) : Prop :=
  match c with
  | CCreateMSA _ | CPatchMSA _ _ | CDeleteMSA _ | CCreateWork _ | CPatchWork _ _ | CDeleteWork _ => True
  | _ => False
  end.

Lemma generatedMSA_owned set o : generatedMSA set o → ownedMSA set o.
Proof. intros (cl & ref & [->|[_ ->]]); [apply buildMSA_owned|apply buildAccessMSA_owned]. Qed.

Lemma generatedWork_owned set o : generatedWork set o → ownedWork set o.
Proof.
  intros (cl & ref & [(s & -> & _)|[_ ->]]); [apply buildWork_owned|apply buildAccessWork_owned].
Qed.

(** The requests of ensuring the account, or the work, of one key. *)
Definition writes_msa (k : NamespacedName) (c : call) : Prop :=
  match c with
  | CGetMSA _ => True
  | CCreateMSA o | CPatchMSA _ o => ObjectKey (msaMeta o) = k
  | _ => False
  end.

Definition writes_work (k : NamespacedName) (c : call) : Prop :=
  match c with
  | CGetWork _ => True
  | CCreateWork o | CPatchWork _ o => ObjectKey (mwMeta o) = k
  | _ => False
  end.

(** The API server answered with [o] for the desired child [d]: read as it is,
    created, or patched. *)
Definition answeredMSA (tr : trace) (d o : ManagedServiceAccount) : Prop :=
  (Ev (CGetMSA (ObjectKey (msaMeta d))) (Ok o) ∈ tr ∧ childMatches o d msaSpecOps = true) ∨
  Ev (CCreateMSA d) (Ok o) ∈ tr ∨
  ∃ b, Ev (CPatchMSA b (patchedChild b d msaSpecOps)) (Ok o) ∈ tr.

Definition answeredWork (tr : trace) (d o : ManifestWork) : Prop :=
  (Ev (CGetWork (ObjectKey (mwMeta d))) (Ok o) ∈ tr ∧ childMatches o d manifestWorkSpecOps = true) ∨
  Ev (CCreateWork d) (Ok o) ∈ tr ∨
  ∃ b, Ev (CPatchWork b (patchedChild b d manifestWorkSpecOps)) (Ok o) ∈ tr.

Lemma answeredMSA_suffix tr tr' d o : tr `suffix_of` tr' → answeredMSA tr d o → answeredMSA tr' d o.
Proof.
  intros Hs [[? ?]|[?|[b ?]]]; [left; split|right; left|right; right; exists b];
    try done; by eapply suffix_elem.
Qed.

Lemma answeredWork_suffix tr tr' d o : tr `suffix_of` tr' → answeredWork tr d o → answeredWork tr' d o.
Proof.
  intros Hs [[? ?]|[?|[b ?]]]; [left; split|right; left|right; right; exists b];
    try done; by eapply suffix_elem.
Qed.

(** Ensuring one child: a disciplined write of that child at most, and an
    answer of the API server for that very child, or an error. *)
Lemma ensureMSA_wp set d tr :
  generatedMSA set d →
  wp api_contract (λ tr c, child_write_ok set tr c ∧ writes_msa (ObjectKey (msaMeta d)) c)
    (ensureChild set d msaSpecOps)
    (λ tr' r, match r with Ok o => answeredMSA tr' d o | Err _ => True end) tr.
Proof.
  intros Hd. pose proof (generatedMSA_owned _ _ Hd) as Ho. unfold ensureChild.
  apply wp_bind, wp_send; [done|]. intros [cur|e] Hk; simpl.
  - specialize (Hk cur eq_refl). destruct (ownedBySet set (omLabels (msaMeta cur))) eqn:Eo; simpl; [|done].
    destruct (childMatches cur d msaSpecOps) eqn:Em; [left; split; [left|done]|].
    apply wp_send; [|intros [o|e] _; [|done]; right; right; eexists; left].
    split; [|exact Hk]. split_and!; [done|exact Ho|done|].
    exists d. split_and!; [done|done|left].
  - destruct (IsNotFound e) eqn:En; [|done].
    apply wp_send; [|intros [o|e'] _; [|done]; right; left; left].
    split; [|done]. split_and!; [done|done|]. exists e. split; [done|left].
Qed.

Lemma ensureWork_wp set d tr :
  generatedWork set d →
  wp api_contract (λ tr c, child_write_ok set tr c ∧ writes_work (ObjectKey (mwMeta d)) c)
    (ensureChild set d manifestWorkSpecOps)
    (λ tr' r, match r with Ok o => answeredWork tr' d o | Err _ => True end) tr.
Proof.
  intros Hd. pose proof (generatedWork_owned _ _ Hd) as Ho. unfold ensureChild.
  apply wp_bind, wp_send; [done|]. intros [cur|e] Hk; simpl.
  - specialize (Hk cur eq_refl). destruct (ownedBySet set (omLabels (mwMeta cur))) eqn:Eo; simpl; [|done].
    destruct (childMatches cur d manifestWorkSpecOps) eqn:Em; [left; split; [left|done]|].
    apply wp_send; [|intros [o|e] _; [|done]; right; right; eexists; left].
    split; [|exact Hk]. split_and!; [done|exact Ho|done|].
    exists d. split_and!; [done|done|left].
  - destruct (IsNotFound e) eqn:En; [|done].
    apply wp_send; [|intros [o|e'] _; [|done]; right; left; left].
    split; [|done]. split_and!; [done|done|]. exists e. split; [done|left].
Qed.

End discipline.
