(* ===== verification/Placement.v ===== *)
(** * Placement resolution ([resolvePlacementRefs] and its callees)

    From the placement refs of a replica set to the union of selected
    clusters, the refs that select each cluster, and the per-ref status.  The
    OCM placement tracker is a parameter ([PlacementTracker]); it reads the
    decisions through the getter the controller gives it. *)

From S2P Require Import Prelude GoStd ApiTypes Interfaces Reference Effects Samples Store.
From S2P Require Import Metadata Conditions.
From Stdlib Require Import ZArith Lia.

(** [NewPlacementDecisionClustersTrackerWithGroups(placement, getter, nil)]
    followed by [Refresh] and [ExistingClusterGroupsBesides]: the tracker talks
    to the API server through the getter only. *)
Class PlacementTracker := {
  tracker_Refresh : Placement → (Selector → string → prog (result (list PlacementDecision))) →
                    prog (result ClusterGroupsMap);
  tracker_Refresh_calls (P : call → Prop) placement getter :
    (∀ selector namespace, all_calls P (getter selector namespace)) →
    all_calls P (tracker_Refresh placement getter);
}.

(** [placementDecisionGetter.List]: the items of the list are passed on. *)
Definition placementDecisionGetter_List (selector : Selector) (namespace : string)
    : prog (result (list PlacementDecision)) :=
  decisions ← send (CListPlacementDecisions namespace selector);
  match decisions with
  | Err e => mret (Err e)
  | Ok items => mret (Ok items)
  end.

Record placementResolution := mkResolution {
  resClusters : list string;
  resClusterPlacementRefs : gmap string (list string);
  resClusterGroupsByRef : gmap string ClusterGroupsMap;
  resPlacementsByRef : gmap string (option Placement);
  resPlacementStatuses : list PlacementStatus;
  resErr : option error;
}.

Definition primaryRef (p : placementResolution) (clusterName : string) : string :=
  match resClusterPlacementRefs p !! clusterName with
  | Some (ref :: _) => ref
  | _ => ""
  end.

(** What resolving one ref produced. *)
Record refOutcome := mkRefOutcome {
  roPlacement : option Placement;
  roGroups : ClusterGroupsMap;
  roStatus : PlacementStatus;
  roErr : option error;
}.

Section resolution.
Context `{MetaConditions} `{ClusterGroups} `{PlacementTracker}.
Context (now : Z).

Definition resolveOCMPlacement (namespace placementName : string)
    : prog (option Placement * ClusterGroupsMap * option error) :=
  got ← send (CGetPlacement (mkNamespacedName namespace placementName));
  match got with
  | Err e => mret (None, ∅, Some e)
  | Ok placement =>
      groups ← tracker_Refresh placement placementDecisionGetter_List;
      match groups with
      | Err e => mret (Some placement, ∅, Some e)
      | Ok clusterGroups => mret (Some placement, clusterGroups, None)
      end
  end.

Definition resolvePlacementRef (set : ManagedServiceAccountReplicaSet) (ref : PlacementRef)
    (generation : Z) (previousConditions : list Condition) : prog refOutcome :=
  let status := mkPlacementStatus (prefName ref) 0 None None "" previousConditions in
  r ← resolveOCMPlacement (setNamespace set) (prefName ref);
  let '(placement, clusterGroups, err) := r in
  let status' :=
    match err with
    | Some _ => status
    | None => with_psConditions status
                (setCondition now (psConditions status) conditionPlacementResolved ConditionTrue
                   reasonResolved "OCM Placement and PlacementDecision objects resolved" generation)
    end in
  mret (mkRefOutcome placement clusterGroups status' err).

(** [previousByKey] of the sources. *)
Definition previousConditions (set : ManagedServiceAccountReplicaSet) (name : string)
    : list Condition :=
  let previousByKey : gmap string (list Condition) :=
    foldl (λ m p, <[psName p := psConditions p]> m) ∅ (stPlacements (setStatus set)) in
  default [] (previousByKey !! name).

(** The per-ref status once the clusters of the ref are known. *)
Definition finishStatus (out : refOutcome) (clusters : list string) (generation : Z)
    : PlacementStatus :=
  let status := roStatus out in
  let status :=
    match roErr out with
    | Some e => with_psConditions status
                  (setCondition now (psConditions status) conditionPlacementResolved ConditionFalse
                     reasonPlacementUnavailable (Error e) generation)
    | None => status
    end in
  let status := with_psSelectedClusterCount status (int32_len clusters) in
  if (length clusters =? 0) && bool_decide (roErr out = None) then
    with_psConditions status
      (setCondition now (psConditions status) conditionPlacementEmpty ConditionTrue
         reasonNoDecisions "placement ref resolved to zero clusters" generation)
  else
    with_psConditions status (RemoveStatusCondition (psConditions status) conditionPlacementEmpty).

(** The accumulators of the loop of [resolvePlacementRefs]. *)
Record resolveAcc := mkResolveAcc {
  raUnion : gset string;
  raRefs : gmap string (list string);
  raGroups : gmap string ClusterGroupsMap;
  raPlacements : gmap string (option Placement);
  raStatuses : list PlacementStatus;
  raErr : option error;
}.

Definition emptyResolveAcc : resolveAcc := mkResolveAcc ∅ ∅ ∅ ∅ [] None.

Definition addRef (generation : Z) (acc : resolveAcc) (ro : PlacementRef * refOutcome) : resolveAcc :=
  let '(ref, out) := ro in
  let clusters := sets_List (GetClusters (roGroups out)) in
  mkResolveAcc
    (sets_New clusters ∪ raUnion acc)
    (foldl (λ m clusterName, <[clusterName := default [] (m !! clusterName) ++ [prefName ref]]> m)
       (raRefs acc) clusters)
    (<[prefName ref := roGroups out]> (raGroups acc))
    (<[prefName ref := roPlacement out]> (raPlacements acc))
    (raStatuses acc ++ [finishStatus out clusters generation])
    (match roErr out with Some e => errors_Join [raErr acc; Some e] | None => raErr acc end).

Definition resolvePlacementRefs (set : ManagedServiceAccountReplicaSet) (generation : Z)
    : prog placementResolution :=
  acc ← foldM (λ acc ref,
          out ← resolvePlacementRef set ref generation (previousConditions set (prefName ref));
          mret (addRef generation acc (ref, out)))
        emptyResolveAcc (specPlacementRefs (setSpec set));
  mret (mkResolution (sets_List (raUnion acc)) (raRefs acc) (raGroups acc) (raPlacements acc)
          (raStatuses acc) (raErr acc)).

End resolution.

(** ** Lemmas *)

(** The requests placement resolution sends: two kinds of reads. *)
Definition placement_read (c : call) : Prop :=
  match c with CGetPlacement _ | CListPlacementDecisions _ _ => True | _ => False end.

Section lemmas.
Context `{MetaConditions} `{ClusterGroups} `{PlacementTracker}.
Context (now : Z).

Lemma resolveOCMPlacement_calls namespace name :
  all_calls placement_read (resolveOCMPlacement namespace name).
Proof.
  unfold resolveOCMPlacement. split; [done|]. intros [pl|e]; simpl; [|done].
  apply all_calls_bind; [|by intros []]. apply tracker_Refresh_calls.
  intros sel ns. split; [done|]. by intros [].
Qed.

(** One outcome of a ref as [resolvePlacementRef] produces it. *)
Definition outcome_ok (set : ManagedServiceAccountReplicaSet) (generation : Z)
    (ro : PlacementRef * refOutcome) : Prop :=
  let '(ref, out) := ro in
  psName (roStatus out) = prefName ref ∧
  (roErr out ≠ None → roGroups out = ∅) ∧
  (roErr out = None → is_Some (roPlacement out) ∧
     statusOf (psConditions (roStatus out)) conditionPlacementResolved = Some ConditionTrue).

(** The outcome of a ref is what the API server and the tracker answered: the
    placement could not be read, or the tracker ran for the placement read and
    its groups, or its error, are those of the outcome. *)
Definition ref_answered (set : ManagedServiceAccountReplicaSet) (tr : trace)
    (ro : PlacementRef * refOutcome) : Prop :=
  let '(ref, out) := ro in
  let key := mkNamespacedName (setNamespace set) (prefName ref) in
  (∃ e, Ev (CGetPlacement key) (Err e) ∈ tr ∧
        roPlacement out = None ∧ roGroups out = ∅ ∧ roErr out = Some e) ∨
  (∃ pl before after r,
     ran (tracker_Refresh pl placementDecisionGetter_List)
         (Ev (CGetPlacement key) (Ok pl) :: before) after r ∧
     after `suffix_of` tr ∧ roPlacement out = Some pl ∧
     match r with
     | Ok groups => roGroups out = groups ∧ roErr out = None
     | Err e => roGroups out = ∅ ∧ roErr out = Some e
     end).

Lemma ref_answered_suffix set tr tr' ro :
  tr `suffix_of` tr' → ref_answered set tr ro → ref_answered set tr' ro.
Proof.
  intros Hs. destruct ro as [ref out]. intros [(e & He & ?)|(pl & before & after & r & ? & Ha & ?)]; [left|right].
  - exists e. split; [by eapply suffix_elem|done].
  - exists pl, before, after, r. split_and!; [done|by etrans|naive_solver..].
Qed.

Lemma resolvePlacementRef_wp R G set ref generation prev tr :
  (∀ tr c, placement_read c → G tr c) →
  wp R G (resolvePlacementRef now set ref generation prev)
    (λ tr' out, outcome_ok set generation (ref, out) ∧ ref_answered set tr' (ref, out)) tr.
Proof.
  intros HG. unfold resolvePlacementRef, resolveOCMPlacement. apply wp_bind.
  apply wp_bind. apply wp_send; [by apply HG|]. intros [pl|e] _; cbn beta iota.
  - apply wp_bind. eapply wp_mono.
    + apply wp_ran. apply (wp_all_calls R G placement_read (λ _, True)); [|by intros; apply HG|done|done].
      apply tracker_Refresh_calls. intros sel ns. split; [done|]. by intros [].
    + intros tr' r [_ Hran]. destruct r as [groups|e]; apply wp_ret;
        (split; [|right; exists pl, tr, tr'; eexists; split_and!; [exact Hran|done..]]); split_and!; simpl; try done.
      intros _. split; [by eexists|]. rewrite statusOf_setCondition. by rewrite decide_True.
  - apply wp_ret. split; [split_and!; simpl; try done|]. left. exists e. split_and!; [left|done..].
Qed.

(** Resolution is the pure fold of [addRef] over one outcome per ref, in the
    order of the spec. *)
Lemma resolvePlacementRefs_wp R G set generation tr :
  (∀ tr c, placement_read c → G tr c) →
  wp R G (resolvePlacementRefs now set generation)
    (λ tr' res, ∃ outs, map fst outs = specPlacementRefs (setSpec set) ∧
       Forall (outcome_ok set generation) outs ∧ Forall (ref_answered set tr') outs ∧
       let acc := foldl (addRef now generation) emptyResolveAcc outs in
       res = mkResolution (sets_List (raUnion acc)) (raRefs acc) (raGroups acc) (raPlacements acc)
               (raStatuses acc) (raErr acc)) tr.
Proof.
  intros HG. unfold resolvePlacementRefs. apply wp_bind.
  apply (wp_foldM R G _ (λ tr' done acc, ∃ outs, map fst outs = done ∧
           Forall (outcome_ok set generation) outs ∧ Forall (ref_answered set tr') outs ∧
           acc = foldl (addRef now generation) emptyResolveAcc outs)).
  - by exists [].
  - intros done ref rest acc tr' _ (outs & <- & Hok & Hans & ->). apply wp_bind.
    eapply wp_mono; [by apply wp_suffix, resolvePlacementRef_wp|]. intros tr2 out [[Hout Hans2] Hs]. apply wp_ret.
    exists (outs ++ [(ref, out)]). split_and!.
    + by rewrite map_app.
    + apply Forall_app. split; [done|]. by apply Forall_singleton.
    + apply Forall_app. split; [|by apply Forall_singleton].
      eapply Forall_impl; [exact Hans|]. intros ro. by apply ref_answered_suffix.
    + by rewrite foldl_app.
  - intros tr' acc (outs & Ho & Hok & Hans & ->). apply wp_ret. by exists outs.
Qed.

(** The outcomes that select a cluster. *)
Definition selects (x : string) (ro : PlacementRef * refOutcome) : Prop :=
  x ∈ GetClusters (roGroups ro.2).

#[global] Instance selects_dec x ro : Decision (selects x ro).
Proof. unfold selects. apply _. Defined.

Lemma addRef_refs_lookup (m : gmap string (list string)) name clusters x :
  NoDup clusters →
  foldl (λ m clusterName, <[clusterName := default [] (m !! clusterName) ++ [name]]> m) m clusters !! x =
  if decide (x ∈ clusters) then Some (default [] (m !! x) ++ [name]) else m !! x.
Proof.
  revert m. induction clusters as [|c clusters IH]; intros m Hnd; simpl; [done|].
  apply NoDup_cons in Hnd as [Hc Hnd]. rewrite IH by done.
  destruct (decide (c = x)) as [->|Hne].
  - rewrite lookup_insert_eq. repeat case_decide; try done; set_solver.
  - rewrite !lookup_insert_ne by done. repeat case_decide; try done; set_solver.
Qed.


(** The loop accumulators in terms of the outcomes. *)
Lemma resolve_acc_spec generation outs :
  let acc := foldl (addRef now generation) emptyResolveAcc outs in
  (∀ x, x ∈ raUnion acc ↔ ∃ ro, ro ∈ outs ∧ selects x ro) ∧
  (∀ x, default [] (raRefs acc !! x) = map (λ ro, prefName ro.1) (filter (selects x) outs)) ∧
  (raErr acc = None ↔ ∀ ro, ro ∈ outs → roErr ro.2 = None) ∧
  raStatuses acc = map (λ ro, finishStatus now ro.2 (sets_List (GetClusters (roGroups ro.2))) generation) outs.
Proof.
  induction outs as [|[ref out] outs IH] using rev_ind; intros acc; subst acc.
  { split_and!; try done. - intros x. split; [set_solver|]. by intros (? & ?%elem_of_nil & _).
    - split; [|done]. by intros _ ? ?%elem_of_nil. }
  rewrite foldl_app. cbn [foldl]. destruct IH as (IH1 & IH2 & IH3 & IH4). split_and!.
  - intros x. cbn [addRef raUnion]. rewrite elem_of_union, sets_New_elem_of, sets_List_elem_of, IH1.
    setoid_rewrite elem_of_app. setoid_rewrite list_elem_of_singleton. unfold selects. naive_solver.
  - intros x. cbn [addRef raRefs]. rewrite addRef_refs_lookup by apply sets_List_NoDup.
    rewrite filter_app, map_app, <- IH2. cbn [filter list_filter]. unfold selects at 2. cbn [snd].
    destruct (decide (x ∈ sets_List (GetClusters (roGroups out)))) as [Hx|Hx];
      rewrite sets_List_elem_of in Hx.
    + by rewrite decide_True.
    + rewrite decide_False by done. simpl. by rewrite app_nil_r.
  - cbn [addRef raErr]. setoid_rewrite elem_of_app. setoid_rewrite list_elem_of_singleton.
    destruct (roErr out) as [e|] eqn:Ee.
    + destruct (errors_Join_acc (raErr (foldl (addRef now generation) emptyResolveAcc outs)) e) as [j ->].
      split; [done|]. intros Hall. specialize (Hall (ref, out) ltac:(by right)). simpl in Hall. congruence.
    + rewrite IH3. split; [|by eauto]. intros Hall ro [Hro| ->]; [by apply Hall|done].
  - cbn [addRef raStatuses]. by rewrite IH4, map_app.
Qed.

(** A filter with a hit starts with the first hit. *)
Lemma filter_head {A} (P : A → Prop) `{∀ x, Decision (P x)} (l : list A) x rest :
  filter P l = x :: rest → ∃ before after, l = before ++ x :: after ∧ P x ∧ Forall (λ y, ¬ P y) before.
Proof.
  induction l as [|y l IH]; [done|]. rewrite filter_cons. case_decide as Hy.
  - intros [= -> _]. by exists [], l.
  - intros Hf. destruct (IH Hf) as (b & a & -> & ? & ?). exists (y :: b), a. by repeat constructor.
Qed.

(** The resolution is the union of the outcomes: the clusters are, sorted and
    without duplicates, those some ref selects; the refs of a cluster are the
    refs that select it in spec order, the primary ref the first of them; and
    there is an error exactly when some ref failed. *)
Record union_of (outs : list (PlacementRef * refOutcome)) (res : placementResolution) : Prop := {
  un_nodup : NoDup (resClusters res);
  un_sorted : StronglySorted String.le (resClusters res);
  un_clusters x : x ∈ resClusters res ↔ ∃ ro, ro ∈ outs ∧ selects x ro;
  un_primary x : x ∈ resClusters res →
    ∃ before ro after, outs = before ++ ro :: after ∧ selects x ro ∧
      Forall (λ ro', ¬ selects x ro') before ∧ primaryRef res x = prefName ro.1;
  un_refs x : default [] (resClusterPlacementRefs res !! x) =
    map (λ ro, prefName ro.1) (filter (selects x) outs);
  un_err : resErr res = None ↔ ∀ ro, ro ∈ outs → roErr ro.2 = None;
}.

Lemma addRef_union generation outs :
  let acc := foldl (addRef now generation) emptyResolveAcc outs in
  union_of outs (mkResolution (sets_List (raUnion acc)) (raRefs acc) (raGroups acc) (raPlacements acc)
                   (raStatuses acc) (raErr acc)).
Proof.
  intros acc. destruct (resolve_acc_spec generation outs) as (Hun & Href & Herr & _). fold acc in Hun, Href, Herr.
  assert (∀ x, x ∈ sets_List (raUnion acc) ↔ ∃ ro, ro ∈ outs ∧ selects x ro) as Hin
    by (intros x; by rewrite sets_List_elem_of, Hun).
  constructor; cbn [resClusters resClusterPlacementRefs resErr]; try done;
    [apply sets_List_NoDup|apply sets_List_Sorted|].
  intros x Hx. apply Hin in Hx as (ro & Hro & Hsel).
  specialize (Href x). destruct (filter (selects x) outs) as [|ro' rest] eqn:Ef.
  { assert (ro ∈ filter (selects x) outs) as Hf by (by apply list_elem_of_filter).
    rewrite Ef in Hf. by apply elem_of_nil in Hf. }
  destruct (filter_head _ _ _ _ Ef) as (b & a & -> & ? & ?).
  exists b, ro', a. split_and!; try done. unfold primaryRef. cbn [resClusterPlacementRefs].
  destruct (raRefs _ !! x) as [l|]; simpl in Href; [|done]. by rewrite Href.
Qed.

(** The resolution of the set's refs, by the answers of the history: the union
    of one answered outcome per ref, in spec order. *)
Definition resolved_by (set : ManagedServiceAccountReplicaSet) (tr : trace) (res : placementResolution) : Prop :=
  ∃ outs, map fst outs = specPlacementRefs (setSpec set) ∧ Forall (ref_answered set tr) outs ∧ union_of outs res.

Lemma resolved_by_suffix set tr tr' res :
  tr `suffix_of` tr' → resolved_by set tr res → resolved_by set tr' res.
Proof.
  intros Hs (outs & ? & Hans & ?). exists outs. split_and!; [done| |done].
  eapply Forall_impl; [exact Hans|]. intros ro. by apply ref_answered_suffix.
Qed.

(** The getter hands the list request of the tracker to the API server and its
    answer back to the tracker. *)
Lemma placementDecisionGetter_List_ran sel ns tr tr' r :
  ran (placementDecisionGetter_List sel ns) tr tr' r →
  tr' = Ev (CListPlacementDecisions ns sel) r :: tr.
Proof. intros ([items|e] & [= <-] & ->); done. Qed.

(** What [finishStatus] reports for one ref. *)
Lemma finishStatus_spec set generation ref out :
  outcome_ok set generation (ref, out) →
  let clusters := sets_List (GetClusters (roGroups out)) in
  let ps := finishStatus now out clusters generation in
  psName ps = prefName ref ∧
  psSelectedClusterCount ps = int32 (Z.of_nat (size (GetClusters (roGroups out)))) ∧
  statusOf (psConditions ps) conditionPlacementResolved =
    Some (if bool_decide (roErr out = None) then ConditionTrue else ConditionFalse) ∧
  (statusOf (psConditions ps) conditionPlacementEmpty =
     if bool_decide (roErr out = None) && bool_decide (GetClusters (roGroups out) = ∅)
     then Some ConditionTrue else None).
Proof.
  intros (Hn & _ & Hok) clusters ps.
  assert ((length clusters =? 0) = bool_decide (GetClusters (roGroups out) = ∅)) as Hlen.
  { unfold clusters. rewrite sets_List_length. destruct (Nat.eqb_spec (size (GetClusters (roGroups out))) 0) as [Hz|Hz].
    - symmetry. apply bool_decide_eq_true. by apply leibniz_equiv, size_empty_inv.
    - symmetry. apply bool_decide_eq_false. intros He. rewrite He in Hz. by rewrite size_empty in Hz. }
  unfold ps, finishStatus. rewrite Hlen, (andb_comm (bool_decide (roErr out = None))).
  assert (int32_len clusters = int32 (Z.of_nat (size (GetClusters (roGroups out))))) as Hcount
    by (unfold int32_len, clusters; by rewrite sets_List_length).
  destruct (roErr out) as [e|] eqn:Ee.
  - change (bool_decide (Some e = None)) with false. rewrite andb_false_r. split_and!; try done.
    + cbn [with_psConditions psConditions with_psSelectedClusterCount]. unfold statusOf.
      rewrite FindStatusCondition_remove_ne by done.
      change (statusOf (setCondition now (psConditions (roStatus out)) conditionPlacementResolved ConditionFalse
        reasonPlacementUnavailable (Error e) generation) conditionPlacementResolved = Some ConditionFalse).
      by rewrite statusOf_setCondition, decide_True.
    + cbn [with_psConditions psConditions with_psSelectedClusterCount]. unfold statusOf.
      by rewrite FindStatusCondition_remove_eq.
  - destruct (Hok eq_refl) as [_ Hres]. change (bool_decide (@None error = None)) with true.
    rewrite andb_true_r.
    destruct (bool_decide (GetClusters (roGroups out) = ∅)); split_and!; try done;
      cbn [with_psConditions psConditions with_psSelectedClusterCount].
    + by rewrite statusOf_setCondition, decide_False.
    + by rewrite statusOf_setCondition, decide_True.
    + unfold statusOf in *. by rewrite FindStatusCondition_remove_ne.
    + unfold statusOf. by rewrite FindStatusCondition_remove_eq.
Qed.

End lemmas.

(** ** Properties *)

Section properties.
Context `{MetaConditions} `{ClusterGroups} `{PlacementTracker}.
Context {W : Type} (h : handler W) (w : W) (now : Z).

(** C18: Placement resolution computes the union of what the API server
    answers: for any answers there is one outcome per placement ref, in spec
    order, which is the answer for that ref (the placement of the ref, in the
    namespace of the set, could not be read; or the tracker ran for the
    placement that was read, and the outcome has its groups or its error); the
    selected clusters are, sorted and without duplicates, exactly those some
    ref selects; the refs of a cluster are the refs that select it in spec
    order; the primary ref, which the labels of the children record, is the
    first of them; and the joined error is nil exactly when every ref resolved.
    Only placements and decisions are read, and the getter the tracker reads
    decisions through hands it the API server's answer. *)
Theorem resolvePlacementRefs_union set generation :
  let o := run h (resolvePlacementRefs now set generation) w in
  (∃ outs, map fst outs = specPlacementRefs (setSpec set) ∧
     Forall (ref_answered set (out_trace o)) outs ∧ union_of outs (out_val o)) ∧
  trace_ok (λ _, placement_read) (out_trace o) ∧
  (∀ sel ns tr tr' r, ran (placementDecisionGetter_List sel ns) tr tr' r →
     tr' = Ev (CListPlacementDecisions ns sel) r :: tr).
Proof.
  intros o.
  destruct (wp_run h (λ _, placement_read) _ _ w
    (resolvePlacementRefs_wp now any_answer (λ _, placement_read) set generation [] (λ _ _ Hc, Hc)))
    as [(outs & Hrefs & Hok & Hans & Heq) Htr].
  fold o in Heq, Htr, Hans. split_and!; [|done|apply placementDecisionGetter_List_ran].
  exists outs. rewrite Heq. split_and!; [done|done|apply addRef_union].
Qed.

(** C32: Every placement ref gets one status entry, in spec order, that carries
    its name, the number of clusters it selects, PlacementResolved True or
    False according to whether the API server and the tracker answered for the
    ref or an error, and PlacementEmpty exactly when it resolved to no
    cluster. *)
Theorem resolvePlacementRefs_statuses set generation :
  let o := run h (resolvePlacementRefs now set generation) w in
  let res := out_val o in
  ∃ outs, map fst outs = specPlacementRefs (setSpec set) ∧
    Forall (ref_answered set (out_trace o)) outs ∧
    length (resPlacementStatuses res) = length outs ∧
    ∀ i ps ref out, resPlacementStatuses res !! i = Some ps → outs !! i = Some (ref, out) →
      psName ps = prefName ref ∧
      psSelectedClusterCount ps = int32 (Z.of_nat (size (GetClusters (roGroups out)))) ∧
      statusOf (psConditions ps) conditionPlacementResolved =
        Some (if bool_decide (roErr out = None) then ConditionTrue else ConditionFalse) ∧
      statusOf (psConditions ps) conditionPlacementEmpty =
        (if bool_decide (roErr out = None) && bool_decide (GetClusters (roGroups out) = ∅)
         then Some ConditionTrue else None).
Proof.
  intros o res.
  destruct (wp_run h any_call _ _ w
    (resolvePlacementRefs_wp now any_answer any_call set generation [] ltac:(done)))
    as [(outs & Hrefs & Hok & Hans & Heq) _].
  destruct (resolve_acc_spec now generation outs) as (_ & _ & _ & Hst).
  fold o in Heq, Hans. fold res in Heq. exists outs. rewrite Heq. cbn [resPlacementStatuses]. rewrite Hst.
  split_and!; [done|done|apply length_map|]. intros i ps ref out Hps Hout.
  rewrite list_lookup_fmap, Hout in Hps. injection Hps as <-.
  apply (finishStatus_spec now set generation ref out).
  by apply (Forall_lookup_1 _ _ _ _ Hok Hout).
Qed.

End properties.

(** ** A reference tracker

    All clusters of the decisions of the placement in one group, which is what
    the OCM tracker computes for a placement without decision groups. *)

Section reference.
Context `{LabelsLib}.

Definition refresh_one_group (placement : Placement)
    (getter : Selector → string → prog (result (list PlacementDecision)))
    : prog (result ClusterGroupsMap) :=
  r ← getter (SelectorFromValidatedSet {[PlacementLabel := omName (plMeta placement)]})
        (omNamespace (plMeta placement));
  match r with
  | Err e => mret (Err e)
  | Ok decisions =>
      match sets_List (sets_New (concat (map pdClusterNames decisions))) with
      | [] => mret (Ok ∅)
      | names => mret (Ok {[("", 0%Z) := sets_New names]})
      end
  end.

#[export] Program Instance reference_tracker : PlacementTracker := {|
  tracker_Refresh := refresh_one_group;
|}.
Next Obligation.
  intros P placement getter Hg. unfold refresh_one_group. calls_steps; try done.
Qed.

End reference.

Section witnesses.
Import Ref.

(** The sample placement selects both clusters of the fleet. *)
Lemma resolvePlacementRefs_union_witness :
  let res := out_val (run server (resolvePlacementRefs 0 sampleSet 7) sampleWorld) in
  resClusters res = ["cluster-a"; "cluster-b"] ∧ NoDup (resClusters res).
Proof.
  split; [vm_compute; reflexivity|].
  destruct (resolvePlacementRefs_union server sampleWorld 0 sampleSet 7) as ((outs & _ & _ & Hun) & _).
  exact (un_nodup _ _ Hun).
Defined.

End witnesses.
