(* ===== verification/Rollout.v ===== *)
(** * Rollout planning ([planRollout], [clusterRolloutStatus], [newRolloutSummary])

    The rollout state of one cluster as read from its children, the plan that
    the OCM rollout handler makes of those states for each placement ref, and
    the summaries reported in the status. *)

From S2P Require Import Prelude GoStd ApiTypes Interfaces Reference Effects Samples.
From S2P Require Import Metadata Rbac ControllerAccess Validation Conditions Children Placement.
From Stdlib Require Import ZArith Lia.

(** ** Times and conditions *)

Definition conditionTime (condition : option Condition) : option Z :=
  match condition with
  | None => None
  | Some c => condLastTransitionTime c
  end.

Definition newerTime (a b : option Z) : option Z :=
  match a, b with
  | None, _ => b
  | _, None => a
  | Some ta, Some tb => if (ta <? tb)%Z then b else a
  end.

Definition conditionObserved (condition : option Condition) (generation : Z) (status : string) : bool :=
  match condition with
  | None => false
  | Some c => bool_decide (condObservedGeneration c = generation) && bool_decide (condStatus c = status)
  end.

Definition manifestWorkNeedsApply (generation : Z) (applied progressing degraded : option Condition)
    : bool :=
  if negb (conditionObserved applied generation ConditionTrue) then true
  else
    match progressing with
    | None => true
    | Some p =>
        if negb (bool_decide (condObservedGeneration p = generation)) then true
        else match degraded with
             | None => false
             | Some d => negb (bool_decide (condObservedGeneration d = generation))
             end
    end.

Section states.
Context `{MetaConditions}.

Definition managedServiceAccountRolloutStatus (msa : ManagedServiceAccount)
    : RolloutStatus * option Z :=
  let tokenReported := FindStatusCondition (msaConditions msa) ConditionTypeTokenReported in
  let secretCreated := FindStatusCondition (msaConditions msa) ConditionTypeSecretCreated in
  let time := newerTime (conditionTime tokenReported) (conditionTime secretCreated) in
  if managedServiceAccountReady msa then (Succeeded, time) else (Progressing, time).

(** [None] is the nil-pointer panic of reading [progressing.Status]. *)
Definition manifestWorkRolloutStatus_run (work : ManifestWork) : option (RolloutStatus * option Z) :=
  let progressing := FindStatusCondition (mwConditions work) WorkProgressing in
  let degraded := FindStatusCondition (mwConditions work) WorkDegraded in
  let applied := FindStatusCondition (mwConditions work) WorkApplied in
  if manifestWorkNeedsApply (omGeneration (mwMeta work)) applied progressing degraded
  then Some (ToApply, None)
  else
    p ← progressing;
    Some (if bool_decide (condStatus p = ConditionTrue)
             && match degraded with
                | Some d => bool_decide (condStatus d = ConditionTrue)
                | None => false
                end
          then (Failed, conditionTime degraded)
          else if bool_decide (condStatus p = ConditionTrue) then (Progressing, conditionTime progressing)
          else if bool_decide (condStatus p = ConditionFalse) then (Succeeded, conditionTime progressing)
          else (Progressing, conditionTime progressing)).

Definition manifestWorkRolloutStatus (work : ManifestWork) : RolloutStatus * option Z :=
  default (ToApply, None) (manifestWorkRolloutStatus_run work).

End states.

(** ** The rollout state of one cluster *)

Section clusterStatus.
Context `{MetaConditions} `{LabelsLib} `{SemanticEquality} `{JSONCodec} `{ApiErrors}.

Definition existingManagedServiceAccountRolloutStatus (set : ManagedServiceAccountReplicaSet)
    (desired : ManagedServiceAccount) : prog (RolloutStatus * option Z * option error) :=
  got ← send (CGetMSA (ObjectKey (msaMeta desired)));
  match got with
  | Err e => if IsNotFound e then mret (ToApply, None, None) else mret (ToApply, None, Some e)
  | Ok current =>
      if negb (ownedBySet set (omLabels (msaMeta current))) then
        mret (Failed, None, Some (notOwnedError "ManagedServiceAccount"
                                    (omNamespace (msaMeta current)) (omName (msaMeta current))))
      else if negb (childMatches current desired msaSpecOps) then mret (ToApply, None, None)
      else let '(status, transitionTime) := managedServiceAccountRolloutStatus current in
           mret (status, transitionTime, None)
  end.

Definition existingManifestWorkRolloutStatus (set : ManagedServiceAccountReplicaSet)
    (desired : ManifestWork) : prog (RolloutStatus * option Z * option error) :=
  got ← send (CGetWork (ObjectKey (mwMeta desired)));
  match got with
  | Err e => if IsNotFound e then mret (ToApply, None, None) else mret (ToApply, None, Some e)
  | Ok current =>
      if negb (ownedBySet set (omLabels (mwMeta current))) then
        mret (Failed, None, Some (notOwnedError "ManifestWork"
                                    (omNamespace (mwMeta current)) (omName (mwMeta current))))
      else if negb (childMatches current desired manifestWorkSpecOps) then mret (ToApply, None, None)
      else let '(status, transitionTime) := manifestWorkRolloutStatus current in
           mret (status, transitionTime, None)
  end.

(** A sequence of child checks: the first one that fails or is not Succeeded
    is the state of the cluster; otherwise the newest time is kept. *)
Definition checkChild (clusterName : string) (successTime : option Z)
    (check : prog (RolloutStatus * option Z * option error))
    (continue : option Z → prog (ClusterRolloutStatus * option error))
    : prog (ClusterRolloutStatus * option error) :=
  r ← check;
  let '(status, time, err) := r in
  if bool_decide (is_Some err) || negb (bool_decide (status = Succeeded))
  then mret (mkClusterRolloutStatus clusterName status time, err)
  else continue (newerTime successTime time).

Fixpoint checkSlices (set : ManagedServiceAccountReplicaSet) (clusterName placementRefName : string)
    (slices : list rbacSlice) (successTime : option Z) : prog (ClusterRolloutStatus * option error) :=
  match slices with
  | [] => mret (mkClusterRolloutStatus clusterName Succeeded successTime, None)
  | slice :: rest =>
      checkChild clusterName successTime
        (existingManifestWorkRolloutStatus set
           (buildManifestWork set clusterName placementRefName slice))
        (checkSlices set clusterName placementRefName rest)
  end.

Definition checkWorkloadRBAC (set : ManagedServiceAccountReplicaSet)
    (clusterName placementRefName : string) (resolver : bool) (successTime : option Z)
    : prog (ClusterRolloutStatus * option error) :=
  if rbacEnabled set then
    r ← desiredRBACSlices set clusterName resolver;
    match r.2 with
    | Some e => mret (mkClusterRolloutStatus clusterName Progressing successTime, Some e)
    | None => checkSlices set clusterName placementRefName r.1 successTime
    end
  else mret (mkClusterRolloutStatus clusterName Succeeded successTime, None).

Definition clusterRolloutStatus (set : ManagedServiceAccountReplicaSet)
    (clusterName placementRefName : string) (resolver : bool)
    : prog (ClusterRolloutStatus * option error) :=
  let status := mkClusterRolloutStatus clusterName ToApply None in
  let desiredMSA := buildManagedServiceAccount set clusterName placementRefName in
  got ← send (CGetMSA (ObjectKey (msaMeta desiredMSA)));
  match got with
  | Err e => if IsNotFound e then mret (status, None) else mret (status, Some e)
  | Ok msa =>
      if negb (ownedBySet set (omLabels (msaMeta msa))) then
        mret (mkClusterRolloutStatus clusterName Failed None,
              Some (notOwnedError "ManagedServiceAccount" (omNamespace (msaMeta msa)) (omName (msaMeta msa))))
      else if negb (childMatches msa desiredMSA msaSpecOps) then mret (status, None)
      else
        let '(msaStatus, transitionTime) := managedServiceAccountRolloutStatus msa in
        if negb (bool_decide (msaStatus = Succeeded)) then
          mret (mkClusterRolloutStatus clusterName msaStatus transitionTime, None)
        else if selectorRBACEnabled set then
          checkChild clusterName transitionTime
            (existingManagedServiceAccountRolloutStatus set
               (buildControllerAccessManagedServiceAccount set clusterName placementRefName))
            (λ t1, checkChild clusterName t1
               (existingManifestWorkRolloutStatus set
                  (buildControllerAccessManifestWork set clusterName placementRefName))
               (checkWorkloadRBAC set clusterName placementRefName resolver))
        else checkWorkloadRBAC set clusterName placementRefName resolver transitionTime
  end.

End clusterStatus.

Definition noopClusterRolloutStatus (clusterName : string) : result ClusterRolloutStatus :=
  Ok (mkClusterRolloutStatus clusterName ToApply None).

(** ** Summaries *)

Section summaries.
Context `{MetaConditions} `{ClusterGroups} (now : Z).

(** Body of the counting loop of [newRolloutSummary]: the counters Succeeded,
    Failed and TimedOut. *)
Definition countStatus (updating timedOut : gset string) (acc : Z * Z * Z)
    (entry : string * ClusterRolloutStatus) : Z * Z * Z :=
  let '(succeeded, failed, late) := acc in
  if sets_Has updating entry.1 || sets_Has timedOut entry.1 then acc
  else match crsStatus entry.2 with
       | Succeeded => (int32_add succeeded 1, failed, late)
       | Failed => (succeeded, int32_add failed 1, late)
       | TimeOut => (succeeded, failed, int32_add late 1)
       | _ => acc
       end.

Definition newRolloutSummary (total : Z) (updating timedOut : gset string)
    (statuses : gmap string ClusterRolloutStatus) (previous : list Condition) (generation : Z)
    : RolloutSummary :=
  let '(succeeded, failed, late) :=
    foldl (countStatus updating timedOut) (0%Z, 0%Z, int32 (Z.of_nat (sets_Len timedOut)))
      (map_to_list statuses) in
  let upd := int32 (Z.of_nat (sets_Len updating)) in
  let conditions :=
    if (total =? 0)%Z || negb (succeeded =? total)%Z then
      setCondition now previous conditionProgressing ConditionTrue reasonProgressing
        ("selected clusters " +:+ fmt_d total +:+ ". managed service accounts "
         +:+ fmt_d (int32_add upd succeeded) +:+ "/" +:+ fmt_d total +:+ " progressing..., "
         +:+ fmt_d failed +:+ " failed " +:+ fmt_d late +:+ " timeout.") generation
    else
      setCondition now previous conditionProgressing ConditionFalse reasonCompleted
        ("selected clusters " +:+ fmt_d total +:+ ". managed service accounts "
         +:+ fmt_d succeeded +:+ "/" +:+ fmt_d total +:+ " completed with no errors, "
         +:+ fmt_d failed +:+ " failed " +:+ fmt_d late +:+ " timeout.") generation in
  mkRolloutSummary total upd succeeded failed late conditions.

Definition availableDecisionGroupsMessage (placement : option Placement)
    (clusterGroups : ClusterGroupsMap) (statuses : gmap string ClusterRolloutStatus)
    (applying : gset string) : string :=
  let selectedClusters := GetClusters clusterGroups in
  let totalGroups :=
    match placement with
    | Some pl => if 0 <? length (plDecisionGroups pl) then length (plDecisionGroups pl)
                 else size clusterGroups
    | None => size clusterGroups
    end in
  let totalClusters :=
    match placement with
    | Some pl => if (0 <? plNumberOfSelectedClusters pl)%Z then plNumberOfSelectedClusters pl
                 else Z.of_nat (sets_Len selectedClusters)
    | None => Z.of_nat (sets_Len selectedClusters)
    end in
  let appliedClusters :=
    length (filter (λ e : string * ClusterRolloutStatus,
      e.1 ∈ selectedClusters ∧ (e.1 ∈ applying ∨ crsStatus e.2 ≠ ToApply)) (map_to_list statuses)) in
  fmt_d (Z.of_nat totalGroups) +:+ " (" +:+ fmt_d (Z.of_nat appliedClusters) +:+ " / "
    +:+ fmt_d totalClusters +:+ " clusters applied)".

End summaries.

Definition rolloutConditions (summary : option RolloutSummary) : list Condition :=
  match summary with None => [] | Some s => rsumConditions s end.

Definition placementRolloutConditions (set : ManagedServiceAccountReplicaSet) (refKey : string)
    : list Condition :=
  match List.find (λ p, bool_decide (psName p = refKey)) (stPlacements (setStatus set)) with
  | Some p => rolloutConditions (psRollout p)
  | None => []
  end.

(** ** The plan *)

Record rolloutPlan := mkRolloutPlan {
  planClusters : list string;
  planCleanupClusters : gset string;
  planStatuses : gmap string ClusterRolloutStatus;
  planPlacementRollouts : gmap string RolloutSummary;
  planAvailableDecisionGroups : gmap string string;
  planSummary : option RolloutSummary;
  planRequeueAfter : Z;
}.

(** The variables of the loop over the refs. *)
Record planAcc := mkPlanAcc {
  paCleanup : gset string;
  paStatuses : gmap string ClusterRolloutStatus;
  paRollouts : gmap string RolloutSummary;
  paGroups : gmap string string;
  paRolloutClusters : gset string;
  paTimeoutClusters : gset string;
  paRequeueAfter : Z;
}.

Definition emptyPlanAcc : planAcc := mkPlanAcc ∅ ∅ ∅ ∅ ∅ ∅ 0.

(** The entries of a rollout result that name a cluster. *)
Definition namedClusters (l : list ClusterRolloutStatus) : list ClusterRolloutStatus :=
  filter (λ c, crsClusterName c ≠ "") l.

Definition recordStatuses (m : gmap string ClusterRolloutStatus) (l : list ClusterRolloutStatus)
    : gmap string ClusterRolloutStatus :=
  foldl (λ m c, <[crsClusterName c := c]> m) m l.

Definition clusterNames (l : list ClusterRolloutStatus) : gset string :=
  sets_New (map crsClusterName l).

Definition soonest (requeueAfter : Z) (recheckAfter : option Z) : Z :=
  match recheckAfter with
  | None => requeueAfter
  | Some after =>
      if ((0 <? after) && ((requeueAfter =? 0) || (after <? requeueAfter)))%Z then after
      else requeueAfter
  end.

Section plan.
Context `{MetaConditions} `{LabelsLib} `{SemanticEquality} `{JSONCodec} `{ApiErrors} `{ClusterGroups}.
Context (now : Z) (resolver : bool).

(** One cluster of one ref: its state enters both maps and the list handed to
    the rollout handler; an ownership conflict does not abort planning. *)
Definition planCluster (set : ManagedServiceAccountReplicaSet) (resolution : placementResolution)
    (acc : gmap string ClusterRolloutStatus * gmap string ClusterRolloutStatus * list ClusterRolloutStatus)
    (clusterName : string)
    : prog (gmap string ClusterRolloutStatus * gmap string ClusterRolloutStatus * list ClusterRolloutStatus
            * option error) :=
  let '(all, refStatuses, existing) := acc in
  r ← clusterRolloutStatus set clusterName (primaryRef resolution clusterName) resolver;
  match r.2 with
  | Some e =>
      if is_errChildConflict e
      then mret (<[clusterName := r.1]> all, <[clusterName := r.1]> refStatuses, existing ++ [r.1], None)
      else mret (acc, Some e)
  | None => mret (<[clusterName := r.1]> all, <[clusterName := r.1]> refStatuses, existing ++ [r.1], None)
  end.

Definition planRef (set : ManagedServiceAccountReplicaSet) (resolution : placementResolution)
    (acc : planAcc) (ref : PlacementRef) : prog (planAcc * option error) :=
  let refKey := prefName ref in
  let generation := setGeneration set in
  let clusterGroups := default ∅ (resClusterGroupsByRef resolution !! refKey) in
  let placement := default None (resPlacementsByRef resolution !! refKey) in
  if size clusterGroups =? 0 then
    mret (mkPlanAcc (paCleanup acc) (paStatuses acc)
            (<[refKey := newRolloutSummary now 0 ∅ ∅ ∅ (placementRolloutConditions set refKey) generation]>
               (paRollouts acc))
            (<[refKey := availableDecisionGroupsMessage placement clusterGroups (paStatuses acc) ∅]>
               (paGroups acc))
            (paRolloutClusters acc) (paTimeoutClusters acc) (paRequeueAfter acc), None)
  else
    r ← foldE (planCluster set resolution) (paStatuses acc, ∅, []) (sets_List (GetClusters clusterGroups));
    let '(all, refStatuses, existing) := r.1 in
    match r.2 with
    | Some e => mret (acc, Some e)
    | None =>
        rolloutResult ← send (CGetRolloutCluster clusterGroups noopClusterRolloutStatus
                                (defaultRolloutStrategy (prefRolloutStrategy ref)) existing);
        match rolloutResult with
        | Err e => mret (acc, Some e)
        | Ok rr =>
            let toRollout := namedClusters (rrClustersToRollout rr) in
            let timeOut := namedClusters (rrClustersTimeOut rr) in
            let refStatuses' := recordStatuses (recordStatuses refStatuses toRollout) timeOut in
            mret (mkPlanAcc
                    (clusterNames toRollout ∪ paCleanup acc)
                    (recordStatuses (recordStatuses all toRollout) timeOut)
                    (<[refKey := newRolloutSummary now
                                   (int32 (Z.of_nat (sets_Len (GetClusters clusterGroups))))
                                   (clusterNames toRollout) (clusterNames timeOut) refStatuses'
                                   (placementRolloutConditions set refKey) generation]> (paRollouts acc))
                    (<[refKey := availableDecisionGroupsMessage placement clusterGroups refStatuses'
                                   (clusterNames toRollout)]> (paGroups acc))
                    (clusterNames toRollout ∪ paRolloutClusters acc)
                    (clusterNames timeOut ∪ paTimeoutClusters acc)
                    (soonest (paRequeueAfter acc) (rrRecheckAfter rr)), None)
        end
    end.

Definition planRollout (set : ManagedServiceAccountReplicaSet) (resolution : placementResolution)
    : prog (result rolloutPlan) :=
  r ← foldE (planRef set resolution) emptyPlanAcc (specPlacementRefs (setSpec set));
  match r.2 with
  | Some e => mret (Err e)
  | None =>
      let acc := r.1 in
      mret (Ok (mkRolloutPlan (sets_List (paRolloutClusters acc)) (paCleanup acc) (paStatuses acc)
                  (paRollouts acc) (paGroups acc)
                  (Some (newRolloutSummary now (int32_len (resClusters resolution))
                           (paRolloutClusters acc) (paTimeoutClusters acc) (paStatuses acc)
                           (rolloutConditions (stRollout (setStatus set))) (setGeneration set)))
                  (paRequeueAfter acc)))
  end.

End plan.

Definition applyPlacementRolloutStatus (status : ManagedServiceAccountReplicaSetStatus)
    (rollout : rolloutPlan) : ManagedServiceAccountReplicaSetStatus :=
  with_stPlacements status
    (map (λ p, with_psRollout p (planPlacementRollouts rollout !! psName p)
                 (default "" (planAvailableDecisionGroups rollout !! psName p)))
       (stPlacements status)).

(** ** Lemmas *)

(** The requests of planning: reads, the namespace resolver and the rollout
    handler. *)
Definition plan_read (c : call) : Prop :=
  match c with
  | CGetMSA _ | CGetWork _ | CResolveNamespaceSelector _ _ _ _ | CGetRolloutCluster _ _ _ _ => True
  | _ => False
  end.

(** Those of looking at one cluster. *)
Definition child_read (c : call) : Prop :=
  match c with
  | CGetMSA _ | CGetWork _ | CResolveNamespaceSelector _ _ _ _ => True
  | _ => False
  end.

Lemma child_read_plan c : child_read c → plan_read c.
Proof. by destruct c. Qed.

Section calls.
Context `{MetaConditions} `{LabelsLib} `{SemanticEquality} `{JSONCodec} `{ApiErrors} `{ClusterGroups}.

Lemma desiredRBACSlices_reads set cl resolver : all_calls child_read (desiredRBACSlices set cl resolver).
Proof. unfold desiredRBACSlices, sliceGrant, resolveGrantNamespaces. calls_steps; simpl; done. Qed.

Lemma existingMSA_reads set d : all_calls child_read (existingManagedServiceAccountRolloutStatus set d).
Proof. unfold existingManagedServiceAccountRolloutStatus. calls_steps; done. Qed.

Lemma existingWork_reads set d : all_calls child_read (existingManifestWorkRolloutStatus set d).
Proof. unfold existingManifestWorkRolloutStatus. calls_steps; done. Qed.

Lemma checkChild_reads cl t check continue :
  all_calls child_read check → (∀ t, all_calls child_read (continue t)) →
  all_calls child_read (checkChild cl t check continue).
Proof. intros Hc Hk. unfold checkChild. calls_steps; done. Qed.

Lemma checkSlices_reads set cl ref slices t : all_calls child_read (checkSlices set cl ref slices t).
Proof.
  revert t. induction slices as [|s slices IH]; intros t; cbn [checkSlices]; [done|].
  apply checkChild_reads; [apply existingWork_reads|done].
Qed.

Lemma clusterRolloutStatus_reads set cl ref resolver :
  all_calls child_read (clusterRolloutStatus set cl ref resolver).
Proof.
  assert (∀ t, all_calls child_read (checkWorkloadRBAC set cl ref resolver t)) as Hrbac.
  { intros t. unfold checkWorkloadRBAC. calls_steps; try done;
      [apply desiredRBACSlices_reads|apply checkSlices_reads]. }
  unfold clusterRolloutStatus. calls_steps; try done.
  apply checkChild_reads; [apply existingMSA_reads|]. intros t1.
  apply checkChild_reads; [apply existingWork_reads|]. intros t2. apply Hrbac.
Qed.

Lemma planRollout_reads now resolver set resolution :
  all_calls plan_read (planRollout now resolver set resolution).
Proof.
  unfold planRollout, planRef, planCluster.
  calls_steps; try done;
    (eapply all_calls_mono; [apply clusterRolloutStatus_reads|apply child_read_plan]).
Qed.

End calls.

(** ** What a cluster that succeeded has shown *)

Section evidence.
Context `{MetaConditions} `{LabelsLib} `{SemanticEquality} `{JSONCodec} `{ApiErrors} `{ClusterGroups}.

(** A work is rolled out when its Applied condition is True, its Progressing
    condition is False, and both, as well as Degraded if present, were
    observed at the current generation. *)
Definition workRolledOut (w : ManifestWork) : Prop :=
  let cs := mwConditions w in
  let g := omGeneration (mwMeta w) in
  (∃ a, FindStatusCondition cs WorkApplied = Some a ∧ condStatus a = ConditionTrue ∧
        condObservedGeneration a = g) ∧
  (∃ p, FindStatusCondition cs WorkProgressing = Some p ∧ condStatus p = ConditionFalse ∧
        condObservedGeneration p = g) ∧
  (∀ d, FindStatusCondition cs WorkDegraded = Some d → condObservedGeneration d = g).

Lemma manifestWorkNeedsApply_false g applied progressing degraded :
  manifestWorkNeedsApply g applied progressing degraded = false ↔
  (∃ a, applied = Some a ∧ condObservedGeneration a = g ∧ condStatus a = ConditionTrue) ∧
  (∃ p, progressing = Some p ∧ condObservedGeneration p = g) ∧
  (∀ d, degraded = Some d → condObservedGeneration d = g).
Proof.
  unfold manifestWorkNeedsApply, conditionObserved. split.
  - destruct applied as [a|]; simpl; [|done]. destruct (_ && _) eqn:Ea; simpl; [|done]. breflect.
    destruct progressing as [p|]; [|done].
    destruct (bool_decide (condObservedGeneration p = g)) eqn:Ep; simpl; [|done]. breflect.
    intros Hd. split_and!; [by eexists|by eexists|]. intros d ->.
    destruct (bool_decide (condObservedGeneration d = g)) eqn:Ed; simpl in *; [by breflect|done].
  - intros ((a & -> & Ha1 & Ha2) & (p & -> & Hp) & Hd).
    rewrite !bool_decide_eq_true_2 by done. simpl.
    destruct degraded as [d|]; [|done]. by rewrite bool_decide_eq_true_2 by auto.
Qed.

Lemma manifestWorkRolloutStatus_Succeeded w :
  (manifestWorkRolloutStatus w).1 = Succeeded ↔ workRolledOut w.
Proof.
  unfold manifestWorkRolloutStatus, manifestWorkRolloutStatus_run, workRolledOut.
  destruct (manifestWorkNeedsApply _ _ _ _) eqn:En.
  - simpl. split; [done|]. intros ((a & Ha & ? & ?) & (p & Hp & ? & ?) & Hd).
    rewrite (proj2 (manifestWorkNeedsApply_false _ _ _ _)) in En; [done|].
    split_and!; [by exists a|by exists p|exact Hd].
  - apply manifestWorkNeedsApply_false in En as ((a & Ha & ? & ?) & (p & Hp & Hpg) & Hd).
    rewrite Hp. simpl. split.
    + intros Hs. split_and!; [by exists a| |exact Hd]. exists p. split_and!; [done| |done].
      destruct (bool_decide (condStatus p = ConditionTrue)); simpl in Hs.
      { destruct (FindStatusCondition _ WorkDegraded) as [d|];
          [destruct (bool_decide (condStatus d = ConditionTrue))|]; done. }
      destruct (bool_decide (condStatus p = ConditionFalse)) eqn:Ef; [by breflect|done].
    + intros (_ & (p' & [= <-] & Hf & _) & _). rewrite Hf. done.
Qed.

Definition seenMSA (tr : trace) (set : ManagedServiceAccountReplicaSet) (d : ManagedServiceAccount) : Prop :=
  ∃ o, Ev (CGetMSA (ObjectKey (msaMeta d))) (Ok o) ∈ tr ∧ ownedMSA set o ∧
       childMatches o d msaSpecOps = true ∧ managedServiceAccountReady o = true.

Definition seenWork (tr : trace) (set : ManagedServiceAccountReplicaSet) (d : ManifestWork) : Prop :=
  ∃ o, Ev (CGetWork (ObjectKey (mwMeta d))) (Ok o) ∈ tr ∧ ownedWork set o ∧
       childMatches o d manifestWorkSpecOps = true ∧ workRolledOut o.

(** Every child of the cluster was read, is owned by the set, matches what the
    set wants now, and is rolled out; the works are those of all namespaces of
    all grants. *)
Definition cluster_settled (set : ManagedServiceAccountReplicaSet) (tr : trace) (cl ref : string) : Prop :=
  seenMSA tr set (buildManagedServiceAccount set cl ref) ∧
  (selectorRBACEnabled set = true →
     seenMSA tr set (buildControllerAccessManagedServiceAccount set cl ref) ∧
     seenWork tr set (buildControllerAccessManifestWork set cl ref)) ∧
  (rbacEnabled set = true →
     ∃ slices, slices_resolved set cl tr slices ∧
       ∀ s, s ∈ slices → seenWork tr set (buildManifestWork set cl ref s)).

Lemma seenMSA_suffix tr tr' set d : tr `suffix_of` tr' → seenMSA tr set d → seenMSA tr' set d.
Proof. intros Hs (o & ? & ?). exists o. split; [by eapply suffix_elem|done]. Qed.

Lemma seenWork_suffix tr tr' set d : tr `suffix_of` tr' → seenWork tr set d → seenWork tr' set d.
Proof. intros Hs (o & ? & ?). exists o. split; [by eapply suffix_elem|done]. Qed.

Lemma cluster_settled_suffix set tr tr' cl ref :
  tr `suffix_of` tr' → cluster_settled set tr cl ref → cluster_settled set tr' cl ref.
Proof.
  intros Hs (Hm & Ha & Hr). split_and!; [by eapply seenMSA_suffix| |].
  - intros Hsel. destruct (Ha Hsel). split; [by eapply seenMSA_suffix|by eapply seenWork_suffix].
  - intros Hrb. destruct (Hr Hrb) as (slices & ? & Hall). exists slices.
    split; [by eapply slices_resolved_suffix|]. intros s Hin. eapply seenWork_suffix; [exact Hs|auto].
Qed.

Lemma managedServiceAccountRolloutStatus_Succeeded o :
  (managedServiceAccountRolloutStatus o).1 = Succeeded ↔ managedServiceAccountReady o = true.
Proof. unfold managedServiceAccountRolloutStatus. by destruct (managedServiceAccountReady o). Qed.

Context (R : trace → ∀ c, resp c → Prop) (G : trace → call → Prop).
Context (HG : ∀ tr c, child_read c → G tr c).

Lemma existingMSA_wp set d tr :
  wp R G (existingManagedServiceAccountRolloutStatus set d)
    (λ tr' r, tr `suffix_of` tr' ∧ (r.1.1 = Succeeded → r.2 = None ∧ seenMSA tr' set d)) tr.
Proof.
  unfold existingManagedServiceAccountRolloutStatus. apply wp_bind, wp_send; [by apply HG|].
  assert (∀ e : event, tr `suffix_of` e :: tr) by (intros; by apply suffix_cons_r).
  intros [o|e] _; [|case_goal; by apply wp_ret].
  destruct (ownedBySet set (omLabels (msaMeta o))) eqn:Eo; simpl; [|by split].
  destruct (childMatches o d msaSpecOps) eqn:Em; simpl; [|by split].
  destruct (managedServiceAccountRolloutStatus o) as [st t] eqn:Est. split; [done|]. simpl. intros ->.
  split; [done|]. exists o. split_and!; [left|done|done|]. apply managedServiceAccountRolloutStatus_Succeeded. by rewrite Est.
Qed.

Lemma existingWork_wp set d tr :
  wp R G (existingManifestWorkRolloutStatus set d)
    (λ tr' r, tr `suffix_of` tr' ∧ (r.1.1 = Succeeded → r.2 = None ∧ seenWork tr' set d)) tr.
Proof.
  unfold existingManifestWorkRolloutStatus. apply wp_bind, wp_send; [by apply HG|].
  assert (∀ e : event, tr `suffix_of` e :: tr) by (intros; by apply suffix_cons_r).
  intros [o|e] _; [|case_goal; by apply wp_ret].
  destruct (ownedBySet set (omLabels (mwMeta o))) eqn:Eo; simpl; [|by split].
  destruct (childMatches o d manifestWorkSpecOps) eqn:Em; simpl; [|by split].
  destruct (manifestWorkRolloutStatus o) as [st t] eqn:Est. split; [done|]. simpl. intros ->.
  split; [done|]. exists o. split_and!; [left|done|done|]. apply manifestWorkRolloutStatus_Succeeded. by rewrite Est.
Qed.

Lemma checkChild_wp cl t check continue (P : trace → Prop) Q tr :
  wp R G check (λ tr' r, tr `suffix_of` tr' ∧ (r.1.1 = Succeeded → r.2 = None ∧ P tr')) tr →
  (∀ tr' r, tr `suffix_of` tr' → crsClusterName r.1 = cl → crsStatus r.1 ≠ Succeeded → Q tr' r) →
  (∀ tr' t', tr `suffix_of` tr' → P tr' → wp R G (continue t') Q tr') →
  wp R G (checkChild cl t check continue) Q tr.
Proof.
  intros Hc Hstop Hgo. unfold checkChild. apply wp_bind. eapply wp_mono; [exact Hc|].
  intros tr' [[st tm] err] [Hs HP]. cbn [fst snd] in *.
  destruct (decide (st = Succeeded)) as [->|Hne].
  - destruct (HP eq_refl) as [-> HPt]. simpl. by apply Hgo.
  - rewrite (bool_decide_eq_false_2 (st = Succeeded)) by done. rewrite orb_true_r.
    apply wp_ret. by apply Hstop.
Qed.

Lemma checkSlices_wp set cl ref slices t tr (P : trace → Prop) :
  (∀ tr tr', tr `suffix_of` tr' → P tr → P tr') → P tr →
  wp R G (checkSlices set cl ref slices t)
    (λ tr' r, crsClusterName r.1 = cl ∧ tr `suffix_of` tr' ∧ (crsStatus r.1 = Succeeded →
       P tr' ∧ ∀ s, s ∈ slices → seenWork tr' set (buildManifestWork set cl ref s))) tr.
Proof.
  intros HP. revert t tr. induction slices as [|s slices IH]; intros t tr Ht; cbn [checkSlices].
  { apply wp_ret. split_and!; [done|done|]. intros _. split; [done|by intros ? ?%elem_of_nil]. }
  eapply checkChild_wp; [apply existingWork_wp| |].
  - intros tr' r Hs Hn Hne. by split_and!.
  - intros tr' t' Hs Hseen. eapply wp_mono; [by apply IH; eapply HP|].
    intros tr2 r (Hn & Hs2 & Hr). split_and!; [done|by etrans|]. intros Hsucc.
    destruct (Hr Hsucc) as [HP2 Hall]. split; [done|].
    intros s' [->|Hs']%elem_of_cons; [by eapply seenWork_suffix|auto].
Qed.

(** The account, and the controller-access children when they are needed. *)
Definition accounts_seen (set : ManagedServiceAccountReplicaSet) (tr : trace) (cl ref : string) : Prop :=
  seenMSA tr set (buildManagedServiceAccount set cl ref) ∧
  (selectorRBACEnabled set = true →
     seenMSA tr set (buildControllerAccessManagedServiceAccount set cl ref) ∧
     seenWork tr set (buildControllerAccessManifestWork set cl ref)).

Lemma accounts_seen_suffix set tr tr' cl ref :
  tr `suffix_of` tr' → accounts_seen set tr cl ref → accounts_seen set tr' cl ref.
Proof.
  intros Hs [Hm Ha]. split; [by eapply seenMSA_suffix|].
  intros Hsel. destruct (Ha Hsel). split; [by eapply seenMSA_suffix|by eapply seenWork_suffix].
Qed.

Definition status_sound (set : ManagedServiceAccountReplicaSet) (cl ref : string) (tr : trace)
    (r : ClusterRolloutStatus * option error) : Prop :=
  crsClusterName r.1 = cl ∧ (crsStatus r.1 = Succeeded → cluster_settled set tr cl ref).

Lemma checkWorkloadRBAC_wp set cl ref resolver t tr :
  accounts_seen set tr cl ref →
  wp R G (checkWorkloadRBAC set cl ref resolver t) (status_sound set cl ref) tr.
Proof.
  intros Hacc. unfold checkWorkloadRBAC. destruct (rbacEnabled set) eqn:Er; cycle 1.
  { apply wp_ret. split; [done|]. intros _. destruct Hacc. split_and!; [done|done|by rewrite Er]. }
  apply wp_bind. eapply wp_mono.
  { apply wp_suffix, desiredRBACSlices_wp. right. intros. by apply HG. }
  intros tr2 [slices [e|]] [Hsl Hs2]; [by apply wp_ret|].
  eapply wp_mono.
  { apply (checkSlices_wp _ _ _ _ _ _ (λ tr', accounts_seen set tr' cl ref));
      [intros tr3 tr4; by apply accounts_seen_suffix|by eapply accounts_seen_suffix]. }
  intros tr3 r (Hn & Hs3 & Hr). split; [done|]. intros Hsucc. destruct (Hr Hsucc) as [[Hm Ha] Hall].
  split_and!; [done|done|]. intros _. exists slices. split; [|done].
  destruct Hsl as [(acc & seg & -> & Hok & [Hcomp _] & [= -> Hj])|(_ & e & [=])]. by exists acc, seg, tr.
Qed.

(** The state of a cluster names the cluster, and Succeeded means settled. *)
Lemma clusterRolloutStatus_wp set cl ref resolver tr :
  wp R G (clusterRolloutStatus set cl ref resolver) (status_sound set cl ref) tr.
Proof.
  unfold clusterRolloutStatus. apply wp_bind, wp_send; [by apply HG|].
  intros [o|e] _; [|case_goal; by apply wp_ret].
  destruct (ownedBySet set (omLabels (msaMeta o))) eqn:Eo; cbn [negb]; [|by apply wp_ret].
  destruct (childMatches o _ msaSpecOps) eqn:Em; cbn [negb]; [|by apply wp_ret].
  destruct (managedServiceAccountRolloutStatus o) as [st t] eqn:Est.
  destruct (decide (st = Succeeded)) as [->|Hne]; cycle 1.
  { rewrite bool_decide_eq_false_2 by done. cbn [negb]. by apply wp_ret. }
  rewrite bool_decide_eq_true_2 by done. cbn [negb].
  match goal with |- wp _ _ _ _ ?tr1 =>
    assert (seenMSA tr1 set (buildManagedServiceAccount set cl ref)) as Hseen end.
  { exists o. split_and!; [left|done|done|]. apply managedServiceAccountRolloutStatus_Succeeded. by rewrite Est. }
  destruct (selectorRBACEnabled set) eqn:Es; cycle 1.
  { apply checkWorkloadRBAC_wp. split; [done|by rewrite Es]. }
  eapply checkChild_wp; [apply existingMSA_wp|by split|]. intros tr2 t2 Hs2 Hseen2.
  eapply checkChild_wp; [apply existingWork_wp|by split|]. intros tr3 t3 Hs3 Hseen3.
  apply checkWorkloadRBAC_wp. split; [eapply seenMSA_suffix; [|exact Hseen]; by etrans|].
  intros _. split; [by eapply seenMSA_suffix|done].
Qed.

End evidence.
