(* ===== verification/RolloutPlan.v ===== *)
(** * Soundness of the rollout plan and of its summaries

    What the plan says about a cluster is backed by what was read in the pass,
    the cleanup window is the rollout window, the requeue is the soonest the
    rollout handler asked for, and the counters of a summary add up. *)

From S2P Require Import Prelude GoStd ApiTypes Interfaces Reference Effects Samples Store.
From S2P Require Import Metadata Rbac ControllerAccess Validation Conditions Children Placement Rollout.
From Stdlib Require Import ZArith Lia.

(** The recheck interval an answer of the rollout handler asks for. *)
Definition ev_recheck (e : event) : option Z :=
  match e with
  | Ev c r =>
      match c return resp c → option Z with
      | CGetRolloutCluster _ _ _ _ => λ r, match r with Ok rr => rrRecheckAfter rr | Err _ => None end
      | _ => λ _, None
      end r
  end.

Definition rechecks (tr : trace) : list Z := omap ev_recheck tr.

(** [requeueAfter] is the smallest positive interval asked for, or zero. *)
Definition requeue_spec (asked : list Z) (requeueAfter : Z) : Prop :=
  (∀ a, a ∈ asked → (0 < a)%Z → (0 < requeueAfter <= a)%Z) ∧
  (requeueAfter = 0%Z ∨ ((0 < requeueAfter)%Z ∧ requeueAfter ∈ asked)).

Lemma soonest_spec asked q r :
  requeue_spec asked q → requeue_spec (option_list r ++ asked) (soonest q r).
Proof.
  intros [Hall Hex]. destruct r as [a|]; simpl; [|done].
  destruct ((0 <? a) && ((q =? 0) || (a <? q)))%Z eqn:E.
  - apply andb_true_iff in E as [Ha Hq]. apply Z.ltb_lt in Ha. split.
    + intros b [->|Hb]%elem_of_cons Hpos; [lia|]. specialize (Hall b Hb Hpos).
      apply orb_true_iff in Hq as [Hq%Z.eqb_eq|Hq%Z.ltb_lt]; lia.
    + right. split; [done|left].
  - apply andb_false_iff in E. split.
    + intros b [->|Hb]%elem_of_cons Hpos; [|by apply Hall].
      destruct E as [E%Z.ltb_ge|E]; [lia|]. apply orb_false_iff in E as [E1%Z.eqb_neq E2%Z.ltb_ge].
      destruct Hex as [?|[? _]]; lia.
    + destruct Hex as [?|[? ?]]; [by left|right; split; [done|by right]].
Qed.

Lemma recordStatuses_lookup m l k st :
  recordStatuses m l !! k = Some st →
  (st ∈ l ∧ crsClusterName st = k) ∨ (m !! k = Some st ∧ k ∉ clusterNames l).
Proof.
  unfold recordStatuses, clusterNames. revert m. induction l as [|c l IH]; intros m; simpl; [by right|].
  intros [[Hin Hn]|[Hm Hn]]%IH; [left; split; [by right|done]|].
  apply lookup_insert_Some in Hm as [[Hc <-]|[Hc Hm]]; [left; split; [left|done]|].
  right. split; [done|]. rewrite sets_New_elem_of in *. by intros [?|?]%elem_of_cons.
Qed.

Lemma clusterNames_elem l x : x ∈ clusterNames l ↔ ∃ c, c ∈ l ∧ crsClusterName c = x.
Proof.
  unfold clusterNames. rewrite sets_New_elem_of, list_elem_of_fmap. naive_solver.
Qed.

Section plan.
Context `{MetaConditions} `{LabelsLib} `{SemanticEquality} `{JSONCodec} `{ApiErrors} `{ClusterGroups}.
Context (now : Z) (resolver : bool) (set : ManagedServiceAccountReplicaSet)
        (resolution : placementResolution).

(** Recorded as Succeeded outside the window means settled. *)
Definition statuses_sound (window : gset string) (tr : trace)
    (m : gmap string ClusterRolloutStatus) : Prop :=
  ∀ cl st, m !! cl = Some st → crsStatus st = Succeeded → cl ∉ window →
    cluster_settled set tr cl (primaryRef resolution cl).

Lemma statuses_sound_mono window window' tr tr' m :
  statuses_sound window tr m → window ⊆ window' → tr `suffix_of` tr' → statuses_sound window' tr' m.
Proof.
  intros Hm Hw Hs cl st Hl Hst Hn. eapply cluster_settled_suffix; [exact Hs|].
  eapply Hm; [done..|]. set_solver.
Qed.

Record plan_inv (tr : trace) (acc : planAcc) : Prop := {
  pi_sound : statuses_sound (paRolloutClusters acc) tr (paStatuses acc);
  pi_window : paCleanup acc = paRolloutClusters acc;
  pi_requeue : requeue_spec (rechecks tr) (paRequeueAfter acc);
}.

(** The inner loop over the clusters of one ref: it collects one status per
    cluster, in order, and asks nothing of the rollout handler. *)
Lemma planClusters_wp window (m0 : gmap string ClusterRolloutStatus) l tr :
  statuses_sound window tr m0 →
  wp api_contract (λ _, plan_read)
    (foldE (planCluster resolver set resolution) (m0, ∅, []) l)
    (λ tr' r, rechecks tr' = rechecks tr ∧ tr `suffix_of` tr' ∧
       (r.2 = None → statuses_sound window tr' r.1.1.1 ∧ map crsClusterName r.1.2 = l)) tr.
Proof.
  intros Hm0.
  apply (wp_foldE _ _ _ (λ tr' done acc, rechecks tr' = rechecks tr ∧ tr `suffix_of` tr' ∧
    statuses_sound window tr' acc.1.1 ∧ map crsClusterName acc.2 = done)); [done| |].
  - intros done cl rest [[all refS] ex] tr1 Hl (Hr & Hs & Hm & Hex). cbn [fst snd] in *. unfold planCluster.
    apply wp_bind.
    assert (wp api_contract (λ _, child_read) (clusterRolloutStatus set cl (primaryRef resolution cl) resolver)
      (status_sound set cl (primaryRef resolution cl)) tr1) as Hwp by (by apply clusterRolloutStatus_wp).
    apply (wp_invariant _ _ (λ tr', rechecks tr' = rechecks tr)) in Hwp; [| |exact Hr].
    2:{ intros tr' c r Hc Ht. unfold rechecks in *. by destruct c. }
    apply wp_suffix in Hwp.
    eapply wp_mono; [eapply wp_weaken; [done| |exact Hwp]; intros ? ?; apply child_read_plan|].
    intros tr2 [st err] [[[Hname Hsettled] Hr2] Hs2]. cbn [fst snd] in *.
    assert (tr `suffix_of` tr2) as Hs' by (by etrans).
    assert (rechecks tr2 = rechecks tr ∧ tr `suffix_of` tr2 ∧
            statuses_sound window tr2 (<[cl := st]> all) ∧ map crsClusterName (ex ++ [st]) = done ++ [cl])
      as Hnext.
    { split_and!; [done|done| |by rewrite map_app, Hex; simpl; rewrite Hname].
      intros cl' st' Hl' Hst' Hn'. apply lookup_insert_Some in Hl' as [[<- <-]|[_ Hl']]; [auto|].
      by eapply statuses_sound_mono. }
    destruct err as [e|]; [destruct (is_errChildConflict e)|]; apply wp_ret; cbn [fst snd];
      [exact Hnext|by split_and!|exact Hnext].
  - intros tr1 [[all refS] ex] (? & ? & ? & ?). by split_and!.
Qed.

Lemma planRef_wp acc ref tr :
  plan_inv tr acc →
  wp api_contract (λ _, plan_read) (planRef now resolver set resolution acc ref)
    (λ tr' r, r.2 = None → plan_inv tr' r.1) tr.
Proof.
  intros [Hsound Hwin Hreq]. unfold planRef. cbn zeta. destruct (size _ =? 0); [by apply wp_ret|].
  apply wp_bind. eapply wp_mono; [by apply planClusters_wp|].
  intros tr1 [[[all refS] ex] err] (Hr & Hs & Hm). cbn [fst snd] in *.
  destruct err as [e|]; [by apply wp_ret|]. destruct (Hm eq_refl) as [Hall _].
  apply wp_bind, wp_send; [done|]. intros [rr|e] HR; apply wp_ret; [|done]. intros _. simpl.
  set (toR := namedClusters (rrClustersToRollout rr)). set (late := namedClusters (rrClustersTimeOut rr)).
  split; simpl; [|by rewrite Hwin|].
  - intros cl st [[Hin Hn]|[Hl Hnl]]%recordStatuses_lookup Hst Hnw.
    { apply list_elem_of_filter in Hin as [_ Hin]. rewrite (HR rr st eq_refl Hin) in Hst. done. }
    apply recordStatuses_lookup in Hl as [[Hin Hn]|[Hl Hnt]].
    { destruct Hnw. apply elem_of_union_l, clusterNames_elem. by exists st. }
    apply (cluster_settled_suffix set tr1); [by apply suffix_cons_r|]. apply (Hall cl st); [done..|]. set_solver.
  - match goal with |- requeue_spec ?l _ =>
      assert (l = option_list (rrRecheckAfter rr) ++ rechecks tr1) as -> end.
    { unfold rechecks. cbn. destruct (rrRecheckAfter rr); reflexivity. }
    rewrite Hr. by apply soonest_spec.
Qed.

(** What a plan guarantees. *)
Record plan_sound (tr : trace) (plan : rolloutPlan) : Prop := {
  ps_settled : statuses_sound (sets_New (planClusters plan)) tr (planStatuses plan);
  ps_window : planCleanupClusters plan = sets_New (planClusters plan);
  ps_sorted : NoDup (planClusters plan) ∧ StronglySorted String.le (planClusters plan);
  ps_requeue : requeue_spec (rechecks tr) (planRequeueAfter plan);
}.

Lemma sets_New_List (X : gset string) : sets_New (sets_List X) = X.
Proof. apply set_eq. intros x. by rewrite sets_New_elem_of, sets_List_elem_of. Qed.

Lemma planRollout_wp tr :
  rechecks tr = [] →
  wp api_contract (λ _, plan_read) (planRollout now resolver set resolution)
    (λ tr' r, match r with Ok plan => plan_sound tr' plan | Err _ => True end) tr.
Proof.
  intros Hr. unfold planRollout. apply wp_bind.
  apply (wp_foldE _ _ _ (λ tr' _ acc, plan_inv tr' acc)).
  - split; [intros cl st Hl; cbn in Hl; by rewrite lookup_empty in Hl|done|]. rewrite Hr. split; [by intros ? ?%elem_of_nil|by left].
  - intros done ref rest acc tr1 _ Hinv. eapply wp_mono; [by apply planRef_wp|].
    intros tr2 [acc2 [e|]] Hpost; cbn [fst snd] in *; [by apply wp_ret|by apply Hpost].
  - intros tr1 acc [Hsound Hwin Hreq]. apply wp_ret.
    split; cbn [planClusters planCleanupClusters planStatuses planRequeueAfter].
    + by rewrite sets_New_List.
    + by rewrite sets_New_List.
    + split; [apply sets_List_NoDup|apply sets_List_Sorted].
    + done.
Qed.

End plan.

(** ** Summaries *)

Section summary.
Context `{MetaConditions} `{ClusterGroups}.

(** An entry in state [st] whose cluster is neither updating nor reported as
    timed out. *)
Definition counted (st : RolloutStatus) (updating timedOut : gset string)
    (e : string * ClusterRolloutStatus) : Prop :=
  (e.1 ∉ updating) ∧ (e.1 ∉ timedOut) ∧ crsStatus e.2 = st.

#[local] Instance counted_dec st updating timedOut e : Decision (counted st updating timedOut e).
Proof. unfold counted. apply _. Defined.

(** The clusters of those entries. *)
Definition clustersIn (st : RolloutStatus) (updating timedOut : gset string)
    (statuses : gmap string ClusterRolloutStatus) : gset string :=
  dom (filter (counted st updating timedOut) statuses).

Lemma clustersIn_elem st updating timedOut statuses x :
  x ∈ clustersIn st updating timedOut statuses ↔
  ∃ c, statuses !! x = Some c ∧ counted st updating timedOut (x, c).
Proof.
  unfold clustersIn. rewrite elem_of_dom. unfold is_Some.
  by setoid_rewrite map_lookup_filter_Some.
Qed.

Lemma clustersIn_size st updating timedOut statuses :
  size (clustersIn st updating timedOut statuses) =
  length (filter (counted st updating timedOut) (map_to_list statuses)).
Proof.
  unfold clustersIn. rewrite size_dom, map_filter_alt, <- length_map_to_list.
  rewrite map_to_list_to_map; [done|].
  apply (sublist_NoDup _ (map_to_list statuses).*1); [apply NoDup_fst_map_to_list|].
  apply fmap_sublist, sublist_filter.
Qed.

Lemma countStatus_fold updating timedOut l a b c :
  let n st := Z.of_nat (length (filter (counted st updating timedOut) l)) in
  foldl (countStatus updating timedOut) (int32 a, int32 b, int32 c) l =
  (int32 (a + n Succeeded), int32 (b + n Failed), int32 (c + n TimeOut)).
Proof.
  revert a b c. induction l as [|e l IH]; intros a b c; cbn [foldl]; [by rewrite !Z.add_0_r|].
  unfold countStatus at 2. destruct (sets_Has updating e.1 || sets_Has timedOut e.1) eqn:E.
  - assert (∀ st, ¬ counted st updating timedOut e) as Hno.
    { intros st (Hu & Ht & _). apply sets_Has_false in Hu, Ht. by rewrite Hu, Ht in E. }
    rewrite IH. cbn [filter list_filter]. by rewrite !decide_False by apply Hno.
  - apply orb_false_iff in E as [Hu%sets_Has_false Ht%sets_Has_false].
    assert (∀ st : RolloutStatus, length (filter (counted st updating timedOut) (e :: l)) =
      (if decide (crsStatus e.2 = st) then 1 else 0) + length (filter (counted st updating timedOut) l)) as Hcons.
    { intros st. cbn [filter list_filter]. destruct (decide (crsStatus e.2 = st)).
      - by rewrite decide_True.
      - rewrite decide_False; [done|]. unfold counted. tauto. }
    cbv zeta. rewrite !Hcons.
    destruct (crsStatus e.2); rewrite ?int32_add_int32_l, IH;
      repeat (case_decide; try congruence);
      (apply pair_equal_spec; split; [apply pair_equal_spec; split|]; f_equal; lia).
Qed.

(** The counters of a summary, as sizes of sets of clusters. *)
Lemma newRolloutSummary_counters now total updating timedOut statuses previous generation :
  let s := newRolloutSummary now total updating timedOut statuses previous generation in
  rsumTotal s = total ∧
  rsumUpdating s = int32 (Z.of_nat (size updating)) ∧
  rsumSucceeded s = int32 (Z.of_nat (size (clustersIn Succeeded updating timedOut statuses))) ∧
  rsumFailed s = int32 (Z.of_nat (size (clustersIn Failed updating timedOut statuses))) ∧
  rsumTimedOut s = int32 (Z.of_nat (size timedOut + size (clustersIn TimeOut updating timedOut statuses))).
Proof.
  unfold newRolloutSummary, sets_Len.
  pose proof (countStatus_fold updating timedOut (map_to_list statuses) 0 0 (Z.of_nat (size timedOut))) as Hf.
  cbv beta zeta in Hf. rewrite <- !clustersIn_size, !Z.add_0_l, <- Nat2Z.inj_add in Hf.
  change (int32 0) with 0%Z in Hf. rewrite Hf. cbv zeta. by split_and!.
Qed.

(** The condition of a summary. *)
Lemma newRolloutSummary_condition now total updating timedOut statuses previous generation :
  let s := newRolloutSummary now total updating timedOut statuses previous generation in
  let completed := negb (total =? 0)%Z && (rsumSucceeded s =? total)%Z in
  statusOf (rsumConditions s) conditionProgressing =
    Some (if completed then ConditionFalse else ConditionTrue) ∧
  reasonOf (rsumConditions s) conditionProgressing =
    Some (if completed then reasonCompleted else reasonProgressing).
Proof.
  unfold newRolloutSummary. destruct (foldl _ _ _) as [[succ fail] late]. cbn [rsumSucceeded rsumConditions].
  destruct (total =? 0)%Z, (succ =? total)%Z; simpl; by read_conditions.
Qed.

Lemma clustersIn_dom st updating timedOut statuses :
  clustersIn st updating timedOut statuses ⊆ dom statuses.
Proof. intros x (c & Hc & _)%clustersIn_elem. by apply elem_of_dom_2 in Hc. Qed.

Lemma clustersIn_disjoint st st' updating timedOut statuses :
  st ≠ st' → clustersIn st updating timedOut statuses ## clustersIn st' updating timedOut statuses.
Proof.
  intros Hne x (c & Hc & _ & _ & ?)%clustersIn_elem (c' & Hc' & _ & _ & ?)%clustersIn_elem. congruence.
Qed.

(** The buckets of a summary do not overlap, so they fit in the total. *)
Lemma summary_buckets updating timedOut statuses :
  updating ## timedOut → updating ∪ timedOut ⊆ dom statuses →
  size updating + size (clustersIn Succeeded updating timedOut statuses)
  + size (clustersIn Failed updating timedOut statuses)
  + (size timedOut + size (clustersIn TimeOut updating timedOut statuses)) <= size statuses.
Proof.
  intros Hd Hsub. rewrite <- size_dom.
  assert (∀ st, clustersIn st updating timedOut statuses ## updating ∪ timedOut) as Hout.
  { intros st x (c & _ & ? & ? & _)%clustersIn_elem. set_solver. }
  pose proof (Hout Succeeded) as H1s. pose proof (Hout Failed) as H1f. pose proof (Hout TimeOut) as H1l.
  pose proof (clustersIn_dom Succeeded updating timedOut statuses) as H2s.
  pose proof (clustersIn_dom Failed updating timedOut statuses) as H2f.
  pose proof (clustersIn_dom TimeOut updating timedOut statuses) as H2l.
  pose proof (clustersIn_disjoint Succeeded Failed updating timedOut statuses ltac:(done)) as H3.
  pose proof (clustersIn_disjoint Succeeded TimeOut updating timedOut statuses ltac:(done)) as H4.
  pose proof (clustersIn_disjoint Failed TimeOut updating timedOut statuses ltac:(done)) as H5.
  revert H1s H1f H1l H2s H2f H2l H3 H4 H5. clear Hout.
  generalize (clustersIn Succeeded updating timedOut statuses) (clustersIn Failed updating timedOut statuses)
    (clustersIn TimeOut updating timedOut statuses). intros S F L H1s H1f H1l H2s H2f H2l H3 H4 H5.
  assert (size (updating ∪ timedOut ∪ S ∪ F ∪ L) =
          size updating + size timedOut + size S + size F + size L) as Hsz
    by (rewrite !size_union; [lia|set_solver..]).
  enough (updating ∪ timedOut ∪ S ∪ F ∪ L ⊆ dom statuses) as Hs by (apply subseteq_size in Hs; lia).
  set_solver.
Qed.

End summary.

(** ** Properties *)

Section properties.
Context `{MetaConditions} `{LabelsLib} `{SemanticEquality} `{JSONCodec} `{ApiErrors} `{ClusterGroups}.

(** C17: The plan is backed by what the pass read, for every API server and
    rollout handler within the contract: planning only reads; a cluster that
    is outside the rollout window and recorded as Succeeded has its account,
    its controller-access children and every work of its grants read as owned
    by the set, equal to what the set wants now, and rolled out; the clusters
    whose stale children may be cleaned up are exactly those of the window;
    the window is sorted and without duplicates; and the requeue is the
    soonest positive interval the rollout handler asked for, or none. *)
Theorem planRollout_sound {W} (h : handler W) Inv (w : W) now resolver set resolution :
  handler_ok Inv api_contract h → Inv w →
  let o := run h (planRollout now resolver set resolution) w in
  trace_ok (λ _, plan_read) (out_trace o) ∧
  match out_val o with
  | Ok plan => plan_sound set resolution (out_trace o) plan
  | Err _ => True
  end.
Proof.
  intros Hh Hw o.
  destruct (wp_run_ok h Inv api_contract _ _ _ w Hh Hw (planRollout_wp now resolver set resolution [] eq_refl))
    as (Hq & Ht & _). done.
Qed.

(** C30: The counters of a rollout summary add up: when no cluster is both
    updating and timed out and the statuses cover both, each counter is the
    exact number of clusters of its bucket, no int32 wraps around, and the
    four buckets together never exceed the clusters that have a status. *)
Theorem newRolloutSummary_adds_up now total updating timedOut statuses previous generation :
  updating ## timedOut → updating ∪ timedOut ⊆ dom statuses → int32_count (size statuses) →
  let s := newRolloutSummary now total updating timedOut statuses previous generation in
  rsumUpdating s = Z.of_nat (size updating) ∧
  rsumSucceeded s = Z.of_nat (size (clustersIn Succeeded updating timedOut statuses)) ∧
  rsumFailed s = Z.of_nat (size (clustersIn Failed updating timedOut statuses)) ∧
  rsumTimedOut s = Z.of_nat (size timedOut + size (clustersIn TimeOut updating timedOut statuses)) ∧
  (rsumUpdating s + rsumSucceeded s + rsumFailed s + rsumTimedOut s <= Z.of_nat (size statuses))%Z.
Proof.
  intros Hd Hsub Hc s. unfold int32_count in Hc.
  destruct (newRolloutSummary_counters now total updating timedOut statuses previous generation)
    as (_ & Hu & Hs & Hf & Ht). fold s in Hu, Hs, Hf, Ht.
  pose proof (summary_buckets updating timedOut statuses Hd Hsub) as Hb.
  rewrite Hu, Hs, Hf, Ht. rewrite !int32_small by lia. split_and!; lia.
Qed.

(** Completion is never reported early: the Progressing condition of a
    summary is False with reason Completed exactly when the total is not zero
    and equals the number of succeeded clusters; and when every cluster of the
    total has a status, completion means that each of them succeeded and none
    is updating or timed out. *)
Theorem newRolloutSummary_completed now total updating timedOut statuses previous generation :
  let s := newRolloutSummary now total updating timedOut statuses previous generation in
  (statusOf (rsumConditions s) conditionProgressing = Some ConditionFalse ↔
     total ≠ 0%Z ∧ rsumSucceeded s = total) ∧
  (statusOf (rsumConditions s) conditionProgressing = Some ConditionFalse ↔
     reasonOf (rsumConditions s) conditionProgressing = Some reasonCompleted) ∧
  (int32_count (size statuses) → total = Z.of_nat (size statuses) →
   updating ∪ timedOut ⊆ dom statuses →
   statusOf (rsumConditions s) conditionProgressing = Some ConditionFalse →
     updating = ∅ ∧ timedOut = ∅ ∧ ∀ cl c, statuses !! cl = Some c → crsStatus c = Succeeded).
Proof.
  intros s. destruct (newRolloutSummary_condition now total updating timedOut statuses previous generation)
    as [Hst Hre]. fold s in Hst, Hre.
  assert (statusOf (rsumConditions s) conditionProgressing = Some ConditionFalse ↔
     total ≠ 0%Z ∧ rsumSucceeded s = total) as Hiff.
  { rewrite Hst. destruct (Z.eqb_spec total 0), (Z.eqb_spec (rsumSucceeded s) total); simpl; split;
      try done; tauto. }
  split; [exact Hiff|]. split.
  { rewrite Hst, Hre. destruct (_ && _); done. }
  intros Hc Htot Hsub [Hne Hs]%Hiff. unfold int32_count in Hc.
  destruct (newRolloutSummary_counters now total updating timedOut statuses previous generation)
    as (_ & _ & Hs' & _). fold s in Hs'.
  pose proof (clustersIn_dom Succeeded updating timedOut statuses) as Hdom.
  assert (size (clustersIn Succeeded updating timedOut statuses) <= size statuses) as Hle
    by (rewrite <- size_dom; by apply subseteq_size).
  rewrite Hs', int32_small, Htot in Hs by lia.
  assert (clustersIn Succeeded updating timedOut statuses = dom statuses) as Heq.
  { apply set_subseteq_size_eq; [done|]. rewrite size_dom. lia. }
  assert (∀ x, x ∈ dom statuses → (x ∉ updating) ∧ (x ∉ timedOut) ∧
               ∃ c, statuses !! x = Some c ∧ crsStatus c = Succeeded) as Hall.
  { intros x Hx. rewrite <- Heq in Hx. apply clustersIn_elem in Hx as (c & Hx & ? & ? & ?). eauto. }
  split_and!; [apply elem_of_equiv_empty_L; intros x Hx; apply (Hall x); set_solver..|].
  intros cl c Hl. destruct (Hall cl) as (_ & _ & c' & Hl' & ?); [by apply elem_of_dom_2 in Hl|]. congruence.
Qed.

(** C31: Reading the rollout state of a work never dereferences a missing
    condition, and it is exact: Succeeded means that Applied is True and
    Progressing False, all observed at the current generation; Failed means
    that Progressing and Degraded are both True at the current generation; and
    a work is to be applied exactly when its Applied, Progressing or Degraded
    condition does not speak about the current generation. *)
Theorem manifestWorkRolloutStatus_exact (w : ManifestWork) :
  let cond := FindStatusCondition (mwConditions w) in
  let observed t s := ∃ c, cond t = Some c ∧ condStatus c = s ∧
                           condObservedGeneration c = omGeneration (mwMeta w) in
  is_Some (manifestWorkRolloutStatus_run w) ∧
  ((manifestWorkRolloutStatus w).1 = Succeeded ↔ workRolledOut w) ∧
  ((manifestWorkRolloutStatus w).1 = Failed ↔
     observed WorkApplied ConditionTrue ∧ observed WorkProgressing ConditionTrue ∧
     observed WorkDegraded ConditionTrue) ∧
  ((manifestWorkRolloutStatus w).1 = ToApply ↔
     ¬ (observed WorkApplied ConditionTrue ∧
        (∃ p, cond WorkProgressing = Some p ∧ condObservedGeneration p = omGeneration (mwMeta w)) ∧
        (∀ d, cond WorkDegraded = Some d → condObservedGeneration d = omGeneration (mwMeta w)))).
Proof.
  intros cond observed. rewrite manifestWorkRolloutStatus_Succeeded.
  unfold manifestWorkRolloutStatus, manifestWorkRolloutStatus_run. fold cond. unfold observed.
  destruct (manifestWorkNeedsApply _ _ _ _) eqn:En.
  - assert (¬ (observed WorkApplied ConditionTrue ∧
        (∃ p, cond WorkProgressing = Some p ∧ condObservedGeneration p = omGeneration (mwMeta w)) ∧
        (∀ d, cond WorkDegraded = Some d → condObservedGeneration d = omGeneration (mwMeta w)))) as Hno.
    { intros ((a & ? & ? & ?) & Hp & Hd). apply not_false_iff_true in En. apply En.
      apply manifestWorkNeedsApply_false. split_and!; [by exists a|exact Hp|exact Hd]. }
    split_and!; [by eexists|done| |done]. split; [done|]. intros (Ha & (p & ? & ? & ?) & (d & Hd & ? & ?)).
    destruct Hno. split_and!; [exact Ha|by exists p|]. intros d' Hd'. congruence.
  - apply manifestWorkNeedsApply_false in En as ((a & Ha & ? & ?) & (p & Hp & Hpg) & Hd).
    rewrite Hp. cbn [mbind option_bind default from_option fst].
    split_and!; [by eexists|done| |].
    + split.
      * intros Hf. split; [by exists a|].
        destruct (bool_decide (condStatus p = ConditionTrue)) eqn:E1; breflect; cbn [andb] in Hf; cycle 1.
        { destruct (bool_decide (condStatus p = ConditionFalse)); done. }
        destruct (cond WorkDegraded) as [d|] eqn:Ed; [|done].
        destruct (bool_decide (condStatus d = ConditionTrue)) eqn:E2; breflect; [|done].
        split; [by exists p|]. exists d. auto.
      * intros (_ & (p' & [= <-] & Hpt & _) & (d & Hdd & Hdt & _)). rewrite Hdd, Hpt, Hdt. done.
    + split; [|intros Hn; destruct Hn; split_and!; [by exists a|by exists p|exact Hd]].
      destruct (bool_decide (condStatus p = ConditionTrue)); cbn [andb];
        [destruct (cond WorkDegraded) as [d|]; [destruct (bool_decide (condStatus d = _))|];
           done|destruct (bool_decide (condStatus p = ConditionFalse)); done].
Qed.

End properties.

Section witnesses.
Import Ref.

Definition sampleResolution : placementResolution :=
  mkResolution ["cluster-a"; "cluster-b"]
    {["cluster-a" := ["placement-a"]; "cluster-b" := ["placement-a"]]}
    {["placement-a" := {[("", 0%Z) := {["cluster-a"; "cluster-b"]}]}]}
    {["placement-a" := Some samplePlacement]} [] None.

(** Nothing exists yet, so both clusters enter the window. *)
Lemma planRollout_sound_witness :
  let o := run server (planRollout 0 false sampleSet sampleResolution) sampleWorld in
  trace_ok (λ _, plan_read) (out_trace o) ∧
  match out_val o with
  | Ok plan => planClusters plan = ["cluster-a"; "cluster-b"]
  | Err _ => False
  end.
Proof.
  destruct (planRollout_sound server keyed sampleWorld 0 false sampleSet sampleResolution
    server_contract (sampleWorldWith_keyed _ _ _)) as [Ht _].
  split; [exact Ht|vm_compute; reflexivity].
Defined.

Definition sampleStatuses : gmap string ClusterRolloutStatus :=
  {["cluster-a" := mkClusterRolloutStatus "cluster-a" Succeeded None;
    "cluster-b" := mkClusterRolloutStatus "cluster-b" Progressing None;
    "cluster-c" := mkClusterRolloutStatus "cluster-c" Failed None]}.

Lemma newRolloutSummary_adds_up_witness :
  let s := newRolloutSummary 0 3 {["cluster-b"]} ∅ sampleStatuses [] 7 in
  (rsumUpdating s = 1 ∧ rsumSucceeded s = 1 ∧ rsumFailed s = 1 ∧ rsumTimedOut s = 0 ∧
   rsumUpdating s + rsumSucceeded s + rsumFailed s + rsumTimedOut s <= 3)%Z.
Proof.
  split; [vm_compute; reflexivity|]. split; [vm_compute; reflexivity|].
  split; [vm_compute; reflexivity|]. split; [vm_compute; reflexivity|].
  apply (newRolloutSummary_adds_up 0 3 {["cluster-b"]} ∅ sampleStatuses [] 7).
  - set_solver.
  - apply (bool_decide_unpack _). vm_compute. exact I.
  - vm_compute. reflexivity.
Defined.

Lemma newRolloutSummary_completed_witness :
  let statuses := {["cluster-a" := mkClusterRolloutStatus "cluster-a" Succeeded None]} in
  let s := newRolloutSummary 0 1 ∅ ∅ statuses [] 7 in
  reasonOf (rsumConditions s) conditionProgressing = Some reasonCompleted ∧
  ∀ cl c, statuses !! cl = Some c → crsStatus c = Succeeded.
Proof.
  split; [vm_compute; reflexivity|].
  destruct (newRolloutSummary_completed 0 1 ∅ ∅
    {["cluster-a" := mkClusterRolloutStatus "cluster-a" Succeeded None]} [] 7) as (_ & _ & Hc).
  destruct Hc as (_ & _ & Hall); [vm_compute; reflexivity|vm_compute; reflexivity| |
    vm_compute; reflexivity|exact Hall].
  apply (bool_decide_unpack _). vm_compute. exact I.
Defined.

End witnesses.
