(* ===== verification/Cleanup.v ===== *)
(** * Cleanup ([deleteStaleChildren], [reconcileDelete], [waitForCleanup], [patchStatus])

    Deleting generated children: those a live replica set no longer wants, and
    all of them once the set is being deleted.  ManifestWorks, which carry the
    remote permissions, always go before the ManagedServiceAccounts. *)

From S2P Require Import Prelude GoStd ApiTypes Interfaces Reference Effects Samples.
From S2P Require Import Metadata Conditions Children.
From Stdlib Require Import ZArith Lia.

(** [ctrl.Result] (its [RequeueAfter], zero for none) with the returned error. *)
Abbreviation ctrlResult := (Z * option error)%type.

Section cleanup.
Context `{MetaConditions} `{LabelsLib} `{SemanticEquality} `{ApiErrors} `{ControllerUtil}.
Context (now : Z).

(** The selector of the list options. *)
Definition generatedChildListOptions (set : ManagedServiceAccountReplicaSet) : Selector :=
  ownedSelector set.

(** [if err := r.Delete(...); client.IgnoreNotFound(err) != nil { joined = errors.Join(joined, err) }] *)
Definition joinDeleteError (joined : option error) (r : result unit) : option error :=
  match r with
  | Ok _ => joined
  | Err e => match IgnoreNotFound e with
             | None => joined
             | Some _ => errors_Join [joined; Some e]
             end
  end.

(** ** Stale children of a live set *)

(** A child is stale when its cluster is no longer selected, or its cluster is
    in the current rollout window and its name is no longer wanted. *)
Definition stale (desiredClusters cleanupClusters : gset string) (om : ObjectMeta)
    (desiredNames : gset string) : bool :=
  negb (sets_Has desiredClusters (omNamespace om))
  || (sets_Has cleanupClusters (omNamespace om) && negb (sets_Has desiredNames (omName om))).

Definition deleteStaleWork (desiredClusters cleanupClusters : gset string)
    (desiredWorkNames : gmap string (gset string)) (acc : bool * option error) (work : ManifestWork)
    : prog (bool * option error) :=
  let desiredNames := default ∅ (desiredWorkNames !! omNamespace (mwMeta work)) in
  if stale desiredClusters cleanupClusters (mwMeta work) desiredNames then
    r ← send (CDeleteWork work);
    mret (true, joinDeleteError acc.2 r)
  else mret acc.

Definition deleteStaleMSA (desiredClusters cleanupClusters desiredMSANames : gset string)
    (joined : option error) (msa : ManagedServiceAccount) : prog (option error) :=
  if stale desiredClusters cleanupClusters (msaMeta msa) desiredMSANames then
    r ← send (CDeleteMSA msa);
    mret (joinDeleteError joined r)
  else mret joined.

Definition deleteStaleChildren (set : ManagedServiceAccountReplicaSet)
    (desiredClusters cleanupClusters : gset string) (desiredWorkNames : gmap string (gset string))
    (desiredMSANames : gset string) : prog (bool * option error) :=
  works ← send (CListWorks (generatedChildListOptions set));
  match works with
  | Err e => mret (false, Some e)
  | Ok items =>
      acc ← foldM (deleteStaleWork desiredClusters cleanupClusters desiredWorkNames)
              (false, None) items;
      let '(sawStale, joined) := acc in
      if bool_decide (is_Some joined) || sawStale then mret (true, joined)
      else
        msas ← send (CListMSAs (generatedChildListOptions set));
        match msas with
        | Err e => mret (false, Some e)
        | Ok items =>
            joined ← foldM (deleteStaleMSA desiredClusters cleanupClusters desiredMSANames) joined items;
            mret (false, joined)
        end
  end.

(** ** Status writes *)

(** The set pointer is updated in place: to the answer of the API server when
    the patch succeeds, and to the local value when it fails. *)
Definition patchStatus (set : ManagedServiceAccountReplicaSet)
    (status : ManagedServiceAccountReplicaSetStatus)
    : prog (ManagedServiceAccountReplicaSet * option error) :=
  if DeepEqual (setStatus set) status then mret (set, None)
  else
    r ← send (CPatchSetStatus set (with_status set status));
    match r with
    | Ok set' => mret (set', None)
    | Err e => mret (with_status set status, Some e)
    end.

(** ** Deletion of the set *)

Definition waitForCleanup (set : ManagedServiceAccountReplicaSet) (remainingWorks remainingMSAs : nat)
    : prog (ManagedServiceAccountReplicaSet * ctrlResult) :=
  let generation := setGeneration set in
  let msg := "waiting for cleanup of " +:+ fmt_d (Z.of_nat remainingWorks) +:+ " ManifestWork and "
             +:+ fmt_d (Z.of_nat remainingMSAs) +:+ " ManagedServiceAccount objects" in
  let status := with_stObservedGeneration (newStatus set) generation in
  let status := setStatusCondition now status conditionCleanupBlocked ConditionTrue
                  reasonWaitingForOCMCleanup msg generation in
  let status := setStatusCondition now status conditionReady ConditionFalse
                  reasonCleanupBlocked msg generation in
  r ← patchStatus set status;
  match r.2 with
  | Some e => mret (r.1, (0%Z, Some e))
  | None => mret (r.1, (cleanupRequeueInterval, None))
  end.

Definition deleteWork (joined : option error) (work : ManifestWork) : prog (option error) :=
  if bool_decide (is_Some (omDeletionTimestamp (mwMeta work))) then mret joined
  else r ← send (CDeleteWork work); mret (joinDeleteError joined r).

Definition deleteMSA (joined : option error) (msa : ManagedServiceAccount) : prog (option error) :=
  if bool_decide (is_Some (omDeletionTimestamp (msaMeta msa))) then mret joined
  else r ← send (CDeleteMSA msa); mret (joinDeleteError joined r).

Definition removeFinalizer (set : ManagedServiceAccountReplicaSet)
    : prog (ManagedServiceAccountReplicaSet * ctrlResult) :=
  let '(finalizers, removed) := RemoveFinalizer (omFinalizers (setMeta set)) finalizerName in
  if negb removed then mret (set, (0%Z, None))
  else
    let set' := with_meta set (with_finalizers (setMeta set) finalizers) in
    r ← send (CPatchSet set set' true);
    match r with
    | Err e => mret (set', (0%Z, Some e))
    | Ok set'' => mret (set'', (0%Z, None))
    end.

Definition reconcileDelete (set : ManagedServiceAccountReplicaSet)
    : prog (ManagedServiceAccountReplicaSet * ctrlResult) :=
  works ← send (CListWorks (generatedChildListOptions set));
  match works with
  | Err e => mret (set, (0%Z, Some e))
  | Ok works =>
      joined ← foldM deleteWork None works;
      match joined with
      | Some e => mret (set, (0%Z, Some e))
      | None =>
          if 0 <? length works then waitForCleanup set (length works) 0
          else
            msas ← send (CListMSAs (generatedChildListOptions set));
            match msas with
            | Err e => mret (set, (0%Z, Some e))
            | Ok msas =>
                joined ← foldM deleteMSA None msas;
                match joined with
                | Some e => mret (set, (0%Z, Some e))
                | None =>
                    if 0 <? length msas then waitForCleanup set 0 (length msas)
                    else removeFinalizer set
                end
            end
      end
  end.

End cleanup.

(** ** Lemmas *)

(** The works and accounts deleted in a history, in the order of the requests. *)
Definition work_deletes (tr : trace) : list ManifestWork :=
  rev (omap (λ e, match ev_call e with CDeleteWork o => Some o | _ => None end) tr).

Definition msa_deletes (tr : trace) : list ManagedServiceAccount :=
  rev (omap (λ e, match ev_call e with CDeleteMSA o => Some o | _ => None end) tr).

(** The errors the deletes of a history were answered with, other than
    NotFound, in the order of the requests. *)
Definition delete_failure `{ApiErrors} (e : event) : option error :=
  match e with
  | Ev c r =>
      match c return resp c → option error with
      | CDeleteWork _ | CDeleteMSA _ =>
          λ r, match r with Err e => if IsNotFound e then None else Some e | Ok _ => None end
      | _ => λ _, None
      end r
  end.

Definition delete_failures `{ApiErrors} (tr : trace) : list error := rev (omap delete_failure tr).

(** The errors the patches of the set and of its status were answered with. *)
Definition patch_error (e : event) : option error :=
  match e with
  | Ev c r =>
      match c return resp c → option error with
      | CPatchSet _ _ _ | CPatchSetStatus _ _ => λ r, match r with Err e => Some e | Ok _ => None end
      | _ => λ _, None
      end r
  end.

Definition patch_errors (tr : trace) : list error := rev (omap patch_error tr).

(** A child is to go when its cluster is not selected any more, or when its
    cluster is cleaned up in this pass and does not want a child of that
    name. *)
Definition unwanted (selected cleanup : gset string) (om : ObjectMeta) (wanted : gset string) : Prop :=
  omNamespace om ∉ selected ∨ (omNamespace om ∈ cleanup ∧ omName om ∉ wanted).

#[global] Instance unwanted_dec selected cleanup om wanted : Decision (unwanted selected cleanup om wanted).
Proof. unfold unwanted. apply _. Defined.

Lemma stale_true dc cc om names : stale dc cc om names = true ↔ unwanted dc cc om names.
Proof.
  unfold stale, unwanted. rewrite orb_true_iff, andb_true_iff, !negb_true_iff.
  by rewrite !sets_Has_false, sets_Has_true.
Qed.

Lemma existsb_unwanted {T} (P : T → bool) (Q : T → Prop) (items : list T) :
  (∀ o, P o = true ↔ Q o) → existsb P items = true ↔ ∃ o, o ∈ items ∧ Q o.
Proof.
  intros HPQ. rewrite existsb_exists. setoid_rewrite <- HPQ. setoid_rewrite list_elem_of_In. done.
Qed.

Section failures.
Context `{ApiErrors}.

Lemma delete_failures_nil tr : work_deletes tr = [] → msa_deletes tr = [] → delete_failures tr = [].
Proof.
  unfold work_deletes, msa_deletes, delete_failures.
  assert (∀ {T} (l : list T), rev l = [] → l = []) as Hrev
    by (intros T l Hl; by rewrite <- (rev_involutive l), Hl).
  intros Hw%Hrev Hm%Hrev. enough (omap delete_failure tr = []) as -> by done.
  induction tr as [|[c r] tr IH]; [done|].
  destruct c; simpl in *; try discriminate; by apply IH.
Qed.

(** One delete answered: its error, if it counts, is joined. *)
Lemma joinDeleteError_joins joined (r : result unit) errs :
  joins joined errs →
  joins (joinDeleteError joined r)
    (errs ++ match r with Err e => if IsNotFound e then [] else [e] | Ok _ => [] end).
Proof.
  intros Hj. destruct r as [[]|e]; cbn [joinDeleteError]; [by rewrite app_nil_r|].
  rewrite IgnoreNotFound_spec. destruct (IsNotFound e); [by rewrite app_nil_r|by apply joins_snoc].
Qed.

Lemma delete_failures_work tr o (r : result unit) :
  delete_failures (Ev (CDeleteWork o) r :: tr) =
  delete_failures tr ++ match r with Err e => if IsNotFound e then [] else [e] | Ok _ => [] end.
Proof.
  unfold delete_failures. cbn [omap list_omap delete_failure].
  destruct r as [[]|e]; [|destruct (IsNotFound e)]; simpl; by rewrite ?app_nil_r.
Qed.

Lemma delete_failures_msa tr o (r : result unit) :
  delete_failures (Ev (CDeleteMSA o) r :: tr) =
  delete_failures tr ++ match r with Err e => if IsNotFound e then [] else [e] | Ok _ => [] end.
Proof.
  unfold delete_failures. cbn [omap list_omap delete_failure].
  destruct r as [[]|e]; [|destruct (IsNotFound e)]; simpl; by rewrite ?app_nil_r.
Qed.

(** The errors of a stretch of the history are those joined in [err]. *)
Definition joined_since (tr tr' : trace) (err : option error) : Prop :=
  ∃ new, delete_failures tr' = delete_failures tr ++ new ∧ joins err new.

Lemma joined_since_start tr : joined_since tr tr None.
Proof. exists []. split; [by rewrite app_nil_r|apply joins_nil]. Qed.

Lemma joined_since_work tr tr' err o r :
  joined_since tr tr' err → joined_since tr (Ev (CDeleteWork o) r :: tr') (joinDeleteError err r).
Proof.
  intros (new & Hd & Hj). eexists. rewrite delete_failures_work, Hd, <- app_assoc.
  split; [done|]. by apply joinDeleteError_joins.
Qed.

Lemma joined_since_msa tr tr' err o r :
  joined_since tr tr' err → joined_since tr (Ev (CDeleteMSA o) r :: tr') (joinDeleteError err r).
Proof.
  intros (new & Hd & Hj). eexists. rewrite delete_failures_msa, Hd, <- app_assoc.
  split; [done|]. by apply joinDeleteError_joins.
Qed.

Lemma joined_since_eq tr tr' err :
  joined_since tr tr' err → delete_failures tr = [] → joins err (delete_failures tr').
Proof. intros (new & -> & Hj) ->. exact Hj. Qed.

End failures.

Section staleLoops.
Context `{MetaConditions} `{LabelsLib} `{SemanticEquality} `{ApiErrors} `{ControllerUtil}.
Context (R : trace → ∀ c, resp c → Prop) (G : trace → call → Prop).

(** A loop that sends one delete per item of a list that satisfies [sel]. *)
Lemma deleteStaleWork_loop dc cc names items tr :
  (∀ tr' o, tr `suffix_of` tr' → o ∈ items →
     stale dc cc (mwMeta o) (default ∅ (names !! omNamespace (mwMeta o))) = true → G tr' (CDeleteWork o)) →
  let P := λ o, stale dc cc (mwMeta o) (default ∅ (names !! omNamespace (mwMeta o))) in
  wp R G (foldM (deleteStaleWork dc cc names) (false, None) items)
    (λ tr' acc, tr `suffix_of` tr' ∧ work_deletes tr' = work_deletes tr ++ filter P items ∧
       msa_deletes tr' = msa_deletes tr ∧ acc.1 = existsb P items ∧ (acc.1 = false → acc.2 = None) ∧
       joined_since tr tr' acc.2) tr.
Proof.
  intros HG P.
  apply (wp_foldM R G _ (λ tr' done acc, tr `suffix_of` tr' ∧
     work_deletes tr' = work_deletes tr ++ filter P done ∧ msa_deletes tr' = msa_deletes tr ∧
     acc.1 = existsb P done ∧ (acc.1 = false → acc.2 = None) ∧ joined_since tr tr' acc.2));
    [split_and!; [done|simpl; by rewrite app_nil_r|done|done|done|apply joined_since_start]| |done].
  intros done o rest acc tr' Hl (Hs & Hw & Hm & Hacc & Hnone & Hj). unfold deleteStaleWork.
  rewrite filter_app, existsb_app, <- Hacc. fold (P o).
  destruct (P o) eqn:Ep.
  - apply wp_bind, wp_send; [apply HG; [done|rewrite Hl; apply elem_of_middle|exact Ep]|].
    intros r _. apply wp_ret. split_and!; [by apply suffix_cons_r| |done| |done|by apply joined_since_work].
    + unfold work_deletes in *. cbn [omap list_omap ev_call rev]. rewrite Hw.
      cbn [filter list_filter]. rewrite decide_True by (by rewrite Ep). by rewrite app_assoc.
    + simpl. by rewrite Ep, orb_true_r.
  - apply wp_ret. split_and!; [done| |done| |done|done].
    + cbn [filter list_filter]. rewrite decide_False by (rewrite Ep; intros []). rewrite app_nil_r. exact Hw.
    + simpl. by rewrite Ep, !orb_false_r.
Qed.

Lemma deleteStaleMSA_loop dc cc names items tr :
  (∀ tr' o, tr `suffix_of` tr' → o ∈ items → stale dc cc (msaMeta o) names = true →
     G tr' (CDeleteMSA o)) →
  let P := λ o, stale dc cc (msaMeta o) names in
  wp R G (foldM (deleteStaleMSA dc cc names) None items)
    (λ tr' j, msa_deletes tr' = msa_deletes tr ++ filter P items ∧ work_deletes tr' = work_deletes tr ∧
              tr `suffix_of` tr' ∧ joined_since tr tr' j) tr.
Proof.
  intros HG P.
  apply (wp_foldM R G _ (λ tr' done j, msa_deletes tr' = msa_deletes tr ++ filter P done ∧
     work_deletes tr' = work_deletes tr ∧ tr `suffix_of` tr' ∧ joined_since tr tr' j));
    [split_and!; [simpl; by rewrite app_nil_r|done|done|apply joined_since_start]| |done].
  intros done o rest acc tr' Hl (Hm & Hw & Hs & Hj). unfold deleteStaleMSA.
  rewrite filter_app. fold (P o). destruct (P o) eqn:Ep.
  - apply wp_bind, wp_send; [apply HG; [done|rewrite Hl; apply elem_of_middle|exact Ep]|].
    intros r _. apply wp_ret. split_and!; [|done|by apply suffix_cons_r|by apply joined_since_msa].
    unfold msa_deletes in *. cbn [omap list_omap ev_call rev]. rewrite Hm.
    cbn [filter list_filter]. rewrite decide_True by (by rewrite Ep). by rewrite app_assoc.
  - apply wp_ret. split_and!; [|done|done|done].
    cbn [filter list_filter]. rewrite decide_False by (rewrite Ep; intros []). rewrite app_nil_r. exact Hm.
Qed.

End staleLoops.

(** What [deleteStaleChildren] did, as a relation between the lists it read,
    the deletes it sent, their answers and what it returned. *)
Definition stale_outcome `{LabelsLib} `{ApiErrors} (set : ManagedServiceAccountReplicaSet) (dc cc : gset string)
    (names : gmap string (gset string)) (msaNames : gset string) (tr0 tr : trace)
    (r : bool * option error) : Prop :=
  let staleWork := λ w, unwanted dc cc (mwMeta w) (default ∅ (names !! omNamespace (mwMeta w))) in
  let staleMSA := λ m, unwanted dc cc (msaMeta m) msaNames in
  (∃ e, work_deletes tr = work_deletes tr0 ∧ msa_deletes tr = msa_deletes tr0 ∧
        Ev (CListWorks (ownedSelector set)) (Err e) ∈ tr ∧ r = (false, Some e)) ∨
  (∃ works, Ev (CListWorks (ownedSelector set)) (Ok works) ∈ tr ∧
     work_deletes tr = work_deletes tr0 ++ filter staleWork works ∧
     (((∃ w, w ∈ works ∧ staleWork w) ∧ msa_deletes tr = msa_deletes tr0 ∧
       r.1 = true ∧ joined_since tr0 tr r.2) ∨
      ((¬ ∃ w, w ∈ works ∧ staleWork w) ∧ r.1 = false ∧
       ((∃ e, Ev (CListMSAs (ownedSelector set)) (Err e) ∈ tr ∧
              msa_deletes tr = msa_deletes tr0 ∧ r.2 = Some e) ∨
        (∃ msas, Ev (CListMSAs (ownedSelector set)) (Ok msas) ∈ tr ∧
              msa_deletes tr = msa_deletes tr0 ++ filter staleMSA msas ∧ joined_since tr0 tr r.2))))).

Section stale.
Context `{MetaConditions} `{LabelsLib} `{SemanticEquality} `{ApiErrors} `{ControllerUtil}.
Context (R : trace → ∀ c, resp c → Prop) (G : trace → call → Prop).

Lemma deleteStaleChildren_wp set dc cc names msaNames tr :
  let staleWork := λ w, stale dc cc (mwMeta w) (default ∅ (names !! omNamespace (mwMeta w))) in
  (∀ tr sel, G tr (CListWorks sel)) → (∀ tr sel, G tr (CListMSAs sel)) →
  (∀ tr1 tr items o, R tr1 (CListWorks (ownedSelector set)) (Ok items) →
     Ev (CListWorks (ownedSelector set)) (Ok items) ∈ tr → o ∈ items → staleWork o = true →
     G tr (CDeleteWork o)) →
  (∀ tr1 tr works items o, R tr1 (CListMSAs (ownedSelector set)) (Ok items) →
     Ev (CListWorks (ownedSelector set)) (Ok works) ∈ tr → existsb staleWork works = false →
     Ev (CListMSAs (ownedSelector set)) (Ok items) ∈ tr → o ∈ items →
     stale dc cc (msaMeta o) msaNames = true → G tr (CDeleteMSA o)) →
  wp R G (deleteStaleChildren set dc cc names msaNames)
    (λ tr' r, stale_outcome set dc cc names msaNames tr tr' r) tr.
Proof.
  intros staleWork HGw HGm Hdw Hdm. unfold deleteStaleChildren, stale_outcome.
  apply wp_bind, wp_send; [apply HGw|]. intros [works|e] HR; cycle 1.
  { apply wp_ret. left. exists e. split_and!; [done|done|left|done]. }
  apply wp_bind. eapply wp_mono.
  { apply deleteStaleWork_loop. intros tr' o Hs Hin Hst.
    eapply Hdw; [exact HR| |exact Hin|exact Hst]. eapply suffix_elem; [exact Hs|left]. }
  intros tr1 [saw joined] (Hs & Hw & Hm & Hsaw & Hnone & Hj). cbn [fst snd] in *.
  assert (Ev (CListWorks (ownedSelector set)) (Ok works) ∈ tr1) as Hin1 by (eapply suffix_elem; [exact Hs|left]).
  fold staleWork in Hsaw |- *. rewrite Hsaw in *.
  pose proof (existsb_unwanted staleWork _ works (λ o, stale_true dc cc (mwMeta o) _)) as Hex.
  assert (∀ l, filter (λ o, Is_true (staleWork o)) l = filter (λ w, unwanted dc cc (mwMeta w)
    (default ∅ (names !! omNamespace (mwMeta w)))) l) as Hfw
    by (intros l; apply list_filter_iff; intros o; rewrite Is_true_true; apply stale_true).
  rewrite Hfw in Hw.
  destruct (existsb staleWork works) eqn:Ex.
  { rewrite orb_true_r. apply wp_ret. right. exists works. split_and!; [done|exact Hw|]. left.
    split_and!; [by apply Hex|exact Hm|done|exact Hj]. }
  assert (¬ ∃ o, o ∈ works ∧ unwanted dc cc (mwMeta o) (default ∅ (names !! omNamespace (mwMeta o)))) as Hno
    by (by intros ?%Hex).
  rewrite (Hnone eq_refl) in *. rewrite bool_decide_eq_false_2 by (intros [? ?]; done). cbn [orb].
  apply wp_bind, wp_send; [apply HGm|]. intros [msas|e] HRm; cycle 1.
  { apply wp_ret. right. exists works. split_and!; [by right|exact Hw|]. right. split_and!; [done|done|].
    left. exists e. split_and!; [left|exact Hm|done]. }
  apply wp_bind. eapply wp_mono.
  { apply deleteStaleMSA_loop. intros tr' o Hs' Hin Hst.
    eapply Hdm; [exact HRm| |exact Ex| |exact Hin|exact Hst];
      (eapply suffix_elem; [exact Hs'|]); [by right|left]. }
  intros tr2 j (Hm2 & Hw2 & Hs2 & Hj2). apply wp_ret. right. exists works.
  split_and!; [eapply suffix_elem; [exact Hs2|by right]|rewrite Hw2; exact Hw|]. right. split_and!; [done|done|].
  right. exists msas. split_and!; [eapply suffix_elem; [exact Hs2|left]| |].
  - rewrite Hm2. f_equal; [exact Hm|]. apply list_filter_iff. intros o. rewrite Is_true_true. apply stale_true.
  - destruct Hj as (n0 & Hn0 & [Hnil _]). pose proof (proj1 Hnil eq_refl) as ->. rewrite app_nil_r in Hn0.
    destruct Hj2 as (n2 & Hn2 & Hjj). exists n2. split; [|exact Hjj]. rewrite Hn2. f_equal. exact Hn0.
Qed.

End stale.

(** ** The deletion pass *)

Definition live (om : ObjectMeta) : bool := bool_decide (omDeletionTimestamp om = None).

Section deletion.
Context `{MetaConditions} `{LabelsLib} `{SemanticEquality} `{ApiErrors} `{ControllerUtil}.

(** The requests a deletion pass may send, given its history. *)
Definition delete_pass_ok (set : ManagedServiceAccountReplicaSet) (tr : trace) (c : call) : Prop :=
  let listedWorks works := Ev (CListWorks (ownedSelector set)) (Ok works) ∈ tr in
  let listedMSAs msas := Ev (CListMSAs (ownedSelector set)) (Ok msas) ∈ tr in
  match c with
  | CListWorks sel | CListMSAs sel => sel = ownedSelector set
  | CDeleteWork o => live (mwMeta o) = true ∧ ∃ works, listedWorks works ∧ o ∈ works
  | CDeleteMSA o => live (msaMeta o) = true ∧ listedWorks [] ∧ ∃ msas, listedMSAs msas ∧ o ∈ msas
  | CPatchSet b m lock =>
      lock = true ∧ b = set ∧ listedWorks [] ∧ listedMSAs [] ∧ finalizerName ∈ omFinalizers (setMeta set) ∧
      ∃ l, m = with_meta set (with_finalizers (setMeta set) l) ∧
           ∀ x, x ∈ l ↔ x ∈ omFinalizers (setMeta set) ∧ x ≠ finalizerName
  | CPatchSetStatus b m =>
      b = set ∧ (∃ st, m = with_status set st ∧
        conditionIs (stConditions st) conditionCleanupBlocked ConditionTrue
          reasonWaitingForOCMCleanup (setGeneration set) ∧
        conditionIs (stConditions st) conditionReady ConditionFalse reasonCleanupBlocked
          (setGeneration set)) ∧
      ((∃ works, works ≠ [] ∧ listedWorks works) ∨ (∃ msas, msas ≠ [] ∧ listedMSAs msas))
  | _ => False
  end.

(** How a stage ends once its deletes are answered: with their errors joined;
    else with the error of the patch; else with [settled]. *)
Definition after_deletes (tr : trace) (settled res : ctrlResult) : Prop :=
  match delete_failures tr, patch_errors tr with
  | [], [] => res = settled
  | [], e :: _ => res = (0%Z, Some e)
  | errs, _ => res.1 = 0%Z ∧ joins res.2 errs
  end.

(** What a deletion pass read, deleted and answered. *)
Definition delete_outcome (set : ManagedServiceAccountReplicaSet) (tr : trace)
    (r : ManagedServiceAccountReplicaSet * ctrlResult) : Prop :=
  (∃ e, Ev (CListWorks (ownedSelector set)) (Err e) ∈ tr ∧ work_deletes tr = [] ∧
        msa_deletes tr = [] ∧ r.2 = (0%Z, Some e)) ∨
  (∃ works, Ev (CListWorks (ownedSelector set)) (Ok works) ∈ tr ∧
     work_deletes tr = filter (λ w, omDeletionTimestamp (mwMeta w) = None) works ∧
     ((works ≠ [] ∧ msa_deletes tr = [] ∧ after_deletes tr (cleanupRequeueInterval, None) r.2) ∨
      (works = [] ∧
       ((∃ e, Ev (CListMSAs (ownedSelector set)) (Err e) ∈ tr ∧ msa_deletes tr = [] ∧
              r.2 = (0%Z, Some e)) ∨
        (∃ msas, Ev (CListMSAs (ownedSelector set)) (Ok msas) ∈ tr ∧
           msa_deletes tr = filter (λ m, omDeletionTimestamp (msaMeta m) = None) msas ∧
           after_deletes tr (if bool_decide (msas = []) then 0%Z else cleanupRequeueInterval, None) r.2))))).

Lemma filter_live {T} (meta : T → ObjectMeta) (l : list T) :
  filter (λ o, Is_true (live (meta o))) l = filter (λ o, omDeletionTimestamp (meta o) = None) l.
Proof. apply list_filter_iff. intros o. rewrite Is_true_true. apply bool_decide_eq_true. Qed.

Lemma live_false om : live om = false ↔ is_Some (omDeletionTimestamp om).
Proof.
  unfold live. rewrite bool_decide_eq_false. destruct (omDeletionTimestamp om); split; done.
Qed.

Lemma deleteWork_loop R G items tr :
  (∀ tr' o, tr `suffix_of` tr' → o ∈ items → live (mwMeta o) = true → G tr' (CDeleteWork o)) →
  wp R G (foldM deleteWork None items)
    (λ tr' j, work_deletes tr' = work_deletes tr ++ filter (λ w, live (mwMeta w)) items ∧
              msa_deletes tr' = msa_deletes tr ∧ tr `suffix_of` tr' ∧
              joined_since tr tr' j ∧ patch_errors tr' = patch_errors tr) tr.
Proof.
  intros HG.
  apply (wp_foldM R G _ (λ tr' done j, work_deletes tr' = work_deletes tr ++ filter (λ w, live (mwMeta w)) done ∧
     msa_deletes tr' = msa_deletes tr ∧ tr `suffix_of` tr' ∧ joined_since tr tr' j ∧
     patch_errors tr' = patch_errors tr));
    [split_and!; [simpl; by rewrite app_nil_r|done|done|apply joined_since_start|done]| |done].
  intros done o rest acc tr' Hl (Hw & Hm & Hs & Hj & Hp). unfold deleteWork. rewrite filter_app.
  destruct (live (mwMeta o)) eqn:Ep; cbn [filter list_filter].
  - rewrite bool_decide_eq_false_2 by (rewrite <- live_false, Ep; done).
    rewrite decide_True by (by rewrite Ep).
    apply wp_bind, wp_send; [apply HG; [done|rewrite Hl; apply elem_of_middle|exact Ep]|].
    intros r _. apply wp_ret. split_and!; [|done|by apply suffix_cons_r|by apply joined_since_work|exact Hp].
    unfold work_deletes in *. cbn [omap list_omap ev_call rev]. rewrite Hw. by rewrite app_assoc.
  - rewrite bool_decide_eq_true_2 by (by apply live_false).
    rewrite decide_False by (rewrite Ep; intros []). rewrite app_nil_r. by apply wp_ret.
Qed.

Lemma deleteMSA_loop R G items tr :
  (∀ tr' o, tr `suffix_of` tr' → o ∈ items → live (msaMeta o) = true → G tr' (CDeleteMSA o)) →
  wp R G (foldM deleteMSA None items)
    (λ tr' j, msa_deletes tr' = msa_deletes tr ++ filter (λ m, live (msaMeta m)) items ∧
              work_deletes tr' = work_deletes tr ∧ tr `suffix_of` tr' ∧
              joined_since tr tr' j ∧ patch_errors tr' = patch_errors tr) tr.
Proof.
  intros HG.
  apply (wp_foldM R G _ (λ tr' done j, msa_deletes tr' = msa_deletes tr ++ filter (λ m, live (msaMeta m)) done ∧
     work_deletes tr' = work_deletes tr ∧ tr `suffix_of` tr' ∧ joined_since tr tr' j ∧
     patch_errors tr' = patch_errors tr));
    [split_and!; [simpl; by rewrite app_nil_r|done|done|apply joined_since_start|done]| |done].
  intros done o rest acc tr' Hl (Hw & Hm & Hs & Hj & Hp). unfold deleteMSA. rewrite filter_app.
  destruct (live (msaMeta o)) eqn:Ep; cbn [filter list_filter].
  - rewrite bool_decide_eq_false_2 by (rewrite <- live_false, Ep; done).
    rewrite decide_True by (by rewrite Ep).
    apply wp_bind, wp_send; [apply HG; [done|rewrite Hl; apply elem_of_middle|exact Ep]|].
    intros r _. apply wp_ret. split_and!; [|done|by apply suffix_cons_r|by apply joined_since_msa|exact Hp].
    unfold msa_deletes in *. cbn [omap list_omap ev_call rev]. rewrite Hw. by rewrite app_assoc.
  - rewrite bool_decide_eq_true_2 by (by apply live_false).
    rewrite decide_False by (rewrite Ep; intros []). rewrite app_nil_r. by apply wp_ret.
Qed.

(** The last stretch of a pass, after its deletes: at most one patch, whose
    error is returned. *)
Definition patched_since (tr tr' : trace) (settled res : ctrlResult) : Prop :=
  work_deletes tr' = work_deletes tr ∧ msa_deletes tr' = msa_deletes tr ∧ tr `suffix_of` tr' ∧
  delete_failures tr' = delete_failures tr ∧
  ((patch_errors tr' = patch_errors tr ∧ res = settled) ∨
   ∃ e, patch_errors tr' = patch_errors tr ++ [e] ∧ res = (0%Z, Some e)).

Lemma patched_since_none tr settled : patched_since tr tr settled settled.
Proof. split_and!; auto. Qed.

Lemma patched_since_status tr b m (ans : result ManagedServiceAccountReplicaSet) settled :
  patched_since tr (Ev (CPatchSetStatus b m) ans :: tr) settled
    (match ans with Ok _ => settled | Err e => (0%Z, Some e) end).
Proof.
  split_and!; [done|done|by apply suffix_cons_r|done|]. destruct ans as [s|e]; [by left|right; exists e; done].
Qed.

Lemma patched_since_set tr b m lock (ans : result ManagedServiceAccountReplicaSet) settled :
  patched_since tr (Ev (CPatchSet b m lock) ans :: tr) settled
    (match ans with Ok _ => settled | Err e => (0%Z, Some e) end).
Proof.
  split_and!; [done|done|by apply suffix_cons_r|done|]. destruct ans as [s|e]; [by left|right; exists e; done].
Qed.

Lemma patched_after tr tr' settled res :
  delete_failures tr = [] → patch_errors tr = [] → patched_since tr tr' settled res →
  after_deletes tr' settled res.
Proof.
  intros Hd Hp (_ & _ & _ & Hd' & [[Hp' ->]|(e & Hp' & ->)]); unfold after_deletes; by rewrite Hd', Hd, Hp', Hp.
Qed.

(** Failed deletes end the stage. *)
Lemma failed_after tr settled e :
  joins (Some e) (delete_failures tr) → after_deletes tr settled (0%Z, Some e).
Proof.
  intros Hj. unfold after_deletes. destruct (delete_failures tr) as [|x l]; [|done].
  destruct Hj as [Hj _]. by pose proof (proj2 Hj eq_refl).
Qed.

(** Waiting writes at most the status, and answers a requeue or its error. *)
Lemma waitForCleanup_wp R now set nw nm tr :
  ((∃ works, works ≠ [] ∧ Ev (CListWorks (ownedSelector set)) (Ok works) ∈ tr) ∨
   (∃ msas, msas ≠ [] ∧ Ev (CListMSAs (ownedSelector set)) (Ok msas) ∈ tr)) →
  wp R (delete_pass_ok set) (waitForCleanup now set nw nm)
    (λ tr' r, patched_since tr tr' (cleanupRequeueInterval, None) r.2) tr.
Proof.
  intros Hlist. unfold waitForCleanup, patchStatus. cbn zeta.
  destruct (DeepEqual (setStatus set) _); [apply wp_bind, wp_ret, wp_ret, patched_since_none|].
  apply wp_bind, wp_bind, wp_send.
  - split_and!; [done| |exact Hlist]. eexists. split; [done|].
    rewrite !stConditions_setStatusCondition. split; [|apply conditionIs_setCondition_eq].
    apply conditionIs_setCondition_ne; [discriminate|apply conditionIs_setCondition_eq].
  - intros [s|e] _; apply wp_ret, wp_ret;
      [exact (patched_since_status tr _ _ (Ok s) _)|exact (patched_since_status tr _ _ (Err e) _)].
Qed.

Lemma removeFinalizer_wp R set tr :
  Ev (CListWorks (ownedSelector set)) (Ok []) ∈ tr → Ev (CListMSAs (ownedSelector set)) (Ok []) ∈ tr →
  wp R (delete_pass_ok set) (removeFinalizer set) (λ tr' r, patched_since tr tr' (0%Z, None) r.2) tr.
Proof.
  intros Hw Hm. unfold removeFinalizer.
  destruct (decide (finalizerName ∈ omFinalizers (setMeta set))) as [Hin|Hin].
  - destruct (RemoveFinalizer_present _ _ Hin) as [Hrm Hl].
    destruct (RemoveFinalizer _ _) as [l b]. cbn [fst snd] in *. subst b. cbn [negb].
    apply wp_bind, wp_send.
    + split_and!; [done..|]. by exists l.
    + intros [s|e] _; apply wp_ret;
        [exact (patched_since_set tr _ _ true (Ok s) _)|exact (patched_since_set tr _ _ true (Err e) _)].
  - rewrite RemoveFinalizer_absent by done. cbn [negb]. apply wp_ret, patched_since_none.
Qed.

(** The second stage, once no work is left. *)
Lemma reconcileDelete_msas_wp R now set tr :
  Ev (CListWorks (ownedSelector set)) (Ok []) ∈ tr → work_deletes tr = [] → msa_deletes tr = [] →
  patch_errors tr = [] →
  wp R (delete_pass_ok set)
    (msas ← send (CListMSAs (generatedChildListOptions set));
     match msas with
     | Err e => mret (set, (0%Z, Some e))
     | Ok msas =>
         joined ← foldM deleteMSA None msas;
         match joined with
         | Some e => mret (set, (0%Z, Some e))
         | None => if 0 <? length msas then waitForCleanup now set 0 (length msas)
                   else removeFinalizer set
         end
     end) (delete_outcome set) tr.
Proof.
  intros Hworks Hw0 Hm0 Hp0. unfold delete_outcome.
  pose proof (delete_failures_nil tr Hw0 Hm0) as Hd0.
  apply wp_bind, wp_send; [done|]. intros [msas|e] _; cycle 1.
  { apply wp_ret. right. exists []. split_and!; [by right|exact Hw0|]. right. split; [done|].
    left. exists e. split_and!; [left|exact Hm0|done]. }
  apply wp_bind. eapply wp_mono.
  { apply deleteMSA_loop. intros tr' o Hs Hin Hl. split_and!; [done| |].
    - eapply suffix_elem; [exact Hs|by right].
    - exists msas. split; [|done]. eapply suffix_elem; [exact Hs|left]. }
  intros tr1 joined (Hm & Hw & Hs1 & Hj%joined_since_eq & Hp); [|exact Hd0].
  assert (Ev (CListMSAs (ownedSelector set)) (Ok msas) ∈ tr1) as Hin1
    by (eapply suffix_elem; [exact Hs1|left]).
  assert (Ev (CListWorks (ownedSelector set)) (Ok []) ∈ tr1) as Hin0
    by (eapply suffix_elem; [exact Hs1|by right]).
  change (msa_deletes (_ :: tr)) with (msa_deletes tr) in Hm. rewrite Hm0, filter_live in Hm.
  change (work_deletes (_ :: tr)) with (work_deletes tr) in Hw. rewrite Hw0 in Hw.
  change (patch_errors (_ :: tr)) with (patch_errors tr) in Hp. rewrite Hp0 in Hp.
  assert (∀ tr2 (r : ManagedServiceAccountReplicaSet * ctrlResult),
    work_deletes tr2 = work_deletes tr1 → msa_deletes tr2 = msa_deletes tr1 → tr1 `suffix_of` tr2 →
    after_deletes tr2 (if bool_decide (msas = []) then 0%Z else cleanupRequeueInterval, None) r.2 →
    delete_outcome set tr2 r) as Hout.
  { intros tr2 r Hw2 Hm2 Hs2 Hr. right. exists []. rewrite Hw2, Hw, Hm2, Hm.
    split_and!; [by eapply suffix_elem|done|]. right. split; [done|]. right. exists msas.
    split_and!; [by eapply suffix_elem|done|done]. }
  destruct joined as [e|]; [apply wp_ret, Hout; [done..|by apply failed_after]|].
  pose proof (proj1 (proj1 Hj) eq_refl) as Hd1.
  destruct msas as [|m0 msas]; cbn [length Nat.ltb Nat.leb].
  - eapply wp_mono; [by apply removeFinalizer_wp|]. intros tr2 r Hps.
    pose proof (patched_after _ _ _ _ Hd1 Hp Hps) as Ha. destruct Hps as (? & ? & ? & _). by apply Hout.
  - eapply wp_mono; [apply waitForCleanup_wp; right; exists (m0 :: msas); split; [discriminate|exact Hin1]|].
    intros tr2 r Hps. pose proof (patched_after _ _ _ _ Hd1 Hp Hps) as Ha.
    destruct Hps as (? & ? & ? & _). by apply Hout.
Qed.

Lemma reconcileDelete_wp R now set tr :
  work_deletes tr = [] → msa_deletes tr = [] → patch_errors tr = [] →
  wp R (delete_pass_ok set) (reconcileDelete now set) (delete_outcome set) tr.
Proof.
  intros Hw0 Hm0 Hp0. pose proof (delete_failures_nil tr Hw0 Hm0) as Hd0. unfold reconcileDelete.
  apply wp_bind, wp_send; [done|]. intros [works|e] _; cycle 1.
  { apply wp_ret. left. exists e. split_and!; [left|exact Hw0|exact Hm0|done]. }
  destruct (decide (works = [])) as [->|Hne].
  { cbn [foldM]. apply wp_bind, wp_ret. apply reconcileDelete_msas_wp; [left|exact Hw0|exact Hm0|exact Hp0]. }
  apply wp_bind. eapply wp_mono.
  { apply deleteWork_loop. intros tr' o Hs Hin Hl. split; [done|]. exists works.
    split; [|done]. eapply suffix_elem; [exact Hs|left]. }
  intros tr1 joined (Hw & Hm & Hs1 & Hj%joined_since_eq & Hp); [|exact Hd0].
  assert (Ev (CListWorks (ownedSelector set)) (Ok works) ∈ tr1) as Hin1
    by (eapply suffix_elem; [exact Hs1|left]).
  change (work_deletes (_ :: tr)) with (work_deletes tr) in Hw. rewrite Hw0, filter_live in Hw.
  change (msa_deletes (_ :: tr)) with (msa_deletes tr) in Hm. rewrite Hm0 in Hm.
  change (patch_errors (_ :: tr)) with (patch_errors tr) in Hp. rewrite Hp0 in Hp.
  assert (∀ tr2 (r : ManagedServiceAccountReplicaSet * ctrlResult),
    work_deletes tr2 = work_deletes tr1 → msa_deletes tr2 = msa_deletes tr1 → tr1 `suffix_of` tr2 →
    after_deletes tr2 (cleanupRequeueInterval, None) r.2 → delete_outcome set tr2 r) as Hout.
  { intros tr2 r Hw2 Hm2 Hs2 Hr. right. exists works. rewrite Hw2, Hm2.
    split_and!; [by eapply suffix_elem|exact Hw|]. left. done. }
  destruct joined as [e|]; [apply wp_ret, Hout; [done..|by apply failed_after]|].
  pose proof (proj1 (proj1 Hj) eq_refl) as Hd1.
  destruct works as [|w0 works]; [done|]. cbn [length Nat.ltb Nat.leb].
  eapply wp_mono; [apply waitForCleanup_wp; left; exists (w0 :: works); split; [discriminate|exact Hin1]|].
  intros tr2 r Hps. pose proof (patched_after _ _ _ _ Hd1 Hp Hps) as Ha.
  destruct Hps as (? & ? & ? & _). by apply Hout.
Qed.

End deletion.

(** ** Properties *)

Section properties.
Context `{MetaConditions} `{LabelsLib} `{SemanticEquality} `{ApiErrors} `{ControllerUtil}.
Context {W : Type} (h : handler W) (w : W) (now : Z).

(** C6: Finalization is ordered and never early, whatever the API server
    answers: during a deletion pass only listed, not yet terminating children
    are deleted, and nothing is created or patched; a ManagedServiceAccount is
    deleted only after a list of the ManifestWorks came back empty; and the
    finalizer is removed, alone and under an optimistic lock, only after both
    lists came back empty.  A status write is made only while children remain,
    and says so. *)
Theorem reconcileDelete_ordered set :
  trace_ok (delete_pass_ok set) (out_trace (run h (reconcileDelete now set) w)).
Proof. apply (wp_run h _ _ _ w (reconcileDelete_wp any_answer now set [] eq_refl eq_refl eq_refl)). Qed.

(** C25: A deletion pass leaves no child behind and never stalls: the deletes it
    sends are exactly the listed children that are not terminating yet, also
    when some of the deletes fail.  A list that fails ends the pass with its
    error; deletes answered with errors other than NotFound end it with exactly
    those errors joined; a failed patch of the status or of the finalizer ends
    it with that error; otherwise the pass asks for a requeue in ten seconds
    while children remain, and for none exactly when both lists were empty. *)
Theorem reconcileDelete_exact set :
  let o := run h (reconcileDelete now set) w in delete_outcome set (out_trace o) (out_val o).
Proof. apply (wp_run h _ _ _ w (reconcileDelete_wp any_answer now set [] eq_refl eq_refl eq_refl)). Qed.

(** C24: Stale cleanup is exact: of the listed works exactly those are deleted
    whose cluster is not among the selected ones, or whose cluster is among
    those to clean up and whose name is not wanted there;
    ManagedServiceAccounts are looked at only when no work is stale, and then
    exactly the stale ones, by the same rule, are deleted; while stale works
    remain the caller is told that cleanup is pending.  The error returned is
    that of the list that failed, else the join of the errors other than
    NotFound that the deletes were answered with, nil exactly when there is
    none. *)
Theorem deleteStaleChildren_exact set desiredClusters cleanupClusters desiredWorkNames desiredMSANames :
  let o := run h (deleteStaleChildren set desiredClusters cleanupClusters desiredWorkNames
                    desiredMSANames) w in
  stale_outcome set desiredClusters cleanupClusters desiredWorkNames desiredMSANames
    [] (out_trace o) (out_val o).
Proof.
  intros o. destruct (wp_run h any_call _ _ w
    (deleteStaleChildren_wp any_answer any_call set desiredClusters cleanupClusters desiredWorkNames
       desiredMSANames [] ltac:(done) ltac:(done) ltac:(done) ltac:(done))) as [Hq _]. exact Hq.
Qed.

End properties.
