(* ===== verification/ReconcileChildren.v ===== *)
(** * Reconciling the children of the selected clusters

    [reconcileChildren] with [aggregateExistingRBACSummary], [ensureSummary]
    and [indexPlacementsByKey].  [placementByKey] maps the name of a placement
    status to a pointer into [status.Placements]; the model keeps the index of
    the entry, so that an update through the map is an update of the list. *)

From S2P Require Import Prelude GoStd ApiTypes Interfaces Reference Effects Samples.
From S2P Require Import Metadata Rbac ControllerAccess Conditions Children Placement Rollout Cleanup.
From Stdlib Require Import ZArith Lia.

(** ** Summaries *)

Definition zeroSummary : Summary := mkSummary 0 0 0 0 0 0 0.

Definition ensureSummary (slot : option Summary) : Summary := default zeroSummary slot.

(** [s.DesiredTotal += desired]. *)
Definition addDesiredTotal (desired : Z) (s : Summary) : Summary :=
  mkSummary (int32_add (sumDesiredTotal s) desired) (sumTotal s) (sumApplied s) (sumAvailable s)
    (sumDegraded s) (sumProgressing s) (sumUpdated s).

(** The index of the last placement status of each name. *)
Definition indexPlacementsByKey (placements : list PlacementStatus) : gmap string nat :=
  foldl (λ idx ip, <[psName ip.2 := ip.1]> idx) ∅ (imap pair placements).

Definition updatePlacementSummary (f : Summary → Summary) (p : PlacementStatus) : PlacementStatus :=
  with_psSummary p (Some (f (ensureSummary (psSummary p)))).

(** Apply [f] to the summary of the set and to that of every placement the
    cluster belongs to. *)
Definition updateSummaries (f : Summary → Summary) (placementByKey : gmap string nat)
    (refKeys : list string) (status : ManagedServiceAccountReplicaSetStatus)
    : ManagedServiceAccountReplicaSetStatus :=
  foldl (λ st refKey,
           match placementByKey !! refKey with
           | Some i => with_stPlacements st (alter (updatePlacementSummary f) i (stPlacements st))
           | None => st
           end)
    (with_stSummary status (Some (f (ensureSummary (stSummary status))))) refKeys.

(** [status.ControllerAccess.ReadyClusterCount++]; the pointer was set before
    the loop. *)
Definition incrAccessReady (status : ManagedServiceAccountReplicaSetStatus)
    : ManagedServiceAccountReplicaSetStatus :=
  with_stControllerAccess status
    ((λ c, mkControllerAccessStatus (caDesiredClusterCount c)
             (int32_add (caReadyClusterCount c) 1) (caConditions c)) <$> stControllerAccess status).

(** [result.ready++]. *)
Definition incrReady (r : childReconcileResult) : childReconcileResult :=
  mkChildResult (int32_add (crReady r) 1) (crConflicts r) (crFailures r) (crCleanupPending r) (crErr r).

Definition initAccess (set : ManagedServiceAccountReplicaSet) (clusters : list string)
    (status : ManagedServiceAccountReplicaSetStatus) : ManagedServiceAccountReplicaSetStatus :=
  with_stControllerAccess status
    (Some (mkControllerAccessStatus (int32_len clusters) 0
             (match stControllerAccess (setStatus set) with
              | Some c => caConditions c
              | None => []
              end))).

(** The variables of the loop over the clusters. *)
Record childLoop := mkChildLoop {
  clResult : childReconcileResult;
  clStatus : ManagedServiceAccountReplicaSetStatus;
  clWorkNames : gmap string (gset string);
}.

(** The variables of the body for one cluster. *)
Record clusterLoop := mkClusterLoop {
  cloResult : childReconcileResult;
  cloStatus : ManagedServiceAccountReplicaSetStatus;
  cloReady : bool;
  cloNames : gset string;
}.

Section children.
Context `{MetaConditions} `{LabelsLib} `{SemanticEquality} `{JSONCodec} `{ApiErrors} `{ControllerUtil}
        `{ClusterGroups}.
Context (now : Z) (resolver : bool).

Definition aggregateExistingRBACSummary (set : ManagedServiceAccountReplicaSet)
    (clusterName placementRefName : string) (placementRefKeys : list string)
    (placementByKey : gmap string nat) (status : ManagedServiceAccountReplicaSetStatus)
    : prog ManagedServiceAccountReplicaSetStatus :=
  if negb (rbacEnabled set) then mret status
  else
    r ← desiredRBACSlices set clusterName resolver;
    let status := updateSummaries (addDesiredTotal (int32_len r.1)) placementByKey placementRefKeys status in
    foldM (λ status slice,
             let desiredWork := buildManifestWork set clusterName placementRefName slice in
             got ← send (CGetWork (ObjectKey (mwMeta desiredWork)));
             match got with
             | Err _ => mret status
             | Ok work =>
                 if negb (ownedBySet set (omLabels (mwMeta work)))
                    || negb (childMatches work desiredWork manifestWorkSpecOps)
                 then mret status
                 else mret (updateSummaries
                              (λ s, addSummary s (summarizeManifestWork work (sliceManifestsHash slice)))
                              placementByKey placementRefKeys status)
             end) status r.1.

(** One ensured child: a failure is recorded, and the cluster is ready only if
    it was and the child is. *)
Definition noteChild {T} (isReady : T → bool) (acc : childReconcileResult * bool) (r : result T)
    : childReconcileResult * bool :=
  match r with
  | Err e => (recordErr acc.1 e, false)
  | Ok obj => (acc.1, acc.2 && isReady obj)
  end.

(** The controller-access children of one cluster. *)
Definition reconcileAccess (set : ManagedServiceAccountReplicaSet) (clusterName primaryRef : string)
    (lp : clusterLoop) : prog clusterLoop :=
  msa ← ensureControllerAccessManagedServiceAccount set clusterName primaryRef;
  let acc := noteChild managedServiceAccountReady (cloResult lp, true) msa in
  work ← ensureControllerAccessManifestWork set clusterName primaryRef;
  let '(result, accessReady) := noteChild manifestWorkAvailable acc work in
  mret (mkClusterLoop result
          (if accessReady then incrAccessReady (cloStatus lp) else cloStatus lp)
          (cloReady lp && accessReady)
          ({[controllerAccessManifestWorkName set]} ∪ cloNames lp)).

Definition reconcileWorkloadMSA (set : ManagedServiceAccountReplicaSet) (clusterName primaryRef : string)
    (lp : clusterLoop) : prog clusterLoop :=
  msa ← ensureManagedServiceAccount set clusterName primaryRef;
  let '(result, ready) := noteChild managedServiceAccountReady (cloResult lp, cloReady lp) msa in
  mret (mkClusterLoop result (cloStatus lp) ready (cloNames lp)).

Definition reconcileSlice (set : ManagedServiceAccountReplicaSet) (clusterName primaryRef : string)
    (placementByKey : gmap string nat) (refKeys : list string)
    (lp : clusterLoop) (slice : rbacSlice) : prog clusterLoop :=
  let names := {[sliceName slice]} ∪ cloNames lp in
  r ← ensureManifestWork set clusterName primaryRef slice;
  match r with
  | Err e => mret (mkClusterLoop (recordErr (cloResult lp) e) (cloStatus lp) false names)
  | Ok work =>
      mret (mkClusterLoop (cloResult lp)
              (updateSummaries (λ s, addSummary s (summarizeManifestWork work (sliceManifestsHash slice)))
                 placementByKey refKeys (cloStatus lp))
              (cloReady lp && manifestWorkAvailable work) names)
  end.

Definition reconcileRBAC (set : ManagedServiceAccountReplicaSet) (clusterName primaryRef : string)
    (placementByKey : gmap string nat) (refKeys : list string) (lp : clusterLoop) : prog clusterLoop :=
  r ← desiredRBACSlices set clusterName resolver;
  let '(rbacSlices, err) := r in
  let '(result, ready) :=
    match err with
    | Some e => (recordErr (cloResult lp) e, false)
    | None => (cloResult lp, cloReady lp)
    end in
  let status := updateSummaries (addDesiredTotal (int32_len rbacSlices)) placementByKey refKeys (cloStatus lp) in
  foldM (reconcileSlice set clusterName primaryRef placementByKey refKeys)
    (mkClusterLoop result status ready (cloNames lp)) rbacSlices.

(** The body of the loop for a cluster of the rollout window. *)
Definition rolloutCluster (set : ManagedServiceAccountReplicaSet) (resolution : placementResolution)
    (placementByKey : gmap string nat) (acc : childLoop) (clusterName : string) : prog childLoop :=
  ns ← send (CGetNamespace clusterName);
  match ns with
  | Err e => mret (mkChildLoop (recordErr (clResult acc) e) (clStatus acc)
                     (<[clusterName := ∅]> (clWorkNames acc)))
  | Ok _ =>
      let ref := primaryRef resolution clusterName in
      let refKeys := default [] (resClusterPlacementRefs resolution !! clusterName) in
      let lp := mkClusterLoop (clResult acc) (clStatus acc) true ∅ in
      lp ← (if selectorRBACEnabled set then reconcileAccess set clusterName ref lp else mret lp);
      lp ← reconcileWorkloadMSA set clusterName ref lp;
      lp ← (if rbacEnabled set then reconcileRBAC set clusterName ref placementByKey refKeys lp
            else mret lp);
      mret (mkChildLoop (if cloReady lp then incrReady (cloResult lp) else cloResult lp)
              (cloStatus lp) (<[clusterName := cloNames lp]> (clWorkNames acc)))
  end.

(** The body of the loop for a cluster outside the rollout window. *)
Definition settledCluster (set : ManagedServiceAccountReplicaSet) (resolution : placementResolution)
    (rolloutStatuses : gmap string ClusterRolloutStatus) (placementByKey : gmap string nat)
    (acc : childLoop) (clusterName : string) : prog childLoop :=
  let names := <[clusterName := ∅]> (clWorkNames acc) in
  match rolloutStatuses !! clusterName with
  | Some (mkClusterRolloutStatus _ Succeeded _) =>
      let status := if selectorRBACEnabled set then incrAccessReady (clStatus acc) else clStatus acc in
      status ← aggregateExistingRBACSummary set clusterName (primaryRef resolution clusterName)
                 (default [] (resClusterPlacementRefs resolution !! clusterName)) placementByKey status;
      mret (mkChildLoop (incrReady (clResult acc)) status names)
  | _ => mret (mkChildLoop (clResult acc) (clStatus acc) names)
  end.

Definition reconcileCluster (set : ManagedServiceAccountReplicaSet) (resolution : placementResolution)
    (rolloutClusters : gset string) (rolloutStatuses : gmap string ClusterRolloutStatus)
    (placementByKey : gmap string nat) (acc : childLoop) (clusterName : string) : prog childLoop :=
  if sets_Has rolloutClusters clusterName
  then rolloutCluster set resolution placementByKey acc clusterName
  else settledCluster set resolution rolloutStatuses placementByKey acc clusterName.

(** The Ready condition of [status.ControllerAccess] after the loop. *)
Definition finishAccess (set : ManagedServiceAccountReplicaSet)
    (status : ManagedServiceAccountReplicaSetStatus) : ManagedServiceAccountReplicaSetStatus :=
  with_stControllerAccess status
    ((λ c,
        mkControllerAccessStatus (caDesiredClusterCount c) (caReadyClusterCount c)
          (if (caReadyClusterCount c =? caDesiredClusterCount c)%Z
           then setCondition now (caConditions c) conditionReady ConditionTrue reasonReady
                  "controller namespace access is ready" (setGeneration set)
           else setCondition now (caConditions c) conditionReady ConditionFalse
                  reasonWaitingForCredentials "waiting for controller namespace access"
                  (setGeneration set))) <$> stControllerAccess status).

Definition reconcileChildren (set : ManagedServiceAccountReplicaSet) (resolution : placementResolution)
    (rolloutClusterNames : list string) (cleanupClusters : gset string)
    (rolloutStatuses : gmap string ClusterRolloutStatus) (status : ManagedServiceAccountReplicaSetStatus)
    : prog (childReconcileResult * ManagedServiceAccountReplicaSetStatus) :=
  let clusterNames := resClusters resolution in
  let placementByKey := indexPlacementsByKey (stPlacements status) in
  let selectorRBAC := selectorRBACEnabled set in
  let status := if selectorRBAC then initAccess set clusterNames status else status in
  lp ← foldM (reconcileCluster set resolution (sets_New rolloutClusterNames) rolloutStatuses placementByKey)
         (mkChildLoop emptyChildResult status ∅) clusterNames;
  let result := clResult lp in
  let status := if selectorRBAC then finishAccess set (clStatus lp) else clStatus lp in
  match crErr result with
  | Some _ => mret (result, status)
  | None =>
      r ← deleteStaleChildren set (sets_New clusterNames) cleanupClusters (clWorkNames lp)
            (desiredManagedServiceAccountNames set);
      let '(cleanupPending, err) := r in
      mret (mkChildResult (crReady result) (crConflicts result) (crFailures result) cleanupPending
              (match err with Some e => errors_Join [crErr result; Some e] | None => crErr result end),
            status)
  end.

End children.

(** ** The fields of the status the loop leaves alone *)

(** What the loop leaves alone of a placement status. *)
Definition placementCore (p : PlacementStatus) : string * option RolloutSummary * list Condition :=
  (psName p, psRollout p, psConditions p).

Definition status_frame (st st' : ManagedServiceAccountReplicaSetStatus) : Prop :=
  stSelectedClusterCount st' = stSelectedClusterCount st ∧
  stObservedGeneration st' = stObservedGeneration st ∧
  stConditions st' = stConditions st ∧ stRollout st' = stRollout st ∧
  map placementCore (stPlacements st') = map placementCore (stPlacements st).

#[export] Instance status_frame_preorder : PreOrder status_frame.
Proof.
  split; [by intros ?|]. intros a b c (? & ? & ? & ? & ?) (? & ? & ? & ? & ?). split_and!; by etrans.
Qed.

Lemma updateSummaries_frame f byKey keys st : status_frame st (updateSummaries f byKey keys st).
Proof.
  unfold updateSummaries.
  assert (status_frame st (with_stSummary st (Some (f (ensureSummary (stSummary st)))))) as H0 by done.
  revert H0. generalize (with_stSummary st (Some (f (ensureSummary (stSummary st))))).
  induction keys as [|k keys IH]; intros st0 H0; cbn [foldl]; [done|].
  apply IH. destruct (byKey !! k) as [i|]; [|done]. destruct H0 as (? & ? & ? & ? & Hp). split_and!; try done.
  cbn [with_stPlacements stPlacements]. rewrite <- Hp. clear. revert i.
  induction (stPlacements st0) as [|p l IH]; intros [|i]; cbn; [done..|]. f_equal. apply IH.
Qed.

Section frame.
Context `{MetaConditions} `{LabelsLib} `{SemanticEquality} `{JSONCodec} `{ApiErrors} `{ControllerUtil}
        `{ClusterGroups}.
Context (now : Z) (resolver : bool) (set : ManagedServiceAccountReplicaSet).

Lemma aggregate_frame cl ref keys byKey st0 st :
  status_frame st0 st →
  returns (status_frame st0) (aggregateExistingRBACSummary resolver set cl ref keys byKey st).
Proof.
  intros Hf. unfold aggregateExistingRBACSummary. case_goal; [by apply returns_ret|].
  eapply returns_bind; [apply returns_any|]. intros r _. apply returns_foldM.
  - etrans; [exact Hf|apply updateSummaries_frame].
  - intros st1 s Hst1. eapply returns_bind; [apply returns_any|]. intros [w|e] _; [|by apply returns_ret].
    case_goal; apply returns_ret; [done|]. etrans; [exact Hst1|apply updateSummaries_frame].
Qed.

Lemma rbac_frame cl ref byKey keys st0 lp :
  status_frame st0 (cloStatus lp) →
  returns (λ lp', status_frame st0 (cloStatus lp')) (reconcileRBAC resolver set cl ref byKey keys lp).
Proof.
  intros Hf. unfold reconcileRBAC. eapply returns_bind; [apply returns_any|]. intros [sl err] _.
  destruct (match err with Some e => _ | None => _ end) as [res rd]. apply returns_foldM.
  - etrans; [exact Hf|apply updateSummaries_frame].
  - intros lp1 s Hlp1. unfold reconcileSlice. eapply returns_bind; [apply returns_any|].
    intros [w|e] _; apply returns_ret; [|done]. etrans; [exact Hlp1|apply updateSummaries_frame].
Qed.

Lemma rolloutCluster_frame resolution byKey st0 acc cl :
  status_frame st0 (clStatus acc) →
  returns (λ lp, status_frame st0 (clStatus lp)) (rolloutCluster resolver set resolution byKey acc cl).
Proof.
  intros Hf. unfold rolloutCluster. eapply returns_bind; [apply returns_any|].
  intros [[]|e] _; [|by apply returns_ret].
  eapply (returns_bind (λ lp, status_frame st0 (cloStatus lp))).
  { case_goal; [|by apply returns_ret]. unfold reconcileAccess.
    eapply returns_bind; [apply returns_any|]. intros m _.
    eapply returns_bind; [apply returns_any|]. intros w _.
    destruct (noteChild manifestWorkAvailable _ w) as [r b]. apply returns_ret. simpl. by destruct b. }
  intros lp1 Hlp1. eapply (returns_bind (λ lp, status_frame st0 (cloStatus lp))).
  { unfold reconcileWorkloadMSA. eapply returns_bind; [apply returns_any|]. intros m _.
    destruct (noteChild _ _ m) as [r b]. by apply returns_ret. }
  intros lp2 Hlp2. eapply (returns_bind (λ lp, status_frame st0 (cloStatus lp))).
  { case_goal; [by apply rbac_frame|by apply returns_ret]. }
  intros lp3 Hlp3. by apply returns_ret.
Qed.

Lemma reconcileChildren_frame resolution names cleanup statuses st :
  returns (λ r, status_frame st r.2)
    (reconcileChildren now resolver set resolution names cleanup statuses st).
Proof.
  unfold reconcileChildren. cbv zeta.
  eapply (returns_bind (λ lp, status_frame st (clStatus lp))).
  - apply returns_foldM; [by destruct (selectorRBACEnabled set)|]. intros acc cl Hacc. unfold reconcileCluster.
    case_goal; [by apply rolloutCluster_frame|]. unfold settledCluster.
    destruct (statuses !! cl) as [[n [] t]|]; try by apply returns_ret.
    eapply returns_bind; [apply (aggregate_frame cl _ _ _ st); by destruct (selectorRBACEnabled set)|].
    intros st1 Hst1. by apply returns_ret.
  - intros lp Hlp. destruct (crErr (clResult lp)); [apply returns_ret; cbn [snd]; destruct (selectorRBACEnabled set); exact Hlp|].
    eapply returns_bind; [apply returns_any|]. intros [pending err] _. apply returns_ret. cbn [snd].
    destruct (selectorRBACEnabled set); exact Hlp.
Qed.

End frame.
