(* ===== verification/ChildrenSafety.v ===== *)
(** * What reconciling the children does to the cluster

    The loop over the selected clusters and the stale cleanup after it, for
    every API server that answers within the contract: which writes are sent,
    what a ready cluster has shown, and when nothing is deleted. *)

From S2P Require Import Prelude GoStd ApiTypes Interfaces Reference Effects Samples Store.
From S2P Require Import Metadata Rbac ControllerAccess Conditions Children Placement Rollout.
From S2P Require Import Cleanup ReconcileChildren RolloutPlan.
From Stdlib Require Import ZArith Lia.

(** The work of that key was created or patched. *)
Definition ensuredWork (tr : trace) (k : NamespacedName) : Prop :=
  ∃ e, e ∈ tr ∧ match ev_call e with
                | CCreateWork o | CPatchWork _ o => ObjectKey (mwMeta o) = k
                | _ => False
                end.

(** No delete was sent. *)
Definition no_deletes (tr : trace) : Prop := work_deletes tr = [] ∧ msa_deletes tr = [].

Lemma ensuredWork_cons c r tr k :
  ensuredWork (Ev c r :: tr) k ↔
  (match c with CCreateWork o | CPatchWork _ o => ObjectKey (mwMeta o) = k | _ => False end)
  ∨ ensuredWork tr k.
Proof.
  unfold ensuredWork. split.
  - intros (e & [->|He]%elem_of_cons & Hk); [by left|right; by exists e].
  - intros [Hk|(e & He & Hk)]; [exists (Ev c r); split; [left|done]|].
    exists e. split; [by right|done].
Qed.

Section safety.
Context `{MetaConditions} `{LabelsLib} `{SemanticEquality} `{JSONCodec} `{ApiErrors} `{ControllerUtil}
        `{ClusterGroups}.
Context (now : Z) (resolver : bool) (set : ManagedServiceAccountReplicaSet).

(** Where the writes of a pass may go: children are created and patched in the
    selected clusters of the rollout window only; children of a selected
    cluster are deleted only inside the cleanup window; and no child that the
    pass itself ensured is deleted. *)
Definition window_ok (clusters rollout cleanup : gset string) (tr : trace) (c : call) : Prop :=
  match c with
  | CCreateMSA o | CPatchMSA _ o =>
      omNamespace (msaMeta o) ∈ clusters ∧ omNamespace (msaMeta o) ∈ rollout ∧
      omName (msaMeta o) ∈ desiredManagedServiceAccountNames set
  | CCreateWork o | CPatchWork _ o =>
      omNamespace (mwMeta o) ∈ clusters ∧ omNamespace (mwMeta o) ∈ rollout
  | CDeleteMSA o =>
      omNamespace (msaMeta o) ∉ clusters ∨
      (omNamespace (msaMeta o) ∈ cleanup ∧
       omName (msaMeta o) ∉ desiredManagedServiceAccountNames set)
  | CDeleteWork o =>
      (omNamespace (mwMeta o) ∉ clusters ∨ omNamespace (mwMeta o) ∈ cleanup) ∧
      ¬ ensuredWork tr (ObjectKey (mwMeta o))
  | CPatchSet _ _ _ | CPatchSetStatus _ _ | CStopNamespaceCaches _ _ | CEventf _ _ _ _ => False
  | _ => True
  end.

Definition children_ok (clusters rollout cleanup : gset string) (tr : trace) (c : call) : Prop :=
  child_write_ok set tr c ∧ window_ok clusters rollout cleanup tr c.

(** What was seen of one cluster of the rollout window when it counts as
    ready: each of its children was answered by the API server in this pass
    and is ready; the works are those of all namespaces of all grants. *)
Definition rolled_ready (tr : trace) (cl ref : string) : Prop :=
  (∃ o, answeredMSA tr (buildManagedServiceAccount set cl ref) o ∧ managedServiceAccountReady o = true) ∧
  (selectorRBACEnabled set = true →
     (∃ o, answeredMSA tr (buildControllerAccessManagedServiceAccount set cl ref) o ∧
           managedServiceAccountReady o = true) ∧
     (∃ w, answeredWork tr (buildControllerAccessManifestWork set cl ref) w ∧
           manifestWorkAvailable w = true)) ∧
  (rbacEnabled set = true →
     ∃ slices, slices_resolved set cl tr slices ∧
       ∀ s, s ∈ slices →
         ∃ w, answeredWork tr (buildManifestWork set cl ref s) w ∧ manifestWorkAvailable w = true).

Definition settled_ready (statuses : gmap string ClusterRolloutStatus) (cl : string) : Prop :=
  ∃ st, statuses !! cl = Some st ∧ crsStatus st = Succeeded.

Definition cluster_ready (resolution : placementResolution) (rollout : gset string)
    (statuses : gmap string ClusterRolloutStatus) (tr : trace) (cl : string) : Prop :=
  (cl ∈ rollout → rolled_ready tr cl (primaryRef resolution cl)) ∧
  (cl ∉ rollout → settled_ready statuses cl).

Lemma rolled_ready_suffix tr tr' cl ref :
  tr `suffix_of` tr' → rolled_ready tr cl ref → rolled_ready tr' cl ref.
Proof.
  intros Hs (Hm & Ha & Hr). split_and!.
  - destruct Hm as (o & ? & ?). exists o. split; [by eapply answeredMSA_suffix|done].
  - intros Hsel. destruct (Ha Hsel) as [(o & ? & ?) (w & ? & ?)].
    split; [exists o|exists w]; (split; [|done]); [by eapply answeredMSA_suffix|by eapply answeredWork_suffix].
  - intros Hrb. destruct (Hr Hrb) as (slices & ? & Hall). exists slices.
    split; [by eapply slices_resolved_suffix|].
    intros s Hin. destruct (Hall s Hin) as (w & ? & ?). exists w. split; [by eapply answeredWork_suffix|done].
Qed.

(** ** One cluster of the rollout window *)

(** The result part of the loop state that every step keeps. *)
Definition result_ok (r : childReconcileResult) : Prop :=
  (crFailures r ≠ 0%Z → crErr r ≠ None) ∧ crCleanupPending r = false.

Lemma recordErr_result_ok r e : result_ok r → result_ok (recordErr r e).
Proof.
  intros [Hf Hc]. unfold recordErr, result_ok. case_goal; simpl; [done|].
  split; [|done]. intros _. by destruct (errors_Join_acc (crErr r) e) as [j ->].
Qed.

Lemma recordErr_ready r e : crReady (recordErr r e) = crReady r.
Proof. unfold recordErr. by case_goal. Qed.

(** The invariant of the body for cluster [cl], from the history [tr0] and the
    result [r0] it started with. *)
Record body_inv (cl : string) (tr0 : trace) (r0 : childReconcileResult) (tr : trace) (lp : clusterLoop)
    : Prop := {
  bi_result : result_ok (cloResult lp);
  bi_ready : crReady (cloResult lp) = crReady r0;
  bi_suffix : tr0 `suffix_of` tr;
  bi_deletes : no_deletes tr0 → no_deletes tr;
  bi_works k : ensuredWork tr k → ensuredWork tr0 k ∨ (nnNamespace k = cl ∧ nnName k ∈ cloNames lp);
}.

(** The requests of the body for cluster [cl]. *)
Definition body_ok (cl : string) (tr : trace) (c : call) : Prop :=
  child_write_ok set tr c ∧
  match c with
  | CCreateMSA o | CPatchMSA _ o =>
      omNamespace (msaMeta o) = cl ∧ omName (msaMeta o) ∈ desiredManagedServiceAccountNames set
  | CCreateWork o | CPatchWork _ o => omNamespace (mwMeta o) = cl
  | CDeleteMSA _ | CDeleteWork _ | CPatchSet _ _ _ | CPatchSetStatus _ _ | CStopNamespaceCaches _ _
  | CEventf _ _ _ _ => False
  | _ => True
  end.

(** A request that neither deletes nor writes a work keeps the invariant. *)
Definition neutral (c : call) : Prop :=
  match c with
  | CCreateWork _ | CPatchWork _ _ | CDeleteMSA _ | CDeleteWork _ => False
  | _ => True
  end.

Lemma no_deletes_cons c r tr :
  match c with CDeleteMSA _ | CDeleteWork _ => False | _ => True end →
  no_deletes tr → no_deletes (Ev c r :: tr).
Proof. intros Hc [Hw Hm]. destruct c; try (split; [exact Hw|exact Hm]); by destruct Hc. Qed.

Lemma body_inv_neutral cl tr0 r0 tr lp c r :
  neutral c → body_inv cl tr0 r0 tr lp → body_inv cl tr0 r0 (Ev c r :: tr) lp.
Proof.
  intros Hc [Hb1 Hb2 Hb3 Hb4 Hb5]. split; [done|done|by apply suffix_cons_r| |].
  - intros Hn. apply no_deletes_cons; [by destruct c|by apply Hb4].
  - intros k [Hk|Hk]%ensuredWork_cons; [by destruct c|by apply Hb5].
Qed.

Lemma ensureMSA_body cl tr0 r0 tr lp d :
  generatedMSA set d → omNamespace (msaMeta d) = cl →
  omName (msaMeta d) ∈ desiredManagedServiceAccountNames set → body_inv cl tr0 r0 tr lp →
  wp api_contract (body_ok cl) (ensureChild set d msaSpecOps)
    (λ tr' r, match r with Ok o => answeredMSA tr' d o | Err _ => True end ∧
              body_inv cl tr0 r0 tr' lp) tr.
Proof.
  intros Hd Hns Hname Hinv.
  pose proof (wp_invariant _ _ (λ tr, body_inv cl tr0 r0 tr lp) _ _ _ (ensureMSA_wp set d tr Hd)) as Hwp.
  eapply wp_weaken; [done| |apply Hwp; [intros tr' c r [_ Hw]|exact Hinv]].
  - intros tr' c [Hok Hw]. split; [done|].
    destruct c; simpl in *; try done; injection Hw as Hw1 Hw2; by rewrite Hw1, Hw2.
  - apply body_inv_neutral. by destruct c.
Qed.

Lemma ensureWork_body cl tr0 r0 tr lp d :
  generatedWork set d → omNamespace (mwMeta d) = cl →
  omName (mwMeta d) ∈ cloNames lp → body_inv cl tr0 r0 tr lp →
  wp api_contract (body_ok cl) (ensureChild set d manifestWorkSpecOps)
    (λ tr' r, match r with Ok o => answeredWork tr' d o | Err _ => True end ∧
              body_inv cl tr0 r0 tr' lp) tr.
Proof.
  intros Hd Hns Hname Hinv.
  pose proof (wp_invariant _ _ (λ tr, body_inv cl tr0 r0 tr lp) _ _ _ (ensureWork_wp set d tr Hd)) as Hwp.
  eapply wp_weaken; [done| |apply Hwp; [intros tr' c r [_ Hw]|exact Hinv]].
  - intros tr' c [Hok Hw]. split; [done|].
    destruct c; simpl in *; try done; injection Hw as Hw1 Hw2; by rewrite Hw1.
  - intros [Hb1 Hb2 Hb3 Hb4 Hb5]. split; [done|done|by apply suffix_cons_r| |].
    + intros Hn. apply no_deletes_cons; [by destruct c|by apply Hb4].
    + intros k [Hk|Hk]%ensuredWork_cons; [|by apply Hb5].
      right. destruct c; try done; rewrite <- Hk, Hw; done.
Qed.

Lemma body_inv_update cl tr0 r0 tr lp lp' :
  body_inv cl tr0 r0 tr lp → result_ok (cloResult lp') →
  crReady (cloResult lp') = crReady (cloResult lp) → cloNames lp ⊆ cloNames lp' →
  body_inv cl tr0 r0 tr lp'.
Proof.
  intros [Hb1 Hb2 Hb3 Hb4 Hb5] Hr Hc Hn. split; [done|by rewrite Hc|done|done|].
  intros k Hk. destruct (Hb5 k Hk) as [?|[? ?]]; [by left|right; split; [done|by apply Hn]].
Qed.

Lemma noteChild_ok {T} (isReady : T → bool) acc r :
  (result_ok acc.1 → result_ok (noteChild isReady acc r).1) ∧
  crReady (noteChild isReady acc r).1 = crReady acc.1 ∧
  ((noteChild isReady acc r).2 = true → acc.2 = true ∧ ∃ o, r = Ok o ∧ isReady o = true).
Proof.
  destruct r as [o|e]; simpl; split_and!; try done.
  - intros [? ?]%andb_true_iff. eauto.
  - apply recordErr_result_ok.
  - apply recordErr_ready.
Qed.

Lemma reconcileAccess_wp cl ref tr0 r0 tr lp :
  selectorRBACEnabled set = true → body_inv cl tr0 r0 tr lp →
  wp api_contract (body_ok cl) (reconcileAccess set cl ref lp)
    (λ tr' lp', body_inv cl tr0 r0 tr' lp' ∧ (cloReady lp' = true → cloReady lp = true ∧
       (∃ o, answeredMSA tr' (buildControllerAccessManagedServiceAccount set cl ref) o ∧
             managedServiceAccountReady o = true) ∧
       (∃ w, answeredWork tr' (buildControllerAccessManifestWork set cl ref) w ∧
             manifestWorkAvailable w = true))) tr.
Proof.
  intros Hsel Hinv. unfold reconcileAccess.
  apply wp_bind. eapply wp_mono.
  { apply (ensureMSA_body cl tr0 r0 tr lp); [exists cl, ref; right; done|done| |done].
    unfold desiredManagedServiceAccountNames. rewrite Hsel. simpl. set_solver. }
  intros tr1 m [Hm Hinv1].
  destruct (noteChild_ok managedServiceAccountReady (cloResult lp, true) m) as (Hn1 & Hn2 & Hn3).
  set (acc := noteChild managedServiceAccountReady (cloResult lp, true) m) in *. cbn [fst snd] in *.
  set (lp1 := mkClusterLoop acc.1 (cloStatus lp) (cloReady lp)
                ({[controllerAccessManifestWorkName set]} ∪ cloNames lp)).
  assert (body_inv cl tr0 r0 tr1 lp1) as Hinv1'.
  { eapply body_inv_update; [exact Hinv1|apply Hn1, Hinv1|done|simpl; set_solver]. }
  apply wp_bind. eapply wp_mono.
  { apply wp_suffix. apply (ensureWork_body cl tr0 r0 tr1 lp1); [exists cl, ref; right; done|done| |done].
    simpl. set_solver. }
  intros tr2 w [[Hw Hinv2] Hs].
  destruct (noteChild_ok manifestWorkAvailable acc w) as (Hk1 & Hk2 & Hk3).
  destruct (noteChild manifestWorkAvailable acc w) as [r b]. cbn [fst snd] in *.
  apply wp_ret. split; simpl.
  - eapply body_inv_update; [exact Hinv2|apply Hk1, Hinv1'|done|done].
  - intros [Hr ->]%andb_true_iff. destruct (Hk3 eq_refl) as (Hacc & o2 & -> & Ho2).
    destruct (Hn3 Hacc) as (_ & o1 & -> & Ho1). split_and!; [done| |by exists o2].
    exists o1. split; [by eapply answeredMSA_suffix|done].
Qed.

Lemma reconcileWorkloadMSA_wp cl ref tr0 r0 tr lp :
  body_inv cl tr0 r0 tr lp →
  wp api_contract (body_ok cl) (reconcileWorkloadMSA set cl ref lp)
    (λ tr' lp', body_inv cl tr0 r0 tr' lp' ∧ (cloReady lp' = true → cloReady lp = true ∧
       ∃ o, answeredMSA tr' (buildManagedServiceAccount set cl ref) o ∧
            managedServiceAccountReady o = true)) tr.
Proof.
  intros Hinv. unfold reconcileWorkloadMSA.
  apply wp_bind. eapply wp_mono.
  { apply (ensureMSA_body cl tr0 r0 tr lp); [exists cl, ref; left; done|done| |done].
    unfold desiredManagedServiceAccountNames. simpl. destruct (selectorRBACEnabled set); set_solver. }
  intros tr1 m [Hm Hinv1].
  destruct (noteChild_ok managedServiceAccountReady (cloResult lp, cloReady lp) m) as (Hn1 & Hn2 & Hn3).
  destruct (noteChild managedServiceAccountReady (cloResult lp, cloReady lp) m) as [r b]. cbn [fst snd] in *.
  apply wp_ret. split; simpl.
  - eapply body_inv_update; [exact Hinv1|apply Hn1, Hinv1|done|done].
  - intros ->. destruct (Hn3 eq_refl) as (? & o & -> & ?). eauto.
Qed.

(** The request of a namespace resolution. *)
Definition resolves (cl : string) (c : call) : Prop :=
  ∃ g sel, c = CResolveNamespaceSelector set cl g sel.

Lemma desiredRBACSlices_body cl (I : trace → Prop) tr :
  (∀ tr c r, resolves cl c → I tr → I (Ev c r :: tr)) → I tr →
  wp api_contract (body_ok cl) (desiredRBACSlices set cl resolver)
    (λ tr' r, ((∃ acc seg, tr' = seg ++ tr ∧ acc_sound set (setGrants set) acc ∧
                  acc_complete set cl seg (setGrants set) acc ∧ r = (slicesOut set acc, accJoined acc)) ∨
               ∃ e, r = ([], Some e)) ∧ I tr') tr.
Proof.
  intros HI Ht.
  assert (wp api_contract (λ _, resolves cl) (desiredRBACSlices set cl resolver) _ tr) as Hwp
    by (apply desiredRBACSlices_wp; right; intros; by do 2 eexists).
  apply (wp_invariant _ _ I) in Hwp; [|intros tr' c r Hc; by apply HI|exact Ht].
  apply (wp_weaken api_contract _ (λ _, resolves cl));
    [done|intros tr' c (g & sel & ->); split; exact Logic.I|].
  eapply wp_mono; [exact Hwp|]. intros tr' r [[(acc & seg & ? & ? & [? _] & ?)|[_ Hr]] Hi]; [|by auto].
  split; [left; by exists acc, seg|done].
Qed.

(** One slice: its work was answered, or the cluster is not ready. *)
Lemma reconcileSlice_wp cl ref byKey refKeys tr0 r0 tr lp s :
  (∀ m, m ∈ sliceManifests s → least_privilege set s m) → body_inv cl tr0 r0 tr lp →
  wp api_contract (body_ok cl) (reconcileSlice set cl ref byKey refKeys lp s)
    (λ tr' lp', body_inv cl tr0 r0 tr' lp' ∧ tr `suffix_of` tr' ∧ (cloReady lp' = true → cloReady lp = true ∧
       ∃ w, answeredWork tr' (buildManifestWork set cl ref s) w ∧ manifestWorkAvailable w = true)) tr.
Proof.
  intros Hlp Hinv. unfold reconcileSlice.
  set (lp2 := mkClusterLoop (cloResult lp) (cloStatus lp) (cloReady lp) ({[sliceName s]} ∪ cloNames lp)).
  assert (body_inv cl tr0 r0 tr lp2) as Hinv2
    by (eapply body_inv_update; [exact Hinv|apply Hinv|done|simpl; set_solver]).
  apply wp_bind. eapply wp_mono.
  { apply wp_suffix. apply (ensureWork_body cl tr0 r0 tr lp2); [|done|simpl; set_solver|done].
    exists cl, ref. left. by exists s. }
  intros tr3 [w|e] [[Hw Hinv3] Hs]; apply wp_ret; split_and!; simpl; try done.
  - eapply body_inv_update; [exact Hinv3|apply Hinv3|done|done].
  - intros [Hr Hav]%andb_true_iff. split; [done|by exists w].
  - eapply body_inv_update; [exact Hinv3|apply recordErr_result_ok, Hinv3|apply recordErr_ready|done].
Qed.

Lemma reconcileRBAC_wp cl ref byKey refKeys tr0 r0 tr lp :
  body_inv cl tr0 r0 tr lp →
  wp api_contract (body_ok cl) (reconcileRBAC resolver set cl ref byKey refKeys lp)
    (λ tr' lp', body_inv cl tr0 r0 tr' lp' ∧ (cloReady lp' = true → cloReady lp = true ∧
       ∃ slices, slices_resolved set cl tr' slices ∧
         ∀ s, s ∈ slices →
           ∃ w, answeredWork tr' (buildManifestWork set cl ref s) w ∧ manifestWorkAvailable w = true)) tr.
Proof.
  intros Hinv. unfold reconcileRBAC. apply wp_bind. eapply wp_mono.
  { apply (desiredRBACSlices_body cl (λ tr, body_inv cl tr0 r0 tr lp)); [|exact Hinv].
    intros tr' c r (g & sel & ->). by apply body_inv_neutral. }
  intros tr1 [slices err] [Hslices Hinv1].
  assert (∀ s, s ∈ slices → ∀ m, m ∈ sliceManifests s → least_privilege set s m) as Hlp.
  { intros s Hs m Hm. destruct Hslices as [(acc & seg & _ & Hacc & _ & [= -> ->])|(e & [= -> ->])];
      [by eapply acc_sound_least_privilege|by apply elem_of_nil in Hs]. }
  set (start := match err with
                | Some e => (recordErr (cloResult lp) e, false)
                | None => (cloResult lp, cloReady lp)
                end).
  assert (result_ok start.1 ∧ crReady start.1 = crReady (cloResult lp) ∧
          (start.2 = true → cloReady lp = true ∧ err = None)) as (Hst1 & Hst2 & Hst3).
  { unfold start. destruct err; simpl; split_and!; try done; try apply Hinv1;
      [apply recordErr_result_ok, Hinv1|apply recordErr_ready]. }
  destruct start as [result ready]. cbn [fst snd] in *.
  apply (wp_foldM _ _ _ (λ tr done lp', body_inv cl tr0 r0 tr lp' ∧ tr1 `suffix_of` tr ∧ (cloReady lp' = true →
     ready = true ∧ ∀ s, s ∈ done → ∃ w, answeredWork tr (buildManifestWork set cl ref s) w ∧
                                        manifestWorkAvailable w = true))).
  - split_and!; [|done|simpl; intros ->; split; [done|by intros ? ?%elem_of_nil]].
    eapply body_inv_update; [exact Hinv1|done|done|done].
  - intros done s rest lp1 tr2 Hl (Hinv2 & Hsuf & Hready).
    eapply wp_mono; [apply reconcileSlice_wp; [apply Hlp; rewrite Hl; apply elem_of_middle|exact Hinv2]|].
    intros tr3 lp3 (Hinv3 & Hs & Hr3). split_and!; [done|by etrans|]. intros [Hr Hw]%Hr3. destruct (Hready Hr) as [? Hdone].
    split; [done|]. intros s' [Hs'| ->%list_elem_of_singleton]%elem_of_app; [|done].
    destruct (Hdone s' Hs') as (w' & ? & ?). exists w'. split; [by eapply answeredWork_suffix|done].
  - intros tr2 lp2 (Hinv2 & Hsuf & Hready). split; [done|]. intros Hr. destruct (Hready Hr) as [Hr' Hall].
    destruct (Hst3 Hr') as [? ->]. split; [done|]. exists slices. split; [|done].
    destruct Hslices as [(acc & seg & -> & Hacc & Hcomp & [= -> Hj])|(e & [=])]. by exists acc, seg, tr.
Qed.

(** The two parts of a cluster's body that a spec may leave out. *)
Lemma optionalAccess_wp cl ref tr0 r0 tr lp :
  body_inv cl tr0 r0 tr lp →
  wp api_contract (body_ok cl) (if selectorRBACEnabled set then reconcileAccess set cl ref lp else mret lp)
    (λ tr' lp', body_inv cl tr0 r0 tr' lp' ∧ (cloReady lp' = true → selectorRBACEnabled set = true →
       (∃ o, answeredMSA tr' (buildControllerAccessManagedServiceAccount set cl ref) o ∧
             managedServiceAccountReady o = true) ∧
       (∃ w, answeredWork tr' (buildControllerAccessManifestWork set cl ref) w ∧
             manifestWorkAvailable w = true))) tr.
Proof.
  intros Hinv. destruct (selectorRBACEnabled set) eqn:Es; [|by apply wp_ret].
  eapply wp_mono; [by apply (reconcileAccess_wp cl ref tr0 r0)|].
  intros tr' lp' [? Hr]. split; [done|]. intros Hrd _. by destruct (Hr Hrd).
Qed.

Lemma optionalRBAC_wp cl ref byKey refKeys tr0 r0 tr lp :
  body_inv cl tr0 r0 tr lp →
  wp api_contract (body_ok cl)
    (if rbacEnabled set then reconcileRBAC resolver set cl ref byKey refKeys lp else mret lp)
    (λ tr' lp', (body_inv cl tr0 r0 tr' lp' ∧
      (cloReady lp' = true → cloReady lp = true ∧ (rbacEnabled set = true →
         ∃ slices, slices_resolved set cl tr' slices ∧
           ∀ s, s ∈ slices →
             ∃ w, answeredWork tr' (buildManifestWork set cl ref s) w ∧ manifestWorkAvailable w = true)))
      ∧ tr `suffix_of` tr') tr.
Proof.
  intros Hinv. apply wp_suffix. destruct (rbacEnabled set) eqn:Er; [|by apply wp_ret].
  eapply wp_mono; [by apply (reconcileRBAC_wp cl ref byKey _ tr0 r0)|].
  intros tr' lp' [? Hr]. split; [done|]. intros Hrd. by destruct (Hr Hrd) as [? ?].
Qed.

(** ** The loop over the clusters *)

Section loop.
Context (resolution : placementResolution) (rollout cleanup : gset string)
        (statuses : gmap string ClusterRolloutStatus) (byKey : gmap string nat).

Local Abbreviation clusters := (sets_New (resClusters resolution)).

Record loop_inv (tr : trace) (done : list string) (acc : childLoop) : Prop := {
  li_result : result_ok (clResult acc);
  li_ready : ∃ L, L `sublist_of` done ∧ crReady (clResult acc) = int32 (Z.of_nat (length L)) ∧
                  ∀ cl, cl ∈ L → cluster_ready resolution rollout statuses tr cl;
  li_deletes : no_deletes tr;
  li_works k : ensuredWork tr k →
    nnNamespace k ∈ done ∧ nnName k ∈ default ∅ (clWorkNames acc !! nnNamespace k);
}.

Lemma cluster_ready_suffix tr tr' cl :
  tr `suffix_of` tr' → cluster_ready resolution rollout statuses tr cl →
  cluster_ready resolution rollout statuses tr' cl.
Proof. intros Hs [Ha Hb]. split; [|done]. intros Hin. eapply rolled_ready_suffix; [exact Hs|auto]. Qed.

(** One more cluster: counted as ready exactly when it has shown it. *)
Lemma loop_inv_step tr tr' done cl acc r st names (ready : bool) :
  loop_inv tr done acc → cl ∉ done → tr `suffix_of` tr' → no_deletes tr' →
  result_ok r → crReady r = crReady (clResult acc) →
  (ready = true → cluster_ready resolution rollout statuses tr' cl) →
  (∀ k, ensuredWork tr' k → ensuredWork tr k ∨ (nnNamespace k = cl ∧ nnName k ∈ names)) →
  loop_inv tr' (done ++ [cl])
    (mkChildLoop (if ready then incrReady r else r) st (<[cl := names]> (clWorkNames acc))).
Proof.
  intros [Hr (L & HL & Hc & HLr) Hd Hw] Hcl Hs Hd' Hr' Hcr Hready Hw'. split; simpl.
  - by destruct ready.
  - destruct ready.
    + exists (L ++ [cl]). split_and!; [by apply sublist_app| |].
      * simpl. rewrite Hcr, Hc, int32_add_int32_l, length_app. f_equal. simpl. lia.
      * intros x [Hx| ->%list_elem_of_singleton]%elem_of_app; [|by apply Hready].
        eapply cluster_ready_suffix; [exact Hs|auto].
    + exists L. split_and!; [by apply sublist_inserts_r|by rewrite Hcr|].
      intros x Hx. eapply cluster_ready_suffix; [exact Hs|auto].
  - done.
  - intros k Hk. destruct (Hw' k Hk) as [Hk'|[Hns Hname]].
    + destruct (Hw k Hk') as [Hin Hn]. split; [set_solver|].
      rewrite lookup_insert_ne; [done|]. intros ->. done.
    + rewrite Hns, lookup_insert_eq. split; [set_solver|done].
Qed.

Lemma body_ok_children cl tr c :
  cl ∈ resClusters resolution → cl ∈ rollout → body_ok cl tr c → children_ok clusters rollout cleanup tr c.
Proof.
  intros Hcl Hro [Hok Hb]. split; [done|].
  destruct c; simpl in *; try done; rewrite sets_New_elem_of; destruct Hb; subst; done.
Qed.

Lemma rolloutCluster_wp tr done acc cl :
  cl ∈ resClusters resolution → cl ∈ rollout → cl ∉ done → loop_inv tr done acc →
  wp api_contract (children_ok clusters rollout cleanup)
    (rolloutCluster resolver set resolution byKey acc cl)
    (λ tr' acc', loop_inv tr' (done ++ [cl]) acc') tr.
Proof.
  intros Hcl Hro Hnew Hinv. apply (wp_weaken api_contract _ (body_ok cl));
    [done|intros tr' c; by apply body_ok_children|].
  unfold rolloutCluster. apply wp_bind, wp_send; [by split|]. intros [[]|e] _; cycle 1.
  { apply wp_ret. apply (loop_inv_step tr _ done cl acc _ _ ∅ false); try done.
    - by apply suffix_cons_r.
    - apply no_deletes_cons; [done|apply Hinv].
    - apply recordErr_result_ok, Hinv.
    - apply recordErr_ready.
    - intros k [[]|Hk]%ensuredWork_cons. by left. }
  set (ref := primaryRef resolution cl). set (tr1 := _ :: tr).
  set (lp0 := mkClusterLoop (clResult acc) (clStatus acc) true ∅).
  assert (body_inv cl tr (clResult acc) tr1 lp0) as Hinv0.
  { split; [apply Hinv|done|by apply suffix_cons_r|intros Hn; by apply no_deletes_cons|].
    intros k [[]|Hk]%ensuredWork_cons. by left. }
  apply wp_bind. eapply wp_mono; [by apply (optionalAccess_wp cl ref tr (clResult acc))|].
  intros tr2 lp2 [Hinv2 Hr2].
  apply wp_bind. eapply wp_mono; [by apply wp_suffix, (reconcileWorkloadMSA_wp cl ref tr (clResult acc))|].
  intros tr3 lp3 [[Hinv3 Hr3] Hs3].
  apply wp_bind. eapply wp_mono; [by apply (optionalRBAC_wp cl ref byKey _ tr (clResult acc))|].
  intros tr4 lp4 [[Hinv4 Hr4] Hs4]. apply wp_ret.
  apply (loop_inv_step tr _ done cl acc); try done; try apply Hinv4; [apply Hinv|].
  intros Hready. destruct (Hr4 Hready) as [Hready3 Hrb]. destruct (Hr3 Hready3) as (Hready2 & o & Ho & Hor).
  split; [|done]. intros _. split_and!; [| |exact Hrb].
  - exists o. split; [|done]. by eapply answeredMSA_suffix.
  - intros Hsel. destruct (Hr2 Hready2 Hsel) as [(o1 & ? & ?) (w1 & ? & ?)].
    assert (tr2 `suffix_of` tr4) by (by etrans).
    split; [exists o1|exists w1]; (split; [|done]);
      [by eapply answeredMSA_suffix|by eapply answeredWork_suffix].
Qed.

(** Reading the works of a settled cluster. *)
Definition settled_call (c : call) : Prop :=
  match c with CGetWork _ | CResolveNamespaceSelector _ _ _ _ => True | _ => False end.

Lemma desiredRBACSlices_calls cl : all_calls settled_call (desiredRBACSlices set cl resolver).
Proof.
  unfold desiredRBACSlices, sliceGrant, resolveGrantNamespaces. calls_steps; simpl; done.
Qed.

Lemma aggregate_calls cl ref keys st :
  all_calls settled_call (aggregateExistingRBACSummary resolver set cl ref keys byKey st).
Proof.
  unfold aggregateExistingRBACSummary.
  calls_steps; simpl; try done. apply desiredRBACSlices_calls.
Qed.

Lemma settledCluster_wp tr done acc cl :
  cl ∉ rollout → cl ∉ done → loop_inv tr done acc →
  wp api_contract (children_ok clusters rollout cleanup)
    (settledCluster resolver set resolution statuses byKey acc cl)
    (λ tr' acc', loop_inv tr' (done ++ [cl]) acc') tr.
Proof.
  intros Hro Hnew Hinv. unfold settledCluster.
  assert (∀ tr', tr `suffix_of` tr' ∧ no_deletes tr' ∧ (∀ k, ensuredWork tr' k → ensuredWork tr k) →
    ∀ st (ready : bool), (ready = true → settled_ready statuses cl) →
    loop_inv tr' (done ++ [cl]) (mkChildLoop (if ready then incrReady (clResult acc) else clResult acc)
      st (<[cl := ∅]> (clWorkNames acc)))) as Hstep.
  { intros tr' (Hs & Hn & Hw) st ready Hready.
    apply (loop_inv_step tr _ done cl acc); try done; [apply Hinv| |by intros k ?%Hw; left].
    intros Hr. split; [by intros ?|]. intros _. by apply Hready. }
  assert (loop_inv tr (done ++ [cl]) (mkChildLoop (clResult acc) (clStatus acc)
            (<[cl := ∅]> (clWorkNames acc)))) as Hskip
    by (apply (Hstep tr ltac:(split_and!; [done|apply Hinv|done]) _ false); done).
  destruct (statuses !! cl) as [[n [] tt]|] eqn:Est; try (apply wp_ret; exact Hskip).
  apply wp_bind. eapply wp_mono.
  { apply (wp_all_calls _ _ settled_call (λ tr', tr `suffix_of` tr' ∧ no_deletes tr' ∧
      (∀ k, ensuredWork tr' k → ensuredWork tr k))); [apply aggregate_calls| | |].
    - intros tr' c Hc _. by destruct c.
    - intros tr' c r Hc _ (Hs & Hn & Hw). split_and!; [by apply suffix_cons_r| |].
      + apply no_deletes_cons; [by destruct c|done].
      + intros k [Hk|Hk]%ensuredWork_cons; [by destruct c|auto].
    - split_and!; [done|apply Hinv|done]. }
  intros tr' st' Ht. apply wp_ret. apply (Hstep tr' Ht _ true). intros _. eexists. by rewrite Est.
Qed.

Lemma clusters_loop_wp st tr :
  NoDup (resClusters resolution) → no_deletes tr → (∀ k, ¬ ensuredWork tr k) →
  wp api_contract (children_ok clusters rollout cleanup)
    (foldM (reconcileCluster resolver set resolution rollout statuses byKey)
       (mkChildLoop emptyChildResult st ∅) (resClusters resolution))
    (λ tr' lp, loop_inv tr' (resClusters resolution) lp) tr.
Proof.
  intros Hnd Hn Hw.
  apply (wp_foldM _ _ _ (λ tr done lp, loop_inv tr done lp)); [| |done].
  - split; [done| |done|by intros k ?%Hw].
    exists []. split_and!; [constructor|done|by intros ? ?%elem_of_nil].
  - intros done cl rest acc tr' Hl Hinv.
    assert (cl ∈ resClusters resolution) as Hcl by (rewrite Hl; apply elem_of_middle).
    assert (cl ∉ done) as Hnew.
    { rewrite Hl in Hnd. apply NoDup_app in Hnd as (_ & Hd & _). intros Hin. apply (Hd _ Hin). left. }
    unfold reconcileCluster. destruct (sets_Has rollout cl) eqn:Er.
    + apply sets_Has_true in Er. by apply rolloutCluster_wp.
    + apply sets_Has_false in Er. by apply settledCluster_wp.
Qed.

End loop.

(** ** The whole of [reconcileChildren] *)

(** What [reconcileChildren] guarantees when it returns. *)
Record children_outcome (resolution : placementResolution) (rollout : gset string)
    (statuses : gmap string ClusterRolloutStatus) (tr : trace) (r : childReconcileResult) : Prop := {
  co_ready : ∃ L, L `sublist_of` resClusters resolution ∧ crReady r = int32 (Z.of_nat (length L)) ∧
                  ∀ cl, cl ∈ L → cluster_ready resolution rollout statuses tr cl;
  co_deletes : crFailures r ≠ 0%Z → no_deletes tr;
  co_failures : crFailures r ≠ 0%Z → crErr r ≠ None;
}.

(** The requests of the cleanup, once the loop is known to have recorded every
    work it ensured. *)
Lemma staleCleanup_wp resolution cleanup rollout workNames tr1 :
  (∀ k, ensuredWork tr1 k → nnNamespace k ∈ resClusters resolution ∧
        nnName k ∈ default ∅ (workNames !! nnNamespace k)) →
  wp api_contract (children_ok (sets_New (resClusters resolution)) rollout cleanup)
    (deleteStaleChildren set (sets_New (resClusters resolution)) cleanup workNames
       (desiredManagedServiceAccountNames set)) (λ _ _, True) tr1.
Proof.
  intros Hw. set (clusters := sets_New (resClusters resolution)).
  set (I := λ tr : trace, ∀ k, ensuredWork tr k → ensuredWork tr1 k).
  set (G := λ tr c, match c with
                    | CListWorks _ | CListMSAs _ => True
                    | CDeleteWork _ | CDeleteMSA _ => I tr → children_ok clusters rollout cleanup tr c
                    | _ => False
                    end).
  eapply wp_mono; [|intros ? ? _; exact Logic.I].
  apply (wp_weaken api_contract _ (λ tr c, G tr c ∧ I tr)); [done| |].
  { intros tr c [HG HI]. destruct c; try done; by apply HG. }
  apply wp_invariant_at; [| |by intros k Hk].
  - apply deleteStaleChildren_wp; [done|done| |].
    + intros tr' tr items o HR Hev Hin Hst HI. apply stale_true in Hst. unfold unwanted in Hst. split.
      * split; [|by exists items]. by apply (HR items o).
      * split; [tauto|]. intros Hk. apply HI, Hw in Hk as [Hns Hname]. simpl in *.
        destruct Hst as [Hst|[_ Hst]]; [|by apply Hst].
        apply Hst. unfold clusters. by rewrite sets_New_elem_of.
    + intros tr' tr works items o HR _ _ Hev Hin Hst HI. apply stale_true in Hst. unfold unwanted in Hst. split; [|exact Hst].
      split; [|by exists items]. by apply (HR items o).
  - intros tr c r HG HI k [Hk|Hk]%ensuredWork_cons; [by destruct c|by apply HI].
Qed.

Lemma reconcileChildren_wp resolution names cleanup statuses st tr :
  NoDup (resClusters resolution) → no_deletes tr → (∀ k, ¬ ensuredWork tr k) →
  wp api_contract (children_ok (sets_New (resClusters resolution)) (sets_New names) cleanup)
    (reconcileChildren now resolver set resolution names cleanup statuses st)
    (λ tr' r, children_outcome resolution (sets_New names) statuses tr' r.1) tr.
Proof.
  intros Hnd Hn Hw. unfold reconcileChildren.
  apply wp_bind. eapply wp_mono; [by apply clusters_loop_wp|].
  intros tr1 lp [Hres (L & HL & Hc & HLr) Hd Hlw].
  destruct (crErr (clResult lp)) as [e|] eqn:Ee.
  { apply wp_ret. split; [by exists L|done|]. cbn [fst]. by rewrite Ee. }
  assert (crFailures (clResult lp) = 0%Z) as Hf.
  { destruct (decide (crFailures (clResult lp) = 0%Z)) as [|Hf]; [done|]. by destruct (proj1 Hres Hf). }
  apply wp_bind. eapply wp_mono.
  { apply wp_suffix. by apply (staleCleanup_wp resolution cleanup (sets_New names) (clWorkNames lp)). }
  intros tr2 [pending err] [_ Hs2]. apply wp_ret. split; cbn [fst crReady crFailures crErr].
  - exists L. split_and!; [done|done|]. intros cl Hcl. eapply cluster_ready_suffix; [exact Hs2|auto].
  - by rewrite Hf.
  - by rewrite Hf.
Qed.

End safety.

(** ** Properties *)

Section properties.
Context `{MetaConditions} `{LabelsLib} `{SemanticEquality} `{JSONCodec} `{ApiErrors} `{ControllerUtil}
        `{ClusterGroups}.
Context {W : Type} (h : handler W) (Inv : W → Prop) (w : W) (now : Z) (resolver : bool)
        (set : ManagedServiceAccountReplicaSet) (resolution : placementResolution)
        (window : list string) (cleanup : gset string)
        (statuses : gmap string ClusterRolloutStatus) (status : ManagedServiceAccountReplicaSetStatus).

(** C4: A progressive rollout stays inside its window: children are created
    and patched only in selected clusters of the window and only under the
    names the set wants; a selected cluster outside the cleanup window loses
    no child; and no work that the pass itself created or patched is deleted
    by its cleanup. *)
Theorem reconcileChildren_window :
  handler_ok Inv api_contract h → Inv w → NoDup (resClusters resolution) →
  trace_ok (window_ok set (sets_New (resClusters resolution)) (sets_New window) cleanup)
    (out_trace (run h (reconcileChildren now resolver set resolution window cleanup statuses status) w)).
Proof.
  intros Hh Hw Hnd.
  destruct (wp_run_ok h Inv api_contract _ _ _ w Hh Hw
    (reconcileChildren_wp now resolver set resolution window cleanup statuses status []
       Hnd (conj eq_refl eq_refl) ltac:(intros k (? & []%elem_of_nil & _)))) as (_ & Ht & _).
  eapply trace_ok_mono; [|exact Ht]. by intros tr c [_ ?].
Qed.

(** C22: Nothing is deleted while a cluster fails: when reconciling the children
    recorded a failure other than an ownership conflict, no delete was sent
    and the error is returned; and the ready counter is exactly the number of
    a selection of distinct selected clusters that each have shown readiness
    in this pass, or were settled outside the window. *)
Theorem reconcileChildren_outcome :
  handler_ok Inv api_contract h → Inv w → NoDup (resClusters resolution) →
  children_outcome set resolution (sets_New window) statuses
    (out_trace (run h (reconcileChildren now resolver set resolution window cleanup statuses status) w))
    (out_val (run h (reconcileChildren now resolver set resolution window cleanup statuses status) w)).1.
Proof.
  intros Hh Hw Hnd.
  destruct (wp_run_ok h Inv api_contract _ _ _ w Hh Hw
    (reconcileChildren_wp now resolver set resolution window cleanup statuses status []
       Hnd (conj eq_refl eq_refl) ltac:(intros k (? & []%elem_of_nil & _)))) as (Hq & _ & _).
  exact Hq.
Qed.

End properties.

Section witnesses.
Import Ref.

(** Only cluster-a is in the window: cluster-b is left alone. *)
Definition windowRun : outcome Cluster (childReconcileResult * ManagedServiceAccountReplicaSetStatus) :=
  run server (reconcileChildren 0 false sampleSet sampleResolution ["cluster-a"] {["cluster-a"]}
                ∅ (newStatus sampleSet)) sampleWorld.

Lemma sampleResolution_NoDup : NoDup (resClusters sampleResolution).
Proof. apply (bool_decide_unpack _). vm_compute. exact I. Qed.

Lemma reconcileChildren_window_witness :
  wMSAs (out_world windowRun) !! mkNamespacedName "cluster-b" "msa" = None ∧
  is_Some (wMSAs (out_world windowRun) !! mkNamespacedName "cluster-a" "msa") ∧
  trace_ok (window_ok sampleSet (sets_New ["cluster-a"; "cluster-b"]) (sets_New ["cluster-a"]) {["cluster-a"]})
    (out_trace windowRun).
Proof.
  split; [vm_compute; reflexivity|]. split; [vm_compute; eexists; reflexivity|].
  exact (reconcileChildren_window server keyed sampleWorld 0 false sampleSet sampleResolution ["cluster-a"]
    {["cluster-a"]} ∅ (newStatus sampleSet) server_contract (sampleWorldWith_keyed _ _ _)
    sampleResolution_NoDup).
Defined.

(** The namespace of cluster-c does not exist: the failure is recorded. *)
Definition failingResolution : placementResolution :=
  mkResolution ["cluster-c"] {["cluster-c" := ["placement-a"]]} ∅ ∅ [] None.

Definition failingRun : outcome Cluster (childReconcileResult * ManagedServiceAccountReplicaSetStatus) :=
  run server (reconcileChildren 0 false sampleSet failingResolution ["cluster-c"] {["cluster-c"]}
                ∅ (newStatus sampleSet)) sampleWorld.

Lemma reconcileChildren_outcome_witness :
  crFailures (out_val failingRun).1 = 1%Z ∧ no_deletes (out_trace failingRun).
Proof.
  assert (crFailures (out_val failingRun).1 = 1%Z) as Hf by (vm_compute; reflexivity).
  split; [exact Hf|].
  destruct (reconcileChildren_outcome server keyed sampleWorld 0 false sampleSet failingResolution ["cluster-c"]
    {["cluster-c"]} ∅ (newStatus sampleSet) server_contract (sampleWorldWith_keyed _ _ _)
    (NoDup_singleton _)) as [_ Hd _].
  apply Hd. change (crFailures (out_val failingRun).1 ≠ 0%Z). rewrite Hf. discriminate.
Defined.

End witnesses.
