(* ===== verification/Isolation.v ===== *)
(** * Failures stay where they happen

    For every API server: in [reconcileChildren] each child of each cluster of
    the rollout window is attempted, whatever happened to the children before
    it and to the other clusters, and no failure is swallowed: an error other
    than an ownership conflict is part of the returned error, and conflicts are
    counted. *)

From S2P Require Import Prelude GoStd ApiTypes Interfaces Reference Effects Samples Store.
From S2P Require Import Metadata Rbac ControllerAccess Validation Conditions Children Placement Rollout.
From S2P Require Import Cleanup ReconcileChildren.
From Stdlib Require Import ZArith Lia.

(** ** Results *)

(** The conflicts counted so far; the counter itself is an int32. *)
Definition counted (r : childReconcileResult) (n : nat) : Prop := crConflicts r = int32 (Z.of_nat n).

(** [e] left its mark on the result. *)
Definition noted (r : childReconcileResult) (n : nat) (e : error) : Prop :=
  if is_errChildConflict e then 0 < n else reports (crErr r) e.

(** Later points of a run know at least as much. *)
Definition later (tr : trace) (r : childReconcileResult) (n : nat)
    (tr' : trace) (r' : childReconcileResult) (n' : nat) : Prop :=
  tr `suffix_of` tr' ∧ n <= n' ∧ ∀ e, reports (crErr r) e → reports (crErr r') e.

Lemma later_refl tr r n : later tr r n tr r n.
Proof. by split_and!. Qed.

Lemma later_trans tr1 r1 n1 tr2 r2 n2 tr3 r3 n3 :
  later tr1 r1 n1 tr2 r2 n2 → later tr2 r2 n2 tr3 r3 n3 → later tr1 r1 n1 tr3 r3 n3.
Proof. intros (? & ? & ?) (? & ? & ?). split_and!; [by etrans|lia|auto]. Qed.

Lemma noted_later tr r n tr' r' n' e : later tr r n tr' r' n' → noted r n e → noted r' n' e.
Proof. intros (_ & Hn & He). unfold noted. case_goal; [lia|auto]. Qed.

(** Recording an error. *)
Lemma recordErr_noted tr r n e :
  counted r n → ∃ n', counted (recordErr r e) n' ∧ later tr r n tr (recordErr r e) n' ∧ noted (recordErr r e) n' e.
Proof.
  intros Hc. unfold recordErr, noted. destruct (is_errChildConflict e) eqn:Ee.
  - exists (S n). split_and!; [|split_and!; [done|lia|done]|lia].
    unfold counted in *. cbn [crConflicts]. rewrite Hc, int32_add_int32_l. f_equal. lia.
  - exists n. split_and!; [done| |apply reports_join_r]. split_and!; [done|lia|]. cbn [crErr].
    intros e'. apply reports_join_l.
Qed.

(** ** Attempts *)

(** The events of a kind of child. *)
Class ObservedChild (T : Type) `{ClientObject T} `{SemanticEquality} := {
  childOps : childSpecOps T;
  ev_get : NamespacedName → result T → event;
  ev_create : T → result T → event;
  ev_patch : T → T → result T → event;
  observed_get k Q tr :
    (∀ r, Q (ev_get k r :: tr) r) → wp any_answer any_call (client_Get k) Q tr;
  observed_create o Q tr :
    (∀ r, Q (ev_create o r :: tr) r) → wp any_answer any_call (client_Create o) Q tr;
  observed_patch b o Q tr :
    (∀ r, Q (ev_patch b o r :: tr) r) → wp any_answer any_call (client_Patch b o) Q tr;
}.

#[export] Instance observed_msa `{SemanticEquality} `{JSONCodec} : ObservedChild ManagedServiceAccount.
Proof.
  refine {| childOps := msaSpecOps; ev_get k r := Ev (CGetMSA k) r; ev_create o r := Ev (CCreateMSA o) r;
            ev_patch b o r := Ev (CPatchMSA b o) r |}; intros; (apply wp_send; [done|by intros]).
Defined.

#[export] Instance observed_work `{SemanticEquality} `{JSONCodec} : ObservedChild ManifestWork.
Proof.
  refine {| childOps := manifestWorkSpecOps; ev_get k r := Ev (CGetWork k) r; ev_create o r := Ev (CCreateWork o) r;
            ev_patch b o r := Ev (CPatchWork b o) r |}; intros; (apply wp_send; [done|by intros]).
Defined.

Section attempts.
Context `{LabelsLib} `{SemanticEquality} `{JSONCodec} `{ApiErrors}.
Context (set : ManagedServiceAccountReplicaSet).

(** The API server holds the child: it was read as desired, created, or
    patched. *)
Definition child_stored {T} `{ObservedChild T} (tr : trace) (d : T) : Prop :=
  (∃ o, ev_get (ObjectKey (objMeta d)) (Ok o) ∈ tr ∧ childMatches o d childOps = true ∧
        ownedBySet set (omLabels (objMeta o)) = true) ∨
  (∃ o, ev_create d (Ok o) ∈ tr) ∨
  (∃ b o, ev_patch b (patchedChild b d childOps) (Ok o) ∈ tr).

(** It failed with [e]: the read, the write, or the ownership. *)
Definition child_failed {T} `{ObservedChild T} (tr : trace) (d : T) (e : error) : Prop :=
  (ev_get (ObjectKey (objMeta d)) (Err e) ∈ tr ∧ IsNotFound e = false) ∨
  ev_create d (Err e) ∈ tr ∨
  (∃ b, ev_patch b (patchedChild b d childOps) (Err e) ∈ tr) ∨
  (∃ o, ev_get (ObjectKey (objMeta d)) (Ok o) ∈ tr ∧ ownedBySet set (omLabels (objMeta o)) = false ∧
        is_errChildConflict e = true).

(** Attempted: stored, or failed with an error that was noted. *)
Definition attempted {T} `{ObservedChild T} (tr : trace) (r : childReconcileResult) (n : nat) (d : T) : Prop :=
  child_stored tr d ∨ ∃ e, child_failed tr d e ∧ noted r n e.

Lemma child_stored_suffix {T} `{ObservedChild T} tr tr' (d : T) :
  tr `suffix_of` tr' → child_stored tr d → child_stored tr' d.
Proof.
  intros Hs [(o & ? & ?)|[(o & ?)|(b & o & ?)]];
    [left; exists o; split; [by eapply suffix_elem|done]|right; left; exists o|right; right; exists b, o];
    by eapply suffix_elem.
Qed.

Lemma child_failed_suffix {T} `{ObservedChild T} tr tr' (d : T) e :
  tr `suffix_of` tr' → child_failed tr d e → child_failed tr' d e.
Proof.
  intros Hs [[? ?]|[?|[(b & ?)|(o & ? & ?)]]];
    [left; split; [by eapply suffix_elem|done]|right; left; by eapply suffix_elem
    |do 2 right; left; exists b; by eapply suffix_elem|do 3 right; exists o; split; [by eapply suffix_elem|done]].
Qed.

Lemma attempted_later {T} `{ObservedChild T} tr r n tr' r' n' (d : T) :
  later tr r n tr' r' n' → attempted tr r n d → attempted tr' r' n' d.
Proof.
  intros Hl [Hst|(e & Hf & Hn)]; [left; eapply child_stored_suffix; [apply Hl|done]|].
  right. exists e. split; [eapply child_failed_suffix; [apply Hl|done]|by eapply noted_later].
Qed.

(** Ensuring a child ends in one of the two ways. *)
Lemma ensureChild_attempt {T} `{ObservedChild T} (d : T) tr :
  wp any_answer any_call (ensureChild set d childOps)
    (λ tr' res, tr `suffix_of` tr' ∧
       match res with Ok _ => child_stored tr' d | Err e => child_failed tr' d e end) tr.
Proof.
  unfold ensureChild. apply wp_bind, observed_get. intros [o|e].
  - destruct (ownedBySet set (omLabels (objMeta o))) eqn:Eo; cbn [negb]; cycle 1.
    { apply wp_ret. split; [by apply suffix_cons_r|]. do 3 right. exists o. split_and!; [left|done|done]. }
    destruct (childMatches o d childOps) eqn:Em.
    { apply wp_ret. split; [by apply suffix_cons_r|]. left. exists o. split_and!; [left|done|done]. }
    apply observed_patch. intros [o'|e']; (split; [by apply suffix_cons_r, suffix_cons_r|]).
    + do 2 right. exists o, o'. left.
    + do 2 right. left. exists o. left.
  - destruct (IsNotFound e) eqn:En; cycle 1.
    { apply wp_ret. split; [by apply suffix_cons_r|]. left. split; [left|done]. }
    apply observed_create. intros [o'|e']; (split; [by apply suffix_cons_r, suffix_cons_r|]).
    + right. left. exists o'. left.
    + right. left. left.
Qed.

(** From a point of the run to a later one at which [P] holds. *)
Definition reaches (tr : trace) (r : childReconcileResult) (n : nat)
    (P : trace → childReconcileResult → nat → Prop) (tr' : trace) (r' : childReconcileResult) : Prop :=
  ∃ n', counted r' n' ∧ later tr r n tr' r' n' ∧ P tr' r' n'.

(** Facts that stay true. *)
Definition stable (P : trace → childReconcileResult → nat → Prop) : Prop :=
  ∀ tr r n tr' r' n', later tr r n tr' r' n' → P tr r n → P tr' r' n'.

Lemma attempted_stable {T} `{ObservedChild T} (d : T) : stable (λ tr r n, attempted tr r n d).
Proof. intros tr r n tr' r' n'. apply attempted_later. Qed.

Lemma noted_stable e : stable (λ _ r n, noted r n e).
Proof. intros tr r n tr' r' n'. apply noted_later. Qed.

Lemma stable_and P Q : stable P → stable Q → stable (λ tr r n, P tr r n ∧ Q tr r n).
Proof. intros HP HQ tr r n tr' r' n' Hl [? ?]. split; [by eapply HP|by eapply HQ]. Qed.

Lemma reaches_start tr r n P : counted r n → P tr r n → reaches tr r n P tr r.
Proof. intros Hc HP. exists n. split_and!; [done|apply later_refl|done]. Qed.

Lemma reaches_mono tr r n (P Q : trace → childReconcileResult → nat → Prop) tr' r' :
  reaches tr r n P tr' r' → (∀ n', P tr' r' n' → Q tr' r' n') → reaches tr r n Q tr' r'.
Proof. intros (n' & ? & ? & ?) HPQ. exists n'. auto. Qed.

(** Two stretches after one another, the fact of the first being stable. *)
Lemma reaches_trans tr r n P Q tr1 r1 tr2 r2 :
  reaches tr r n P tr1 r1 → stable P → (∀ n1, counted r1 n1 → reaches tr1 r1 n1 Q tr2 r2) →
  reaches tr r n (λ tr r n, P tr r n ∧ Q tr r n) tr2 r2.
Proof.
  intros (n1 & Hc1 & Hl1 & HP) Hst Hnext. destruct (Hnext n1 Hc1) as (n2 & Hc2 & Hl2 & HQ).
  exists n2. split_and!; [done|by eapply later_trans|by eapply Hst|done].
Qed.

Lemma reaches_then tr r n P Q tr1 r1 n1 tr2 r2 :
  later tr r n tr1 r1 n1 → P tr1 r1 n1 → stable P → reaches tr1 r1 n1 Q tr2 r2 →
  reaches tr r n (λ tr r n, P tr r n ∧ Q tr r n) tr2 r2.
Proof.
  intros Hl1 HP Hst (n2 & Hc2 & Hl2 & HQ). exists n2.
  split_and!; [done|by eapply later_trans|by eapply Hst|done].
Qed.

(** A result with the same conflicts and errors. *)
Lemma reaches_same tr r n P tr' r' r'' :
  crConflicts r'' = crConflicts r' → crErr r'' = crErr r' → stable P →
  reaches tr r n P tr' r' → reaches tr r n P tr' r''.
Proof.
  intros Hc He Hst (n' & Hn & Hl & HP). exists n'.
  assert (later tr' r' n' tr' r'' n') as Hl2 by (split_and!; [done|lia|by rewrite He]).
  split_and!; [unfold counted; by rewrite Hc|by eapply later_trans|by eapply Hst].
Qed.

Lemma noteChild_reaches {T} `{ObservedChild T} (isReady : T → bool) acc res (d : T) tr tr' n :
  counted acc.1 n → tr `suffix_of` tr' →
  match res with Ok _ => child_stored tr' d | Err e => child_failed tr' d e end →
  reaches tr acc.1 n (λ tr r n, attempted tr r n d) tr' (noteChild isReady acc res).1.
Proof.
  intros Hc Hs. destruct res as [o|e]; intros Hres; cbn [noteChild fst].
  - exists n. split_and!; [done|by split_and!|by left].
  - destruct (recordErr_noted tr' acc.1 n e Hc) as (n' & Hc' & (_ & Hn & He) & Hnoted).
    exists n'. split_and!; [done|by split_and!|]. right. by exists e.
Qed.

End attempts.

(** ** One cluster of the window *)

Section cluster.
Context `{MetaConditions} `{LabelsLib} `{SemanticEquality} `{JSONCodec} `{ApiErrors} `{ControllerUtil}
        `{ClusterGroups}.
Context (resolver : bool) (set : ManagedServiceAccountReplicaSet).

Local Abbreviation wp0 := (wp any_answer any_call).

(** What was attempted for a cluster whose namespace could be read. *)
Definition accessAttempted (cl ref : string) (tr : trace) (r : childReconcileResult) (n : nat) : Prop :=
  attempted set tr r n (buildControllerAccessManagedServiceAccount set cl ref) ∧
  attempted set tr r n (buildControllerAccessManifestWork set cl ref).

(** The slices rendered for the cluster at some point of the run, and the error
    of rendering: those of every grant with its namespaces, every Role grant
    whose namespaces are to be asked for having been asked about, whatever the
    other grants answered. Only a grant of an unknown type renders nothing. *)
Definition rendered (cl : string) (tr : trace) (slices : list rbacSlice) (err : option error) : Prop :=
  (∃ acc seg before, seg ++ before `suffix_of` tr ∧ acc_sound set (setGrants set) acc ∧
     acc_complete set cl seg (setGrants set) acc ∧ grants_tried set cl resolver seg (setGrants set) ∧
     slices = slicesOut set acc ∧ err = accJoined acc) ∨
  ((∃ g, g ∈ setGrants set ∧ ¬ supportedType g) ∧ slices = [] ∧ is_Some err).

Lemma rendered_suffix cl tr tr' slices err :
  tr `suffix_of` tr' → rendered cl tr slices err → rendered cl tr' slices err.
Proof.
  intros Hs [(acc & seg & before & Hseg & ?)|?]; [left|by right].
  exists acc, seg, before. split; [by etrans|done].
Qed.

(** The slices that could be rendered are attempted although others failed. *)
Definition rbacAttempted (cl ref : string) (tr : trace) (r : childReconcileResult) (n : nat) : Prop :=
  ∃ slices err, rendered cl tr slices err ∧
    (∀ e, err = Some e → noted r n e) ∧
    ∀ s, s ∈ slices → attempted set tr r n (buildManifestWork set cl ref s).

Definition clusterAttempted (cl ref : string) (tr : trace) (r : childReconcileResult) (n : nat) : Prop :=
  (∃ e, Ev (CGetNamespace cl) (Err e) ∈ tr ∧ noted r n e) ∨
  (attempted set tr r n (buildManagedServiceAccount set cl ref) ∧
   (selectorRBACEnabled set = true → accessAttempted cl ref tr r n) ∧
   (rbacEnabled set = true → rbacAttempted cl ref tr r n)).

Lemma rbacAttempted_stable cl ref : stable (rbacAttempted cl ref).
Proof.
  intros tr r n tr' r' n' Hl (slices & err & Hs & He & Hall). exists slices, err. split_and!; [eapply rendered_suffix; [apply Hl|done]|..].
  - intros e Hee. eapply noted_later; [exact Hl|auto].
  - intros s Hin. eapply attempted_later; [exact Hl|auto].
Qed.

Lemma accessAttempted_stable cl ref : stable (accessAttempted cl ref).
Proof. apply stable_and; apply attempted_stable. Qed.

Lemma clusterAttempted_stable cl ref : stable (clusterAttempted cl ref).
Proof.
  intros tr r n tr' r' n' Hl [(e & He & Hn)|(Hm & Ha & Hr)].
  - left. exists e. split; [eapply suffix_elem; [apply Hl|done]|by eapply noted_later].
  - right. split_and!; [by eapply attempted_later|..].
    + intros Hsel. eapply accessAttempted_stable; [exact Hl|auto].
    + intros Hrb. eapply rbacAttempted_stable; [exact Hl|auto].
Qed.

Lemma reconcileAccess_attempt cl ref lp tr n :
  counted (cloResult lp) n →
  wp0 (reconcileAccess set cl ref lp)
    (λ tr' lp', reaches tr (cloResult lp) n (accessAttempted cl ref) tr' (cloResult lp')) tr.
Proof.
  intros Hc. unfold reconcileAccess. wp_then (ensureChild_attempt set (buildControllerAccessManagedServiceAccount set cl ref)).
  intros tr1 m [Hs1 Hm].
  pose proof (noteChild_reaches set managedServiceAccountReady (cloResult lp, true) m _ tr tr1 n Hc Hs1 Hm) as Hr1.
  wp_then (ensureChild_attempt set (buildControllerAccessManifestWork set cl ref)). intros tr2 wk [Hs2 Hw].
  set (acc := noteChild managedServiceAccountReady (cloResult lp, true) m) in *.
  pose proof (λ n1 Hc1, noteChild_reaches set manifestWorkAvailable acc wk _ tr1 tr2 n1 Hc1 Hs2 Hw) as Hr2.
  destruct (noteChild manifestWorkAvailable acc wk) as [res b]. apply wp_ret. cbn [cloResult fst] in *.
  exact (reaches_trans _ _ _ _ _ _ _ _ _ Hr1 (attempted_stable _ _) Hr2).
Qed.

Lemma reconcileWorkloadMSA_attempt cl ref lp tr n :
  counted (cloResult lp) n →
  wp0 (reconcileWorkloadMSA set cl ref lp)
    (λ tr' lp', reaches tr (cloResult lp) n
       (λ tr r n, attempted set tr r n (buildManagedServiceAccount set cl ref)) tr' (cloResult lp')) tr.
Proof.
  intros Hc. unfold reconcileWorkloadMSA. wp_then (ensureChild_attempt set (buildManagedServiceAccount set cl ref)).
  intros tr1 m [Hs1 Hm].
  pose proof (noteChild_reaches set managedServiceAccountReady (cloResult lp, cloReady lp) m _ tr tr1 n Hc Hs1 Hm) as Hr1.
  destruct (noteChild _ _ m) as [res b]. apply wp_ret. exact Hr1.
Qed.

Lemma reconcileSlice_attempt cl ref byKey keys s lp tr n :
  counted (cloResult lp) n →
  wp0 (reconcileSlice set cl ref byKey keys lp s)
    (λ tr' lp', reaches tr (cloResult lp) n
       (λ tr r n, attempted set tr r n (buildManifestWork set cl ref s)) tr' (cloResult lp')) tr.
Proof.
  intros Hc. unfold reconcileSlice. cbv zeta. wp_then (ensureChild_attempt set (buildManifestWork set cl ref s)).
  intros tr1 m [Hs1 Hm].
  pose proof (noteChild_reaches set (λ _, true) (cloResult lp, true) m _ tr tr1 n Hc Hs1 Hm) as Hr1.
  destruct m as [o|e]; apply wp_ret; exact Hr1.
Qed.

(** Recording the error of rendering, if there is one. *)
Lemma renderError_reaches err lp tr tr' n :
  counted (cloResult lp) n → tr `suffix_of` tr' →
  reaches tr (cloResult lp) n (λ _ r n, ∀ e, err = Some e → noted r n e) tr'
    (match err with Some e => (recordErr (cloResult lp) e, false) | None => (cloResult lp, cloReady lp) end).1.
Proof.
  intros Hc Hs. destruct err as [e|]; cbn [fst].
  - destruct (recordErr_noted tr' (cloResult lp) n e Hc) as (n' & Hc' & (_ & Hn & He) & Hnoted).
    exists n'. split_and!; [done|by split_and!|]. by intros ? [= <-].
  - exists n. split_and!; [done|by split_and!|done].
Qed.

Lemma reconcileRBAC_attempt cl ref byKey keys lp tr n :
  counted (cloResult lp) n →
  wp0 (reconcileRBAC resolver set cl ref byKey keys lp)
    (λ tr' lp', reaches tr (cloResult lp) n (rbacAttempted cl ref) tr' (cloResult lp')) tr.
Proof.
  intros Hc. unfold reconcileRBAC. apply wp_bind. eapply wp_mono.
  { apply wp_suffix, (desiredRBACSlices_wp set cl resolver). by right. }
  intros tr1 [slices err] [Hsl Hs1]. pose proof (renderError_reaches err lp tr tr1 n Hc Hs1) as Hr1.
  destruct (match err with Some e => _ | None => _ end) as [res rd]. cbn [fst] in Hr1.
  destruct Hr1 as (n1 & Hc1 & Hl1 & Hn1).
  apply (wp_foldM _ _ _ (λ tr2 done lp2, reaches tr1 res n1
    (λ tr r n, ∀ s, s ∈ done → attempted set tr r n (buildManifestWork set cl ref s)) tr2 (cloResult lp2))).
  - apply reaches_start; [done|by intros ? ?%elem_of_nil].
  - intros done s rest lp2 tr2 _ (n2 & Hc2 & Hl2 & HP2).
    eapply wp_mono; [by apply (reconcileSlice_attempt cl ref byKey keys s lp2 tr2 n2)|].
    intros tr3 lp3 Hr3. eapply reaches_mono; [eapply (reaches_then _ _ _
      (λ tr r n, ∀ s, s ∈ done → attempted set tr r n (buildManifestWork set cl ref s)));
      [exact Hl2|exact HP2| |exact Hr3]|].
    + intros t1 r1 m1 t2 r2 m2 Hl Hall s' Hs'. eapply attempted_later; [exact Hl|auto].
    + intros m [Hall Hs] s' [Hs'| ->%list_elem_of_singleton]%elem_of_app; auto.
  - intros tr2 lp2 Hr2. eapply reaches_mono; [eapply (reaches_then _ _ _
      (λ _ r n, ∀ e, err = Some e → noted r n e)); [exact Hl1|exact Hn1| |exact Hr2]|].
    + intros t1 r1 m1 t2 r2 m2 Hl Hall e He. eapply noted_later; [exact Hl|auto].
    + intros m [He Hall]. exists slices, err. split_and!; [|done|done].
      destruct Hr2 as (n2 & _ & Hl2 & _). eapply rendered_suffix; [apply Hl2|].
      destruct Hsl as [(acc & seg & -> & Hacc & [Hcomp Htry] & [= -> ->])|(Hg & e & [= -> ->])]; [left|by right].
      by exists acc, seg, tr.
Qed.

(** The whole body: every child is attempted, or the namespace read failed. *)
Lemma rolloutCluster_attempt res byKey acc cl tr n :
  counted (clResult acc) n →
  wp0 (rolloutCluster resolver set res byKey acc cl)
    (λ tr' acc', reaches tr (clResult acc) n (clusterAttempted cl (primaryRef res cl)) tr' (clResult acc')) tr.
Proof.
  intros Hc. unfold rolloutCluster. apply wp_bind, wp_send; [done|]. intros [[]|e] _; cycle 1.
  { apply wp_ret. cbn [clResult].
    destruct (recordErr_noted (Ev (CGetNamespace cl) (Err e) :: tr) (clResult acc) n e Hc) as (n' & Hc' & (_ & Hn & He) & Hnoted).
    exists n'. split_and!; [done|split_and!; [by apply suffix_cons_r|done|done]|]. left. exists e. split; [left|done]. }
  set (tr0 := Ev (CGetNamespace cl) (Ok tt) :: tr). cbv zeta. set (ref := primaryRef res cl).
  apply wp_bind. eapply wp_mono with (Q := λ tr1 lp1, reaches tr0 (clResult acc) n
    (λ tr r n, selectorRBACEnabled set = true → accessAttempted cl ref tr r n) tr1 (cloResult lp1)).
  { destruct (selectorRBACEnabled set); [|apply wp_ret; apply reaches_start; [done|discriminate]].
    eapply wp_mono; [by apply reconcileAccess_attempt|]. intros tr1 lp1 Hr. eapply reaches_mono; [exact Hr|auto]. }
  intros tr1 lp1 (n1 & Hc1 & Hl1 & Ha1). apply wp_bind.
  eapply wp_mono; [by apply (reconcileWorkloadMSA_attempt cl ref lp1 tr1 n1)|].
  intros tr2 lp2 (n2 & Hc2 & Hl2 & Ha2). apply wp_bind.
  eapply wp_mono with (Q := λ tr3 lp3, reaches tr2 (cloResult lp2) n2
    (λ tr r n, rbacEnabled set = true → rbacAttempted cl ref tr r n) tr3 (cloResult lp3)).
  { destruct (rbacEnabled set); [|apply wp_ret; apply reaches_start; [done|discriminate]].
    eapply wp_mono; [by apply reconcileRBAC_attempt|]. intros tr3 lp3 Hr. eapply reaches_mono; [exact Hr|auto]. }
  intros tr3 lp3 (n3 & Hc3 & Hl3 & Ha3). apply wp_ret. cbn [clResult].
  eapply (reaches_same _ _ _ _ _ (cloResult lp3)); [by destruct (cloReady lp3)..|apply clusterAttempted_stable|].
  exists n3. assert (later tr1 (cloResult lp1) n1 tr3 (cloResult lp3) n3) as Hl13 by (by eapply later_trans).
  split_and!; [done| |right; split_and!; [eapply attempted_later; [exact Hl3|exact Ha2]| |done]].
  - eapply later_trans; [|eapply later_trans; [exact Hl1|exact Hl13]]. split_and!; [by apply suffix_cons_r|lia|done].
  - intros Hsel. eapply accessAttempted_stable; [exact Hl13|auto].
Qed.

End cluster.

(** ** The loop and the whole of [reconcileChildren] *)

Section children.
Context `{MetaConditions} `{LabelsLib} `{SemanticEquality} `{JSONCodec} `{ApiErrors} `{ControllerUtil}
        `{ClusterGroups}.
Context (now : Z) (resolver : bool) (set : ManagedServiceAccountReplicaSet).

Local Abbreviation wp0 := (wp any_answer any_call).

(** Every cluster of the window was attempted. *)
Definition windowAttempted (res : placementResolution) (clusters names : list string)
    (tr : trace) (r : childReconcileResult) (n : nat) : Prop :=
  ∀ cl, cl ∈ clusters → cl ∈ names → clusterAttempted resolver set cl (primaryRef res cl) tr r n.

Lemma windowAttempted_stable res clusters names : stable (windowAttempted res clusters names).
Proof. intros tr r n tr' r' n' Hl Hall cl Hcl Hin. eapply clusterAttempted_stable; [exact Hl|auto]. Qed.

Lemma settledCluster_attempt res statuses byKey acc cl tr n :
  counted (clResult acc) n →
  wp0 (settledCluster resolver set res statuses byKey acc cl)
    (λ tr' acc', reaches tr (clResult acc) n (λ _ _ _, True) tr' (clResult acc')) tr.
Proof.
  intros Hc. assert (reaches tr (clResult acc) n (λ _ _ _, True) tr (clResult acc)) as Hsame by (by apply reaches_start).
  unfold settledCluster. destruct (statuses !! cl) as [[x [] t]|]; try exact Hsame.
  apply wp_bind. eapply wp_mono; [apply wp_suffix, returns_any|]. intros tr1 st [_ Hs]. apply wp_ret. cbn [clResult].
  exists n. by split_and!.
Qed.

Lemma clustersLoop_attempt res names statuses byKey st clusters :
  wp0 (foldM (reconcileCluster resolver set res (sets_New names) statuses byKey)
         (mkChildLoop emptyChildResult st ∅) clusters)
    (λ tr' acc', reaches [] emptyChildResult 0 (windowAttempted res clusters names) tr' (clResult acc')) [].
Proof.
  apply (wp_foldM _ _ _ (λ tr done acc, reaches [] emptyChildResult 0
    (windowAttempted res done names) tr (clResult acc))); [|intros done cl rest acc tr _ (n & Hc & Hl & Hall)|done].
  { apply reaches_start; [done|by intros ? ?%elem_of_nil]. }
  unfold reconcileCluster. destruct (sets_Has (sets_New names) cl) eqn:Eh.
  - eapply wp_mono; [by apply (rolloutCluster_attempt resolver set res byKey acc cl tr n)|].
    intros tr1 acc1 Hr1. eapply reaches_mono; [eapply (reaches_then _ _ _ (windowAttempted res done names));
      [exact Hl|exact Hall|apply windowAttempted_stable|exact Hr1]|].
    intros m [Hd Hcl] cl' [Hin| ->%list_elem_of_singleton]%elem_of_app; auto.
  - eapply wp_mono; [by apply (settledCluster_attempt res statuses byKey acc cl tr n)|].
    intros tr1 acc1 Hr1. eapply reaches_mono; [eapply (reaches_then _ _ _ (windowAttempted res done names));
      [exact Hl|exact Hall|apply windowAttempted_stable|exact Hr1]|].
    apply sets_Has_false in Eh. rewrite sets_New_elem_of in Eh.
    intros m [Hd _] cl' [Hin| ->%list_elem_of_singleton]%elem_of_app; [by auto|done].
Qed.

Lemma reconcileChildren_attempt res names cleanup statuses st :
  wp0 (reconcileChildren now resolver set res names cleanup statuses st)
    (λ tr r, reaches [] emptyChildResult 0 (windowAttempted res (resClusters res) names) tr r.1) [].
Proof.
  unfold reconcileChildren. cbv zeta. apply wp_bind. eapply wp_mono; [apply clustersLoop_attempt|].
  intros tr lp Hr. destruct (crErr (clResult lp)) as [e|] eqn:Ee; [by apply wp_ret|].
  apply wp_bind. eapply wp_mono; [apply wp_suffix, returns_any|]. intros tr1 [pend err] [_ Hs]. apply wp_ret. cbn [fst].
  destruct Hr as (n & Hc & Hl & Hall). exists n. split; [exact Hc|].
  match goal with |- later _ _ _ _ ?r' _ ∧ _ => assert (later tr (clResult lp) n tr1 r' n) as Hl2 end.
  { split_and!; [done|lia|]. intros e (j & Hj & _). congruence. }
  split; [by eapply later_trans|]. by eapply windowAttempted_stable.
Qed.


End children.

Section witnesses.
Import Ref.

(** cluster-0 has no namespace; cluster-a comes after it and gets its account. *)
Definition brokenFirst : placementResolution :=
  mkResolution ["cluster-0"; "cluster-a"]
    {["cluster-0" := ["placement-a"]; "cluster-a" := ["placement-a"]]} ∅ ∅ [] None.

Definition isolationRun : outcome Cluster (childReconcileResult * ManagedServiceAccountReplicaSetStatus) :=
  run server (reconcileChildren 0 false sampleSet brokenFirst ["cluster-0"; "cluster-a"] ∅ ∅
                (newStatus sampleSet)) sampleWorld.


End witnesses.
