(* ===== verification/Reconcile.v ===== *)
(** * The reconcile loop ([Reconcile]) and the watch mappings

    One call of [Reconcile] is one program: everything the controller does to
    the cluster in a pass, in order.  The deferred call of
    [stopNamespaceCaches] sees the set as the pass left it. *)

From S2P Require Import Prelude GoStd ApiTypes Interfaces Reference Effects Samples.
From S2P Require Import Metadata Rbac ControllerAccess Validation Conditions Children Placement Rollout.
From S2P Require Import Cleanup ReconcileChildren.
From Stdlib Require Import ZArith Lia.

(** What the body of a pass leaves behind: the set the pointer holds, the
    clusters whose namespace caches are kept, and the result. *)
Record passOutcome := mkPass {
  passSet : ManagedServiceAccountReplicaSet;
  passKeep : gset string;
  passResult : ctrlResult;
}.

(** The optional fields of the reconciler: a namespace resolver, whether that
    resolver is also a NamespaceCacheJanitor, and an event recorder. *)
Record reconcilerConfig := mkConfig {
  cfgResolver : bool;
  cfgJanitor : bool;
  cfgRecorder : bool;
}.

Section reconcile.
Context `{MetaConditions} `{LabelsLib} `{SemanticEquality} `{JSONCodec} `{ApiErrors} `{ControllerUtil}
        `{ClusterGroups} `{PlacementTracker}.
Context (now : Z) (cfg : reconcilerConfig).

Definition recordWarningEvent (set : ManagedServiceAccountReplicaSet) (reason action message : string)
    : prog unit :=
  if cfgRecorder cfg then send (CEventf set reason action message) else mret tt.

Definition stopNamespaceCaches (set : ManagedServiceAccountReplicaSet) (keepClusters : gset string)
    : prog unit :=
  if cfgResolver cfg && cfgJanitor cfg then send (CStopNamespaceCaches set keepClusters) else mret tt.

(** The early returns of a spec that cannot be acted on: an event, the
    conditions, and the status write whose error is returned. *)
Definition earlyReturn (set : ManagedServiceAccountReplicaSet)
    (status : ManagedServiceAccountReplicaSetStatus) (reason action message : string) : prog passOutcome :=
  _ ← recordWarningEvent set reason action message;
  r ← patchStatus set (setEarlyReturnConditions now status reason message (setGeneration set));
  mret (mkPass r.1 ∅ (0%Z, r.2)).

(** The end of a pass whose children were reconciled: conditions, status
    write, events and the requeue decision. *)
Definition finishPass (set : ManagedServiceAccountReplicaSet) (keepClusters : gset string)
    (totalClusters : nat) (requeueAfter : Z) (childResult : childReconcileResult)
    (status : ManagedServiceAccountReplicaSetStatus) : prog passOutcome :=
  let generation := setGeneration set in
  let status := with_stReadyClusterCount status (crReady childResult) in
  let status := applyChildResultConditions now status childResult totalClusters generation (rbacEnabled set) in
  let status :=
    if crCleanupPending childResult then
      setStatusCondition now
        (setStatusCondition now status conditionCleanupBlocked ConditionTrue
           reasonWaitingForOCMCleanup msgStaleCleanupBlocked generation)
        conditionReady ConditionFalse reasonCleanupBlocked msgStaleCleanupInProgress generation
    else setNotDeletingCondition now status generation in
  r ← patchStatus set status;
  let '(set, patchErr) := r in
  match crErr childResult with
  | Some e =>
      _ ← recordWarningEvent set reasonApplyFailed "ApplyChildren" (Error e);
      mret (mkPass set keepClusters (0%Z, errors_Join [patchErr; Some e]))
  | None =>
      _ ← (if (0 <? crConflicts childResult)%Z
           then recordWarningEvent set reasonChildConflict "ApplyChildren" msgChildConflict
           else mret tt);
      match patchErr with
      | Some e => mret (mkPass set keepClusters (0%Z, Some e))
      | None =>
          mret (mkPass set keepClusters
                  (if crCleanupPending childResult then cleanupRequeueInterval
                   else if (0 <? requeueAfter)%Z then requeueAfter
                   else if selectorRBACEnabled set then selectorRequeueInterval
                   else 0%Z, None))
      end
  end.

(** From resolved placements on. *)
Definition reconcileResolved (set : ManagedServiceAccountReplicaSet) (resolution : placementResolution)
    (status : ManagedServiceAccountReplicaSetStatus) : prog passOutcome :=
  let generation := setGeneration set in
  let status := setStatusCondition now status conditionPlacementResolved ConditionTrue reasonResolved
                  "placement refs resolved" generation in
  let status := with_stObservedGeneration status generation in
  let keepClusters := if selectorRBACEnabled set then sets_New (resClusters resolution) else ∅ in
  plan ← planRollout now (cfgResolver cfg) set resolution;
  match plan with
  | Err e =>
      _ ← recordWarningEvent set reasonApplyFailed "PlanRollout" (Error e);
      let childResult := mkChildResult 0 0 0 false (Some e) in
      let status := applyChildResultConditions now status childResult (length (resClusters resolution))
                      generation (rbacEnabled set) in
      r ← patchStatus set status;
      mret (mkPass r.1 keepClusters (0%Z, errors_Join [r.2; Some e]))
  | Ok rollout =>
      let status := with_stRollout status (planSummary rollout) in
      let status := applyPlacementRolloutStatus status rollout in
      let status := applyPlacementRolledOutCondition now status (planSummary rollout) generation in
      r ← reconcileChildren now (cfgResolver cfg) set resolution (planClusters rollout)
            (planCleanupClusters rollout) (planStatuses rollout) status;
      finishPass set keepClusters (length (resClusters resolution)) (planRequeueAfter rollout) r.1 r.2
  end.

(** A pass over a set that is not being deleted and carries the finalizer. *)
Definition reconcileSpec (set : ManagedServiceAccountReplicaSet) : prog passOutcome :=
  let status := newStatus set in
  match validateRuntimeSpec set with
  | Some e => earlyReturn set status reasonInvalidSpec "ValidateSpec" (Error e)
  | None =>
      resolution ← resolvePlacementRefs now set (setGeneration set);
      let status := with_stPlacements status (resPlacementStatuses resolution) in
      let status := with_stSelectedClusterCount status (int32_len (resClusters resolution)) in
      match resErr resolution with
      | Some e =>
          if length (resClusters resolution) =? 0
          then earlyReturn set status reasonPlacementUnavailable "ResolvePlacement" (Error e)
          else reconcileResolved set resolution status
      | None => reconcileResolved set resolution status
      end
  end.

(** A pass over a set that is not being deleted: the finalizer comes first. *)
Definition reconcileLive (set : ManagedServiceAccountReplicaSet) : prog passOutcome :=
  let '(finalizers, added) := AddFinalizer (omFinalizers (setMeta set)) finalizerName in
  if added then
    let set' := with_meta set (with_finalizers (setMeta set) finalizers) in
    r ← send (CPatchSet set set' true);
    match r with
    | Err e => mret (mkPass set' ∅ (0%Z, Some e))
    | Ok set'' => mret (mkPass set'' ∅ (0%Z, None))
    end
  else reconcileSpec set.

Definition reconcileSet (set : ManagedServiceAccountReplicaSet) : prog passOutcome :=
  if bool_decide (is_Some (omDeletionTimestamp (setMeta set))) then
    r ← reconcileDelete now set;
    mret (mkPass r.1 ∅ r.2)
  else reconcileLive set.

Definition Reconcile (req : NamespacedName) : prog ctrlResult :=
  got ← send (CGetSet req);
  match got with
  | Err e => mret (0%Z, IgnoreNotFound e)
  | Ok set =>
      pass ← reconcileSet set;
      _ ← stopNamespaceCaches (passSet pass) (passKeep pass);
      mret (passResult pass)
  end.

End reconcile.
