(* ===== verification/ReconcileSafety.v ===== *)
(** * Safety of a whole reconcile pass

    Every request of a pass, for every API server that answers within the
    contract: whose objects are written, when, in which order, and what the
    status that is written claims. *)

From S2P Require Import Prelude GoStd ApiTypes Interfaces Reference Effects Samples Store.
From S2P Require Import Metadata Rbac ControllerAccess Validation Conditions Children Placement Rollout.
From S2P Require Import RolloutPlan Cleanup ReconcileChildren ChildrenSafety Reconcile.
From Stdlib Require Import ZArith Lia.

Section safety.
Context `{MetaConditions} `{LabelsLib} `{SemanticEquality} `{JSONCodec} `{ApiErrors} `{ControllerUtil}
        `{ClusterGroups} `{PlacementTracker}.
Context (now : Z) (cfg : reconcilerConfig) (set : ManagedServiceAccountReplicaSet).

(** A set the controller may act on: not being deleted, protected by the
    finalizer, and with a valid spec. *)
Definition actionable : Prop :=
  omDeletionTimestamp (setMeta set) = None ∧ finalizerName ∈ omFinalizers (setMeta set) ∧ specValid set.

Definition deleting : Prop := is_Some (omDeletionTimestamp (setMeta set)).

(** Each selected cluster has shown in this pass that it is ready: either all
    its children were answered as ready, or all were read as rolled out. *)
Definition fleet_ready (resolution : placementResolution) (tr : trace) : Prop :=
  ∀ cl, cl ∈ resClusters resolution →
    rolled_ready set tr cl (primaryRef resolution cl) ∨
    cluster_settled set tr cl (primaryRef resolution cl).

(** The status a pass may write: Ready is present, speaks about the current
    generation, and is True only for a fleet that has shown it, the fleet being
    the clusters the placements of the set selected by the answers of this
    pass. *)
Definition status_ok (tr : trace) (st : ManagedServiceAccountReplicaSetStatus) : Prop :=
  ∃ s reason, conditionIs (stConditions st) conditionReady s reason (setGeneration set) ∧
    (s = ConditionTrue →
       ∃ resolution, resolved_by set tr resolution ∧
         stSelectedClusterCount st = int32_len (resClusters resolution) ∧
         stObservedGeneration st = setGeneration set ∧
         (int32_count (length (resClusters resolution)) → fleet_ready resolution tr)).

Definition pass_ok (tr : trace) (c : call) : Prop :=
  child_write_ok set tr c ∧
  match c with
  | CCreateMSA _ | CPatchMSA _ _ | CCreateWork _ | CPatchWork _ _ => actionable
  | CDeleteWork _ => deleting ∨ actionable
  | CDeleteMSA _ =>
      (deleting ∧ Ev (CListWorks (ownedSelector set)) (Ok []) ∈ tr) ∨ actionable
  | CPatchSet b m lock =>
      b = set ∧ lock = true ∧
      ((¬ deleting ∧ (finalizerName ∉ omFinalizers (setMeta set)) ∧
        m = with_meta set (with_finalizers (setMeta set) (omFinalizers (setMeta set) ++ [finalizerName]))) ∨
       (deleting ∧ Ev (CListWorks (ownedSelector set)) (Ok []) ∈ tr ∧
        Ev (CListMSAs (ownedSelector set)) (Ok []) ∈ tr ∧
        ∃ l, m = with_meta set (with_finalizers (setMeta set) l) ∧
             ∀ x, x ∈ l ↔ x ∈ omFinalizers (setMeta set) ∧ x ≠ finalizerName))
  | CPatchSetStatus b m => b = set ∧ ∃ st, m = with_status set st ∧ status_ok tr st
  | _ => True
  end.

(** ** Building blocks *)

Lemma pass_ok_reads tr c :
  match c with
  | CGetSet _ | CListSets _ _ | CGetPlacement _ | CListPlacementDecisions _ _ | CGetNamespace _
  | CGetMSA _ | CListMSAs _ | CGetWork _ | CListWorks _ | CGetRolloutCluster _ _ _ _
  | CResolveNamespaceSelector _ _ _ _ | CStopNamespaceCaches _ _ | CEventf _ _ _ _ => True
  | _ => False
  end → pass_ok tr c.
Proof. by destruct c. Qed.

Lemma recordWarningEvent_wp obj reason action msg tr :
  wp api_contract pass_ok (recordWarningEvent cfg obj reason action msg)
    (λ tr' _, tr `suffix_of` tr') tr.
Proof.
  unfold recordWarningEvent. destruct (cfgRecorder cfg); [|by apply wp_ret].
  apply wp_send; [done|]. intros r _. by apply suffix_cons_r.
Qed.

Lemma patchStatus_wp st tr :
  status_ok tr st →
  wp api_contract pass_ok (patchStatus set st) (λ tr' _, tr `suffix_of` tr') tr.
Proof.
  intros Hst. unfold patchStatus. destruct (DeepEqual _ _); [by apply wp_ret|].
  apply wp_bind, wp_send; [split; [done|]; split; [done|by exists st]|].
  intros [s|e] _; apply wp_ret; by apply suffix_cons_r.
Qed.

(** A status whose Ready condition is not True needs no evidence. *)
Lemma status_ok_not_ready tr st s reason :
  conditionIs (stConditions st) conditionReady s reason (setGeneration set) → s ≠ ConditionTrue →
  status_ok tr st.
Proof. intros Hc Hs. exists s, reason. split; [done|]. by intros ?. Qed.

Lemma setEarlyReturn_ready st reason msg g :
  conditionIs (stConditions (setEarlyReturnConditions now st reason msg g)) conditionReady
    ConditionFalse reason g.
Proof.
  unfold setEarlyReturnConditions, setNotDeletingCondition. cbn [foldl].
  rewrite !stConditions_setStatusCondition.
  rewrite conditionIs_setCondition_ne by discriminate. apply conditionIs_setCondition_eq.
Qed.

Lemma earlyReturn_wp st reason action msg tr :
  wp api_contract pass_ok (earlyReturn now cfg set st reason action msg) (λ _ _, True) tr.
Proof.
  unfold earlyReturn. apply wp_bind. eapply wp_mono; [apply recordWarningEvent_wp|]. intros tr1 [] _.
  apply wp_bind. eapply wp_mono; [apply patchStatus_wp|by intros; apply wp_ret].
  eapply status_ok_not_ready; [apply setEarlyReturn_ready|done].
Qed.

(** The Ready condition after [applyChildResultConditions]. *)
Lemma applyChildResult_ready st r total g remote :
  ∃ s reason, conditionIs (stConditions (applyChildResultConditions now st r total g remote))
                conditionReady s reason g ∧
    (s = ConditionTrue → crErr r = None ∧ (int32 (Z.of_nat total) <= crReady r)%Z).
Proof.
  unfold applyChildResultConditions, applyRemoteCondition.
  set (st1 := applyReadyConditions now st r total g remote).
  assert (∃ s reason, conditionIs (stConditions st1) conditionReady s reason g ∧
    (s = ConditionTrue → crErr r = None ∧ (int32 (Z.of_nat total) <= crReady r)%Z)) as (s & re & Hc & Hs).
  { unfold st1, applyReadyConditions, setBoth.
    destruct (crErr r); [do 2 eexists; split; [apply conditionIs_setCondition_eq|done]|].
    repeat case_goal; do 2 eexists; (split; [apply conditionIs_setCondition_eq|]); try done.
    intros _. split; [done|]. by apply Z.ltb_ge. }
  exists s, re. split; [|exact Hs].
  repeat case_goal; rewrite stConditions_setStatusCondition;
    (apply conditionIs_setCondition_ne; [discriminate|exact Hc]).
Qed.

Lemma applyChildResult_fields st r total g remote :
  let st' := applyChildResultConditions now st r total g remote in
  stSelectedClusterCount st' = stSelectedClusterCount st ∧
  stObservedGeneration st' = stObservedGeneration st.
Proof.
  unfold applyChildResultConditions, applyRemoteCondition, applyReadyConditions.
  repeat case_goal; done.
Qed.

(** ** From the children to the status *)

(** When the counter of ready clusters reaches the total, every cluster has
    shown that it is ready. *)
Lemma children_fleet_ready resolution names statuses tr r :
  children_outcome set resolution (sets_New names) statuses tr r →
  statuses_sound set resolution (sets_New names) tr statuses →
  int32_count (length (resClusters resolution)) →
  (int32 (Z.of_nat (length (resClusters resolution))) <= crReady r)%Z →
  fleet_ready resolution tr.
Proof.
  intros [(L & HL & Hc & Hready) _ _] Hsound Hn Hle. unfold int32_count in Hn.
  pose proof (sublist_length _ _ HL) as Hlen. rewrite Hc, !int32_small in Hle by lia.
  assert (L = resClusters resolution) as -> by (apply sublist_full; [done|lia]).
  intros cl Hcl. destruct (Hready cl Hcl) as [Hin Hout].
  destruct (decide (cl ∈ (sets_New names : gset string))) as [Hw|Hw]; [left; by apply Hin|right].
  destruct (Hout Hw) as (st & Hst & Hsucc). by eapply Hsound.
Qed.

(** The status of a pass that reconciled the children. *)
Lemma finish_status_ok resolution r st tr :
  resolved_by set tr resolution →
  stSelectedClusterCount st = int32_len (resClusters resolution) →
  stObservedGeneration st = setGeneration set →
  (int32_count (length (resClusters resolution)) →
   (int32 (Z.of_nat (length (resClusters resolution))) <= crReady r)%Z → fleet_ready resolution tr) →
  status_ok tr (applyChildResultConditions now st r (length (resClusters resolution)) (setGeneration set)
                  (rbacEnabled set)).
Proof.
  intros Hres Hcount Hgen Hready.
  destruct (applyChildResult_ready st r (length (resClusters resolution)) (setGeneration set) (rbacEnabled set))
    as (s & reason & Hc & Hs).
  destruct (applyChildResult_fields st r (length (resClusters resolution)) (setGeneration set) (rbacEnabled set))
    as [Hf1 Hf2].
  exists s, reason. split; [exact Hc|]. intros Htrue. destruct (Hs Htrue) as [_ Hle].
  exists resolution. rewrite Hf1, Hf2. split_and!; [done|done|done|]. intros Hn. by apply Hready.
Qed.

(** Setting a condition other than Ready keeps the claim. *)
Lemma status_ok_set tr st t s reason msg g :
  t ≠ conditionReady → status_ok tr st → status_ok tr (setStatusCondition now st t s reason msg g).
Proof.
  intros Hne (s' & reason' & Hc & Hr). exists s', reason'. split; [|done].
  rewrite stConditions_setStatusCondition. by apply conditionIs_setCondition_ne.
Qed.

Lemma finishPass_wp keep resolution requeue r st tr :
  resolved_by set tr resolution →
  stSelectedClusterCount st = int32_len (resClusters resolution) →
  stObservedGeneration st = setGeneration set →
  (int32_count (length (resClusters resolution)) →
   (int32 (Z.of_nat (length (resClusters resolution))) <= crReady r)%Z → fleet_ready resolution tr) →
  wp api_contract pass_ok
    (finishPass now cfg set keep (length (resClusters resolution)) requeue r st) (λ _ _, True) tr.
Proof.
  intros Hres Hcount Hgen Hready. unfold finishPass. cbv zeta.
  apply wp_bind. eapply wp_mono.
  { apply patchStatus_wp. destruct (crCleanupPending r).
    - eapply status_ok_not_ready; [apply conditionIs_setCondition_eq|discriminate].
    - apply status_ok_set; [discriminate|]. by apply finish_status_ok. }
  intros tr1 [set' perr] _. destruct (crErr r).
  { apply wp_bind. eapply wp_mono; [apply recordWarningEvent_wp|by intros; apply wp_ret]. }
  apply wp_bind. eapply (wp_mono _ _ _ (λ _ _, True)).
  { case_goal; [|by apply wp_ret]. eapply wp_mono; [apply recordWarningEvent_wp|done]. }
  intros tr2 [] _. destruct perr; by apply wp_ret.
Qed.

(** ** The stages of a pass *)

(** The requests of the child loop are those of a pass over an actionable set. *)
Lemma children_ok_pass clusters rollout cleanup tr c :
  actionable → children_ok set clusters rollout cleanup tr c → pass_ok tr c.
Proof. intros Hact [Hc Hw]. split; [done|]. destruct c; try done; by right. Qed.

(** A history without rollout requests, deletes and ensured works: what the
    placement reads leave. *)
Definition fresh (tr : trace) : Prop :=
  rechecks tr = [] ∧ no_deletes tr ∧ ∀ k, ¬ ensuredWork tr k.

Lemma fresh_cons c r tr :
  plan_read c ∨ placement_read c →
  no_deletes tr ∧ (∀ k, ¬ ensuredWork tr k) → no_deletes (Ev c r :: tr) ∧ (∀ k, ¬ ensuredWork (Ev c r :: tr) k).
Proof.
  intros Hc [Hn Hw]. split.
  - apply no_deletes_cons; [by destruct c, Hc|done].
  - intros k [Hk|Hk]%ensuredWork_cons; [by destruct c, Hc|by eapply Hw].
Qed.

Lemma reconcileResolved_wp resolution st tr :
  actionable → resolved_by set tr resolution → fresh tr →
  stSelectedClusterCount st = int32_len (resClusters resolution) →
  wp api_contract pass_ok (reconcileResolved now cfg set resolution st) (λ _ _, True) tr.
Proof.
  intros Hact Hres (Hr & Hn & Hw) Hcount. unfold reconcileResolved. cbv zeta.
  assert (NoDup (resClusters resolution)) as Hnd by (destruct Hres as (outs & _ & _ & Hun); apply Hun).
  apply wp_bind.
  pose proof (planRollout_wp now (cfgResolver cfg) set resolution tr Hr) as Hwp.
  apply (wp_invariant _ _ (λ tr, no_deletes tr ∧ ∀ k, ¬ ensuredWork tr k)) in Hwp;
    [|intros tr1 c r Hc; apply fresh_cons; by left|done].
  eapply wp_mono; [apply wp_suffix; eapply (wp_weaken _ _ (λ _, plan_read)); [done| |exact Hwp];
    intros tr1 c Hc; apply pass_ok_reads; by destruct c|].
  intros tr1 [plan|e] [[Hplan [Hn1 Hw1]] Hs1]; cycle 1.
  { apply wp_bind. eapply wp_mono; [apply recordWarningEvent_wp|]. intros tr2 [] _.
    apply wp_bind. eapply wp_mono; [apply patchStatus_wp|by intros; apply wp_ret].
    destruct (applyChildResult_ready (with_stObservedGeneration
      (setStatusCondition now st conditionPlacementResolved ConditionTrue reasonResolved
        "placement refs resolved" (setGeneration set)) (setGeneration set))
      (mkChildResult 0 0 0 false (Some e)) (length (resClusters resolution)) (setGeneration set)
      (rbacEnabled set)) as (s & reason & Hc & Hs).
    eapply status_ok_not_ready; [exact Hc|]. intros Ht. by destruct (Hs Ht). }
  destruct Hplan as [Hsettled _ _ _].
  apply wp_bind. eapply wp_mono.
  { apply wp_suffix, wp_returns; [|apply reconcileChildren_frame].
    eapply wp_weaken; [done| |by apply reconcileChildren_wp]. intros tr2 c. by apply children_ok_pass. }
  intros tr2 [r st'] [[Hout (Hf1 & Hf2 & _)] Hs2]. cbn [fst snd] in *.
  assert (∀ s g, stSelectedClusterCount (applyPlacementRolledOutCondition now s (planSummary plan) g) =
                 stSelectedClusterCount s ∧
                 stObservedGeneration (applyPlacementRolledOutCondition now s (planSummary plan) g) =
                 stObservedGeneration s) as Hrolled.
  { intros s g. unfold applyPlacementRolledOutCondition. repeat case_goal; done. }
  apply finishPass_wp;
    [eapply resolved_by_suffix; [exact Hs2|by eapply resolved_by_suffix]|rewrite Hf1, (proj1 (Hrolled _ _)); exact Hcount|by rewrite Hf2, (proj2 (Hrolled _ _))|].
  intros Hcnt Hle. eapply children_fleet_ready; [done| |done|done].
  by eapply statuses_sound_mono.
Qed.

Lemma reconcileSpec_wp tr :
  omDeletionTimestamp (setMeta set) = None → finalizerName ∈ omFinalizers (setMeta set) → fresh tr →
  wp api_contract pass_ok (reconcileSpec now cfg set) (λ _ _, True) tr.
Proof.
  intros Hlive Hfin (Hr & Hn & Hw). unfold reconcileSpec. cbv zeta.
  destruct (validateRuntimeSpec set) as [e|] eqn:Ev; [apply earlyReturn_wp|].
  assert (actionable) as Hact by (split_and!; [done..|by apply validateRuntimeSpec_None]).
  apply wp_bind.
  assert (wp api_contract (λ _, placement_read) (resolvePlacementRefs now set (setGeneration set)) _ tr) as Hwp
    by (by apply resolvePlacementRefs_wp).
  apply (wp_invariant _ _ (λ tr, rechecks tr = [] ∧ no_deletes tr ∧ ∀ k, ¬ ensuredWork tr k)) in Hwp; [| |done].
  2:{ intros tr1 c r Hc [Hr1 Hf1]. split; [unfold rechecks in *; by destruct c|].
      apply fresh_cons; [by right|done]. }
  eapply wp_mono; [eapply (wp_weaken _ _ (λ _, placement_read)); [done| |exact Hwp];
    intros tr1 c Hc; apply pass_ok_reads; by destruct c|].
  intros tr1 res [(outs & Href & _ & Hans & Hres) Hfresh].
  assert (resolved_by set tr1 res) as Hby
    by (exists outs; split_and!; [done|done|rewrite Hres; apply addRef_union]).
  clear Hres. destruct (resErr res); [case_goal; [apply earlyReturn_wp|]|]; by apply reconcileResolved_wp.
Qed.

Lemma reconcileLive_wp tr :
  omDeletionTimestamp (setMeta set) = None → fresh tr →
  wp api_contract pass_ok (reconcileLive now cfg set) (λ _ _, True) tr.
Proof.
  intros Hlive Hfresh. unfold reconcileLive.
  destruct (decide (finalizerName ∈ omFinalizers (setMeta set))) as [Hin|Hin].
  - rewrite AddFinalizer_present by done. by apply reconcileSpec_wp.
  - rewrite AddFinalizer_absent by done. apply wp_bind, wp_send.
    + split; [done|]. split_and!; [done|done|]. left. split_and!; [|done|done].
      unfold deleting. rewrite Hlive. by intros [? ?].
    + intros [s|e] _; by apply wp_ret.
Qed.

Lemma delete_ok_pass tr c :
  deleting → delete_pass_ok set tr c → Forall ev_contract tr → pass_ok tr c.
Proof.
  intros Hdel Hok Hhist. rewrite Forall_forall in Hhist. destruct c; try done; simpl in Hok.
  - destruct Hok as (-> & -> & Hw & Hm & _ & Hl). split; [done|]. split_and!; [done|done|]. by right.
  - destruct Hok as (-> & (st & -> & _ & Hr) & _). split; [done|]. split; [done|]. exists st. split; [done|].
    by eapply status_ok_not_ready.
  - destruct Hok as (_ & Hw & msas & Hm & Hin). split.
    + split; [|by exists msas]. apply (Hhist _ Hm msas); done.
    + by left.
  - destruct Hok as (_ & works & Hw & Hin). split.
    + split; [|by exists works]. apply (Hhist _ Hw works); done.
    + by left.
Qed.

Lemma reconcileSet_wp tr :
  fresh tr → patch_errors tr = [] → Forall ev_contract tr →
  wp api_contract pass_ok (reconcileSet now cfg set) (λ _ _, True) tr.
Proof.
  intros Hfresh Hpatch Hhist. unfold reconcileSet.
  destruct (bool_decide (is_Some (omDeletionTimestamp (setMeta set)))) eqn:Hdel; breflect; cycle 1.
  { apply reconcileLive_wp; [by apply eq_None_not_Some|done]. }
  apply wp_bind. eapply (wp_mono _ _ _ (λ _ _, True)); [|by intros; apply wp_ret].
  destruct Hfresh as (_ & [Hw Hm] & _).
  apply (wp_weaken api_contract _ (λ tr c, delete_pass_ok set tr c ∧ Forall ev_contract tr));
    [done|intros tr1 c [? ?]; by apply delete_ok_pass|].
  apply wp_history; [|done]. eapply wp_mono; [by apply reconcileDelete_wp|done].
Qed.

End safety.

(** ** The whole pass *)

Section pass.
Context `{MetaConditions} `{LabelsLib} `{SemanticEquality} `{JSONCodec} `{ApiErrors} `{ControllerUtil}
        `{ClusterGroups} `{PlacementTracker}.

(** Every request of a pass is the first read of the set, or concerns the set
    that was read. *)
Definition reconcile_ok (req : NamespacedName) (tr : trace) (c : call) : Prop :=
  (tr = [] ∧ c = CGetSet req) ∨
  ∃ set, Ev (CGetSet req) (Ok set) ∈ tr ∧ ObjectKey (setMeta set) = req ∧ pass_ok set tr c.

Lemma Reconcile_wp now cfg req :
  wp api_contract (reconcile_ok req) (Reconcile now cfg req) (λ _ _, True) [].
Proof.
  unfold Reconcile. apply wp_bind, wp_send; [by left|]. intros [set|e] Hk; [|by apply wp_ret].
  pose proof (Hk set eq_refl) as Hkey.
  apply (wp_weaken api_contract _ (λ tr c, pass_ok set tr c ∧ Ev (CGetSet req) (Ok set) ∈ tr));
    [done|intros tr c [? ?]; right; by exists set|].
  eapply (wp_mono _ _ _ (λ tr' _, True ∧ Ev (CGetSet req) (Ok set) ∈ tr')); [|done].
  apply (wp_invariant_at _ _ (λ tr, Ev (CGetSet req) (Ok set) ∈ tr)); [|by right|left].
  apply wp_bind. eapply wp_mono.
  { apply reconcileSet_wp; [|done|constructor; [exact Hk|constructor]].
    split; [done|]. split; [done|]. intros k [[]|(? & []%elem_of_nil & _)]%ensuredWork_cons. }
  intros tr1 pass _. apply wp_bind. unfold stopNamespaceCaches.
  destruct (_ && _); [|by apply wp_ret, wp_ret]. apply wp_send; [done|by intros; apply wp_ret].
Qed.

(** ** Properties *)

Context {W : Type} (h : handler W) (Inv : W → Prop) (w : W) (now : Z) (cfg : reconcilerConfig).

(** C1: The controller never touches what it does not own: in every pass,
    against every API server within the contract, a ManagedServiceAccount or
    ManifestWork is created only after its key was read as absent and only
    with the content generated for the set that was read; patched only if the
    object that was read carries the set's ownership labels, keeping its key;
    and deleted only if it carries them and was listed under the set's
    selector. *)
Theorem Reconcile_no_takeover req :
  handler_ok Inv api_contract h → Inv w →
  trace_ok (λ tr c, child_write c → ∃ set, Ev (CGetSet req) (Ok set) ∈ tr ∧ child_write_ok set tr c)
    (out_trace (run h (Reconcile now cfg req) w)).
Proof.
  intros Hh Hw.
  destruct (wp_run_ok h Inv api_contract _ _ _ w Hh Hw (Reconcile_wp now cfg req)) as (_ & Ht & _).
  eapply trace_ok_mono; [|exact Ht]. intros tr c [[_ ->]|(set & Hin & _ & Hok & _)] Hc; [done|].
  by exists set.
Qed.

(** C2: Nothing is created before it can be cleaned up: children are created
    or patched only for a set that was read as not being deleted, carrying the
    finalizer, and with a valid spec; the finalizer is the only thing a patch
    of the set changes, always under an optimistic lock; it is added only when
    missing, and removed only from a set that is being deleted after the lists
    of its works and of its accounts came back empty; and an account of a set
    that is being deleted is deleted only after its works are gone. *)
Theorem Reconcile_finalizer_protocol req :
  handler_ok Inv api_contract h → Inv w →
  trace_ok (λ tr c,
    match c with
    | CCreateMSA _ | CPatchMSA _ _ | CCreateWork _ | CPatchWork _ _ =>
        ∃ set, Ev (CGetSet req) (Ok set) ∈ tr ∧ actionable set
    | CDeleteMSA _ =>
        ∃ set, Ev (CGetSet req) (Ok set) ∈ tr ∧
          ((deleting set ∧ Ev (CListWorks (ownedSelector set)) (Ok []) ∈ tr) ∨ actionable set)
    | CPatchSet b m lock =>
        Ev (CGetSet req) (Ok b) ∈ tr ∧ lock = true ∧
        ∃ l, m = with_meta b (with_finalizers (setMeta b) l) ∧
          ((¬ deleting b ∧ l = omFinalizers (setMeta b) ++ [finalizerName]) ∨
           (deleting b ∧ (∀ x, x ∈ l ↔ x ∈ omFinalizers (setMeta b) ∧ x ≠ finalizerName) ∧
            Ev (CListWorks (ownedSelector b)) (Ok []) ∈ tr ∧
            Ev (CListMSAs (ownedSelector b)) (Ok []) ∈ tr))
    | _ => True
    end) (out_trace (run h (Reconcile now cfg req) w)).
Proof.
  intros Hh Hw.
  destruct (wp_run_ok h Inv api_contract _ _ _ w Hh Hw (Reconcile_wp now cfg req)) as (_ & Ht & _).
  eapply trace_ok_mono; [|exact Ht]. intros tr c [[_ ->]|(set & Hin & _ & _ & Hok)]; [done|].
  destruct c; try done; try (by exists set).
  destruct Hok as (-> & -> & [(Hl & Hf & ->)|(Hd & Hw0 & Hm0 & l & -> & Hl)]); (split_and!; [done|done|]);
    eexists; (split; [done|]); [left; done|right; done].
Qed.

(** C3: Ready is never claimed without evidence: every status a pass writes is
    a status of the set that was read and nothing else of it, its Ready
    condition speaks about the current generation, and when Ready is True the
    observed generation is the current one and, for fleets within int32, every
    cluster that the placements of the set select by the answers of this very
    pass has shown in this pass that it is ready: all its children, with every
    RBAC work of the grants as the resolver answered for the cluster, were
    answered by the API server as ready, or were all read as owned, up to date
    and rolled out. *)
Theorem Reconcile_ready_honest req :
  handler_ok Inv api_contract h → Inv w →
  trace_ok (λ tr c,
    match c with
    | CPatchSetStatus b m =>
        Ev (CGetSet req) (Ok b) ∈ tr ∧ ∃ st, m = with_status b st ∧ status_ok b tr st
    | _ => True
    end) (out_trace (run h (Reconcile now cfg req) w)).
Proof.
  intros Hh Hw.
  destruct (wp_run_ok h Inv api_contract _ _ _ w Hh Hw (Reconcile_wp now cfg req)) as (_ & Ht & _).
  eapply trace_ok_mono; [|exact Ht]. intros tr c [[_ ->]|(set & Hin & _ & _ & Hok)]; [done|].
  destruct c; try done. destruct Hok as (-> & st & -> & Hst). split; [done|]. by exists st.
Qed.

End pass.

(** ** The end of a pass *)

Section finish.
Context `{MetaConditions} `{LabelsLib} `{SemanticEquality} `{JSONCodec} `{ApiErrors} `{ControllerUtil}
        `{ClusterGroups} `{PlacementTracker}.

(** The status [finishPass] decides on. *)
Definition finish_claims (total : nat) (r : childReconcileResult)
    (st : ManagedServiceAccountReplicaSetStatus) : Prop :=
  stReadyClusterCount st = crReady r ∧
  statusOf (stConditions st) conditionCleanupBlocked =
    Some (if crCleanupPending r then ConditionTrue else ConditionFalse) ∧
  statusOf (stConditions st) conditionReady =
    Some (if bool_decide (crErr r = None) && negb (0 <? crConflicts r)%Z && negb (0 <? crFailures r)%Z
             && (int32 (Z.of_nat total) <=? crReady r)%Z && negb (crCleanupPending r)
          then ConditionTrue else ConditionFalse).

(** The requeue table. *)
Definition finish_requeue (requeue : Z) (r : childReconcileResult) (p : passOutcome) : Prop :=
  match (passResult p).2 with
  | Some _ => (passResult p).1 = 0%Z
  | None =>
      crErr r = None ∧
      (passResult p).1 = (if crCleanupPending r then cleanupRequeueInterval
                          else if (0 <? requeue)%Z then requeue
                          else if selectorRBACEnabled (passSet p) then selectorRequeueInterval
                          else 0)%Z
  end.

Lemma applyChildResult_count now st r total g remote :
  stReadyClusterCount (applyChildResultConditions now st r total g remote) = stReadyClusterCount st.
Proof.
  unfold applyChildResultConditions, applyRemoteCondition, applyReadyConditions. repeat case_goal; done.
Qed.

Lemma finish_claims_hold now set st r total :
  let st1 := applyChildResultConditions now (with_stReadyClusterCount st (crReady r)) r total
               (setGeneration set) (rbacEnabled set) in
  finish_claims total r
    (if crCleanupPending r then
       setStatusCondition now
         (setStatusCondition now st1 conditionCleanupBlocked ConditionTrue
            reasonWaitingForOCMCleanup msgStaleCleanupBlocked (setGeneration set))
         conditionReady ConditionFalse reasonCleanupBlocked msgStaleCleanupInProgress (setGeneration set)
     else setNotDeletingCondition now st1 (setGeneration set)).
Proof.
  intros st1. unfold finish_claims.
  destruct (applyChildResultConditions_spec now (with_stReadyClusterCount st (crReady r)) r total
    (setGeneration set) (rbacEnabled set)) as [Hr _]. fold st1 in Hr.
  assert (stReadyClusterCount st1 = crReady r) as Hc by apply applyChildResult_count.
  destruct (crCleanupPending r); unfold setNotDeletingCondition; split_and!; try exact Hc; read_conditions; try done.
  - by rewrite andb_false_r.
  - rewrite Hr, andb_true_r. done.
Qed.

Lemma recordWarningEvent_calls cfg obj reason action msg :
  all_calls (λ c, match c with CEventf _ _ _ _ => True | _ => False end)
    (recordWarningEvent cfg obj reason action msg).
Proof. unfold recordWarningEvent. by case_goal. Qed.

(** The status write of the end of a pass: none when the status would not
    change, else one status patch of the set read with those claims. *)
Definition finish_write (set : ManagedServiceAccountReplicaSet) (total : nat) (r : childReconcileResult)
    (ws : trace) (set' : ManagedServiceAccountReplicaSet) (perr : option error) : Prop :=
  ∃ st, finish_claims total r st ∧
    ((DeepEqual (setStatus set) st = true ∧ ws = [] ∧ set' = set ∧ perr = None) ∨
     (DeepEqual (setStatus set) st = false ∧ ∃ ans,
        ws = [Ev (CPatchSetStatus set (with_status set st)) ans] ∧
        match ans with
        | Ok s => set' = s ∧ perr = None
        | Err e => set' = with_status set st ∧ perr = Some e
        end)).

(** The warning event of the end of a pass: the error of the children, else a
    conflict, else none. *)
Definition finish_event (set' : ManagedServiceAccountReplicaSet) (r : childReconcileResult) : list call :=
  match crErr r with
  | Some e => [CEventf set' reasonApplyFailed "ApplyChildren" (Error e)]
  | None => if (0 <? crConflicts r)%Z
            then [CEventf set' reasonChildConflict "ApplyChildren" msgChildConflict] else []
  end.

Lemma recordWarningEvent_exact (cfg : reconcilerConfig) obj reason action msg tr :
  wp any_answer any_call (recordWarningEvent cfg obj reason action msg)
    (λ tr' _, ∃ es, tr' = es ++ tr ∧
       map ev_call es = if cfgRecorder cfg then [CEventf obj reason action msg] else []) tr.
Proof.
  unfold recordWarningEvent. destruct (cfgRecorder cfg); [|apply wp_ret; by exists []].
  apply wp_send; [done|]. intros r _. by eexists [_].
Qed.

Lemma patchStatus_exact set total r st tr :
  finish_claims total r st →
  wp any_answer any_call (patchStatus set st)
    (λ tr' p, ∃ ws, tr' = ws ++ tr ∧ finish_write set total r ws p.1 p.2) tr.
Proof.
  intros Hst. unfold patchStatus. destruct (DeepEqual (setStatus set) st) eqn:Ed.
  - apply wp_ret. exists []. split; [done|]. exists st. split; [done|]. by left.
  - apply wp_bind, wp_send; [done|]. intros ans _.
    destruct ans as [s|e]; apply wp_ret; eexists [_]; (split; [done|]); exists st; (split; [done|]); right;
      (split; [done|]); eexists; (split; [done|done]).
Qed.

(** C29: The end of a pass is decided by what the pass found.  It sends at most
    one status patch, then at most one event, and nothing else.  The status has
    Ready True exactly when there was no error, conflict or failure, every
    selected cluster is ready and no stale child is left, and CleanupBlocked
    says whether stale children are left; it is written exactly when it
    differs.  The event, sent exactly when a recorder is configured, reports
    the error of the children, else a conflict, else there is none.  The error
    returned is the error of the status patch joined with that of the children,
    nil exactly when both are; with an error no requeue is asked; otherwise the
    pass is requeued in ten seconds while stale children are left, else when
    the rollout asks for it, else every thirty seconds while the set resolves
    namespaces by selector. *)
Theorem finishPass_table {W} (h : handler W) (w : W) now cfg set keep total requeue r st :
  let o := run h (finishPass now cfg set keep total requeue r st) w in
  let p := out_val o in
  ∃ events writes perr, out_trace o = events ++ writes ∧
    finish_write set total r writes (passSet p) perr ∧
    map ev_call events = (if cfgRecorder cfg then finish_event (passSet p) r else []) ∧
    (passResult p).2 = match crErr r with Some e => errors_Join [perr; Some e] | None => perr end ∧
    ((passResult p).2 = None ↔ perr = None ∧ crErr r = None) ∧
    finish_requeue requeue r p ∧ passKeep p = keep.
Proof.
  intros o.
  enough (wp any_answer any_call (finishPass now cfg set keep total requeue r st)
    (λ tr p, ∃ events writes perr, tr = events ++ writes ∧
       finish_write set total r writes (passSet p) perr ∧
       map ev_call events = (if cfgRecorder cfg then finish_event (passSet p) r else []) ∧
       (passResult p).2 = match crErr r with Some e => errors_Join [perr; Some e] | None => perr end ∧
       ((passResult p).2 = None ↔ perr = None ∧ crErr r = None) ∧
       finish_requeue requeue r p ∧ passKeep p = keep) []) as Hwp.
  { destruct (wp_run h _ _ _ w Hwp) as [Ho _]. exact Ho. }
  unfold finishPass, finish_event. cbv zeta. apply wp_bind.
  eapply wp_mono; [apply (patchStatus_exact set total r), finish_claims_hold|].
  intros tr1 [set' perr] (ws & -> & Hws). rewrite app_nil_r. cbn [fst snd] in *.
  destruct (crErr r) as [e|] eqn:Ee; apply wp_bind.
  - eapply wp_mono; [apply recordWarningEvent_exact|]. intros tr2 [] (es & -> & Hes). apply wp_ret.
    destruct (errors_Join_acc perr e) as [j Hj]. exists es, ws, perr.
    unfold finish_requeue. cbn [passResult passSet passKeep fst snd]. rewrite Hj. split_and!; try done. naive_solver.
  - eapply (wp_mono _ _ _ (λ tr' _, ∃ es, tr' = es ++ ws ∧ map ev_call es =
      if cfgRecorder cfg then if (0 <? crConflicts r)%Z
        then [CEventf set' reasonChildConflict "ApplyChildren" msgChildConflict] else [] else [])).
    { case_goal; [eapply wp_mono; [apply recordWarningEvent_exact|done]|].
      apply wp_ret. exists []. by destruct (cfgRecorder cfg). }
    intros tr2 [] (es & -> & Hes). unfold finish_requeue. rewrite Ee.
    destruct perr as [e|]; apply wp_ret; exists es, ws; eexists; cbn [passResult passSet passKeep fst snd];
      split_and!; try done; naive_solver.
Qed.

End finish.

Section witnesses.
Import Ref.

Definition sampleConfig : reconcilerConfig := mkConfig true true true.

Definition sampleRun : outcome Cluster ctrlResult :=
  run server (Reconcile 0 sampleConfig sampleKey) sampleWorld.

(** The first pass over the sample fleet creates two accounts and six works. *)
Definition created (tr : trace) : nat * nat :=
  (length (omap (λ e, match ev_call e with CCreateMSA o => Some o | _ => None end) tr),
   length (omap (λ e, match ev_call e with CCreateWork o => Some o | _ => None end) tr)).

Lemma Reconcile_no_takeover_witness :
  created (out_trace sampleRun) = (2, 6) ∧
  trace_ok (λ tr c, child_write c → ∃ set, Ev (CGetSet sampleKey) (Ok set) ∈ tr ∧ child_write_ok set tr c)
    (out_trace sampleRun).
Proof.
  split; [vm_compute; reflexivity|].
  exact (Reconcile_no_takeover server keyed sampleWorld 0 sampleConfig sampleKey
           server_contract (sampleWorldWith_keyed _ _ _)).
Defined.

Definition deletedSample : ManagedServiceAccountReplicaSet :=
  sampleSetWith [grantReadSecrets; grantReadNodes] ["placement-a"] [finalizerName] (Some 5%Z).

Definition deletedRun : outcome Cluster ctrlResult :=
  run server (Reconcile 0 sampleConfig sampleKey) (sampleWorldWith deletedSample [] []).

(** A pass over a deleted set without children removes the finalizer. *)
Lemma Reconcile_finalizer_protocol_witness :
  wSets (out_world deletedRun) !! sampleKey = None ∧
  ∃ b m lock r, Ev (CPatchSet b m lock) r ∈ out_trace deletedRun ∧ lock = true.
Proof.
  pose proof (Reconcile_finalizer_protocol server keyed (sampleWorldWith deletedSample [] []) 0 sampleConfig
    sampleKey server_contract (sampleWorldWith_keyed _ _ _)) as Ht.
  split; [vm_compute; reflexivity|].
  assert (∃ b m lock r, Ev (CPatchSet b m lock) r ∈ out_trace deletedRun) as (b & m & lock & r & Hin).
  { do 4 eexists. apply (list_elem_of_lookup_2 _ 1). vm_compute. reflexivity. }
  exists b, m, lock, r. split; [exact Hin|].
  destruct (trace_ok_elem _ _ _ _ Ht Hin) as (before & after & _ & _ & Hlock & _). exact Hlock.
Defined.

(** The second pass, once the agents have reported. *)
Definition settledWorld : Cluster := settle (out_world sampleRun).

Definition readyRun : outcome Cluster ctrlResult :=
  run server (Reconcile 0 sampleConfig sampleKey) settledWorld.

Lemma sampleRun_keyed : keyed (out_world sampleRun).
Proof.
  apply (wp_run_ok server keyed api_contract _ _ _ sampleWorld server_contract (sampleWorldWith_keyed _ _ _)
           (Reconcile_wp 0 sampleConfig sampleKey)).
Qed.

Lemma Reconcile_ready_honest_witness :
  ∃ b m r, Ev (CPatchSetStatus b m) r ∈ out_trace readyRun ∧
    statusOf (stConditions (setStatus m)) conditionReady = Some ConditionTrue ∧
    stReadyClusterCount (setStatus m) = 2%Z.
Proof.
  pose proof (Reconcile_ready_honest server keyed settledWorld 0 sampleConfig sampleKey
    server_contract (settle_keyed _ sampleRun_keyed)) as Ht.
  assert (∃ b m r, Ev (CPatchSetStatus b m) r ∈ out_trace readyRun ∧
    statusOf (stConditions (setStatus m)) conditionReady = Some ConditionTrue ∧
    stReadyClusterCount (setStatus m) = 2%Z) as (b & m & r & Hin & Hs).
  { do 3 eexists. split; [apply (list_elem_of_lookup_2 _ 1); vm_compute; reflexivity|].
    split; vm_compute; reflexivity. }
  destruct (trace_ok_elem _ _ _ _ Ht Hin) as (before & after & _ & _ & st & _).
  exists b, m, r. split; [exact Hin|exact Hs].
Defined.

(** A set with one good ref and one ref whose placement cannot be read. *)
Definition partialSet : ManagedServiceAccountReplicaSet :=
  sampleSetWith [] ["placement-a"; "placement-gone"] [finalizerName] None.

Definition partialRun : outcome Cluster ctrlResult :=
  run server (Reconcile 0 sampleConfig sampleKey)
    (sampleWorldWith partialSet [buildManagedServiceAccount partialSet "cluster-c" "placement-gone"] []).

(** The account of the cluster that only the unreadable placement selects is
    deleted, and the set reports PlacementResolved True all the same. *)
Example partial_resolution_cleans_up :
  wMSAs (out_world partialRun) !! mkNamespacedName "cluster-c" "msa" = None ∧
  (λ s, statusOf (stConditions (setStatus s)) conditionPlacementResolved) <$> wSets (out_world partialRun) !! sampleKey
    = Some (Some ConditionTrue).
Proof. split; vm_compute; reflexivity. Qed.

(** A valid set with a selector grant whose template is named like the
    controller-access account: both accounts are one object. *)
Definition collidingSet : ManagedServiceAccountReplicaSet :=
  mkReplicaSet (sampleMeta [finalizerName] None)
    (mkSpec [mkPlacementRef "placement-a" (strategyOf "")]
       (mkTemplate
          (mkTemplateMetadata "set-controller-access" "open-cluster-management-managed-serviceaccount" ∅ ∅)
          (mkTemplateSpec (mkRotation (Some true) None) None))
       (Some (mkRBAC [mkRBACGrant "by-label" RBACGrantTypeRole
                        (Some (mkNamespaceIterator "" [] (Some (mkLabelSelector {["env" := "prod"]} []))))
                        (mkRBACGrantMetadata "by-label" ∅ ∅) [sampleRule ["get"] ["secrets"]]])))
    emptyStatus.

Example template_name_collision :
  validateRuntimeSpec collidingSet = None ∧ selectorRBACEnabled collidingSet = true ∧
  ObjectKey (msaMeta (buildManagedServiceAccount collidingSet "cluster-a" "placement-a")) =
  ObjectKey (msaMeta (buildControllerAccessManagedServiceAccount collidingSet "cluster-a" "placement-a")).
Proof. split_and!; vm_compute; reflexivity. Qed.

End witnesses.
