(* ===== verification/StatusSchema.v ===== *)
(** * The shape of the status is an invariant of the controller

    The custom resource's definition types the status: lists of conditions are
    maps keyed by their type with at most 8 entries (4 in a rollout summary),
    every condition has a status of three, a reason, a transition time and a
    generation that is not negative, the placements are a map keyed by name
    with at most 16 entries, and counters are int32.  A status outside the
    schema would be rejected as a whole, and the set would keep its old one.
    Here: a status that holds only what this controller writes, such as the
    empty one, leads to statuses of the same kind, which keep those bounds.  A
    status with condition types of another writer is not of that kind.  Two
    bounds of the schema are left out: that counters are not negative (they are
    not as long as no int32 wraps around), and the length of messages, which
    carry error texts and can exceed it ([failing_fleet_message]). *)

From S2P Require Import Prelude GoStd ApiTypes Interfaces Reference Effects Samples Store.
From S2P Require Import Metadata Rbac ControllerAccess Validation Conditions Children Placement Rollout.
From S2P Require Import Cleanup ReconcileChildren Reconcile.
From Stdlib Require Import ZArith Lia.

(** ** The condition helpers on the lists themselves *)

(** What the package documents of the list besides what its readers return: a
    condition is updated in place or appended, and found when it is the only
    one of its type. *)
Class ConditionLists `{MetaConditions} := {
  FindStatusCondition_elem cs t c : FindStatusCondition cs t = Some c → c ∈ cs;
  FindStatusCondition_unique cs c :
    NoDup (map condType cs) → c ∈ cs → FindStatusCondition cs (condType c) = Some c;
  SetStatusCondition_types now cs c :
    map condType (SetStatusCondition now cs c) =
    if bool_decide (condType c ∈ map condType cs) then map condType cs
    else map condType cs ++ [condType c];
  RemoveStatusCondition_filter cs t : RemoveStatusCondition cs t = filter (λ c, condType c ≠ t) cs;
  (** Setting a condition that is there already with the same content changes
      nothing. *)
  SetStatusCondition_same now cs c old :
    FindStatusCondition cs (condType c) = Some old →
    condStatus old = condStatus c → condObservedGeneration old = condObservedGeneration c →
    condReason old = condReason c → condMessage old = condMessage c →
    SetStatusCondition now cs c = cs;
}.

#[export] Program Instance reference_condition_lists : @ConditionLists Ref.conditions.
Next Obligation.
  intros cs t c. cbn. induction cs as [|x cs IH]; cbn; [done|]. case_decide; intros Hf.
  - simplify_eq. left.
  - right. by apply IH.
Qed.
Next Obligation.
  intros cs c. cbn. induction cs as [|x cs IH]; cbn; [by intros _ ?%elem_of_nil|].
  intros [Hx Hnd]%NoDup_cons [->|Hc]%elem_of_cons; [by rewrite decide_True|].
  rewrite decide_False; [by apply IH|]. intros Ht. apply Hx. rewrite Ht. by apply list_elem_of_fmap_2.
Qed.
Next Obligation.
  intros now cs c. cbn. induction cs as [|x cs IH]; cbn; [done|].
  destruct (decide (condType x = condType c)) as [Hx|Hx]; cbn.
  - rewrite bool_decide_eq_true_2; [by rewrite Hx|]. rewrite Hx. left.
  - rewrite IH. case_bool_decide as Hin.
    + rewrite bool_decide_eq_true_2; [done|by right].
    + rewrite bool_decide_eq_false_2; [done|]. intros [?|?]%elem_of_cons; [congruence|done].
Qed.
Next Obligation. done. Qed.
Next Obligation.
  intros now cs c old. cbn. induction cs as [|x cs IH]; cbn; [done|].
  case_decide as Hx; intros Hf Hs Hg Hr Hm; [|by rewrite IH].
  injection Hf as ->. unfold Ref.stamp. rewrite decide_True by done.
  destruct old; cbn in *. by subst.
Qed.

(** ** The schema *)

Definition int32_ok (z : Z) : Prop := (- 2^31 <= z < 2^31)%Z.

Definition condition_ok (c : Condition) : Prop :=
  condStatus c ∈ [ConditionTrue; ConditionFalse; "Unknown"] ∧ condReason c ≠ "" ∧
  (0 <= condObservedGeneration c)%Z ∧ is_Some (condLastTransitionTime c).

(** A list of conditions with types among [types]. *)
Definition conditions_ok (types : list string) (cs : list Condition) : Prop :=
  NoDup (map condType cs) ∧ ∀ c, c ∈ cs → condType c ∈ types ∧ condition_ok c.

Definition statusTypes : list string :=
  [conditionPlacementResolved; conditionManagedServiceAccountsReady; conditionRemotePermissionsApplied;
   conditionCleanupBlocked; conditionReady; conditionPlacementRolledOut].

Definition summary_ok (s : Summary) : Prop :=
  int32_ok (sumDesiredTotal s) ∧ int32_ok (sumTotal s) ∧ int32_ok (sumApplied s) ∧ int32_ok (sumAvailable s) ∧
  int32_ok (sumDegraded s) ∧ int32_ok (sumProgressing s) ∧ int32_ok (sumUpdated s).

Definition rollout_ok (r : RolloutSummary) : Prop :=
  int32_ok (rsumTotal r) ∧ int32_ok (rsumUpdating r) ∧ int32_ok (rsumSucceeded r) ∧ int32_ok (rsumFailed r) ∧
  int32_ok (rsumTimedOut r) ∧ conditions_ok [conditionProgressing] (rsumConditions r).

Definition access_ok (c : ControllerAccessStatus) : Prop :=
  int32_ok (caDesiredClusterCount c) ∧ int32_ok (caReadyClusterCount c) ∧
  conditions_ok [conditionReady] (caConditions c).

(** A condition on a value that may be missing. *)
Definition if_some {A} (P : A → Prop) (o : option A) : Prop := ∀ a, o = Some a → P a.

Definition placement_ok (p : PlacementStatus) : Prop :=
  int32_ok (psSelectedClusterCount p) ∧ if_some summary_ok (psSummary p) ∧ if_some rollout_ok (psRollout p) ∧
  conditions_ok [conditionPlacementResolved; conditionPlacementEmpty] (psConditions p).

(** The status of a set whose placement refs have the names [refs], or that
    has not been resolved yet. *)
Record status_ok (refs : list string) (st : ManagedServiceAccountReplicaSetStatus) : Prop := {
  so_generation : (0 <= stObservedGeneration st)%Z;
  so_selected : int32_ok (stSelectedClusterCount st);
  so_ready : int32_ok (stReadyClusterCount st);
  so_summary : if_some summary_ok (stSummary st);
  so_rollout : if_some rollout_ok (stRollout st);
  so_access : if_some access_ok (stControllerAccess st);
  so_names : map psName (stPlacements st) = refs ∨ stPlacements st = [];
  so_placements : Forall placement_ok (stPlacements st);
  so_conditions : conditions_ok statusTypes (stConditions st);
}.

(** The bounds on the sizes of the lists, with the keys they are maps by. *)
Definition schema_valid (st : ManagedServiceAccountReplicaSetStatus) : Prop :=
  length (stConditions st) <= 8 ∧ NoDup (map condType (stConditions st)) ∧
  length (stPlacements st) <= 16 ∧ NoDup (map psName (stPlacements st)) ∧
  (∀ c, c ∈ stConditions st → condition_ok c) ∧
  (∀ a, stControllerAccess st = Some a → length (caConditions a) <= 8 ∧ NoDup (map condType (caConditions a))) ∧
  (∀ r, stRollout st = Some r → length (rsumConditions r) <= 4 ∧ NoDup (map condType (rsumConditions r))) ∧
  (∀ p, p ∈ stPlacements st → placement_ok p ∧ length (psConditions p) <= 8 ∧
     ∀ r, psRollout p = Some r → length (rsumConditions r) <= 4).

(** ** Lemmas on lists of conditions *)

Lemma conditions_ok_nil types : conditions_ok types [].
Proof. split; [apply NoDup_nil_2|]. by intros ? ?%elem_of_nil. Qed.

Lemma conditions_ok_length types cs : conditions_ok types cs → length cs <= length types.
Proof.
  intros [Hnd Hall]. rewrite <- (length_map condType cs). apply NoDup_incl_length; [by apply NoDup_ListNoDup|].
  intros t. rewrite <- !list_elem_of_In. intros (c & -> & Hc)%list_elem_of_fmap. by apply Hall.
Qed.

Section condition_lists.
Context `{MC : MetaConditions} `{!ConditionLists} (now : Z).

Lemma conditions_ok_set types cs t s reason msg g :
  conditions_ok types cs → t ∈ types → s ∈ [ConditionTrue; ConditionFalse; "Unknown"] → reason ≠ "" → (0 <= g)%Z →
  conditions_ok types (setCondition now cs t s reason msg g).
Proof.
  intros [Hnd Hall] Ht Hs Hr Hg.
  assert (NoDup (map condType (setCondition now cs t s reason msg g))) as Hnd'.
  { unfold setCondition. rewrite SetStatusCondition_types. case_bool_decide as Hin; [done|].
    apply NoDup_app. split_and!; [done| |apply NoDup_singleton].
    intros x Hx ->%list_elem_of_singleton. done. }
  split; [exact Hnd'|]. intros c Hc. pose proof (FindStatusCondition_unique _ _ Hnd' Hc) as Hf.
  rewrite find_setCondition in Hf. case_decide as Hct.
  - injection Hf as <-. split; [done|]. unfold condition_ok; cbn. split_and!; try done.
    destruct (FindStatusCondition cs t) as [old|] eqn:Ho; [|by eexists]. case_decide; [|by eexists].
    by destruct (Hall old (FindStatusCondition_elem _ _ _ Ho)) as (_ & _ & _ & _ & ?).
  - apply FindStatusCondition_elem in Hf. by apply Hall.
Qed.

Lemma conditions_ok_remove types cs t :
  conditions_ok types cs → conditions_ok types (RemoveStatusCondition cs t).
Proof.
  intros [Hnd Hall]. rewrite RemoveStatusCondition_filter. split.
  - clear Hall. induction cs as [|x cs IH]; [done|]. apply NoDup_cons in Hnd as [Hx Hnd].
    cbn [filter list_filter]. case_decide; cbn [map]; [|by apply IH]. apply NoDup_cons. split; [|by apply IH].
    intros (c & Hc & [_ Hin]%list_elem_of_filter)%list_elem_of_fmap. apply Hx. rewrite Hc.
    by apply list_elem_of_fmap_2.
  - intros c [_ Hc]%list_elem_of_filter. by apply Hall.
Qed.

End condition_lists.

(** ** Lemmas on the parts of a status *)

Create HintDb schema.

Lemma int32_int32_ok z : int32_ok (int32 z).
Proof. apply int32_range. Qed.

Lemma int32_add_ok a b : int32_ok (int32_add a b).
Proof. apply int32_range. Qed.

Lemma int32_zero_ok : int32_ok 0.
Proof. done. Qed.

Lemma int32_len_ok {A} (l : list A) : int32_ok (int32_len l).
Proof. apply int32_range. Qed.

#[export] Hint Resolve int32_int32_ok int32_len_ok int32_add_ok int32_zero_ok conditions_ok_nil : schema.

Lemma if_some_None {A} (P : A → Prop) : if_some P None.
Proof. by intros ?. Qed.

Lemma if_some_Some {A} (P : A → Prop) a : P a → if_some P (Some a).
Proof. by intros ? ? [= <-]. Qed.

#[export] Hint Resolve if_some_None if_some_Some : schema.

Lemma ensureSummary_ok slot : if_some summary_ok slot → summary_ok (ensureSummary slot).
Proof. destruct slot as [s|]; intros Hs; [by apply Hs|by vm_compute]. Qed.

(** The two ways in which a summary grows. *)
Definition keeps_summary (f : Summary → Summary) : Prop := ∀ s, summary_ok s → summary_ok (f s).

Lemma addDesiredTotal_ok n : keeps_summary (addDesiredTotal n).
Proof. intros s (? & ? & ? & ? & ? & ? & ?). unfold summary_ok; cbn. split_and!; auto with schema. Qed.

Lemma addSummary_ok src : keeps_summary (λ s, addSummary s src).
Proof. intros s _. unfold summary_ok; cbn. split_and!; auto with schema. Qed.

#[export] Hint Resolve addDesiredTotal_ok addSummary_ok : schema.

Section status.
Context (refs : list string).

Lemma alter_psName f i (l : list PlacementStatus) :
  map psName (alter (updatePlacementSummary f) i l) = map psName l.
Proof.
  revert i. induction l as [|p l IH]; intros [|i]; cbn; try done. by rewrite IH.
Qed.

Lemma updateSummaries_ok f byKey keys st :
  keeps_summary f → status_ok refs st → status_ok refs (updateSummaries f byKey keys st).
Proof.
  intros Hf Hst. unfold updateSummaries.
  assert (status_ok refs (with_stSummary st (Some (f (ensureSummary (stSummary st)))))) as Hst'.
  { destruct Hst. split; try done. by apply if_some_Some, Hf, ensureSummary_ok. }
  revert Hst'. generalize (with_stSummary st (Some (f (ensureSummary (stSummary st))))). clear st Hst.
  induction keys as [|k keys IH]; intros st Hst; cbn [foldl]; [done|]. apply IH.
  destruct (byKey !! k) as [i|]; [|done]. destruct Hst as [? ? ? ? ? ? Hn Hp ?]. split; try done; cbn.
  - rewrite alter_psName. destruct Hn as [?| ->]; [by left|by right].
  - apply Forall_alter; [done|]. intros p _ (? & Hs & ? & ?).
    split_and!; try done. by apply if_some_Some, Hf, ensureSummary_ok.
Qed.

Lemma incrAccessReady_ok st : status_ok refs st → status_ok refs (incrAccessReady st).
Proof.
  intros []. split; try done. cbn. intros a Ha.
  destruct (stControllerAccess st) as [c|] eqn:Hc; [|done]. injection Ha as <-.
  destruct (so_access0 c eq_refl) as (? & ? & ?). unfold access_ok; cbn; auto with schema.
Qed.

Lemma initAccess_ok set clusters st :
  if_some access_ok (stControllerAccess (setStatus set)) →
  status_ok refs st → status_ok refs (initAccess set clusters st).
Proof.
  intros Hset []. split; try done. cbn. apply if_some_Some. unfold access_ok; cbn.
  split_and!; [apply int32_int32_ok|done|].
  destruct (stControllerAccess (setStatus set)) as [c|]; [|apply conditions_ok_nil].
  by destruct (Hset c eq_refl) as (_ & _ & ?).
Qed.

End status.

(** ** The operations of a pass on the status *)

(** Membership in a list of constants. *)
Ltac known := by apply (bool_decide_unpack _); vm_compute.

(** A list of conditions after some of the helpers. *)
Ltac conditions_step :=
  first [ assumption
        | apply conditions_ok_remove; conditions_step
        | apply conditions_ok_set; [conditions_step|known|known|done|assumption] ].

Section operations.
Context `{MC : MetaConditions} `{!ConditionLists} (now : Z) (refs : list string) (g : Z) (Hg : (0 <= g)%Z).

Lemma setStatusCondition_ok st t s reason msg :
  status_ok refs st → t ∈ statusTypes → s ∈ [ConditionTrue; ConditionFalse; "Unknown"] → reason ≠ "" →
  status_ok refs (setStatusCondition now st t s reason msg g).
Proof. intros [] Ht Hs Hr. split; try done. cbn. by apply conditions_ok_set. Qed.

(** The constants of the sources are within the schema. *)
Ltac set_ok :=
  repeat (apply setStatusCondition_ok; [|known|known|done]);
  try done.

Lemma setNotDeletingCondition_ok st : status_ok refs st → status_ok refs (setNotDeletingCondition now st g).
Proof. intros Hst. unfold setNotDeletingCondition. set_ok. Qed.

Lemma setEarlyReturnConditions_ok st reason msg :
  reason ≠ "" → status_ok refs st → status_ok refs (setEarlyReturnConditions now st reason msg g).
Proof.
  intros Hr Hst. unfold setEarlyReturnConditions. apply setNotDeletingCondition_ok. cbn [foldl]. set_ok.
Qed.

Lemma applyChildResultConditions_ok st result total remote :
  status_ok refs st → status_ok refs (applyChildResultConditions now st result total g remote).
Proof.
  intros Hst. unfold applyChildResultConditions, applyRemoteCondition.
  assert (status_ok refs (applyReadyConditions now st result total g remote)) as Hr.
  { unfold applyReadyConditions, setBoth. repeat case_match; set_ok. }
  repeat case_match; set_ok.
Qed.

Lemma applyPlacementRolledOutCondition_ok st summary :
  status_ok refs st → status_ok refs (applyPlacementRolledOutCondition now st summary g).
Proof. intros Hst. unfold applyPlacementRolledOutCondition. repeat case_match; set_ok. Qed.

Lemma finishAccess_ok set st :
  setGeneration set = g → status_ok refs st → status_ok refs (finishAccess now set st).
Proof.
  intros Heq []. split; try done. cbn. intros a Ha.
  destruct (stControllerAccess st) as [c|]; [|done]. injection Ha as <-.
  destruct (so_access0 c eq_refl) as (? & ? & ?). unfold access_ok; cbn. rewrite Heq.
  split_and!; try done. case_match; conditions_step.
Qed.

Lemma countStatus_ok updating timedOut l acc :
  int32_ok acc.1.1 ∧ int32_ok acc.1.2 ∧ int32_ok acc.2 →
  let acc' := foldl (countStatus updating timedOut) acc l in
  int32_ok acc'.1.1 ∧ int32_ok acc'.1.2 ∧ int32_ok acc'.2.
Proof.
  revert acc. induction l as [|e l IH]; intros acc Hacc; cbn [foldl]; [done|]. apply IH.
  destruct acc as [[a b] c]. unfold countStatus. repeat case_match; simplify_eq; cbn in *; naive_solver auto with schema.
Qed.

Lemma newRolloutSummary_ok total updating timedOut statuses previous :
  int32_ok total → conditions_ok [conditionProgressing] previous →
  rollout_ok (newRolloutSummary now total updating timedOut statuses previous g).
Proof.
  intros Ht Hp. unfold newRolloutSummary.
  pose proof (countStatus_ok updating timedOut (map_to_list statuses) (0%Z, 0%Z, int32 (Z.of_nat (sets_Len timedOut)))
    (conj int32_zero_ok (conj int32_zero_ok (int32_int32_ok _)))) as (H1 & H2 & H3).
  destruct (foldl _ _ _) as [[a b] c]. unfold rollout_ok; cbn in *.
  split_and!; auto with schema. case_match; conditions_step.
Qed.

End operations.

(** ** What a pass reads *)

(** A set as admission and the controller leave it: the bounds of the schema on
    the placement refs, and a status of the controller's own making (for an older
    spec, possibly). *)
Record admitted (set : ManagedServiceAccountReplicaSet) : Prop := {
  ad_generation : (0 <= setGeneration set)%Z;
  ad_count : length (specPlacementRefs (setSpec set)) <= 16;
  ad_names : NoDup (map prefName (specPlacementRefs (setSpec set)));
  ad_status : ∃ refs, status_ok refs (setStatus set);
}.

Section pass.
Context `{MC : MetaConditions} `{!ConditionLists} `{LabelsLib} `{SemanticEquality} `{JSONCodec} `{ApiErrors}
        `{ControllerUtil} `{ClusterGroups} `{PlacementTracker}.
Context (now : Z) (cfg : reconcilerConfig) (set : ManagedServiceAccountReplicaSet) (Had : admitted set).

Local Abbreviation refs := (map prefName (specPlacementRefs (setSpec set))).
Local Abbreviation g := (setGeneration set).

Lemma newStatus_ok : status_ok refs (newStatus set).
Proof.
  destruct Had as [_ _ _ [refs' []]]. unfold newStatus. split; try done; cbn; auto with schema.
Qed.

Lemma previousConditions_ok name :
  conditions_ok [conditionPlacementResolved; conditionPlacementEmpty] (previousConditions set name).
Proof.
  destruct Had as [_ _ _ [refs' Hst]]. unfold previousConditions. pose proof (so_placements _ _ Hst) as Hp.
  assert (∀ (m : gmap string (list Condition)) l, Forall placement_ok l →
    map_Forall (λ _ cs, conditions_ok [conditionPlacementResolved; conditionPlacementEmpty] cs) m →
    map_Forall (λ _ cs, conditions_ok [conditionPlacementResolved; conditionPlacementEmpty] cs)
      (foldl (λ m p, <[psName p := psConditions p]> m) m l)) as Hfold.
  { intros m l Hl. revert m. induction Hl as [|p l (_ & _ & _ & Hc) _ IH]; intros m Hm; cbn [foldl]; [done|].
    apply IH. by apply map_Forall_insert_2. }
  specialize (Hfold ∅ _ Hp (map_Forall_empty _)).
  destruct (foldl _ _ _ !! name) as [cs|] eqn:E; cbn; [by apply (Hfold _ _ E)|apply conditions_ok_nil].
Qed.

Lemma placementRolloutConditions_ok key :
  conditions_ok [conditionProgressing] (placementRolloutConditions set key).
Proof.
  destruct Had as [_ _ _ [refs' Hst]]. unfold placementRolloutConditions.
  destruct (List.find _ _) as [p|] eqn:E; [|apply conditions_ok_nil].
  apply List.find_some in E as [Hin%list_elem_of_In _].
  pose proof (so_placements _ _ Hst) as Hp. rewrite Forall_forall in Hp.
  destruct (Hp p Hin) as (_ & _ & Hr & _). unfold rolloutConditions.
  destruct (psRollout p) as [r|]; [|apply conditions_ok_nil]. by destruct (Hr r eq_refl) as (_ & _ & _ & _ & _ & ?).
Qed.

Lemma finishStatus_ok name out clusters :
  psName (roStatus out) = name → placement_ok (roStatus out) →
  psName (finishStatus now out clusters g) = name ∧ placement_ok (finishStatus now out clusters g).
Proof.
  intros Hn (Hc & Hs & Hr & Hcs). pose proof (ad_generation _ Had) as Hg.
  unfold finishStatus. split; [by destruct (roErr out); case_match|].
  destruct (roErr out) as [e|]; case_match; unfold placement_ok; cbn; split_and!; auto with schema;
    conditions_step.
Qed.

Lemma resolvePlacementRef_ok ref :
  returns (λ out, psName (roStatus out) = prefName ref ∧ placement_ok (roStatus out))
    (resolvePlacementRef now set ref g (previousConditions set (prefName ref))).
Proof.
  unfold resolvePlacementRef. eapply returns_bind; [apply returns_any|]. intros [[pl gr] err] _. apply returns_ret.
  pose proof (previousConditions_ok (prefName ref)) as Hp. pose proof (ad_generation _ Had) as Hg.
  destruct err; cbn; (split; [done|]); unfold placement_ok; cbn; split_and!; auto with schema.
  conditions_step.
Qed.

Lemma resolvePlacementRefs_ok :
  returns (λ res, map psName (resPlacementStatuses res) = refs ∧ Forall placement_ok (resPlacementStatuses res))
    (resolvePlacementRefs now set g).
Proof.
  unfold resolvePlacementRefs.
  assert (∀ l acc, Forall placement_ok (raStatuses acc) →
    returns (λ acc', map psName (raStatuses acc') = map psName (raStatuses acc) ++ map prefName l ∧
                     Forall placement_ok (raStatuses acc'))
      (foldM (λ acc ref, out ← resolvePlacementRef now set ref g (previousConditions set (prefName ref));
                         mret (addRef now g acc (ref, out))) acc l)) as Hloop.
  { induction l as [|ref l IH]; intros acc Hacc; cbn [foldM].
    { apply returns_ret. by rewrite app_nil_r. }
    eapply (returns_bind (λ acc', map psName (raStatuses acc') = map psName (raStatuses acc) ++ [prefName ref] ∧
      Forall placement_ok (raStatuses acc'))).
    - eapply returns_bind; [apply resolvePlacementRef_ok|]. intros out [Hn Hp]. apply returns_ret.
      destruct (finishStatus_ok _ out (sets_List (GetClusters (roGroups out))) Hn Hp) as [Hn' Hp'].
      cbn [addRef raStatuses]. rewrite map_app. cbn [map]. rewrite Hn'. split; [done|].
      apply Forall_app. auto.
    - intros acc' [Hn Hp]. specialize (IH acc' Hp). rewrite Hn, <- app_assoc in IH. exact IH. }
  eapply returns_bind; [apply (Hloop _ emptyResolveAcc); apply Forall_nil_2|].
  intros acc [Hn Hp]. by apply returns_ret.
Qed.

Definition plan_ok (plan : rolloutPlan) : Prop :=
  if_some rollout_ok (planSummary plan) ∧ map_Forall (λ _ r, rollout_ok r) (planPlacementRollouts plan).

Lemma planRollout_ok resolver res :
  returns (λ r, ∀ plan, r = Ok plan → plan_ok plan) (planRollout now resolver set res).
Proof.
  unfold planRollout. pose proof (ad_generation _ Had) as Hg.
  eapply (returns_bind (λ r, map_Forall (λ _ r, rollout_ok r) (paRollouts r.1))).
  - apply (returns_foldE (λ acc, map_Forall (λ _ r, rollout_ok r) (paRollouts acc))); [apply map_Forall_empty|].
    intros acc ref Hacc. unfold planRef. case_goal.
    { apply returns_ret. cbn. apply map_Forall_insert_2; [|done].
      apply newRolloutSummary_ok; [done|done|apply placementRolloutConditions_ok]. }
    eapply returns_bind; [apply returns_any|]. intros [[[all rs] ex] [e|]] _; [by apply returns_ret|].
    eapply returns_bind; [apply returns_any|]. intros [rr|e] _; [|by apply returns_ret].
    apply returns_ret. cbn. apply map_Forall_insert_2; [|done].
    apply newRolloutSummary_ok; [done|apply int32_int32_ok|apply placementRolloutConditions_ok].
  - intros [acc [e|]] Hacc; apply returns_ret; [done|]. intros plan [= <-]. split; [|done]. cbn.
    apply if_some_Some, newRolloutSummary_ok; [done|apply int32_len_ok|].
    destruct Had as [_ _ _ [refs' Hst]]. unfold rolloutConditions.
    destruct (stRollout (setStatus set)) as [r|] eqn:E; [|apply conditions_ok_nil].
    by destruct (so_rollout _ _ Hst r E) as (_ & _ & _ & _ & _ & ?).
Qed.

Lemma applyPlacementRolloutStatus_ok st plan :
  plan_ok plan → status_ok refs st → status_ok refs (applyPlacementRolloutStatus st plan).
Proof.
  intros [_ Hr] [? ? ? ? ? ? Hn Hp ?]. split; try done; cbn.
  - rewrite map_map. destruct Hn as [<-| ->]; [by left|by right].
  - rewrite Forall_fmap. eapply Forall_impl; [exact Hp|]. intros p (? & ? & _ & ?).
    split_and!; try done. intros r Hl. by apply (Hr _ _ Hl).
Qed.

(** The status and the ready counter through the loop over the clusters. *)
Definition loop_ok (r : childReconcileResult) (st : ManagedServiceAccountReplicaSetStatus) : Prop :=
  int32_ok (crReady r) ∧ status_ok refs st.

Lemma recordErr_crReady r e : crReady (recordErr r e) = crReady r.
Proof. unfold recordErr. by case_match. Qed.

Lemma noteChild_ready {T} (ready : T → bool) acc r : crReady (noteChild ready acc r).1 = crReady acc.1.
Proof. destruct r; cbn; [done|apply recordErr_crReady]. Qed.

Lemma reconcileAccess_ok cl ref lp :
  loop_ok (cloResult lp) (cloStatus lp) →
  returns (λ lp', loop_ok (cloResult lp') (cloStatus lp')) (reconcileAccess set cl ref lp).
Proof.
  intros [Hr Hst]. unfold reconcileAccess. eapply returns_bind; [apply returns_any|]. intros m _.
  eapply returns_bind; [apply returns_any|]. intros w _.
  assert (crReady (noteChild manifestWorkAvailable
    (noteChild managedServiceAccountReady (cloResult lp, true) m) w).1 = crReady (cloResult lp)) as Hn
    by (by rewrite !noteChild_ready).
  destruct (noteChild manifestWorkAvailable _ w) as [r b].
  apply returns_ret. split; cbn in *; [by rewrite Hn|]. destruct b; [by apply incrAccessReady_ok|done].
Qed.

Lemma reconcileWorkloadMSA_ok cl ref lp :
  loop_ok (cloResult lp) (cloStatus lp) →
  returns (λ lp', loop_ok (cloResult lp') (cloStatus lp')) (reconcileWorkloadMSA set cl ref lp).
Proof.
  intros [Hr Hst]. unfold reconcileWorkloadMSA. eapply returns_bind; [apply returns_any|]. intros m _.
  pose proof (noteChild_ready managedServiceAccountReady (cloResult lp, cloReady lp) m) as Hn.
  destruct (noteChild _ _ m) as [r b]. apply returns_ret. split; cbn in *; [by rewrite Hn|done].
Qed.

Lemma reconcileRBAC_ok resolver cl ref byKey keys lp :
  loop_ok (cloResult lp) (cloStatus lp) →
  returns (λ lp', loop_ok (cloResult lp') (cloStatus lp')) (reconcileRBAC resolver set cl ref byKey keys lp).
Proof.
  intros [Hr Hst]. unfold reconcileRBAC. eapply returns_bind; [apply returns_any|]. intros [sl err] _.
  assert (int32_ok (crReady (match err with Some e => (recordErr (cloResult lp) e, false)
                             | None => (cloResult lp, cloReady lp) end).1)) as Hr'.
  { destruct err; cbn; [by rewrite recordErr_crReady|done]. }
  destruct (match err with Some e => _ | None => _ end) as [res rd].
  apply (returns_foldM (λ lp', loop_ok (cloResult lp') (cloStatus lp'))).
  - split; [done|]. by apply updateSummaries_ok; [auto with schema|].
  - intros lp1 sl1 [H1r H1s]. unfold reconcileSlice. eapply returns_bind; [apply returns_any|].
    intros [w|e] _; apply returns_ret; split; cbn; try done.
    + apply updateSummaries_ok; [apply addSummary_ok|done].
    + by rewrite recordErr_crReady.
Qed.

Lemma rolloutCluster_ok resolver res byKey acc cl :
  loop_ok (clResult acc) (clStatus acc) →
  returns (λ acc', loop_ok (clResult acc') (clStatus acc')) (rolloutCluster resolver set res byKey acc cl).
Proof.
  intros Hacc. unfold rolloutCluster. eapply returns_bind; [apply returns_any|]. intros [[]|e] _.
  2:{ apply returns_ret. destruct Hacc. split; cbn; [by rewrite recordErr_crReady|done]. }
  eapply (returns_bind (λ lp, loop_ok (cloResult lp) (cloStatus lp))).
  { case_goal; [by apply reconcileAccess_ok|by apply returns_ret]. }
  intros lp1 Hlp1. eapply returns_bind; [by apply reconcileWorkloadMSA_ok|].
  intros lp2 Hlp2. eapply (returns_bind (λ lp, loop_ok (cloResult lp) (cloStatus lp))).
  { case_goal; [by apply reconcileRBAC_ok|by apply returns_ret]. }
  intros lp3 [Hlp3 Hst3]. apply returns_ret. split; cbn; [|done]. case_match; [apply int32_add_ok|done].
Qed.

Lemma settledCluster_ok resolver res statuses byKey acc cl :
  loop_ok (clResult acc) (clStatus acc) →
  returns (λ acc', loop_ok (clResult acc') (clStatus acc')) (settledCluster resolver set res statuses byKey acc cl).
Proof.
  intros [Hr Hst]. unfold settledCluster. destruct (statuses !! cl) as [[n [] t]|]; try by apply returns_ret.
  eapply (returns_bind (status_ok refs)).
  - assert (status_ok refs (if selectorRBACEnabled set then incrAccessReady (clStatus acc) else clStatus acc)) as Hst'.
    { case_match; [by apply incrAccessReady_ok|done]. }
    revert Hst'. generalize (if selectorRBACEnabled set then incrAccessReady (clStatus acc) else clStatus acc).
    intros st Hst'. unfold aggregateExistingRBACSummary. case_goal; [by apply returns_ret|].
    eapply returns_bind; [apply returns_any|]. intros r _. apply returns_foldM.
    + apply updateSummaries_ok; [apply addDesiredTotal_ok|done].
    + intros st1 sl Hst1. eapply returns_bind; [apply returns_any|]. intros [w|e] _; [|by apply returns_ret].
      case_goal; apply returns_ret; [done|]. apply updateSummaries_ok; [apply addSummary_ok|done].
  - intros st Hst'. apply returns_ret. split; [apply int32_add_ok|done].
Qed.

Lemma reconcileChildren_ok resolver res names cleanup statuses st :
  status_ok refs st →
  returns (λ r, loop_ok r.1 r.2) (reconcileChildren now resolver set res names cleanup statuses st).
Proof.
  intros Hst. unfold reconcileChildren. cbv zeta. pose proof (ad_generation _ Had) as Hg.
  assert (if_some access_ok (stControllerAccess (setStatus set))) as Ha.
  { destruct Had as [_ _ _ [refs' []]]. done. }
  eapply (returns_bind (λ acc, loop_ok (clResult acc) (clStatus acc))).
  - apply returns_foldM.
    + split; [done|]. cbn. case_match; [by apply initAccess_ok|done].
    + intros acc cl Hacc. unfold reconcileCluster. case_goal; [by apply rolloutCluster_ok|by apply settledCluster_ok].
  - intros lp [Hr Hl].
    assert (status_ok refs (if selectorRBACEnabled set then finishAccess now set (clStatus lp) else clStatus lp)) as Hf.
    { case_match; [by apply finishAccess_ok with g|done]. }
    destruct (crErr (clResult lp)); [by apply returns_ret|].
    eapply returns_bind; [apply returns_any|]. intros [pending err] _. by apply returns_ret.
Qed.

(** ** The requests of a pass *)

Definition no_status_write (c : call) : Prop :=
  match c with CPatchSetStatus _ _ => False | _ => True end.

(** What is claimed of a status write. *)
Definition write_ok (tr : trace) (c : call) : Prop :=
  match c with
  | CPatchSetStatus _ s' => admitted s' ∧ schema_valid (setStatus s')
  | _ => True
  end.

Lemma no_status_write_ok tr c : no_status_write c → write_ok tr c.
Proof. by destruct c. Qed.

Lemma status_ok_valid st : status_ok refs st → schema_valid st.
Proof.
  intros [? ? ? ? Hr Ha Hn Hp Hc]. pose proof (ad_count _ Had) as Hcount. pose proof (ad_names _ Had) as Hnames.
  rewrite Forall_forall in Hp. split_and!.
  - pose proof (conditions_ok_length _ _ Hc) as Hl. cbn in Hl. lia.
  - apply Hc.
  - destruct Hn as [Hn| ->]; [|cbn; lia]. rewrite <- (length_map psName), Hn, length_map. done.
  - destruct Hn as [->| ->]; [done|apply NoDup_nil_2].
  - intros c Hin. by apply Hc.
  - intros a Hsome. destruct (Ha a Hsome) as (_ & _ & Hac). pose proof (conditions_ok_length _ _ Hac) as Hl.
    cbn in Hl. split; [lia|apply Hac].
  - intros r Hsome. destruct (Hr r Hsome) as (_ & _ & _ & _ & _ & Hrc).
    pose proof (conditions_ok_length _ _ Hrc) as Hl. cbn in Hl. split; [lia|apply Hrc].
  - intros p Hin. destruct (Hp p Hin) as (? & ? & Hpr & Hpc). pose proof (conditions_ok_length _ _ Hpc) as Hl.
    cbn in Hl. split; [by apply Hp|]. split; [lia|]. intros r Hsome.
    destruct (Hpr r Hsome) as (_ & _ & _ & _ & _ & Hrc). pose proof (conditions_ok_length _ _ Hrc) as Hl'.
    cbn in Hl'. lia.
Qed.

Section requests.
Context (R : trace → ∀ c, resp c → Prop).

Lemma wp_no_status {A} (p : prog A) (Q : A → Prop) tr :
  all_calls no_status_write p → returns Q p → wp R write_ok p (λ _ a, Q a) tr.
Proof. intros Hc Hr. eapply wp_calls_returns; [exact Hc|exact Hr|apply no_status_write_ok]. Qed.

Lemma wp_patchStatus st tr : status_ok refs st → wp R write_ok (patchStatus set st) (λ _ _, True) tr.
Proof.
  intros Hst. unfold patchStatus. case_goal; [by apply wp_ret|].
  apply wp_bind, wp_send; [|by intros [] _; apply wp_ret].
  split; [|by apply status_ok_valid]. destruct Had. split; try done. by exists refs.
Qed.

Lemma recordWarningEvent_no_status s reason action msg :
  all_calls no_status_write (recordWarningEvent cfg s reason action msg).
Proof. unfold recordWarningEvent. calls_steps; exact I. Qed.

Lemma earlyReturn_writes st reason action msg tr :
  reason ≠ "" → status_ok refs st → wp R write_ok (earlyReturn now cfg set st reason action msg) (λ _ _, True) tr.
Proof.
  intros Hr Hst. unfold earlyReturn. apply wp_bind.
  eapply wp_mono; [apply (wp_no_status _ (λ _, True)); [apply recordWarningEvent_no_status|apply returns_any]|].
  intros tr1 [] _. apply wp_bind. eapply wp_mono; [apply wp_patchStatus|by intros; apply wp_ret].
  apply setEarlyReturnConditions_ok; [apply Had|done|done].
Qed.

Lemma finishPass_writes keep total requeue result st tr :
  loop_ok result st → wp R write_ok (finishPass now cfg set keep total requeue result st) (λ _ _, True) tr.
Proof.
  intros [Hr Hst]. pose proof (ad_generation _ Had) as Hg. unfold finishPass. cbv zeta.
  assert (status_ok refs (applyChildResultConditions now (with_stReadyClusterCount st (crReady result)) result total g
    (rbacEnabled set))) as Hst'.
  { apply applyChildResultConditions_ok; [done|]. by destruct Hst; split. }
  apply wp_bind. eapply wp_mono.
  { apply wp_patchStatus. case_match; [|by apply setNotDeletingCondition_ok].
    do 2 (apply setStatusCondition_ok; [done| |known|known|done]). done. }
  intros tr1 [s' perr] _. eapply wp_mono; [apply (wp_no_status _ (λ _, True)); [|apply returns_any]|done].
  pose proof recordWarningEvent_no_status. calls_steps; try exact I; done.
Qed.

Lemma resolvePlacementRefs_no_status : all_calls no_status_write (resolvePlacementRefs now set g).
Proof.
  unfold resolvePlacementRefs. apply all_calls_bind; [|done]. apply all_calls_foldM. intros acc ref.
  apply all_calls_bind; [|done]. unfold resolvePlacementRef. apply all_calls_bind; [|by intros [[] ?]].
  eapply all_calls_mono; [apply resolveOCMPlacement_calls|by intros []].
Qed.

Lemma reconcileChildren_no_status resolver res names cleanup statuses st :
  all_calls no_status_write (reconcileChildren now resolver set res names cleanup statuses st).
Proof.
  unfold reconcileChildren, reconcileCluster, rolloutCluster, settledCluster, reconcileAccess,
    reconcileWorkloadMSA, reconcileRBAC, reconcileSlice, aggregateExistingRBACSummary, deleteStaleChildren,
    deleteStaleWork, deleteStaleMSA, ensureManagedServiceAccount, ensureManifestWork,
    ensureControllerAccessManagedServiceAccount, ensureControllerAccessManifestWork, ensureChild. cbv zeta.
  cbn [client_Get client_Create client_Patch msaObject workObject].
  calls_steps; try exact I; (eapply all_calls_mono; [apply desiredRBACSlices_reads|by intros []]).
Qed.

Lemma reconcileResolved_writes res st tr :
  status_ok refs st → wp R write_ok (reconcileResolved now cfg set res st) (λ _ _, True) tr.
Proof.
  intros Hst. pose proof (ad_generation _ Had) as Hg. unfold reconcileResolved. cbv zeta.
  assert (status_ok refs (with_stObservedGeneration
    (setStatusCondition now st conditionPlacementResolved ConditionTrue reasonResolved "placement refs resolved" g) g))
    as Hst1.
  { destruct (setStatusCondition_ok now refs g Hg st conditionPlacementResolved ConditionTrue reasonResolved
      "placement refs resolved" Hst ltac:(known) ltac:(known) ltac:(done)). by split. }
  revert Hst1. generalize (with_stObservedGeneration
    (setStatusCondition now st conditionPlacementResolved ConditionTrue reasonResolved "placement refs resolved" g) g).
  intros st1 Hst1. apply wp_bind. eapply wp_mono.
  { apply wp_no_status; [|apply planRollout_ok]. eapply all_calls_mono; [apply planRollout_reads|by intros []]. }
  intros tr1 [plan|e] Hplan.
  - specialize (Hplan plan eq_refl). apply wp_bind. eapply wp_mono.
    { apply wp_no_status; [apply reconcileChildren_no_status|apply reconcileChildren_ok].
      apply applyPlacementRolledOutCondition_ok; [done|]. apply applyPlacementRolloutStatus_ok; [done|].
      destruct Hst1, Hplan. by split. }
    intros tr2 [result st2] Hloop. by apply finishPass_writes.
  - apply wp_bind. eapply wp_mono;
      [apply (wp_no_status _ (λ _, True)); [apply recordWarningEvent_no_status|apply returns_any]|].
    intros tr2 [] _. apply wp_bind. eapply wp_mono; [apply wp_patchStatus|by intros; apply wp_ret].
    by apply applyChildResultConditions_ok.
Qed.

Lemma waitForCleanup_writes n m tr : wp R write_ok (waitForCleanup now set n m) (λ _ _, True) tr.
Proof.
  unfold waitForCleanup. cbv zeta. pose proof (ad_generation _ Had) as Hg. apply wp_bind.
  eapply wp_mono; [apply wp_patchStatus|].
  - do 2 (apply setStatusCondition_ok; [done| |known|known|done]). destruct newStatus_ok. by split.
  - intros tr1 [s' [e|]] _; by apply wp_ret.
Qed.

Lemma reconcileDelete_writes tr : wp R write_ok (reconcileDelete now set) (λ _ _, True) tr.
Proof.
  assert (∀ A B (p : prog A) (k : A → prog B) tr, all_calls no_status_write p →
    (∀ a tr, wp R write_ok (k a) (λ _ _, True) tr) → wp R write_ok (p ≫= k) (λ _ _, True) tr) as Hseq.
  { intros A B p k tr1 Hp Hk. apply wp_bind.
    eapply wp_mono; [by apply (wp_no_status _ (λ _, True)); [|apply returns_any]|]. intros tr2 a _. apply Hk. }
  unfold reconcileDelete. apply Hseq; [by split|]. intros [works|e] tr1; [|by apply wp_ret].
  apply Hseq; [unfold deleteWork; calls_steps; exact I|]. intros [e|] tr2; [by apply wp_ret|].
  case_goal; [apply waitForCleanup_writes|]. apply Hseq; [by split|]. intros [msas|e] tr3; [|by apply wp_ret].
  apply Hseq; [unfold deleteMSA; calls_steps; exact I|]. intros [e|] tr4; [by apply wp_ret|].
  case_goal; [apply waitForCleanup_writes|].
  eapply wp_mono; [apply (wp_no_status _ (λ _, True)); [|apply returns_any]|done].
  unfold removeFinalizer. calls_steps; exact I.
Qed.

Lemma reconcileSet_writes tr : wp R write_ok (reconcileSet now cfg set) (λ _ _, True) tr.
Proof.
  unfold reconcileSet. case_goal.
  { apply wp_bind. eapply wp_mono; [apply reconcileDelete_writes|by intros; apply wp_ret]. }
  unfold reconcileLive. destruct (AddFinalizer _ _) as [l []].
  { eapply wp_mono; [apply (wp_no_status _ (λ _, True)); [|apply returns_any]|done]. calls_steps; exact I. }
  unfold reconcileSpec. cbv zeta. destruct (validateRuntimeSpec set) as [e|].
  { apply earlyReturn_writes; [done|apply newStatus_ok]. }
  apply wp_bind. eapply wp_mono;
    [apply wp_no_status; [apply resolvePlacementRefs_no_status|apply resolvePlacementRefs_ok]|].
  intros tr1 res [Hn Hp].
  assert (status_ok refs (with_stSelectedClusterCount (with_stPlacements (newStatus set) (resPlacementStatuses res))
    (int32_len (resClusters res)))) as Hst.
  { destruct newStatus_ok. split; try done; [apply int32_len_ok|by left]. }
  repeat case_goal; first [by apply earlyReturn_writes|by apply reconcileResolved_writes].
Qed.

End requests.

End pass.

(** A set without a status. *)
Lemma empty_admitted set :
  setStatus set = emptyStatus → (0 <= setGeneration set)%Z →
  length (specPlacementRefs (setSpec set)) <= 16 → NoDup (map prefName (specPlacementRefs (setSpec set))) →
  admitted set.
Proof.
  intros Hst Hg Hl Hnd. split; [done|done|done|]. exists []. rewrite Hst. split; try done; auto with schema.
Qed.

(** C7: The shape of the status is an invariant of the controller.  A set that
    has no status yet has it; and if the set a pass reads has it (its conditions
    are of the controller's own types, once each), so has every status the pass
    writes, whatever the API server answers, so that the next pass starts from
    it again: the conditions of the set, of its placements, of the rollout
    summaries and of the controller access are maps by type within the list
    bounds of the schema, each with a valid status, a reason, a generation and a
    transition time; the placements are a map by name with at most 16 entries;
    and all counters are int32.  That counters are not negative and that
    messages keep their length limit is not claimed. *)
Theorem Reconcile_status_schema `{MetaConditions} `{!ConditionLists} `{LabelsLib} `{SemanticEquality} `{JSONCodec}
    `{ApiErrors} `{ControllerUtil} `{ClusterGroups} `{PlacementTracker}
    {W} (h : handler W) (w : W) now cfg req :
  (∀ set, setStatus set = emptyStatus → (0 <= setGeneration set)%Z →
     length (specPlacementRefs (setSpec set)) <= 16 →
     NoDup (map prefName (specPlacementRefs (setSpec set))) → admitted set) ∧
  ((∀ set, (h (CGetSet req) w).1 = Ok set → admitted set) →
   trace_ok write_ok (out_trace (run h (Reconcile now cfg req) w))).
Proof.
  split; [exact empty_admitted|]. intros Hread. unfold run, Reconcile. rewrite (exec_send_bind h (CGetSet req)).
  destruct (h (CGetSet req) w) as [[set|e] w'] eqn:E; cbn [fst snd]; [|by split].
  match goal with |- trace_ok _ (out_trace (exec h ?p w' ?tr)) =>
    apply (wp_exec h (λ _, True) any_answer write_ok p (λ _ _, True) w' tr); [done|done| |by split] end.
  apply wp_bind. eapply wp_mono; [by apply reconcileSet_writes, Hread|].
  intros tr1 pass _. eapply wp_mono; [eapply wp_calls with (P := no_status_write)|done].
  - unfold stopNamespaceCaches. calls_steps; exact I.
  - apply no_status_write_ok.
Qed.

Section witnesses.
Import Ref.

(** The message of the Ready condition joins the errors of all clusters: with a
    thousand clusters whose namespace is missing it is longer than the 32768
    characters that the schema allows for a message. *)
Example failing_fleet_message :
  let result := foldl recordErr emptyChildResult
                  (replicate (Z.to_nat 1000) (ErrStatus "NotFound" "namespaces cluster-0001 not found")) in
  let st := applyChildResultConditions 0 (newStatus sampleSet) result (Z.to_nat 1000) 1 true in
  (λ c, (32768 <? Z.of_nat (String.length (condMessage c)))%Z) <$>
    FindStatusCondition (stConditions st) conditionReady = Some true.
Proof. vm_compute. reflexivity. Qed.

Lemma sampleSet_admitted : admitted sampleSet.
Proof.
  split; [done|cbn; lia|apply (bool_decide_unpack _); by vm_compute|].
  exists []. split; try done; auto with schema.
Qed.

(** The pass over the sample set writes one status, with six conditions. *)
Lemma Reconcile_status_schema_witness :
  let tr := out_trace (run server (Reconcile 0 (mkConfig true true true) sampleKey) sampleWorld) in
  trace_ok write_ok tr ∧
  omap (λ e, match ev_call e with CPatchSetStatus _ s => Some (length (stConditions (setStatus s))) | _ => None end) tr
    = [6].
Proof.
  split.
  - apply (proj2 (Reconcile_status_schema server sampleWorld 0 (mkConfig true true true) sampleKey)).
    intros s Hs. vm_compute in Hs. injection Hs as <-. exact sampleSet_admitted.
  - vm_compute. reflexivity.
Defined.

End witnesses.
