(* ===== verification/System.v ===== *)
(** * The controller against the reference server

    Liveness and convergence need an API server that keeps what it is told:
    the controller runs against the reference server and its agents.  A set
    that is being deleted is gone after three passes, with everything it owned
    and nothing else; and ensuring a child twice writes once. *)

From S2P Require Import Prelude GoStd ApiTypes Interfaces Reference Effects Samples Store.
From S2P Require Import Metadata Rbac ControllerAccess Validation Conditions Children Placement Rollout.
From S2P Require Import Cleanup ReconcileChildren Reconcile.
From Stdlib Require Import ZArith Lia.

Section system.
Context `{MetaConditions} `{LabelsLib} `{SemanticEquality} `{JSONCodec} `{ApiErrors} `{ControllerUtil}
        `{ClusterGroups} `{PlacementTracker} `{RolloutPolicy}.
Context (now : Z) (cfg : reconcilerConfig).

Lemma notFound_IsNotFound : IsNotFound notFound = true.
Proof. apply IsNotFound_status. Qed.

(** ** Deleting a list of children *)

(** [k] is the key of an item that is not terminating. *)
Definition targeted {A} (meta : A → ObjectMeta) (items : list A) (k : NamespacedName) : Prop :=
  ∃ o, o ∈ items ∧ live (meta o) = true ∧ ObjectKey (meta o) = k.

(** Map [m'] is [m] after the targeted objects were deleted: they are gone or
    terminating, every other entry is untouched. *)
Definition deleted {A} (meta : A → ObjectMeta) (items : list A) (m m' : gmap NamespacedName A) : Prop :=
  ∀ k, (targeted meta items k → ∀ o, m' !! k = Some o → live (meta o) = false) ∧
       (¬ targeted meta items k → m' !! k = m !! k).

Lemma deleted_nil {A} (meta : A → ObjectMeta) m : deleted meta [] m m.
Proof. intros k. split; [|done]. by intros (o & Ho%elem_of_nil & _). Qed.

Lemma targeted_cons {A} (meta : A → ObjectMeta) x items k :
  targeted meta (x :: items) k ↔ (live (meta x) = true ∧ ObjectKey (meta x) = k) ∨ targeted meta items k.
Proof.
  split.
  - intros (o & [->|Ho]%elem_of_cons & Hl & Hk); [by left|right; by exists o].
  - intros [[Hl Hk]|(o & Ho & Hl & Hk)]; [exists x; split_and!; [left|done|done]|].
    exists o. split_and!; [by right|done|done].
Qed.

Lemma deleted_skip {A} (meta : A → ObjectMeta) x items m m' :
  live (meta x) = false → deleted meta items m m' → deleted meta (x :: items) m m'.
Proof.
  intros Hx Hd k. destruct (Hd k) as [Ha Hb]. rewrite targeted_cons, Hx. split.
  - intros [[? _]|Ht]; [done|by apply Ha].
  - intros Hn. apply Hb. tauto.
Qed.

Lemma classic_targeted {A} (meta : A → ObjectMeta) items k :
  targeted meta items k ∨ ¬ targeted meta items k.
Proof.
  unfold targeted. induction items as [|x items IH].
  - right. by intros (o & Ho%elem_of_nil & _).
  - destruct IH as [(o & ? & ?)|IH]; [left; exists o; split; [by right|done]|].
    destruct (live (meta x)) eqn:El; [destruct (decide (ObjectKey (meta x) = k)) as [Ek|Ek]|].
    + left. exists x. split_and!; [left|done|done].
    + right. intros (o & [->|Ho]%elem_of_cons & ? & ?); [congruence|]. apply IH. by exists o.
    + right. intros (o & [->|Ho]%elem_of_cons & ? & ?); [congruence|]. apply IH. by exists o.
Qed.

Lemma deleted_step {A} (meta : A → ObjectMeta) x items m m1 m' :
  live (meta x) = true →
  (∀ o, m1 !! ObjectKey (meta x) = Some o → live (meta o) = false) →
  (∀ k, k ≠ ObjectKey (meta x) → m1 !! k = m !! k) →
  deleted meta items m1 m' → deleted meta (x :: items) m m'.
Proof.
  intros Hx Hk1 Hk2 Hd k. destruct (Hd k) as [Ha Hb]. rewrite targeted_cons. split.
  - intros Ht o Ho. destruct (decide (k = ObjectKey (meta x))) as [->|Hne].
    + destruct (classic_targeted meta items (ObjectKey (meta x))) as [Hy|Hn]; [by apply Ha|].
      rewrite Hb in Ho by done. by apply Hk1.
    + destruct Ht as [[_ Hk]|Ht]; [congruence|by apply Ha].
  - intros Hn. rewrite Hb by tauto. apply Hk2. intros ->. tauto.
Qed.

Lemma joinDeleteError_server r :
  r = Ok tt ∨ r = Err notFound → joinDeleteError None r = None.
Proof. intros [->| ->]; simpl; [done|]. by rewrite IgnoreNotFound_spec, notFound_IsNotFound. Qed.

Lemma delete_work_server k w :
  let '(r, w') := delete_work k w in
  (r = Ok tt ∨ r = Err notFound) ∧ wSets w' = wSets w ∧ wMSAs w' = wMSAs w ∧
  (∀ o, wWorks w' !! k = Some o → live (mwMeta o) = false) ∧
  (∀ k', k' ≠ k → wWorks w' !! k' = wWorks w !! k').
Proof.
  unfold delete_work. destruct (wWorks w !! k) as [s|] eqn:E; cycle 1.
  { split_and!; auto. intros o Ho. congruence. }
  destruct (omFinalizers (mwMeta s)); cbn [wSets wMSAs wWorks with_wWorks]; split_and!; auto.
  - intros o. by rewrite lookup_delete_eq.
  - intros k' Hne. by rewrite lookup_delete_ne.
  - intros o. rewrite lookup_insert_eq. by intros [= <-].
  - intros k' Hne. by rewrite lookup_insert_ne.
Qed.

Lemma delete_msa_server k w :
  let '(r, w') := delete_msa k w in
  (r = Ok tt ∨ r = Err notFound) ∧ wSets w' = wSets w ∧ wWorks w' = wWorks w ∧
  (∀ o, wMSAs w' !! k = Some o → live (msaMeta o) = false) ∧
  (∀ k', k' ≠ k → wMSAs w' !! k' = wMSAs w !! k').
Proof.
  unfold delete_msa. destruct (wMSAs w !! k) as [s|] eqn:E; cycle 1.
  { split_and!; auto. intros o Ho. congruence. }
  destruct (omFinalizers (msaMeta s)); cbn [wSets wMSAs wWorks with_wMSAs]; split_and!; auto.
  - intros o. by rewrite lookup_delete_eq.
  - intros k' Hne. by rewrite lookup_delete_ne.
  - intros o. rewrite lookup_insert_eq. by intros [= <-].
  - intros k' Hne. by rewrite lookup_insert_ne.
Qed.

Lemma deleteWork_server x w :
  eval server (deleteWork None x) w =
  (None, if live (mwMeta x) then (delete_work (ObjectKey (mwMeta x)) w).2 else w).
Proof.
  unfold deleteWork. destruct (live (mwMeta x)) eqn:El; cycle 1.
  { by rewrite bool_decide_eq_true_2 by (by apply live_false). }
  rewrite bool_decide_eq_false_2 by (rewrite <- live_false, El; done).
  rewrite eval_bind, (eval_send server (CDeleteWork x)). cbn [server]. pose proof (delete_work_server (ObjectKey (mwMeta x)) w) as Hd.
  destruct (delete_work (ObjectKey (mwMeta x)) w) as [r w1]. destruct Hd as (Hr & _).
  cbn. by rewrite joinDeleteError_server.
Qed.

Lemma deleteMSA_server x w :
  eval server (deleteMSA None x) w =
  (None, if live (msaMeta x) then (delete_msa (ObjectKey (msaMeta x)) w).2 else w).
Proof.
  unfold deleteMSA. destruct (live (msaMeta x)) eqn:El; cycle 1.
  { by rewrite bool_decide_eq_true_2 by (by apply live_false). }
  rewrite bool_decide_eq_false_2 by (rewrite <- live_false, El; done).
  rewrite eval_bind, (eval_send server (CDeleteMSA x)). cbn [server]. pose proof (delete_msa_server (ObjectKey (msaMeta x)) w) as Hd.
  destruct (delete_msa (ObjectKey (msaMeta x)) w) as [r w1]. destruct Hd as (Hr & _).
  cbn. by rewrite joinDeleteError_server.
Qed.

Lemma deleteWork_loop_server items w :
  (eval server (foldM deleteWork None items) w).1 = None ∧
  let w' := (eval server (foldM deleteWork None items) w).2 in
  wSets w' = wSets w ∧ wMSAs w' = wMSAs w ∧ deleted mwMeta items (wWorks w) (wWorks w').
Proof.
  revert w. induction items as [|x items IH]; intros w; cbn [foldM]; [split_and!; auto using deleted_nil|].
  rewrite eval_bind, deleteWork_server. cbn [fst snd]. destruct (live (mwMeta x)) eqn:El.
  - pose proof (delete_work_server (ObjectKey (mwMeta x)) w) as Hd.
    destruct (delete_work (ObjectKey (mwMeta x)) w) as [r w1]. destruct Hd as (_ & Hs & Hm & Hk1 & Hk2).
    cbn [snd]. destruct (IH w1) as (Hi1 & Hi2 & Hi3 & Hi4). cbv zeta. rewrite Hi2, Hi3. split_and!; try done.
    by eapply deleted_step.
  - destruct (IH w) as (Hi1 & Hi2 & Hi3 & Hi4). split_and!; try done. by apply deleted_skip.
Qed.

Lemma deleteMSA_loop_server items w :
  (eval server (foldM deleteMSA None items) w).1 = None ∧
  let w' := (eval server (foldM deleteMSA None items) w).2 in
  wSets w' = wSets w ∧ wWorks w' = wWorks w ∧ deleted msaMeta items (wMSAs w) (wMSAs w').
Proof.
  revert w. induction items as [|x items IH]; intros w; cbn [foldM]; [split_and!; auto using deleted_nil|].
  rewrite eval_bind, deleteMSA_server. cbn [fst snd]. destruct (live (msaMeta x)) eqn:El.
  - pose proof (delete_msa_server (ObjectKey (msaMeta x)) w) as Hd.
    destruct (delete_msa (ObjectKey (msaMeta x)) w) as [r w1]. destruct Hd as (_ & Hs & Hm & Hk1 & Hk2).
    cbn [snd]. destruct (IH w1) as (Hi1 & Hi2 & Hi3 & Hi4). cbv zeta. rewrite Hi2, Hi3. split_and!; try done.
    by eapply deleted_step.
  - destruct (IH w) as (Hi1 & Hi2 & Hi3 & Hi4). split_and!; try done. by apply deleted_skip.
Qed.

(** ** One pass over a set that is being deleted *)

Definition ownedWorks (s : ManagedServiceAccountReplicaSet) (w : Cluster) : list ManifestWork :=
  filter (λ o, Matches (ownedSelector s) (omLabels (mwMeta o)) = true) (map snd (map_to_list (wWorks w))).

Definition ownedMSAs (s : ManagedServiceAccountReplicaSet) (w : Cluster) : list ManagedServiceAccount :=
  filter (λ o, Matches (ownedSelector s) (omLabels (msaMeta o)) = true) (map snd (map_to_list (wMSAs w))).

Lemma ownedWorks_elem s w o :
  o ∈ ownedWorks s w ↔ ownedWork s o ∧ ∃ k, wWorks w !! k = Some o.
Proof.
  unfold ownedWorks, ownedWork, ownedBySet. rewrite list_elem_of_filter. f_equiv.
  rewrite list_elem_of_fmap. split.
  - intros ([k o'] & -> & Hin). exists k. by apply elem_of_map_to_list.
  - intros [k Hk]. exists (k, o). split; [done|]. by apply elem_of_map_to_list.
Qed.

Lemma ownedMSAs_elem s w o :
  o ∈ ownedMSAs s w ↔ ownedMSA s o ∧ ∃ k, wMSAs w !! k = Some o.
Proof.
  unfold ownedMSAs, ownedMSA, ownedBySet. rewrite list_elem_of_filter. f_equiv.
  rewrite list_elem_of_fmap. split.
  - intros ([k o'] & -> & Hin). exists k. by apply elem_of_map_to_list.
  - intros [k Hk]. exists (k, o). split; [done|]. by apply elem_of_map_to_list.
Qed.

(** Writing the status of a stored set keeps everything else of it. *)
Lemma patchStatus_server s st w :
  wSets w !! ObjectKey (setMeta s) = Some s →
  let r := eval server (patchStatus s st) w in
  r.1.2 = None ∧ wMSAs r.2 = wMSAs w ∧ wWorks r.2 = wWorks w ∧
  ∃ st', wSets r.2 = <[ObjectKey (setMeta s) := with_status s st']> (wSets w).
Proof.
  intros Hs. unfold patchStatus. destruct (DeepEqual (setStatus s) st); simpl.
  { split_and!; auto. exists (setStatus s). rewrite insert_id; [done|]. by destruct s. }
  unfold patch_set_status. cbn [with_status setMeta]. rewrite Hs. simpl. split_and!; auto. by exists st.
Qed.

Lemma waitForCleanup_server s nw nm w :
  wSets w !! ObjectKey (setMeta s) = Some s →
  let r := eval server (waitForCleanup now s nw nm) w in
  wMSAs r.2 = wMSAs w ∧ wWorks r.2 = wWorks w ∧
  ∃ st', wSets r.2 = <[ObjectKey (setMeta s) := with_status s st']> (wSets w).
Proof.
  intros Hs. unfold waitForCleanup. cbv zeta. rewrite eval_bind.
  match goal with |- context [patchStatus s ?st] =>
    destruct (patchStatus_server s st w Hs) as (Hp & ? & ? & ?) end.
  rewrite Hp. done.
Qed.

Lemma removeFinalizer_server s w :
  wSets w !! ObjectKey (setMeta s) = Some s → is_Some (omDeletionTimestamp (setMeta s)) →
  let w' := (eval server (removeFinalizer s) w).2 in
  wMSAs w' = wMSAs w ∧ wWorks w' = wWorks w ∧
  (wSets w' !! ObjectKey (setMeta s) = None ∨
   ∃ l, wSets w' !! ObjectKey (setMeta s) = Some (with_meta s (with_finalizers (setMeta s) l)) ∧
        finalizerName ∉ l).
Proof.
  intros Hs [d Hd]. unfold removeFinalizer.
  destruct (decide (finalizerName ∈ omFinalizers (setMeta s))) as [Hin|Hin].
  - destruct (RemoveFinalizer_present _ _ Hin) as [Hrm Hl].
    destruct (RemoveFinalizer _ _) as [l b]. cbn [fst snd] in *. subst b. cbn [negb]. cbv zeta.
    set (s' := with_meta s (with_finalizers (setMeta s) l)).
    rewrite eval_bind, (eval_send server (CPatchSet s s' true)). cbn [server]. unfold patch_set.
    change (ObjectKey (setMeta s')) with (ObjectKey (setMeta s)).
    rewrite Hs, bool_decide_eq_true_2 by done. cbn [andb negb]. rewrite Hd.
    change (omFinalizers (setMeta s')) with l.
    destruct l as [|f l]; cbn; split_and!; auto.
    + left. apply lookup_delete_eq.
    + right. exists (f :: l). split; [apply lookup_insert_eq|]. intros Hf. by apply Hl in Hf as [_ ?].
  - rewrite RemoveFinalizer_absent by done. cbn. split_and!; auto. right.
    exists (omFinalizers (setMeta s)). split; [|done]. rewrite Hs. f_equal. by destruct s as [[] ? ?].
Qed.

(** The three stages of finalization, on the server. *)
Lemma reconcileDelete_server s w :
  wSets w !! ObjectKey (setMeta s) = Some s → is_Some (omDeletionTimestamp (setMeta s)) →
  let w' := (eval server (reconcileDelete now s) w).2 in
  let kept := ∃ st, wSets w' !! ObjectKey (setMeta s) = Some (with_status s st) in
  (ownedWorks s w ≠ [] → kept ∧ wMSAs w' = wMSAs w ∧
     deleted mwMeta (ownedWorks s w) (wWorks w) (wWorks w')) ∧
  (ownedWorks s w = [] → wWorks w' = wWorks w ∧
     (ownedMSAs s w ≠ [] → kept ∧ deleted msaMeta (ownedMSAs s w) (wMSAs w) (wMSAs w')) ∧
     (ownedMSAs s w = [] → wMSAs w' = wMSAs w ∧
        (wSets w' !! ObjectKey (setMeta s) = None ∨
         ∃ l, wSets w' !! ObjectKey (setMeta s) = Some (with_meta s (with_finalizers (setMeta s) l)) ∧
              finalizerName ∉ l))).
Proof.
  intros Hs Hd. cbv zeta. unfold reconcileDelete. rewrite eval_bind.
  rewrite (eval_send server (CListWorks (generatedChildListOptions s))). cbn [server fst snd].
  unfold generatedChildListOptions. fold (ownedWorks s w). rewrite eval_bind.
  destruct (deleteWork_loop_server (ownedWorks s w) w) as (Hj & Hws & Hwm & Hdel).
  rewrite Hj. set (w1 := (eval server (foldM deleteWork None (ownedWorks s w)) w).2) in *.
  assert (wSets w1 !! ObjectKey (setMeta s) = Some s) as Hs1 by (by rewrite Hws).
  destruct (ownedWorks s w) as [|o os] eqn:Ew; cbn [length Nat.ltb Nat.leb]; (split; [intros Hne|intros Heq]); try done.
  - clear Hj Hdel. subst w1. cbn [foldM eval mret prog_ret snd] in *.
    rewrite eval_bind, (eval_send server (CListMSAs (ownedSelector s))). cbn [server fst snd].
    fold (ownedMSAs s w). rewrite eval_bind.
    destruct (deleteMSA_loop_server (ownedMSAs s w) w) as (Hj & Hms & Hmw & Hmdel).
    rewrite Hj. set (w2 := (eval server (foldM deleteMSA None (ownedMSAs s w)) w).2) in *.
    assert (wSets w2 !! ObjectKey (setMeta s) = Some s) as Hs2 by (by rewrite Hms).
    destruct (ownedMSAs s w) as [|m ms] eqn:Em; cbn [length Nat.ltb Nat.leb].
    + destruct (removeFinalizer_server s w2 Hs2 Hd) as (Hr1 & Hr2 & Hr3).
      rewrite Hr1, Hr2. split_and!; [done|done|]. intros _. split; [done|exact Hr3].
    + destruct (waitForCleanup_server s 0 (length (m :: ms)) w2 Hs2) as (Hr1 & Hr2 & st & Hr3).
      cbn [length] in *. rewrite Hr1, Hr2, Hr3. split_and!; [done| |done]. intros _. split; [|done].
      exists st. apply lookup_insert_eq.
  - destruct (waitForCleanup_server s (length (o :: os)) 0 w1 Hs1) as (Hr1 & Hr2 & st & Hr3).
    cbn [length] in *. rewrite Hr1, Hr2, Hr3. split_and!; [|done|done]. exists st. apply lookup_insert_eq.
Qed.

(** ** Three passes finish a deletion *)

Context (s : ManagedServiceAccountReplicaSet).

Local Abbreviation req := (ObjectKey (setMeta s)).

(** One pass of the controller on the set, and the agents afterwards. *)
Definition pass (w : Cluster) : Cluster := (eval server (Reconcile now cfg req) w).2.

Fixpoint passes (n : nat) (w : Cluster) : Cluster :=
  match n with
  | O => w
  | S n' => passes n' (agents (pass w))
  end.

(** [s'] is the same object as [s] at another moment of its deletion. *)
Definition incarnation (s' : ManagedServiceAccountReplicaSet) : Prop :=
  ObjectKey (setMeta s') = req ∧ setUID s' = setUID s ∧ is_Some (omDeletionTimestamp (setMeta s')).

(** The finalizer is not there any more, or the set is gone. *)
Definition released (w : Cluster) : Prop :=
  ∀ s', wSets w !! req = Some s' → finalizerName ∉ omFinalizers (setMeta s').

Record finalizing (w : Cluster) : Prop := {
  fin_keyed : keyed w;
  fin_set s' : wSets w !! req = Some s' → incarnation s';
  fin_clean : released w → ownedWorks s w = [] ∧ ownedMSAs s w = [];
}.

(** Children that are not owned by the set, and not terminating, are kept. *)
Definition others_kept (w w' : Cluster) : Prop :=
  (∀ k o, wWorks w !! k = Some o → live (mwMeta o) = true → ¬ ownedWork s o → wWorks w' !! k = Some o) ∧
  (∀ k o, wMSAs w !! k = Some o → live (msaMeta o) = true → ¬ ownedMSA s o → wMSAs w' !! k = Some o).

Lemma incarnation_labels s' : incarnation s' → sourceLabels s' = sourceLabels s.
Proof. intros ([= Hns Hn] & Hu & _). unfold sourceLabels. by rewrite Hns, Hn, Hu. Qed.

Lemma incarnation_selector s' : incarnation s' → ownedSelector s' = ownedSelector s.
Proof. intros Hi. unfold ownedSelector. by rewrite incarnation_labels. Qed.

Lemma agents_works w k o :
  wWorks (agents w) !! k = Some o ↔ wWorks w !! k = Some o ∧ live (mwMeta o) = true.
Proof.
  unfold agents, live. cbn [wWorks with_wWorks]. rewrite map_lookup_filter_Some. simpl.
  by rewrite bool_decide_eq_true.
Qed.

Lemma agents_msas w k o :
  wMSAs (agents w) !! k = Some o ↔ wMSAs w !! k = Some o ∧ live (msaMeta o) = true.
Proof.
  unfold agents, live. cbn [wMSAs with_wWorks with_wMSAs]. rewrite map_lookup_filter_Some. simpl.
  by rewrite bool_decide_eq_true.
Qed.

(** After the agents ran, nothing of a deleted list is left. *)
Lemma deleted_works_gone w w' :
  keyed w → deleted mwMeta (ownedWorks s w) (wWorks w) (wWorks w') → ownedWorks s (agents w') = [].
Proof.
  intros (_ & _ & Hk) Hd. destruct (ownedWorks s (agents w')) as [|o l] eqn:E; [done|exfalso].
  assert (o ∈ ownedWorks s (agents w')) as Hin by (rewrite E; left).
  apply ownedWorks_elem in Hin as (Ho & k & [Hl Hlive]%agents_works).
  destruct (Hd k) as [Ha Hb].
  destruct (classic_targeted mwMeta (ownedWorks s w) k) as [Ht|Ht]; [specialize (Ha Ht o Hl); congruence|].
  rewrite Hb in Hl by done. apply Ht. exists o. split_and!; [|done|by apply Hk].
  apply ownedWorks_elem. eauto.
Qed.

Lemma deleted_msas_gone w w' :
  keyed w → deleted msaMeta (ownedMSAs s w) (wMSAs w) (wMSAs w') → ownedMSAs s (agents w') = [].
Proof.
  intros (_ & Hk & _) Hd. destruct (ownedMSAs s (agents w')) as [|o l] eqn:E; [done|exfalso].
  assert (o ∈ ownedMSAs s (agents w')) as Hin by (rewrite E; left).
  apply ownedMSAs_elem in Hin as (Ho & k & [Hl Hlive]%agents_msas).
  destruct (Hd k) as [Ha Hb].
  destruct (classic_targeted msaMeta (ownedMSAs s w) k) as [Ht|Ht]; [specialize (Ha Ht o Hl); congruence|].
  rewrite Hb in Hl by done. apply Ht. exists o. split_and!; [|done|by apply Hk].
  apply ownedMSAs_elem. eauto.
Qed.

(** The agents create nothing. *)
Lemma agents_ownedWorks w : ownedWorks s w = [] → ownedWorks s (agents w) = [].
Proof.
  intros E. destruct (ownedWorks s (agents w)) as [|o l] eqn:E'; [done|exfalso].
  assert (o ∈ ownedWorks s (agents w)) as Hin by (rewrite E'; left).
  apply ownedWorks_elem in Hin as (Ho & k & [Hl _]%agents_works).
  assert (o ∈ ownedWorks s w) as Hin by (apply ownedWorks_elem; eauto).
  rewrite E in Hin. by apply elem_of_nil in Hin.
Qed.

Lemma agents_ownedMSAs w : ownedMSAs s w = [] → ownedMSAs s (agents w) = [].
Proof.
  intros E. destruct (ownedMSAs s (agents w)) as [|o l] eqn:E'; [done|exfalso].
  assert (o ∈ ownedMSAs s (agents w)) as Hin by (rewrite E'; left).
  apply ownedMSAs_elem in Hin as (Ho & k & [Hl _]%agents_msas).
  assert (o ∈ ownedMSAs s w) as Hin by (apply ownedMSAs_elem; eauto).
  rewrite E in Hin. by apply elem_of_nil in Hin.
Qed.

(** A targeted key of an owned list holds an owned object. *)
Lemma targeted_owned_work w k o :
  keyed w → wWorks w !! k = Some o → ¬ ownedWork s o → ¬ targeted mwMeta (ownedWorks s w) k.
Proof.
  intros (_ & _ & Hk) Hl Hn (o' & (Ho' & k' & Hl')%ownedWorks_elem & _ & Hkey).
  rewrite (Hk _ _ Hl') in Hkey. subst k'. congruence.
Qed.

Lemma targeted_owned_msa w k o :
  keyed w → wMSAs w !! k = Some o → ¬ ownedMSA s o → ¬ targeted msaMeta (ownedMSAs s w) k.
Proof.
  intros (_ & Hk & _) Hl Hn (o' & (Ho' & k' & Hl')%ownedMSAs_elem & _ & Hkey).
  rewrite (Hk _ _ Hl') in Hkey. subst k'. congruence.
Qed.

Lemma eval_keyed {A} (p : prog A) w : keyed w → keyed (eval server p w).2.
Proof.
  revert w. induction p as [a|c k IH]; intros w Hk; simpl; [done|].
  pose proof (server_keyed c w Hk) as Hk'. destruct (server c w) as [r w']. by apply IH.
Qed.

Lemma agents_keyed w : keyed w → keyed (agents w).
Proof.
  intros (Hs & Hm & Hw). split_and!; [done|..].
  - intros k o [Hl _]%agents_msas. by apply Hm.
  - intros k o [Hl _]%agents_works. by apply Hw.
Qed.

Lemma pass_absent w : wSets w !! req = None → pass w = w.
Proof.
  intros E. unfold pass, Reconcile. rewrite eval_bind, (eval_send server (CGetSet req)).
  cbn [server]. unfold find_obj. by rewrite E.
Qed.

Lemma pass_present w s' :
  wSets w !! req = Some s' → is_Some (omDeletionTimestamp (setMeta s')) →
  pass w = (eval server (reconcileDelete now s') w).2.
Proof.
  intros E Hd. unfold pass, Reconcile. rewrite eval_bind, (eval_send server (CGetSet req)).
  cbn [server]. unfold find_obj. rewrite E. cbn [fst snd]. rewrite eval_bind. unfold reconcileSet.
  rewrite bool_decide_eq_true_2 by done. rewrite eval_bind. cbn [eval mret prog_ret fst snd].
  rewrite eval_bind. unfold stopNamespaceCaches. by destruct (_ && _).
Qed.

(** What the objects of the other owners see of a stage. *)
Lemma others_kept_agents w w' :
  keyed w →
  (wWorks w' = wWorks w ∨ deleted mwMeta (ownedWorks s w) (wWorks w) (wWorks w')) →
  (wMSAs w' = wMSAs w ∨ deleted msaMeta (ownedMSAs s w) (wMSAs w) (wMSAs w')) →
  others_kept w (agents w').
Proof.
  intros Hk Hw Hm. split; intros k o Hl Hlive Hn.
  - apply agents_works. split; [|done]. destruct Hw as [->|Hd]; [done|].
    rewrite (proj2 (Hd k)); [done|]. by eapply targeted_owned_work.
  - apply agents_msas. split; [|done]. destruct Hm as [->|Hd]; [done|].
    rewrite (proj2 (Hd k)); [done|]. by eapply targeted_owned_msa.
Qed.

Lemma ownedWorks_eq s' w : incarnation s' → ownedWorks s' w = ownedWorks s w.
Proof. intros Hi. unfold ownedWorks. by rewrite incarnation_selector. Qed.

Lemma ownedMSAs_eq s' w : incarnation s' → ownedMSAs s' w = ownedMSAs s w.
Proof. intros Hi. unfold ownedMSAs. by rewrite incarnation_selector. Qed.

Lemma ownedWorks_same w w' : wWorks w' = wWorks w → ownedWorks s w' = ownedWorks s w.
Proof. unfold ownedWorks. by intros ->. Qed.

Lemma ownedMSAs_same w w' : wMSAs w' = wMSAs w → ownedMSAs s w' = ownedMSAs s w.
Proof. unfold ownedMSAs. by intros ->. Qed.

(** A status patch does not touch the finalizer. *)
Lemma released_status w w' s' st :
  wSets w !! req = Some s' → wSets w' !! req = Some (with_status s' st) → released w' → released w.
Proof. intros E E' Hr s2 Hs2. rewrite E in Hs2. injection Hs2 as <-. exact (Hr _ E'). Qed.

Lemma finalizing_status w w' s' st :
  finalizing w → keyed w' → wSets w !! req = Some s' → wSets w' !! req = Some (with_status s' st) →
  ownedWorks s w ≠ [] ∨ ownedMSAs s w ≠ [] → finalizing w'.
Proof.
  intros [Hk Hset Hclean] Hk' E E' Hne. split; [done| |].
  - intros s2 Hs2. rewrite E' in Hs2. injection Hs2 as <-. exact (Hset _ E).
  - intros Hr. destruct (Hclean (released_status _ _ _ _ E E' Hr)) as [Hcw Hcm]. by destruct Hne.
Qed.

(** One pass with the agents behind it moves finalization on by a stage. *)
Lemma finalizing_step w :
  finalizing w →
  let w' := agents (pass w) in
  finalizing w' ∧ others_kept w w' ∧ ownedWorks s w' = [] ∧
  (ownedWorks s w = [] → ownedMSAs s w' = []) ∧
  (ownedWorks s w = [] → ownedMSAs s w = [] → released w').
Proof.
  intros Hfin. pose proof Hfin as [Hk Hset Hclean]. cbv zeta.
  assert (keyed (agents (pass w))) as Hk' by (by apply agents_keyed, eval_keyed).
  destruct (wSets w !! req) as [s'|] eqn:E; cycle 1.
  { destruct Hclean as [Hw Hm]; [intros s'; by rewrite E|]. rewrite pass_absent in * by done.
    assert (wSets (agents w) !! req = None) as E' by done.
    split_and!; auto using agents_ownedWorks, agents_ownedMSAs.
    - split; [done|by rewrite E'|]. auto using agents_ownedWorks, agents_ownedMSAs.
    - apply others_kept_agents; auto.
    - intros _ _ s'. by rewrite E'. }
  pose proof (Hset s' eq_refl) as Hi. pose proof Hi as (Hkey & _ & Hd).
  rewrite (pass_present w s') in * by done. pose proof E as E0. rewrite <- Hkey in E0.
  destruct (reconcileDelete_server s' w E0 Hd) as [Hst1 Hst2]. rewrite Hkey, ownedWorks_eq, ownedMSAs_eq in * by done.
  set (w1 := (eval server (reconcileDelete now s') w).2) in *.
  destruct (ownedWorks s w) as [|o os] eqn:Ew; cycle 1.
  - destruct Hst1 as ((st & Hs1) & Hm1 & Hd1); [done|]. rewrite <- Ew in Hd1.
    pose proof (deleted_works_gone w w1 Hk Hd1) as Hgone.
    split_and!; [|apply others_kept_agents; auto|done|done|done].
    eapply (finalizing_status w _ s' st); auto. left. by rewrite Ew.
  - destruct Hst2 as (Hw1 & Hne & Hemp); [done|].
    assert (ownedWorks s (agents w1) = []) as Hwe
      by (apply agents_ownedWorks; by rewrite (ownedWorks_same w)).
    destruct (ownedMSAs s w) as [|m ms] eqn:Em.
    + destruct Hemp as (Hm1 & Hrel); [done|].
      assert (ownedMSAs s (agents w1) = []) as Hme
        by (apply agents_ownedMSAs; by rewrite (ownedMSAs_same w)).
      assert (released (agents w1)) as Hr.
      { intros s2 Hs2. change (wSets w1 !! req = Some s2) in Hs2.
        destruct Hrel as [Hn|(l & Hl & Hnin)]; [congruence|]. rewrite Hl in Hs2. by injection Hs2 as <-. }
      split_and!; [|apply others_kept_agents; auto|done|done|done].
      split; [done| |done]. intros s2 Hs2. change (wSets w1 !! req = Some s2) in Hs2.
      destruct Hrel as [Hn|(l & Hl & Hnin)]; [congruence|]. rewrite Hl in Hs2. by injection Hs2 as <-.
    + destruct Hne as ((st & Hs1) & Hd1); [done|]. rewrite <- Em in Hd1.
      pose proof (deleted_msas_gone w w1 Hk Hd1) as Hgone.
      split_and!; [|apply others_kept_agents; auto|done|done|done].
      eapply (finalizing_status w _ s' st); auto. right. by rewrite Em.
Qed.

Lemma others_kept_trans w1 w2 w3 : others_kept w1 w2 → others_kept w2 w3 → others_kept w1 w3.
Proof. intros [Hw Hm] [Hw' Hm']. split; eauto. Qed.

(** C8: three passes, each followed by one run of the agents, finish the
    deletion of a set on the reference API server: the set is gone or rid of
    the operator's finalizer, no ManifestWork and no ManagedServiceAccount with
    its ownership labels is left, and every live child of another owner is
    untouched. *)
Theorem deletion_completes w :
  finalizing w →
  released (passes 3 w) ∧ ownedWorks s (passes 3 w) = [] ∧ ownedMSAs s (passes 3 w) = [] ∧
  others_kept w (passes 3 w).
Proof.
  intros Hf. cbn [passes].
  destruct (finalizing_step w Hf) as (Hf1 & Ho1 & Hw1 & _ & _).
  destruct (finalizing_step _ Hf1) as (Hf2 & Ho2 & Hw2 & Hm2 & _). specialize (Hm2 Hw1).
  destruct (finalizing_step _ Hf2) as (Hf3 & Ho3 & Hw3 & Hm3 & Hr3).
  split_and!; [by apply Hr3|done|by apply Hm3|]. eauto using others_kept_trans.
Qed.

End system.

(** ** Ensuring a child converges *)

(** What the reference server does for one kind of child: the objects it holds,
    and what reading, creating and patching does to them.  [marshallable] objects
    are those whose manifests can be marshalled. *)
Class Served (T : Type) `{ClientObject T} `{LabelsLib} `{SemanticEquality} `{RolloutPolicy} := {
  specOps : childSpecOps T;
  marshallable : T → Prop;
  stored : Cluster → gmap NamespacedName T;
  with_stored : Cluster → gmap NamespacedName T → Cluster;
  served_stored w m : stored (with_stored w m) = m;
  served_id w : with_stored w (stored w) = w;
  served_get k w : eval server (client_Get k) w = (find_obj (stored w) k, w);
  served_create o w :
    stored w !! ObjectKey (objMeta o) = None →
    eval server (client_Create o) w =
      (Ok o, with_stored w (<[ObjectKey (objMeta o) := o]> (stored w)));
  served_patch cur d w :
    stored w !! ObjectKey (objMeta cur) = Some cur →
    let p := patchedChild cur d specOps in
    eval server (client_Patch cur p) w =
      (Ok p, with_stored w (<[ObjectKey (objMeta cur) := p]> (stored w)));
  served_meta cur d :
    objMeta (patchedChild cur d specOps) =
    with_annotations (with_labels (objMeta cur) (omLabels (objMeta d))) (omAnnotations (objMeta d));
  served_equal cur d : marshallable d → ops_equal specOps (patchedChild cur d specOps) d = true;
  served_equal_refl d : marshallable d → ops_equal specOps d d = true;
}.

Section converge.
Context `{LabelsLib} `{SemanticEquality} `{JSONCodec} `{ApiErrors} `{RolloutPolicy}.

#[export] Instance served_msas : Served ManagedServiceAccount.
Proof.
  refine {| specOps := msaSpecOps; marshallable _ := True; stored := wMSAs;
            with_stored := with_wMSAs |}.
  - done.
  - by intros [].
  - intros k w. by rewrite (eval_send server (CGetMSA k)).
  - intros o w E. cbn [client_Create msaObject]. rewrite (eval_send server (CCreateMSA o)).
    cbn [server]. unfold create_msa. cbn [objMeta msaObject] in E. by rewrite E.
  - intros cur d w E p. cbn [client_Patch msaObject]. rewrite (eval_send server (CPatchMSA cur p)).
    cbn [server]. unfold patch_msa. change (ObjectKey (msaMeta p)) with (ObjectKey (msaMeta cur)).
    cbn [objMeta msaObject] in E. by rewrite E.
  - done.
  - intros cur d _. apply DeepEqual_refl.
  - intros d _. apply DeepEqual_refl.
Defined.

#[export] Instance served_works : Served ManifestWork.
Proof.
  refine {| specOps := manifestWorkSpecOps; stored := wWorks; with_stored := with_wWorks;
            marshallable o := encodable (mwSpec o) |}.
  - done.
  - by intros [].
  - intros k w. by rewrite (eval_send server (CGetWork k)).
  - intros o w E. cbn [client_Create workObject]. rewrite (eval_send server (CCreateWork o)).
    cbn [server]. unfold create_work. cbn [objMeta workObject] in E. by rewrite E.
  - intros cur d w E p. cbn [client_Patch workObject]. rewrite (eval_send server (CPatchWork cur p)).
    cbn [server]. unfold patch_work. change (ObjectKey (mwMeta p)) with (ObjectKey (mwMeta cur)).
    cbn [objMeta workObject] in E. by rewrite E.
  - done.
  - intros cur d Hd. by apply manifestWorkSpecsEqual_refl.
  - intros d Hd. by apply manifestWorkSpecsEqual_refl.
Defined.

(** What [ensureChild] does on the server when the key is free or owned: the
    object it answers with matches the desired one and is what is stored. *)
Lemma ensureChild_server {T} `{ClientObject T} `{!Served T} set (d : T) w :
  marshallable d → ownedBySet set (omLabels (objMeta d)) = true →
  (∀ k cur, stored w !! k = Some cur → ObjectKey (objMeta cur) = k) →
  (∀ cur, stored w !! ObjectKey (objMeta d) = Some cur → ownedBySet set (omLabels (objMeta cur)) = true) →
  ∃ o, eval server (ensureChild set d specOps) w =
         (Ok o, with_stored w (<[ObjectKey (objMeta d) := o]> (stored w))) ∧
    childMatches o d specOps = true ∧ ownedBySet set (omLabels (objMeta o)) = true ∧
    (o = d ∨ ∃ cur, stored w !! ObjectKey (objMeta d) = Some cur ∧
               omDeletionTimestamp (objMeta o) = omDeletionTimestamp (objMeta cur) ∧
               ObjectKey (objMeta o) = ObjectKey (objMeta cur)).
Proof.
  intros Henc Hd Hk Ho. unfold ensureChild. rewrite eval_bind, served_get. cbn [fst snd].
  unfold find_obj. destruct (stored w !! _) as [cur|] eqn:E.
  - rewrite (Ho cur eq_refl). cbn [negb]. destruct (childMatches cur d specOps) eqn:Em.
    + exists cur. rewrite insert_id, served_id by done. split_and!; auto. right. by exists cur.
    + pose proof (Hk _ _ E) as Hkey. rewrite <- Hkey in E. rewrite (served_patch cur d w E), <- Hkey.
      eexists. split_and!; [done| |by rewrite served_meta|].
      * unfold childMatches. rewrite served_meta. cbn. by rewrite !DeepEqual_refl, served_equal.
      * right. exists cur. by rewrite served_meta.
  - unfold notFound at 1. rewrite IsNotFound_status, (served_create d w E).
    eexists. split_and!; [done| |done|by left].
    unfold childMatches. by rewrite !DeepEqual_refl, served_equal_refl.
Qed.

(** Once the stored child matches, ensuring it again changes nothing. *)
Lemma ensureChild_stable {T} `{ClientObject T} `{!Served T} set (d o : T) w :
  stored w !! ObjectKey (objMeta d) = Some o → childMatches o d specOps = true →
  ownedBySet set (omLabels (objMeta o)) = true →
  eval server (ensureChild set d specOps) w = (Ok o, w).
Proof.
  intros E Em Ho. unfold ensureChild. rewrite eval_bind, served_get. cbn [fst snd].
  unfold find_obj. by rewrite E, Ho, Em.
Qed.

(** A child of another owner is reported and left alone. *)
Lemma ensureChild_foreign {T} `{ClientObject T} `{!Served T} set (d cur : T) w :
  stored w !! ObjectKey (objMeta d) = Some cur → ownedBySet set (omLabels (objMeta cur)) = false →
  ∃ e, eval server (ensureChild set d specOps) w = (Err e, w) ∧ is_errChildConflict e = true.
Proof.
  intros E Ho. unfold ensureChild. rewrite eval_bind, served_get. cbn [fst snd].
  unfold find_obj. rewrite E, Ho. eexists. split; [done|]. done.
Qed.

(** The outcome of ensuring a child twice, whatever was stored under its key. *)
Definition converges {T} `{ClientObject T} `{!Served T} set (d : T) (p : prog (result T)) (w : Cluster) : Prop :=
  (∃ cur e, stored w !! ObjectKey (objMeta d) = Some cur ∧ ownedBySet set (omLabels (objMeta cur)) = false ∧
     eval server p w = (Err e, w) ∧ is_errChildConflict e = true) ∨
  (∃ o w', eval server p w = (Ok o, w') ∧ stored w' = <[ObjectKey (objMeta d) := o]> (stored w) ∧
     omLabels (objMeta o) = omLabels (objMeta d) ∧ omAnnotations (objMeta o) = omAnnotations (objMeta d) ∧
     ops_equal specOps o d = true ∧ eval server p w' = (Ok o, w')).

Lemma ensureChild_converges {T} `{ClientObject T} `{!Served T} set (d : T) w :
  marshallable d → ownedBySet set (omLabels (objMeta d)) = true →
  (∀ k cur, stored w !! k = Some cur → ObjectKey (objMeta cur) = k) →
  converges set d (ensureChild set d specOps) w.
Proof.
  intros Henc Hd Hk. destruct (stored w !! ObjectKey (objMeta d)) as [cur|] eqn:E;
    [destruct (ownedBySet set (omLabels (objMeta cur))) eqn:Eo|].
  2:{ left. destruct (ensureChild_foreign set d cur w E Eo) as (e & He & Hc). eauto 10. }
  all: right; destruct (ensureChild_server set d w Henc Hd Hk) as (o & He & Hm & Ho & _);
    [intros cur' E'; congruence|]; eexists o, _; pose proof Hm as Hm';
    unfold childMatches in Hm'; rewrite !andb_true_iff, !DeepEqual_spec in Hm';
    destruct Hm' as [[Hl Ha] Heq]; split_and!; try done; try apply served_stored;
    apply ensureChild_stable; try done; rewrite served_stored; apply lookup_insert_eq.
Qed.

Lemma ensureManagedServiceAccount_converges set cl ref w :
  keyed w →
  converges set (buildManagedServiceAccount set cl ref) (ensureManagedServiceAccount set cl ref) w.
Proof.
  intros (_ & Hk & _). unfold ensureManagedServiceAccount. change msaSpecOps with (specOps (T := ManagedServiceAccount)).
  apply (ensureChild_converges set (buildManagedServiceAccount set cl ref) w); [exact I|apply buildMSA_owned|exact Hk].
Qed.

(** The manifests of a work are compared as JSON. *)
Lemma ensureManifestWork_converges set cl ref slice w :
  keyed w → (∀ m, m ∈ sliceManifests slice → is_Some (rawExtensionJSON m)) →
  converges set (buildManifestWork set cl ref slice) (ensureManifestWork set cl ref slice) w.
Proof.
  intros (_ & _ & Hk) Hm. unfold ensureManifestWork. change manifestWorkSpecOps with (specOps (T := ManifestWork)).
  apply (ensureChild_converges set (buildManifestWork set cl ref slice) w); [exact Hm|apply buildWork_owned|exact Hk].
Qed.


End converge.

(** ** The theorems on concrete fleets *)

Section witnesses.
Import Ref.

Definition deletingSet : ManagedServiceAccountReplicaSet :=
  sampleSetWith [grantReadNodes] ["placement-a"] [finalizerName] (Some 5%Z).

Definition foreignMSA : ManagedServiceAccount :=
  mkManagedServiceAccount (mkTypeMeta msaGroupVersion "ManagedServiceAccount")
    (newMeta "msa" "cluster-b" {["team" := "other"]} ∅) (mkManagedServiceAccountSpec true 0 None) [].

Definition deletingSlice : rbacSlice :=
  mkRbacSlice "work" rbacClusterSliceType ""
    (renderClusterGrant deletingSet grantReadNodes (grantSubject deletingSet)) "".

(** A set in deletion with an account and a work of its own, next to an
    account of somebody else. *)
Definition deletingWorld : Cluster :=
  sampleWorldWith deletingSet
    [buildManagedServiceAccount deletingSet "cluster-a" "placement-a"; foreignMSA]
    [buildManifestWork deletingSet "cluster-a" "placement-a" deletingSlice].

Lemma deletingWorld_finalizing : finalizing deletingSet deletingWorld.
Proof.
  split; [apply sampleWorldWith_keyed| |].
  - intros s' Hs. vm_compute in Hs. injection Hs as <-. split_and!; [done|done|by eexists].
  - intros Hr. exfalso. apply (Hr deletingSet); [vm_compute; reflexivity|]. by left.
Qed.

Lemma deletion_completes_witness :
  let w' := passes 0 (mkConfig true true true) deletingSet 3 deletingWorld in
  released deletingSet w' ∧ wMSAs w' !! ObjectKey (msaMeta foreignMSA) = Some foreignMSA.
Proof.
  destruct (deletion_completes 0 (mkConfig true true true) deletingSet deletingWorld
              deletingWorld_finalizing) as (Hr & _ & _ & Ho).
  split; [exact Hr|]. apply (proj2 Ho); [vm_compute; reflexivity|vm_compute; reflexivity|].
  intros Hf. vm_compute in Hf. discriminate Hf.
Defined.

Lemma deletingSlice_encodable m : m ∈ sliceManifests deletingSlice → is_Some (rawExtensionJSON m).
Proof. intros _. unfold rawExtensionJSON. repeat case_goal; by eexists. Qed.


End witnesses.
