(* ===== verification/Evaluation.v ===== *)
(** * The components on the reference server

    What the programs of the reconcile loop compute when they run against
    [Store.server], as equations and loop rules over [eval]: programs that only
    read leave the world alone, resolution and rendering depend on the
    environment only, and the rollout plan is determined by the state of the
    children. *)

From S2P Require Import Prelude GoStd ApiTypes Interfaces Reference Effects Samples Store.
From S2P Require Import Metadata Rbac ControllerAccess Validation Conditions Children Placement Rollout.
From S2P Require Import Cleanup ReconcileChildren Reconcile System.
From Stdlib Require Import ZArith Lia.

(** ** Loop rules for [eval] *)

Section loops.
Context {W : Type} (h : handler W).

Lemma eval_ret {A} (a : A) (w : W) : eval h (mret a) w = (a, w).
Proof. done. Qed.

Lemma eval_foldM_inv {A B} (I : W → list A → B → Prop) (f : B → A → prog B) (l : list A) b w :
  I w [] b →
  (∀ done x rest b w, l = done ++ x :: rest → I w done b →
     I (eval h (f b x) w).2 (done ++ [x]) (eval h (f b x) w).1) →
  I (eval h (foldM f b l) w).2 l (eval h (foldM f b l) w).1.
Proof.
  intros H0 Hstep.
  enough (∀ todo done b w, l = done ++ todo → I w done b →
            I (eval h (foldM f b todo) w).2 l (eval h (foldM f b todo) w).1) as Hgen
    by (by apply (Hgen l [])).
  intros todo. induction todo as [|x todo IH]; intros done b' w' Hl HI; cbn [foldM].
  - rewrite app_nil_r in Hl. by subst.
  - rewrite eval_bind. apply (IH (done ++ [x])); [by rewrite <- app_assoc|]. by eapply Hstep.
Qed.

(** The same for a loop that does not fail. *)
Lemma eval_foldE_inv {A B} (I : W → list A → B → Prop) (f : B → A → prog (B * option error))
    (l : list A) b w :
  I w [] b →
  (∀ done x rest b w, l = done ++ x :: rest → I w done b →
     (eval h (f b x) w).1.2 = None ∧ I (eval h (f b x) w).2 (done ++ [x]) (eval h (f b x) w).1.1) →
  (eval h (foldE f b l) w).1.2 = None ∧
  I (eval h (foldE f b l) w).2 l (eval h (foldE f b l) w).1.1.
Proof.
  intros H0 Hstep.
  enough (∀ todo done b w, l = done ++ todo → I w done b →
            (eval h (foldE f b todo) w).1.2 = None ∧
            I (eval h (foldE f b todo) w).2 l (eval h (foldE f b todo) w).1.1) as Hgen
    by (by apply (Hgen l [])).
  intros todo. induction todo as [|x todo IH]; intros done b' w' Hl HI; cbn [foldE].
  - rewrite app_nil_r in Hl. by subst.
  - rewrite eval_bind. destruct (Hstep _ _ _ _ _ Hl HI) as [-> Hn].
    apply (IH (done ++ [x])); [by rewrite <- app_assoc|done].
Qed.

(** Loops whose bodies agree. *)
Lemma eval_foldE_ext {A B} (f g : B → A → prog (B * option error)) (l : list A) b w :
  (∀ b x w, eval h (f b x) w = eval h (g b x) w) →
  eval h (foldE f b l) w = eval h (foldE g b l) w.
Proof.
  intros Hfg. revert b w. induction l as [|x l IH]; intros b w; cbn [foldE]; [done|].
  rewrite !eval_bind, Hfg. destruct (eval h (g b x) w) as [[b' [e|]] w']; [done|apply IH].
Qed.

End loops.

(** ** Reads and the environment *)

(** What the controller never writes. *)
Definition same_env (w w' : Cluster) : Prop :=
  wPlacements w' = wPlacements w ∧ wDecisions w' = wDecisions w ∧
  wNamespaces w' = wNamespaces w ∧ wRemote w' = wRemote w.

#[export] Instance same_env_equiv : Equivalence same_env.
Proof.
  split; [by intros ?|intros ? ? (? & ? & ? & ?); by split_and!|].
  intros ? ? ? (? & ? & ? & ?) (? & ? & ? & ?). split_and!; by etrans.
Qed.

(** Requests that do not change the world. *)
Definition reading (c : call) : Prop :=
  match c with
  | CPatchSet _ _ _ | CPatchSetStatus _ _ | CCreateMSA _ | CPatchMSA _ _ | CDeleteMSA _
  | CCreateWork _ | CPatchWork _ _ | CDeleteWork _ => False
  | _ => True
  end.

(** Requests whose answer depends on the environment only. *)
Definition env_reading (c : call) : Prop :=
  match c with
  | CGetPlacement _ | CListPlacementDecisions _ _ | CGetNamespace _
  | CResolveNamespaceSelector _ _ _ _ => True
  | _ => False
  end.

Section reads.
Context `{LabelsLib} `{RolloutPolicy}.

Lemma server_env c w : same_env w (server c w).2.
Proof.
  destruct c; try reflexivity; simpl;
    unfold patch_set, patch_set_status, create_msa, patch_msa, delete_msa, create_work, patch_work, delete_work;
    repeat case_goal; done.
Qed.

Lemma eval_same_env {A} (p : prog A) w : same_env w (eval server p w).2.
Proof.
  revert w. induction p as [a|c k IH]; intros w; simpl; [done|].
  pose proof (server_env c w) as Hc. destruct (server c w) as [r w']. etrans; [exact Hc|apply IH].
Qed.

Lemma eval_reading {A} (p : prog A) w : all_calls reading p → (eval server p w).2 = w.
Proof.
  revert w. induction p as [a|c k IH]; intros w; simpl; [done|]. intros [Hc Hk].
  destruct (server c w) as [r w'] eqn:E. replace w' with w; [by apply IH|].
  destruct c; try done; simpl in E; by injection E.
Qed.

Lemma eval_env_reading {A} (p : prog A) w w' :
  all_calls env_reading p → same_env w w' → (eval server p w').1 = (eval server p w).1.
Proof.
  intros Hp Henv. pose proof Henv as (Hpl & Hd & Hns & Hr).
  induction p as [a|c k IH]; simpl; [done|]. destruct Hp as [Hc Hk].
  destruct c; try done; simpl; rewrite ?Hpl, ?Hd, ?Hns, ?Hr; by apply IH.
Qed.

Lemma eval_read_eq {A} (p : prog A) w : all_calls reading p → eval server p w = ((eval server p w).1, w).
Proof. intros Hp. rewrite <- (eval_reading p w Hp) at 3. by destruct (eval server p w). Qed.

End reads.

Lemma child_read_reading c : child_read c → reading c.
Proof. by destruct c. Qed.

Lemma plan_read_reading c : plan_read c → reading c.
Proof. by destruct c. Qed.

Lemma placement_read_reading c : placement_read c → reading c.
Proof. by destruct c. Qed.

Lemma placement_read_env c : placement_read c → env_reading c.
Proof. by destruct c. Qed.

(** ** Resolution *)

(** The part of a resolution that does not depend on the status of the set or
    on the clock. *)
Record selection := mkSelection {
  selUnion : gset string;
  selRefs : gmap string (list string);
  selGroups : gmap string ClusterGroupsMap;
  selErr : option error;
}.

Section resolution.
Context `{MetaConditions} `{LabelsLib} `{RolloutPolicy} `{ClusterGroups} `{PlacementTracker}.

(** What the placement of a name resolves to, and its clusters. *)
Definition answerOf (s : ManagedServiceAccountReplicaSet) (w : Cluster) (name : string)
    : option Placement * ClusterGroupsMap * option error :=
  (eval server (resolveOCMPlacement (setNamespace s) name) w).1.

Definition groupsOf (s : ManagedServiceAccountReplicaSet) (w : Cluster) (name : string) : ClusterGroupsMap :=
  (answerOf s w name).1.2.

Definition selectRef (s : ManagedServiceAccountReplicaSet) (w : Cluster) (acc : selection)
    (ref : PlacementRef) : selection :=
  let clusters := sets_List (GetClusters (groupsOf s w (prefName ref))) in
  mkSelection (sets_New clusters ∪ selUnion acc)
    (foldl (λ m cl, <[cl := default [] (m !! cl) ++ [prefName ref]]> m) (selRefs acc) clusters)
    (<[prefName ref := groupsOf s w (prefName ref)]> (selGroups acc))
    (match (answerOf s w (prefName ref)).2 with
     | Some e => errors_Join [selErr acc; Some e]
     | None => selErr acc
     end).

Definition selectionAt (s : ManagedServiceAccountReplicaSet) (w : Cluster) : selection :=
  foldl (selectRef s w) (mkSelection ∅ ∅ ∅ None) (specPlacementRefs (setSpec s)).

(** The primary ref of a cluster. *)
Definition refAt (s : ManagedServiceAccountReplicaSet) (w : Cluster) (cl : string) : string :=
  match selRefs (selectionAt s w) !! cl with Some (ref :: _) => ref | _ => "" end.

(** A resolution with that selection. *)
Definition resolves (s : ManagedServiceAccountReplicaSet) (w : Cluster) (res : placementResolution) : Prop :=
  let sel := selectionAt s w in
  resClusters res = sets_List (selUnion sel) ∧ resClusterPlacementRefs res = selRefs sel ∧
  resClusterGroupsByRef res = selGroups sel ∧ resErr res = selErr sel.

Lemma resolves_primaryRef s w res cl : resolves s w res → primaryRef res cl = refAt s w cl.
Proof. intros (_ & Hr & _). unfold primaryRef, refAt. by rewrite Hr. Qed.

Lemma resolvePlacementRef_eval now s ref g prev w :
  let a := answerOf s w (prefName ref) in
  ∃ st, eval server (resolvePlacementRef now s ref g prev) w = (mkRefOutcome a.1.1 a.1.2 st a.2, w).
Proof.
  unfold resolvePlacementRef. rewrite eval_bind, (eval_read_eq (resolveOCMPlacement _ _)) by
    (eapply all_calls_mono; [apply resolveOCMPlacement_calls|apply placement_read_reading]).
  fold (answerOf s w (prefName ref)). cbn [fst snd].
  destruct (answerOf s w (prefName ref)) as [[pl gr] err]. by eexists.
Qed.

Lemma resolvePlacementRefs_eval now s g w :
  (eval server (resolvePlacementRefs now s g) w).2 = w ∧
  resolves s w (eval server (resolvePlacementRefs now s g) w).1.
Proof.
  unfold resolvePlacementRefs. rewrite eval_bind.
  match goal with |- context [foldM ?f ?b ?l] =>
    destruct (eval_foldM_inv server (λ w' done acc, w' = w ∧
      mkSelection (raUnion acc) (raRefs acc) (raGroups acc) (raErr acc) =
      foldl (selectRef s w) (mkSelection ∅ ∅ ∅ None) done) f l b w) as [Hw Hacc] end.
  - done.
  - intros done ref rest acc w' _ [-> Hacc]. rewrite eval_bind.
    destruct (resolvePlacementRef_eval now s ref g (previousConditions s (prefName ref)) w) as [st ->].
    cbn [eval mret prog_ret fst snd]. split; [done|]. by rewrite foldl_app, <- Hacc.
  - unfold resolves, selectionAt. rewrite <- Hacc. cbn. done.
Qed.

Lemma answerOf_env s w w' name : same_env w w' → answerOf s w' name = answerOf s w name.
Proof.
  intros Henv. apply eval_env_reading; [|done].
  eapply all_calls_mono; [apply resolveOCMPlacement_calls|apply placement_read_env].
Qed.

(** The selection is a function of the spec and the environment. *)
Lemma selectionAt_env s st w w' : same_env w w' → selectionAt (with_status s st) w' = selectionAt s w.
Proof.
  intros Henv. unfold selectionAt. cbn [with_status setSpec].
  generalize (mkSelection ∅ ∅ ∅ None). induction (specPlacementRefs (setSpec s)) as [|ref refs IH]; intros acc;
    cbn [foldl]; [done|]. rewrite IH. f_equal. unfold selectRef, groupsOf.
  change (answerOf (with_status s st) w' (prefName ref)) with (answerOf s w' (prefName ref)).
  by rewrite (answerOf_env s w w').
Qed.

Lemma refAt_env s st w w' cl : same_env w w' → refAt (with_status s st) w' cl = refAt s w cl.
Proof. intros Henv. unfold refAt. by rewrite (selectionAt_env s st w w'). Qed.

Lemma selectionAt_spec s w :
  (∀ x, x ∈ selUnion (selectionAt s w) ↔
     ∃ ref, ref ∈ specPlacementRefs (setSpec s) ∧ x ∈ GetClusters (groupsOf s w (prefName ref))) ∧
  (∀ ref, ref ∈ specPlacementRefs (setSpec s) →
     selGroups (selectionAt s w) !! prefName ref = Some (groupsOf s w (prefName ref))).
Proof.
  unfold selectionAt. induction (specPlacementRefs (setSpec s)) as [|ref refs IH] using rev_ind.
  - split; [|by intros ? ?%elem_of_nil]. intros x. split; [by intros ?%elem_of_empty|].
    by intros (? & ?%elem_of_nil & _).
  - rewrite foldl_app. cbn [foldl]. destruct IH as [IHu IHg]. split.
    + intros x. cbn [selectRef selUnion]. rewrite elem_of_union, sets_New_elem_of, sets_List_elem_of, IHu.
      setoid_rewrite elem_of_app. setoid_rewrite list_elem_of_singleton. naive_solver.
    + intros ref' Hin. cbn [selectRef selGroups].
      destruct (decide (prefName ref' = prefName ref)) as [->|Hne]; [apply lookup_insert_eq|].
      rewrite lookup_insert_ne by done. apply IHg.
      apply elem_of_app in Hin as [?|Hin]; [done|]. apply list_elem_of_singleton in Hin. by subst.
Qed.

End resolution.

(** ** The children a set wants in a cluster, and their state *)

Section children.
Context `{MetaConditions} `{LabelsLib} `{SemanticEquality} `{JSONCodec} `{ApiErrors} `{RolloutPolicy}.
Context (resolver : bool).

(** The rendered slices; they depend on the spec and the environment only. *)
Definition slicesAt (s : ManagedServiceAccountReplicaSet) (w : Cluster) (cl : string)
    : list rbacSlice * option error :=
  (eval server (desiredRBACSlices s cl resolver) w).1.

Lemma resolveGrantNamespaces_status s st cl grant w :
  eval server (resolveGrantNamespaces (with_status s st) cl grant resolver) w =
  eval server (resolveGrantNamespaces s cl grant resolver) w.
Proof. unfold resolveGrantNamespaces. repeat case_goal; done. Qed.

Lemma desiredRBACSlices_env_reads s cl : all_calls env_reading (desiredRBACSlices s cl resolver).
Proof. unfold desiredRBACSlices, sliceGrant, resolveGrantNamespaces. calls_steps; simpl; done. Qed.

Lemma desiredRBACSlices_eval s cl w :
  eval server (desiredRBACSlices s cl resolver) w = (slicesAt s w cl, w).
Proof.
  apply eval_read_eq. eapply all_calls_mono; [apply desiredRBACSlices_reads|apply child_read_reading].
Qed.

Lemma slicesAt_env s st w w' cl : same_env w w' → slicesAt (with_status s st) w' cl = slicesAt s w cl.
Proof.
  intros Henv. unfold slicesAt.
  rewrite (eval_env_reading _ w w') by (done || apply desiredRBACSlices_env_reads).
  unfold desiredRBACSlices. cbn [with_status setSpec]. destruct (specRBAC (setSpec s)) as [rbac|]; [|done].
  rewrite !eval_bind.
  rewrite (eval_foldE_ext _ (sliceGrant (with_status s st) cl resolver (grantSubject (with_status s st)))
             (sliceGrant s cl resolver (grantSubject s))); [done|].
  intros acc grant w1. unfold sliceGrant. case_goal; [done|]. case_goal; [|done].
  by rewrite !eval_bind, resolveGrantNamespaces_status.
Qed.

(** Every account and every work of the set in a cluster. *)
Definition wantedMSAs (s : ManagedServiceAccountReplicaSet) (cl ref : string) : list ManagedServiceAccount :=
  (if selectorRBACEnabled s then [buildControllerAccessManagedServiceAccount s cl ref] else [])
  ++ [buildManagedServiceAccount s cl ref].

Definition wantedWorks (s : ManagedServiceAccountReplicaSet) (w : Cluster) (cl ref : string) : list ManifestWork :=
  (if selectorRBACEnabled s then [buildControllerAccessManifestWork s cl ref] else [])
  ++ (if rbacEnabled s then map (buildManifestWork s cl ref) (slicesAt s w cl).1 else []).

(** The child is stored, owned, as desired, and rolled out. *)
Definition msaDone (s : ManagedServiceAccountReplicaSet) (w : Cluster) (d : ManagedServiceAccount) : Prop :=
  ∃ o, wMSAs w !! ObjectKey (msaMeta d) = Some o ∧ ownedMSA s o ∧
       childMatches o d msaSpecOps = true ∧ managedServiceAccountReady o = true.

Definition workDone (s : ManagedServiceAccountReplicaSet) (w : Cluster) (d : ManifestWork) : Prop :=
  ∃ o, wWorks w !! ObjectKey (mwMeta d) = Some o ∧ ownedWork s o ∧
       childMatches o d manifestWorkSpecOps = true ∧ workRolledOut o.

(** No other owner holds the key. *)
Definition msaFree (s : ManagedServiceAccountReplicaSet) (w : Cluster) (d : ManagedServiceAccount) : Prop :=
  ∀ o, wMSAs w !! ObjectKey (msaMeta d) = Some o → ownedMSA s o.

Definition workFree (s : ManagedServiceAccountReplicaSet) (w : Cluster) (d : ManifestWork) : Prop :=
  ∀ o, wWorks w !! ObjectKey (mwMeta d) = Some o → ownedWork s o.

Definition clusterDone (s : ManagedServiceAccountReplicaSet) (w : Cluster) (cl ref : string) : Prop :=
  Forall (msaDone s w) (wantedMSAs s cl ref) ∧ Forall (workDone s w) (wantedWorks s w cl ref).

Definition clusterFree (s : ManagedServiceAccountReplicaSet) (w : Cluster) (cl ref : string) : Prop :=
  Forall (msaFree s w) (wantedMSAs s cl ref) ∧ Forall (workFree s w) (wantedWorks s w cl ref).

(** A check of one child on the server: no error, and Succeeded exactly when
    the child is done. *)
Definition checks {A} (P : Prop) (p : prog A) (w : Cluster) (status : A → RolloutStatus) (err : A → option error) : Prop :=
  (eval server p w).2 = w ∧ err (eval server p w).1 = None ∧
  (status (eval server p w).1 = Succeeded ↔ P).

Lemma existingMSA_eval s d w :
  msaFree s w d →
  checks (msaDone s w d) (existingManagedServiceAccountRolloutStatus s d) w (λ r, r.1.1) snd.
Proof.
  intros Hf. unfold checks, existingManagedServiceAccountRolloutStatus, msaDone, msaFree in *.
  rewrite !eval_bind, !(eval_send server (CGetMSA (ObjectKey (msaMeta d)))). cbn [server fst snd]. unfold find_obj.
  destruct (wMSAs w !! ObjectKey (msaMeta d)) as [o|] eqn:E.
  - rewrite (Hf o eq_refl). cbn [negb].
    pose proof (managedServiceAccountRolloutStatus_Succeeded o) as Hs.
    destruct (managedServiceAccountRolloutStatus o) as [st t]. cbn [fst] in Hs.
    destruct (childMatches o d msaSpecOps) eqn:Em; cbn; split_and!; try done.
    + rewrite Hs. split; [|naive_solver]. intros Hr. exists o. split_and!; try done. by apply Hf.
    + split; [done|]. intros (o' & [= <-] & _ & Hm & _). congruence.
  - rewrite notFound_IsNotFound. cbn. split_and!; try done. split; [done|]. by intros (? & ? & _).
Qed.

Lemma existingWork_eval s d w :
  workFree s w d →
  checks (workDone s w d) (existingManifestWorkRolloutStatus s d) w (λ r, r.1.1) snd.
Proof.
  intros Hf. unfold checks, existingManifestWorkRolloutStatus, workDone, workFree in *.
  rewrite !eval_bind, !(eval_send server (CGetWork (ObjectKey (mwMeta d)))). cbn [server fst snd]. unfold find_obj.
  destruct (wWorks w !! ObjectKey (mwMeta d)) as [o|] eqn:E.
  - rewrite (Hf o eq_refl). cbn [negb].
    pose proof (manifestWorkRolloutStatus_Succeeded o) as Hs.
    destruct (manifestWorkRolloutStatus o) as [st t]. cbn [fst] in Hs.
    destruct (childMatches o d manifestWorkSpecOps) eqn:Em; cbn [negb eval mret prog_ret fst snd]; split_and!; try done.
    + rewrite Hs. split; [|naive_solver]. intros Hr. exists o. split_and!; try done. by apply Hf.
    + split; [done|]. intros (o' & [= <-] & _ & Hm & _). congruence.
  - rewrite notFound_IsNotFound. cbn. split_and!; try done. split; [done|]. by intros (? & ? & _).
Qed.

(** The verdict on a cluster: it carries its name. *)
Definition verdict (cl : string) (P : Prop) (p : prog (ClusterRolloutStatus * option error)) (w : Cluster) : Prop :=
  checks P p w (λ r, crsStatus r.1) snd ∧ crsClusterName (eval server p w).1.1 = cl.

Lemma checkChild_eval cl t (P Q : Prop) check continue w :
  checks P check w (λ r, r.1.1) snd → (∀ t, verdict cl Q (continue t) w) →
  verdict cl (P ∧ Q) (checkChild cl t check continue) w.
Proof.
  intros (Hw & He & Hs) Hk. unfold verdict, checks, checkChild. rewrite !eval_bind, Hw.
  destruct (eval server check w).1 as [[st tm] err]. cbn [fst snd] in *. subst err.
  rewrite bool_decide_eq_false_2 by (by intros [? ?]). cbn [orb].
  destruct (bool_decide (st = Succeeded)) eqn:Eb; cbn [negb]; breflect.
  - destruct (Hk (newerTime t tm)) as [(Hk1 & Hk2 & Hk3) Hk4]. split_and!; try done. tauto.
  - cbn. split_and!; try done. tauto.
Qed.

Lemma checkSlices_eval s cl ref slices t w :
  Forall (workFree s w) (map (buildManifestWork s cl ref) slices) →
  verdict cl (Forall (workDone s w) (map (buildManifestWork s cl ref) slices))
    (checkSlices s cl ref slices t) w.
Proof.
  revert t. induction slices as [|sl slices IH]; intros t Hf; cbn [map checkSlices].
  { split; [|done]. by split_and!. }
  inversion Hf as [|? ? Hf1 Hf2]; subst.
  destruct (checkChild_eval cl t _ _ _ _ w (existingWork_eval s _ w Hf1) (λ t', IH t' Hf2)) as [(Hw & He & Hs) Hn].
  split; [split_and!; [done|done|]|done]. by rewrite Forall_cons.
Qed.

Lemma verdict_iff cl (P Q : Prop) p w : (P ↔ Q) → verdict cl P p w → verdict cl Q p w.
Proof. intros HPQ [(? & ? & ?) ?]. split; [split_and!; [done|done|]|done]. tauto. Qed.

Lemma checkWorkloadRBAC_eval s cl ref t w :
  (slicesAt s w cl).2 = None →
  let works := if rbacEnabled s then map (buildManifestWork s cl ref) (slicesAt s w cl).1 else [] in
  Forall (workFree s w) works →
  verdict cl (Forall (workDone s w) works) (checkWorkloadRBAC s cl ref resolver t) w.
Proof.
  intros Herr works Hf. subst works. unfold checkWorkloadRBAC. destruct (rbacEnabled s).
  - pose proof (checkSlices_eval s cl ref (slicesAt s w cl).1 t w Hf) as Hv.
    unfold verdict, checks in *. rewrite eval_bind, desiredRBACSlices_eval. cbn [fst snd]. by rewrite Herr.
  - split; [|done]. by split_and!.
Qed.

(** Everything but the workload account. *)
Definition othersDone (s : ManagedServiceAccountReplicaSet) (w : Cluster) (cl ref : string) : Prop :=
  (selectorRBACEnabled s = true → msaDone s w (buildControllerAccessManagedServiceAccount s cl ref)) ∧
  Forall (workDone s w) (wantedWorks s w cl ref).

Definition checkOthers (s : ManagedServiceAccountReplicaSet) (cl ref : string) (t : option Z)
    : prog (ClusterRolloutStatus * option error) :=
  if selectorRBACEnabled s then
    checkChild cl t
      (existingManagedServiceAccountRolloutStatus s (buildControllerAccessManagedServiceAccount s cl ref))
      (λ t1, checkChild cl t1
         (existingManifestWorkRolloutStatus s (buildControllerAccessManifestWork s cl ref))
         (checkWorkloadRBAC s cl ref resolver))
  else checkWorkloadRBAC s cl ref resolver t.

Lemma checkOthers_eval s cl ref t w :
  (slicesAt s w cl).2 = None → clusterFree s w cl ref →
  verdict cl (othersDone s w cl ref) (checkOthers s cl ref t) w.
Proof.
  intros Herr [Hfm Hfw]. unfold othersDone, checkOthers, wantedMSAs, wantedWorks in *.
  apply Forall_app in Hfm as [Hfm _]. apply Forall_app in Hfw as [Hfa Hfw].
  pose proof (λ t, checkWorkloadRBAC_eval s cl ref t w Herr Hfw) as Hrbac. cbv zeta in Hrbac.
  revert Hfm Hfa. destruct (selectorRBACEnabled s); intros Hfm Hfa.
  - rewrite Forall_singleton in Hfm. rewrite Forall_singleton in Hfa.
    eapply verdict_iff; [|apply checkChild_eval; [by apply existingMSA_eval|];
      intros t1; apply checkChild_eval; [by apply existingWork_eval|exact Hrbac]].
    rewrite Forall_app, Forall_singleton. tauto.
  - eapply verdict_iff; [|apply (Hrbac t)]. rewrite app_nil_l. split; [|tauto]. by split.
Qed.

Lemma checkAccount_eval s cl ref (Q : Prop) w :
  msaFree s w (buildManagedServiceAccount s cl ref) → (∀ t, verdict cl Q (checkOthers s cl ref t) w) →
  verdict cl (msaDone s w (buildManagedServiceAccount s cl ref) ∧ Q) (clusterRolloutStatus s cl ref resolver) w.
Proof.
  unfold clusterRolloutStatus, msaFree, msaDone. set (a := buildManagedServiceAccount s cl ref). intros Hfa Hk.
  unfold verdict, checks.
  rewrite !eval_bind, !(eval_send server (CGetMSA (ObjectKey (msaMeta a)))). cbn [server fst snd]. unfold find_obj.
  destruct (wMSAs w !! ObjectKey (msaMeta a)) as [o|] eqn:E; cycle 1.
  { rewrite notFound_IsNotFound. split; [|done]. split_and!; [done|done|]. split; [done|].
    by intros ((o & Ho & _) & _). }
  pose proof (Hfa o eq_refl) as Ho. unfold ownedMSA in Ho. rewrite Ho. cbn [negb].
  pose proof (managedServiceAccountRolloutStatus_Succeeded o) as Hs.
  destruct (managedServiceAccountRolloutStatus o) as [st t]. cbn [fst] in Hs.
  destruct (childMatches o a msaSpecOps) eqn:Em; cbn [negb]; cycle 1.
  { split; [|done]. split_and!; [done|done|]. split; [done|]. intros [(o' & [= <-] & _ & Hm & _) _]. congruence. }
  destruct (bool_decide (st = Succeeded)) eqn:Eb; breflect; cbn [negb]; cycle 1.
  { split; [|done]. split_and!; [done|done|]. cbn. rewrite Hs in Eb. split; [tauto|].
    by intros [(o' & [= <-] & _ & _ & Hr) _]. }
  destruct (Hk t) as [(Hk1 & Hk2 & Hk3) Hk4]. split; [split_and!; [exact Hk1|exact Hk2|]|exact Hk4].
  etrans; [exact Hk3|]. split; [|tauto]. intros HQ. split; [|done]. exists o. split_and!; try done. by apply Hs.
Qed.

(** The state of a cluster on the server. *)
Lemma clusterRolloutStatus_eval s cl ref w :
  (slicesAt s w cl).2 = None → clusterFree s w cl ref →
  verdict cl (clusterDone s w cl ref) (clusterRolloutStatus s cl ref resolver) w.
Proof.
  intros Herr Hfree. eapply verdict_iff; cycle 1.
  { apply checkAccount_eval; [|intros t; by apply checkOthers_eval].
    destruct Hfree as [Hfm _]. apply Forall_app in Hfm as [_ Hfm]. by inversion Hfm. }
  unfold clusterDone, othersDone, wantedMSAs. rewrite Forall_app, Forall_singleton.
  destruct (selectorRBACEnabled s); rewrite ?Forall_singleton, ?Forall_nil; naive_solver.
Qed.

End children.

(** ** The rollout plan *)

Section plan.
Context `{MetaConditions} `{LabelsLib} `{SemanticEquality} `{JSONCodec} `{ApiErrors} `{RolloutPolicy}
        `{ClusterGroups} `{PlacementTracker}.
Context (now : Z) (resolver : bool) (s : ManagedServiceAccountReplicaSet) (w : Cluster).

Definition selected : gset string := selUnion (selectionAt s w).

(** The state of a selected cluster. *)
Definition statusAt (cl : string) : ClusterRolloutStatus :=
  (eval server (clusterRolloutStatus s cl (refAt s w cl) resolver) w).1.1.

(** Every selected cluster can be looked at without an error. *)
Definition readable : Prop :=
  ∀ cl, cl ∈ selected →
    cl ≠ "" ∧ crsClusterName (statusAt cl) = cl ∧
    eval server (clusterRolloutStatus s cl (refAt s w cl) resolver) w = ((statusAt cl, None), w).

Definition pendingCluster (cl : string) : Prop := cl ∈ selected ∧ crsStatus (statusAt cl) ≠ Succeeded.

(** A map of states that agrees with the world. *)
Definition truthful (m : gmap string ClusterRolloutStatus) : Prop := ∀ x c, m !! x = Some c → c = statusAt x.

Lemma recordStatuses_truthful m l :
  truthful m → (∀ c, c ∈ l → c = statusAt (crsClusterName c)) →
  truthful (recordStatuses m l) ∧ ∀ x, is_Some (m !! x) → is_Some (recordStatuses m l !! x).
Proof.
  unfold recordStatuses. revert m. induction l as [|c l IH]; intros m Hm Hl; cbn [foldl]; [done|].
  destruct (IH (<[crsClusterName c := c]> m)) as [IH1 IH2].
  - intros x c' [[<- <-]|[_ ?]]%lookup_insert_Some; [apply Hl; by left|by apply Hm].
  - intros c' Hc'. apply Hl. by right.
  - split; [done|]. intros x Hx. apply IH2. destruct (decide (x = crsClusterName c)) as [->|Hne].
    + by rewrite lookup_insert_eq.
    + by rewrite lookup_insert_ne.
Qed.

Context (Hread : readable).

Lemma planCluster_loop res all names :
  resolves s w res → truthful all → (∀ cl, cl ∈ names → cl ∈ selected) →
  let r := eval server (foldE (planCluster resolver s res) (all, ∅, []) names) w in
  r.2 = w ∧ r.1.2 = None ∧ truthful r.1.1.1.1 ∧ r.1.1.2 = map statusAt names ∧
  (∀ x, is_Some (all !! x) ∨ x ∈ names → is_Some (r.1.1.1.1 !! x)).
Proof.
  intros Hres Hall Hsel r.
  destruct (eval_foldE_inv server (λ w' done acc, w' = w ∧ truthful acc.1.1 ∧ acc.2 = map statusAt done ∧
    ∀ x, is_Some (all !! x) ∨ x ∈ done → is_Some (acc.1.1 !! x))
    (planCluster resolver s res) names (all, ∅, []) w) as (Hnone & Hw & Ht & Hex & Hdom).
  - split_and!; try done. intros x [?|?%elem_of_nil]; done.
  - intros done cl rest [[a rs] ex] w' Hl (-> & Ht & Hex & Hdom). cbn [fst snd] in *.
    assert (cl ∈ selected) as Hcl by (apply Hsel; rewrite Hl; apply elem_of_middle).
    unfold planCluster. rewrite eval_bind, (resolves_primaryRef s w res cl Hres).
    destruct (Hread cl Hcl) as (_ & _ & He). rewrite He. cbn. split_and!; try done.
    + intros x c [[<- <-]|[_ ?]]%lookup_insert_Some; [done|by apply Ht].
    + by rewrite Hex, map_app.
    + intros x Hx. destruct (decide (x = cl)) as [->|Hne]; [by rewrite lookup_insert_eq|].
      rewrite lookup_insert_ne by done. apply Hdom. destruct Hx as [?|Hx]; [by left|].
      apply elem_of_app in Hx as [?|Hx]; [by right|]. by apply list_elem_of_singleton in Hx.
  - subst r. by split_and!.
Qed.

(** What holds of the accumulators after some refs. *)
Definition planInv (done : list PlacementRef) (acc : planAcc) : Prop :=
  paCleanup acc = paRolloutClusters acc ∧ truthful (paStatuses acc) ∧
  (∀ x, x ∈ paRolloutClusters acc → pendingCluster x) ∧
  (∀ ref x, ref ∈ done → x ∈ GetClusters (groupsOf s w (prefName ref)) →
     is_Some (paStatuses acc !! x) ∧ (crsStatus (statusAt x) ≠ Succeeded → paRolloutClusters acc ≠ ∅)).

Lemma size_zero_clusters (g : ClusterGroupsMap) x : size g = 0 → x ∉ GetClusters g.
Proof.
  intros Hz (k & u & Hk & _)%GetClusters_spec. apply map_size_empty_iff in Hz. subst g.
  by rewrite lookup_empty in Hk.
Qed.

Lemma window_statuses g st names c :
  (∀ cl, cl ∈ names → cl ∈ selected) →
  c ∈ rrClustersToRollout (policy_GetRolloutCluster g st (map statusAt names)) →
  c = statusAt (crsClusterName c) ∧ crsClusterName c ≠ "" ∧ pendingCluster (crsClusterName c).
Proof.
  intros Hsel [Hc Hne]%policy_window. apply list_elem_of_fmap in Hc as (cl & -> & Hcl).
  destruct (Hread cl (Hsel cl Hcl)) as (Hn0 & Hn & _). rewrite Hn. split_and!; [done|done|].
  split; [by apply Hsel|done].
Qed.

(** The accumulators after a ref whose clusters were looked at. *)
Lemma planInv_extend ref done acc all acc' st :
  let names := sets_List (GetClusters (groupsOf s w (prefName ref))) in
  let toRollout := rrClustersToRollout
    (policy_GetRolloutCluster (groupsOf s w (prefName ref)) st (map statusAt names)) in
  planInv done acc → ref ∈ specPlacementRefs (setSpec s) → truthful all →
  (∀ x, is_Some (paStatuses acc !! x) ∨ x ∈ names → is_Some (all !! x)) →
  paCleanup acc' = clusterNames (namedClusters toRollout) ∪ paCleanup acc →
  paRolloutClusters acc' = clusterNames (namedClusters toRollout) ∪ paRolloutClusters acc →
  paStatuses acc' = recordStatuses all (namedClusters toRollout) →
  planInv (done ++ [ref]) acc'.
Proof.
  intros names toRollout (Hcl & Ht & Hwin & Hdone) Hin Ht' Hdom Ec Er Es.
  assert (∀ c, c ∈ toRollout → c = statusAt (crsClusterName c) ∧ crsClusterName c ≠ "" ∧
            pendingCluster (crsClusterName c)) as Hrr.
  { intros c. apply window_statuses. intros cl Hc. apply (selectionAt_spec s w). exists ref.
    by apply sets_List_elem_of in Hc. }
  destruct (recordStatuses_truthful all (namedClusters toRollout) Ht') as [Hrt Hrd].
  { intros c [_ Hc]%list_elem_of_filter. by apply Hrr. }
  unfold planInv. rewrite Ec, Er, Es. split_and!; [by rewrite Hcl|exact Hrt| |].
  { intros x [(c & -> & [_ Hc]%list_elem_of_filter)%sets_New_elem_of%list_elem_of_fmap|Hx]%elem_of_union;
      [by apply Hrr|auto]. }
  intros ref' x [Hr| ->%list_elem_of_singleton]%elem_of_app Hx.
  { destruct (Hdone _ _ Hr Hx) as [Hd1 Hd2]. split; [apply Hrd, Hdom; by left|].
    intros Hne'. specialize (Hd2 Hne'). set_solver. }
  assert (x ∈ names) as Hxg by (by apply sets_List_elem_of). split; [apply Hrd, Hdom; by right|].
  intros Hne Hemp. destruct toRollout as [|c l] eqn:El.
  { apply (policy_progress (groupsOf s w (prefName ref)) st (map statusAt names) (statusAt x));
      [by apply list_elem_of_fmap_2|exact Hne|exact El]. }
  assert (crsClusterName c ∈ clusterNames (namedClusters (c :: l))) as Hc; [|set_solver].
  apply sets_New_elem_of, list_elem_of_fmap_2, list_elem_of_filter. split; [|left]. apply Hrr. left.
Qed.

Lemma planRef_step res ref done acc :
  resolves s w res → ref ∈ specPlacementRefs (setSpec s) → planInv done acc →
  let r := eval server (planRef now resolver s res acc ref) w in
  r.2 = w ∧ r.1.2 = None ∧ planInv (done ++ [ref]) r.1.1.
Proof.
  intros Hres Hin Hinv. destruct (selectionAt_spec s w) as [Hun Hgr].
  assert (default ∅ (resClusterGroupsByRef res !! prefName ref) = groupsOf s w (prefName ref)) as Hg
    by (destruct Hres as (_ & _ & -> & _); by rewrite Hgr).
  unfold planRef. rewrite Hg. destruct (Nat.eqb_spec (size (groupsOf s w (prefName ref))) 0) as [Hz|Hz].
  { destruct Hinv as (Hcl & Ht & Hwin & Hdone). cbn. unfold planInv. cbn. split_and!; try done.
    intros ref' x [?| ->%list_elem_of_singleton]%elem_of_app Hx; [by eapply Hdone|].
    by apply size_zero_clusters in Hx. }
  assert (∀ cl, cl ∈ sets_List (GetClusters (groupsOf s w (prefName ref))) → cl ∈ selected) as Hsel
    by (intros cl Hc; rewrite sets_List_elem_of in Hc; apply Hun; by exists ref).
  pose proof Hinv as (_ & Ht & _).
  destruct (planCluster_loop res (paStatuses acc) _ Hres Ht Hsel) as (Hw & Hnone & Ht' & Hex & Hdom).
  rewrite eval_bind, Hw. set (r := (eval server (foldE _ _ _) w).1) in *. clearbody r.
  destruct r as [[[all rs] ex] err]. cbn [fst snd] in *. subst err ex.
  rewrite eval_bind. match goal with |- context [send ?c] => rewrite (eval_send server c) end.
  cbn [server fst snd eval mret prog_ret]. split; [done|]. split; [done|].
  eapply planInv_extend; try done. cbn [paStatuses]. by rewrite policy_timeOut.
Qed.

(** Planning succeeds; its window holds pending clusters only, is not empty
    while there is one, and every selected cluster outside of it is recorded. *)
Definition planned (plan : rolloutPlan) : Prop :=
  planCleanupClusters plan = sets_New (planClusters plan) ∧
  (∀ x, x ∈ planClusters plan → pendingCluster x) ∧
  (∀ x, pendingCluster x → planClusters plan ≠ []) ∧
  (∀ x, x ∈ selected → planStatuses plan !! x = Some (statusAt x)).

Lemma planRollout_eval res :
  resolves s w res →
  ∃ plan, eval server (planRollout now resolver s res) w = (Ok plan, w) ∧ planned plan.
Proof.
  intros Hres. unfold planRollout. rewrite eval_bind.
  destruct (eval_foldE_inv server (λ w' done acc, w' = w ∧ planInv done acc) (planRef now resolver s res)
    (specPlacementRefs (setSpec s)) emptyPlanAcc w) as (Hnone & Hw & Hcl & Ht & Hwin & Hdone).
  - split; [done|]. split_and!; try done. by intros ? ? ?%elem_of_nil.
  - intros done ref rest acc w' Hl [-> Hinv].
    destruct (planRef_step res ref done acc Hres) as (? & ? & ?); [|done|done].
    rewrite Hl. apply elem_of_middle.
  - rewrite Hw. destruct (eval server (foldE _ _ _) w).1 as [acc err]. cbn [fst snd] in *. subst err.
    eexists. split; [done|]. unfold planned. cbn [planCleanupClusters planClusters planStatuses].
    destruct (selectionAt_spec s w) as [Hun _]. split_and!.
    + apply leibniz_equiv. intros x. by rewrite Hcl, sets_New_elem_of, sets_List_elem_of.
    + intros x Hx. apply Hwin. by rewrite <- sets_List_elem_of.
    + intros x [Hx Hne] Hnil. apply Hun in Hx as (ref & Hr & Hx).
      destruct (Hdone _ _ Hr Hx) as [_ Hd]. apply (Hd Hne). apply leibniz_equiv. intros y.
      rewrite <- sets_List_elem_of, Hnil. set_solver.
    + intros x Hx. apply Hun in Hx as (ref & Hr & Hx). destruct (Hdone _ _ Hr Hx) as [[c Hc] _].
      by rewrite Hc, (Ht _ _ Hc).
Qed.

End plan.
