(* ===== verification/Convergence.v ===== *)
(** * A live set converges

    The controller on the reference server with the agents of the managed
    clusters: whatever of a set's children is missing or different, a bounded
    number of passes brings every wanted child into its desired state, removes
    what the set owns in deselected clusters, and reports Ready; further passes
    leave the children alone.  The rollout handler may hold clusters back as
    long as it makes progress ([RolloutPolicy]). *)

From S2P Require Import Prelude GoStd ApiTypes Interfaces Reference Effects Samples Store.
From S2P Require Import Metadata Rbac ControllerAccess Validation Conditions Children Placement Rollout.
From S2P Require Import Cleanup ReconcileChildren Reconcile System Evaluation.
From Stdlib Require Import ZArith Lia.

(** ** Ensuring children, one map at a time *)

Section ensuring.
Context `{LabelsLib} `{SemanticEquality} `{JSONCodec} `{ApiErrors} `{RolloutPolicy}.
Context {T : Type} `{ClientObject T} `{!Served T} (s : ManagedServiceAccountReplicaSet).

Local Abbreviation key d := (ObjectKey (objMeta d)).

(** [o] is what the set wants for [d]. *)
Definition good (d o : T) : Prop :=
  childMatches o d specOps = true ∧ ownedBySet s (omLabels (objMeta o)) = true ∧
  live (objMeta o) = true ∧ key o = key d.

(** Nothing under the key of [d] that belongs to another owner or is being
    deleted. *)
Definition usable (m : gmap NamespacedName T) (d : T) : Prop :=
  ∀ o, m !! key d = Some o → ownedBySet s (omLabels (objMeta o)) = true ∧ live (objMeta o) = true.

(** A child the controller can send. *)
Definition sendable (d : T) : Prop :=
  marshallable d ∧ ownedBySet s (omLabels (objMeta d)) = true ∧ live (objMeta d) = true.

(** The children [ds] are as wanted, and nothing else has changed. *)
Definition ensured (ds : list T) (m m' : gmap NamespacedName T) : Prop :=
  (∀ d, d ∈ ds → ∃ o, m' !! key d = Some o ∧ good d o) ∧
  (∀ k, k ∉ map (λ d, key d) ds → m' !! k = m !! k).

Lemma ensured_nil m : ensured [] m m.
Proof. split; [by intros ? ?%elem_of_nil|done]. Qed.

Lemma ensured_insert d o m : good d o → ensured [d] m (<[key d := o]> m).
Proof.
  intros Hg. split.
  - intros d' ->%list_elem_of_singleton. exists o. by rewrite lookup_insert_eq.
  - intros k Hk. apply lookup_insert_ne. set_solver.
Qed.

Lemma ensured_app ds1 ds2 m m1 m2 :
  ensured ds1 m m1 → ensured ds2 m1 m2 →
  (∀ d, d ∈ ds1 → key d ∉ map (λ d, key d) ds2) → ensured (ds1 ++ ds2) m m2.
Proof.
  intros [Ha1 Ha2] [Hb1 Hb2] Hdis. split.
  - intros d [Hd|Hd]%elem_of_app; [|by apply Hb1]. destruct (Ha1 d Hd) as (o & Ho & Hg).
    exists o. by rewrite Hb2 by (by apply Hdis).
  - intros k Hk. rewrite map_app, not_elem_of_app in Hk. destruct Hk. by rewrite Hb2, Ha2.
Qed.

Lemma ensured_usable ds m m' d : ensured ds m m' → usable m d → key d ∉ map (λ d, key d) ds → usable m' d.
Proof. intros [_ Hm] Hu Hk o Ho. rewrite Hm in Ho by done. by apply Hu. Qed.

(** Ensured children are usable, and others stay so. *)
Lemma ensured_usable_any ds m m' d : ensured ds m m' → usable m d → usable m' d.
Proof.
  intros He Hu. destruct (decide (key d ∈ map (λ d, key d) ds)) as [Hin|Hin]; [|by eapply ensured_usable].
  apply list_elem_of_fmap in Hin as (d' & Hk & Hd'). intros o. rewrite Hk.
  destruct He as [He _]. destruct (He d' Hd') as (o' & -> & _ & Ho & Hl & _). by intros [= <-].
Qed.

(** Ensuring one child on the server. *)
Lemma ensureChild_good d w :
  sendable d → (∀ k o, stored w !! k = Some o → key o = k) → usable (stored w) d →
  ∃ o, eval server (ensureChild s d specOps) w = (Ok o, with_stored w (<[key d := o]> (stored w))) ∧
       good d o.
Proof.
  intros (Hm & Ho & Hl) Hk Hu.
  destruct (ensureChild_server s d w Hm Ho Hk) as (o & He & Hc & Hoo & Hor);
    [intros cur Hcur; by apply Hu|].
  exists o. split; [done|]. split_and!; [done|done|..].
  - destruct Hor as [->|(cur & Hcur & Hdt & _)]; [done|]. destruct (Hu cur Hcur) as [_ Hlc].
    unfold live in *. by rewrite Hdt.
  - destruct Hor as [->|(cur & Hcur & _ & Hkc)]; [done|]. rewrite Hkc. by apply Hk.
Qed.

End ensuring.

(** ** A stretch of a pass that ensures children *)

Section stages.
Context `{MetaConditions} `{LabelsLib} `{SemanticEquality} `{JSONCodec} `{ApiErrors} `{RolloutPolicy}.
Context (s : ManagedServiceAccountReplicaSet).

Definition msaKeys (ms : list ManagedServiceAccount) : list NamespacedName := map (λ d, ObjectKey (objMeta d)) ms.
Definition workKeys (ws : list ManifestWork) : list NamespacedName := map (λ d, ObjectKey (objMeta d)) ws.

(** From [w] to [w'] the accounts [ms] and works [ws] were ensured. *)
Record stage (ms : list ManagedServiceAccount) (ws : list ManifestWork) (w w' : Cluster) : Prop := mkStage {
  stage_env : same_env w w';
  stage_keyed : keyed w → keyed w';
  stage_sets : wSets w' = wSets w;
  stage_msas : ensured s ms (wMSAs w) (wMSAs w');
  stage_works : ensured s ws (wWorks w) (wWorks w');
}.

Lemma stage_refl w : stage [] [] w w.
Proof. split; try done; apply ensured_nil. Qed.

Lemma stage_app ms1 ws1 ms2 ws2 w w1 w2 :
  stage ms1 ws1 w w1 → stage ms2 ws2 w1 w2 →
  (∀ d, d ∈ ms1 → ObjectKey (objMeta d) ∉ msaKeys ms2) →
  (∀ d, d ∈ ws1 → ObjectKey (objMeta d) ∉ workKeys ws2) →
  stage (ms1 ++ ms2) (ws1 ++ ws2) w w2.
Proof.
  intros [He1 Hk1 Hs1 Hm1 Hw1] [He2 Hk2 Hs2 Hm2 Hw2] Hdm Hdw. split.
  - by etrans.
  - auto.
  - by rewrite Hs2.
  - by eapply ensured_app.
  - by eapply ensured_app.
Qed.

Lemma stage_msa d w :
  keyed w → sendable s d → usable s (wMSAs w) d →
  ∃ o w', eval server (ensureChild s d msaSpecOps) w = (Ok o, w') ∧ good s d o ∧ stage [d] [] w w'.
Proof.
  intros Hk Hd Hu. pose proof Hk as (_ & Hkm & _).
  destruct (ensureChild_good s d w Hd Hkm Hu) as (o & He & Hg).
  exists o, (with_wMSAs w (<[ObjectKey (objMeta d) := o]> (wMSAs w))). split; [exact He|]. split; [done|]. split.
  - done.
  - intros _. apply keyed_msas; [done|]. apply (keyed_insert (λ o, ObjectKey (msaMeta o))); [done|apply Hg].
  - done.
  - by apply ensured_insert.
  - apply ensured_nil.
Qed.

Lemma stage_work d w :
  keyed w → sendable s d → usable s (wWorks w) d →
  ∃ o w', eval server (ensureChild s d manifestWorkSpecOps) w = (Ok o, w') ∧ good s d o ∧ stage [] [d] w w'.
Proof.
  intros Hk Hd Hu. pose proof Hk as (_ & _ & Hkw).
  destruct (ensureChild_good s d w Hd Hkw Hu) as (o & He & Hg).
  exists o, (with_wWorks w (<[ObjectKey (objMeta d) := o]> (wWorks w))). split; [exact He|]. split; [done|]. split.
  - done.
  - intros _. apply keyed_works; [done|]. apply (keyed_insert (λ o, ObjectKey (mwMeta o))); [done|apply Hg].
  - done.
  - apply ensured_nil.
  - by apply ensured_insert.
Qed.

End stages.

(** ** One cluster of the rollout window *)

Section cluster.
Context `{MetaConditions} `{LabelsLib} `{SemanticEquality} `{JSONCodec} `{ApiErrors} `{RolloutPolicy}.
Context (resolver : bool) (s : ManagedServiceAccountReplicaSet).

(** What a set needs in a cluster to be reconciled there: the namespace of the
    cluster exists, its grants resolve, its manifests can be marshalled, and its
    children have different names.  All of it is a matter of the spec and the
    environment. *)
Record sane (w : Cluster) (cl ref : string) : Prop := mkSane {
  sane_namespace : cl ∈ wNamespaces w;
  sane_name : cl ≠ "";
  sane_slices : (slicesAt resolver s w cl).2 = None;
  sane_encodable : ∀ d, d ∈ wantedWorks resolver s w cl ref → encodable (mwSpec d);
  sane_msas : NoDup (msaKeys (wantedMSAs s cl ref));
  sane_works : NoDup (workKeys (wantedWorks resolver s w cl ref));
}.

(** The keys of the children are free for the set. *)
Definition usableIn (w : Cluster) (cl ref : string) : Prop :=
  Forall (usable s (wMSAs w)) (wantedMSAs s cl ref) ∧
  Forall (usable s (wWorks w)) (wantedWorks resolver s w cl ref).

(** Every child is stored as wanted. *)
Definition appliedIn (w : Cluster) (cl ref : string) : Prop :=
  (∀ d, d ∈ wantedMSAs s cl ref → ∃ o, wMSAs w !! ObjectKey (msaMeta d) = Some o ∧ good s d o) ∧
  (∀ d, d ∈ wantedWorks resolver s w cl ref → ∃ o, wWorks w !! ObjectKey (mwMeta d) = Some o ∧ good s d o).

Lemma wantedMSAs_sendable cl ref d : d ∈ wantedMSAs s cl ref → sendable s d.
Proof.
  unfold wantedMSAs. intros [Hd| ->%list_elem_of_singleton]%elem_of_app.
  - destruct (selectorRBACEnabled s); [|by apply elem_of_nil in Hd]. apply list_elem_of_singleton in Hd as ->.
    split_and!; [done|apply buildAccessMSA_owned|done].
  - split_and!; [done|apply buildMSA_owned|done].
Qed.

Lemma wantedMSAs_namespace cl ref d : d ∈ wantedMSAs s cl ref → nnNamespace (ObjectKey (msaMeta d)) = cl.
Proof.
  unfold wantedMSAs. intros [Hd| ->%list_elem_of_singleton]%elem_of_app; [|done].
  destruct (selectorRBACEnabled s); [|by apply elem_of_nil in Hd]. by apply list_elem_of_singleton in Hd as ->.
Qed.

(** A wanted work is built from a slice, or is the controller-access work. *)
Lemma wantedWorks_built w cl ref d :
  d ∈ wantedWorks resolver s w cl ref → ∃ slice, d = buildManifestWork s cl ref slice.
Proof.
  unfold wantedWorks. intros [Hd|Hd]%elem_of_app.
  - destruct (selectorRBACEnabled s); [|by apply elem_of_nil in Hd]. apply list_elem_of_singleton in Hd as ->.
    by eexists.
  - destruct (rbacEnabled s); [|by apply elem_of_nil in Hd].
    apply list_elem_of_fmap in Hd as (sl & -> & _). by eexists.
Qed.

Lemma wantedWorks_sendable w cl ref d :
  sane w cl ref → d ∈ wantedWorks resolver s w cl ref → sendable s d.
Proof.
  intros Hs Hd. pose proof (sane_encodable _ _ _ Hs d Hd) as He.
  destruct (wantedWorks_built _ _ _ _ Hd) as [sl ->]. split_and!; [exact He|apply buildWork_owned|done].
Qed.

Lemma wantedWorks_namespace w cl ref d :
  d ∈ wantedWorks resolver s w cl ref → nnNamespace (ObjectKey (mwMeta d)) = cl.
Proof. intros [sl ->]%wantedWorks_built. done. Qed.

Lemma wantedWorks_env w w' cl ref :
  same_env w w' → wantedWorks resolver s w' cl ref = wantedWorks resolver s w cl ref.
Proof.
  intros Henv. unfold wantedWorks. replace (slicesAt resolver s w' cl) with (slicesAt resolver s w cl); [done|].
  symmetry. rewrite <- (slicesAt_env resolver s (setStatus s) w w' cl Henv). f_equal. by destruct s.
Qed.

(** The controller-access children. *)
Lemma reconcileAccess_eval cl ref lp w :
  keyed w → sendable s (buildControllerAccessManifestWork s cl ref) →
  usable s (wMSAs w) (buildControllerAccessManagedServiceAccount s cl ref) →
  usable s (wWorks w) (buildControllerAccessManifestWork s cl ref) →
  let r := eval server (reconcileAccess s cl ref lp) w in
  stage s [buildControllerAccessManagedServiceAccount s cl ref] [buildControllerAccessManifestWork s cl ref] w r.2 ∧
  cloResult r.1 = cloResult lp ∧ cloNames r.1 = {[controllerAccessManifestWorkName s]} ∪ cloNames lp.
Proof.
  intros Hk Hsw Hum Huw. unfold reconcileAccess, ensureControllerAccessManagedServiceAccount,
    ensureControllerAccessManifestWork. cbv zeta. rewrite eval_bind.
  destruct (stage_msa s (buildControllerAccessManagedServiceAccount s cl ref) w Hk) as (o & w1 & -> & Hg & Hst1);
    [split_and!; [done|apply buildAccessMSA_owned|done]|done|].
  cbn [fst snd]. rewrite eval_bind.
  destruct (stage_work s (buildControllerAccessManifestWork s cl ref) w1) as (o2 & w2 & -> & Hg2 & Hst2);
    [by apply Hst1|done|eapply ensured_usable; [apply Hst1|done|apply not_elem_of_nil]|].
  cbn. split_and!; try done.
  apply (stage_app s [_] [] [] [_] w w1 w2 Hst1 Hst2); intros d; [intros _; apply not_elem_of_nil|by intros ?%elem_of_nil].
Qed.

Lemma reconcileWorkloadMSA_eval cl ref lp w :
  keyed w → usable s (wMSAs w) (buildManagedServiceAccount s cl ref) →
  let r := eval server (reconcileWorkloadMSA s cl ref lp) w in
  stage s [buildManagedServiceAccount s cl ref] [] w r.2 ∧
  cloResult r.1 = cloResult lp ∧ cloNames r.1 = cloNames lp.
Proof.
  intros Hk Hu. unfold reconcileWorkloadMSA, ensureManagedServiceAccount. cbv zeta. rewrite eval_bind.
  destruct (stage_msa s (buildManagedServiceAccount s cl ref) w Hk) as (o & w1 & -> & Hg & Hst1);
    [split_and!; [done|apply buildMSA_owned|done]|done|]. done.
Qed.

Lemma reconcileRBAC_eval cl ref byKey keys lp w :
  keyed w → (slicesAt resolver s w cl).2 = None →
  let ds := map (buildManifestWork s cl ref) (slicesAt resolver s w cl).1 in
  (∀ d, d ∈ ds → sendable s d) → NoDup (workKeys ds) → Forall (usable s (wWorks w)) ds →
  let r := eval server (reconcileRBAC resolver s cl ref byKey keys lp) w in
  stage s [] ds w r.2 ∧ cloResult r.1 = cloResult lp ∧
  (∀ x, x ∈ cloNames lp → x ∈ cloNames r.1) ∧ (∀ d, d ∈ ds → omName (mwMeta d) ∈ cloNames r.1).
Proof.
  intros Hk Herr ds Hsend Hnd Hu. unfold reconcileRBAC. cbv zeta. rewrite eval_bind, desiredRBACSlices_eval.
  cbn [fst snd]. subst ds. destruct (slicesAt resolver s w cl) as [slices err]. cbn [fst snd] in *. subst err.
  match goal with |- context [foldM ?f ?b ?l] =>
    apply (eval_foldM_inv server (λ w' done lp', stage s [] (map (buildManifestWork s cl ref) done) w w' ∧
      cloResult lp' = cloResult lp ∧ (∀ x, x ∈ cloNames lp → x ∈ cloNames lp') ∧
      (∀ d, d ∈ map (buildManifestWork s cl ref) done → omName (mwMeta d) ∈ cloNames lp')) f l b w) end.
  { split_and!; [apply stage_refl|done|done|by intros ? ?%elem_of_nil]. }
  intros done sl rest lp' w' Hl (Hst & Hr & Hn1 & Hn2). unfold reconcileSlice, ensureManifestWork. cbv zeta.
  rewrite eval_bind. set (d := buildManifestWork s cl ref sl).
  assert (d ∈ map (buildManifestWork s cl ref) slices) as Hd
    by (rewrite Hl; apply list_elem_of_fmap_2, elem_of_middle).
  assert (∀ d', d' ∈ map (buildManifestWork s cl ref) done → ObjectKey (objMeta d') ≠ ObjectKey (objMeta d)) as Hfresh.
  { intros d' Hd' Heq. rewrite Hl in Hnd. unfold workKeys in Hnd. rewrite map_app in Hnd. cbn [map] in Hnd.
    rewrite map_app in Hnd. apply NoDup_app in Hnd as (_ & Hdis & _).
    apply (Hdis (ObjectKey (objMeta d'))); [by apply (list_elem_of_fmap_2 (λ d, ObjectKey (objMeta d)))|]. rewrite Heq. left. }
  destruct (stage_work s d w') as (o & w2 & -> & Hg & Hst2); [by apply Hst|by apply Hsend| |].
  { eapply ensured_usable; [apply Hst|by eapply (proj1 (Forall_forall _ _)) in Hu|].
    intros (d' & Heq & Hd')%list_elem_of_fmap. by apply (Hfresh d' Hd'). }
  cbn [fst snd]. rewrite map_app. split_and!.
  - apply (stage_app s [] _ [] [d] w w' w2 Hst Hst2); [by intros ? ?%elem_of_nil|].
    intros d' Hd' Hin%list_elem_of_singleton. by apply (Hfresh d' Hd').
  - done.
  - intros x Hx. apply elem_of_union. right. by apply Hn1.
  - intros d' [Hd'| ->%list_elem_of_singleton]%elem_of_app; apply elem_of_union; [right; by apply Hn2|left].
    by apply elem_of_singleton.
Qed.

(** The children of the set other than the RBAC works, and those works. *)
Definition accessMSAs (cl ref : string) : list ManagedServiceAccount :=
  if selectorRBACEnabled s then [buildControllerAccessManagedServiceAccount s cl ref] else [].
Definition accessWorks (cl ref : string) : list ManifestWork :=
  if selectorRBACEnabled s then [buildControllerAccessManifestWork s cl ref] else [].
Definition rbacWorks (w : Cluster) (cl ref : string) : list ManifestWork :=
  if rbacEnabled s then map (buildManifestWork s cl ref) (slicesAt resolver s w cl).1 else [].

(** The optional parts of the body, as the code guards them. *)
Lemma accessStage_eval cl ref lp w :
  keyed w → sane w cl ref → usableIn w cl ref →
  let r := eval server (if selectorRBACEnabled s then reconcileAccess s cl ref lp else mret lp) w in
  stage s (accessMSAs cl ref) (accessWorks cl ref) w r.2 ∧ cloResult r.1 = cloResult lp ∧
  (∀ d, d ∈ accessWorks cl ref → omName (mwMeta d) ∈ cloNames r.1).
Proof.
  intros Hk Hs [Hum Huw].
  assert (∀ d, d ∈ accessWorks cl ref → sendable s d) as Hsend.
  { intros d Hd. apply (wantedWorks_sendable w cl ref); [done|]. apply elem_of_app. by left. }
  unfold accessMSAs, accessWorks, wantedMSAs, wantedWorks in *. apply Forall_app in Hum as [Hum _], Huw as [Huw _].
  revert Hum Huw Hsend. destruct (selectorRBACEnabled s); intros Hum Huw Hsend; cbv zeta; cycle 1.
  { split_and!; [apply stage_refl|done|by intros ? ?%elem_of_nil]. }
  inversion Hum; inversion Huw; subst.
  destruct (reconcileAccess_eval cl ref lp w Hk) as (Hst & Hr & Hn); [apply Hsend; left|done|done|].
  split_and!; [done|done|]. intros d ->%list_elem_of_singleton. rewrite Hn. apply elem_of_union. left.
  by apply elem_of_singleton.
Qed.

Lemma rbacStage_eval cl ref byKey keys lp w :
  keyed w → sane w cl ref → Forall (usable s (wWorks w)) (rbacWorks w cl ref) →
  let r := eval server (if rbacEnabled s then reconcileRBAC resolver s cl ref byKey keys lp else mret lp) w in
  stage s [] (rbacWorks w cl ref) w r.2 ∧ cloResult r.1 = cloResult lp ∧
  (∀ x, x ∈ cloNames lp → x ∈ cloNames r.1) ∧
  (∀ d, d ∈ rbacWorks w cl ref → omName (mwMeta d) ∈ cloNames r.1).
Proof.
  intros Hk Hs Hu.
  assert (∀ d, d ∈ rbacWorks w cl ref → sendable s d) as Hsend.
  { intros d Hd. apply (wantedWorks_sendable w cl ref); [done|]. apply elem_of_app. by right. }
  assert (NoDup (workKeys (rbacWorks w cl ref))) as Hnd.
  { pose proof (sane_works _ _ _ Hs) as Hnd. unfold wantedWorks, workKeys in Hnd. rewrite map_app in Hnd.
    by apply NoDup_app in Hnd as (_ & _ & ?). }
  unfold rbacWorks in *. revert Hu Hsend Hnd. destruct (rbacEnabled s); intros Hu Hsend Hnd; cbv zeta; cycle 1.
  { split_and!; [apply stage_refl|done|done|by intros ? ?%elem_of_nil]. }
  apply reconcileRBAC_eval; [done|apply Hs|done..].
Qed.

(** The sane conditions carry over to later worlds of the pass. *)
Lemma sane_env w w' cl ref : same_env w w' → sane w cl ref → sane w' cl ref.
Proof.
  intros Henv [Hn Hc Hsl He Hm Hw].
  assert (slicesAt resolver s w' cl = slicesAt resolver s w cl) as Hs'.
  { rewrite <- (slicesAt_env resolver s (setStatus s) w w' cl Henv). f_equal. by destruct s. }
  split; rewrite ?(wantedWorks_env w w') by done; try done.
  - destruct Henv as (_ & _ & -> & _). done.
  - by rewrite Hs'.
Qed.

(** The body of the loop for a cluster of the window: every child is ensured,
    no error is recorded, and the names of the works are remembered. *)
Lemma rolloutCluster_eval res byKey acc cl w :
  keyed w → sane w cl (primaryRef res cl) → usableIn w cl (primaryRef res cl) →
  let r := eval server (rolloutCluster resolver s res byKey acc cl) w in
  stage s (wantedMSAs s cl (primaryRef res cl)) (wantedWorks resolver s w cl (primaryRef res cl)) w r.2 ∧
  (clResult r.1 = clResult acc ∨ clResult r.1 = incrReady (clResult acc)) ∧
  ∃ names, clWorkNames r.1 = <[cl := names]> (clWorkNames acc) ∧
    ∀ d, d ∈ wantedWorks resolver s w cl (primaryRef res cl) → omName (mwMeta d) ∈ names.
Proof.
  set (ref := primaryRef res cl). intros Hk Hs Hu. cbv zeta. unfold rolloutCluster. fold ref.
  rewrite eval_bind, (eval_send server (CGetNamespace cl)). cbn [server fst snd].
  rewrite (proj2 (sets_Has_true _ _)) by apply Hs. cbv zeta. rewrite eval_bind.
  destruct (accessStage_eval cl ref (mkClusterLoop (clResult acc) (clStatus acc) true ∅) w Hk Hs Hu)
    as (Hst1 & Hr1 & Hn1).
  destruct (eval server (if selectorRBACEnabled s then _ else _) w) as [lp1 w1]. cbn [fst snd] in *.
  rewrite eval_bind. destruct Hu as [Hum Huw].
  pose proof (sane_msas _ _ _ Hs) as Hndm. pose proof (sane_works _ _ _ Hs) as Hndw.
  unfold wantedMSAs, wantedWorks, msaKeys, workKeys in Hum, Huw, Hndm, Hndw.
  fold (accessMSAs cl ref) in Hum, Hndm. fold (accessWorks cl ref) (rbacWorks w cl ref) in Huw, Hndw.
  apply Forall_app in Hum as [_ Hum], Huw as [_ Huw]. rewrite Forall_singleton in Hum.
  rewrite map_app in Hndm, Hndw. apply NoDup_app in Hndm as (_ & Hdm & _), Hndw as (_ & Hdw & _).
  destruct (reconcileWorkloadMSA_eval cl ref lp1 w1) as (Hst2 & Hr2 & Hn2); [by apply Hst1| |].
  { eapply ensured_usable_any; [apply Hst1|done]. }
  destruct (eval server (reconcileWorkloadMSA _ _ _ _) w1) as [lp2 w2]. cbn [fst snd] in *. rewrite eval_bind.
  assert (stage s (wantedMSAs s cl ref) (accessWorks cl ref) w w2) as Hst12.
  { rewrite <- (app_nil_r (accessWorks cl ref)). eapply stage_app; [exact Hst1|exact Hst2| |].
    - intros d Hd. apply Hdm. by apply (list_elem_of_fmap_2 (λ d, ObjectKey (objMeta d))).
    - intros d _. apply not_elem_of_nil. }
  assert (rbacWorks w2 cl ref = rbacWorks w cl ref) as Hrw.
  { pose proof (wantedWorks_env w w2 cl ref (stage_env _ _ _ _ _ Hst12)) as Heq. by apply app_inv_head in Heq. }
  destruct (rbacStage_eval cl ref byKey (default [] (resClusterPlacementRefs res !! cl)) lp2 w2)
    as (Hst3 & Hr3 & Hn3 & Hn4); [by apply Hst12|by eapply sane_env; [apply Hst12|]| |].
  { rewrite Hrw. eapply Forall_impl; [exact Huw|]. intros d. apply ensured_usable_any with (accessWorks cl ref), Hst12. }
  destruct (eval server (if rbacEnabled s then _ else _) w2) as [lp3 w3]. cbn [fst snd] in *. rewrite Hrw in *.
  cbn [eval mret prog_ret fst snd clResult clWorkNames]. split_and!.
  - rewrite <- (app_nil_r (wantedMSAs s cl ref)). eapply stage_app; [exact Hst12|exact Hst3| |].
    + intros d _. apply not_elem_of_nil.
    + intros d Hd. apply Hdw. by apply (list_elem_of_fmap_2 (λ d, ObjectKey (objMeta d))).
  - rewrite Hr3, Hr2, Hr1. destruct (cloReady lp3); [by right|by left].
  - eexists. split; [done|]. intros d [Hd|Hd]%elem_of_app; [|by apply Hn4].
    apply Hn3. rewrite Hn2. by apply Hn1.
Qed.

End cluster.

(** ** The loop over the clusters *)

(** No error, no conflict and no failure so far. *)
Definition cleanResult (r : childReconcileResult) : Prop :=
  crErr r = None ∧ crConflicts r = 0%Z ∧ crFailures r = 0%Z.

Lemma cleanResult_incr r : cleanResult r → cleanResult (incrReady r).
Proof. done. Qed.

Section fleet.
Context `{MetaConditions} `{LabelsLib} `{SemanticEquality} `{JSONCodec} `{ApiErrors} `{RolloutPolicy}
        `{ClusterGroups} `{PlacementTracker}.
Context (resolver : bool) (s : ManagedServiceAccountReplicaSet).

(** The set is in order on its whole selection. *)
Definition saneAll (w : Cluster) : Prop := ∀ cl, cl ∈ selected s w → sane resolver s w cl (refAt s w cl).
Definition usableAll (w : Cluster) : Prop := ∀ cl, cl ∈ selected s w → usableIn resolver s w cl (refAt s w cl).
Definition doneAll (w : Cluster) : Prop := ∀ cl, cl ∈ selected s w → clusterDone resolver s w cl (refAt s w cl).

(** All wanted children of some clusters. *)
Definition allMSAs (w : Cluster) (cls : list string) : list ManagedServiceAccount :=
  concat (map (λ cl, wantedMSAs s cl (refAt s w cl)) cls).
Definition allWorks (w : Cluster) (cls : list string) : list ManifestWork :=
  concat (map (λ cl, wantedWorks resolver s w cl (refAt s w cl)) cls).

Lemma allMSAs_elem w cls d : d ∈ allMSAs w cls ↔ ∃ cl, cl ∈ cls ∧ d ∈ wantedMSAs s cl (refAt s w cl).
Proof.
  unfold allMSAs. rewrite list_elem_of_In, in_concat. setoid_rewrite in_map_iff.
  setoid_rewrite <- list_elem_of_In. naive_solver.
Qed.

Lemma allWorks_elem w cls d :
  d ∈ allWorks w cls ↔ ∃ cl, cl ∈ cls ∧ d ∈ wantedWorks resolver s w cl (refAt s w cl).
Proof.
  unfold allWorks. rewrite list_elem_of_In, in_concat. setoid_rewrite in_map_iff.
  setoid_rewrite <- list_elem_of_In. naive_solver.
Qed.

Lemma usableIn_free w cl ref : usableIn resolver s w cl ref → clusterFree resolver s w cl ref.
Proof.
  intros [Hm Hw]. split; eapply Forall_impl; [exact Hm| |exact Hw|]; intros d Hd o Ho; by apply Hd.
Qed.

Lemma readable_sane w : saneAll w → usableAll w → readable resolver s w.
Proof.
  intros Hs Hu cl Hcl. pose proof (Hs cl Hcl) as Hsc.
  destruct (clusterRolloutStatus_eval resolver s cl (refAt s w cl) w (sane_slices _ _ _ _ _ Hsc)
    (usableIn_free _ _ _ (Hu cl Hcl))) as [(Hw & He & _) Hn].
  split_and!; [apply Hsc|exact Hn|]. unfold statusAt.
  destruct (eval server (clusterRolloutStatus _ _ _ _) w) as [[st err] w']. cbn in *. by subst.
Qed.

Lemma statusAt_done w cl :
  saneAll w → usableAll w → cl ∈ selected s w →
  crsStatus (statusAt resolver s w cl) = Succeeded ↔ clusterDone resolver s w cl (refAt s w cl).
Proof.
  intros Hs Hu Hcl. pose proof (Hs cl Hcl) as Hsc.
  by destruct (clusterRolloutStatus_eval resolver s cl (refAt s w cl) w (sane_slices _ _ _ _ _ Hsc)
    (usableIn_free _ _ _ (Hu cl Hcl))) as [(_ & _ & Hd) _].
Qed.

(** A cluster outside the window is only looked at. *)
Lemma settledCluster_eval res statuses byKey acc cl w :
  let r := eval server (settledCluster resolver s res statuses byKey acc cl) w in
  r.2 = w ∧ clWorkNames r.1 = <[cl := ∅]> (clWorkNames acc) ∧
  clResult r.1 = match statuses !! cl with
                 | Some (mkClusterRolloutStatus _ Succeeded _) => incrReady (clResult acc)
                 | _ => clResult acc
                 end.
Proof.
  cbv zeta. split.
  { apply eval_reading. unfold settledCluster, aggregateExistingRBACSummary. calls_steps; try exact I;
      (eapply all_calls_mono; [apply desiredRBACSlices_reads|apply child_read_reading]). }
  unfold settledCluster. destruct (statuses !! cl) as [[n [] t]|]; try done. by rewrite eval_bind.
Qed.

(** The window after some clusters, and what was remembered of it. *)
Definition window (names done : list string) : list string := filter (λ cl, cl ∈ names) done.

Definition loopInv (w : Cluster) (names : list string) (wc : Cluster) (done : list string) (acc : childLoop) : Prop :=
  stage s (allMSAs w (window names done)) (allWorks w (window names done)) w wc ∧
  cleanResult (clResult acc) ∧
  (∀ cl d, cl ∈ done → cl ∈ names → d ∈ wantedWorks resolver s w cl (refAt s w cl) →
     omName (mwMeta d) ∈ default ∅ (clWorkNames acc !! cl)) ∧
  (names = [] → crReady (clResult acc) = int32 (Z.of_nat (length done))).

Context (w : Cluster) (Hk : keyed w) (Hs : saneAll w) (Hu : usableAll w).

Lemma wanted_frame names done cl wc :
  cl ∉ done → cl ∈ selected s w →
  stage s (allMSAs w (window names done)) (allWorks w (window names done)) w wc →
  usableIn resolver s wc cl (refAt s w cl).
Proof.
  intros Hcl Hsel Hst. destruct (Hu cl Hsel) as [Hm Hw]. split.
  - eapply Forall_impl; [exact Hm|]. intros d. eapply ensured_usable_any, Hst.
  - rewrite (wantedWorks_env resolver s w wc) by apply Hst.
    eapply Forall_impl; [exact Hw|]. intros d. eapply ensured_usable_any, Hst.
Qed.

Lemma window_snoc names done cl :
  window names (done ++ [cl]) = window names done ++ (if decide (cl ∈ names) then [cl] else []).
Proof. unfold window. rewrite filter_app. cbn. by case_decide. Qed.

(** The children of a new cluster are apart from those of the earlier ones. *)
Lemma fresh_cluster names done cl :
  cl ∉ done →
  (∀ d, d ∈ allMSAs w (window names done) → ObjectKey (objMeta d) ∉ msaKeys (wantedMSAs s cl (refAt s w cl))) ∧
  (∀ d, d ∈ allWorks w (window names done) →
     ObjectKey (objMeta d) ∉ workKeys (wantedWorks resolver s w cl (refAt s w cl))).
Proof.
  intros Hcl. split.
  - intros d (cl' & [_ Hc]%list_elem_of_filter & Hd)%allMSAs_elem (d' & Heq & Hd')%list_elem_of_fmap.
    apply Hcl. replace cl with cl'; [done|].
    rewrite <- (wantedMSAs_namespace s cl' _ d Hd), <- (wantedMSAs_namespace s cl _ d' Hd').
    cbn [objMeta msaObject] in Heq. by rewrite Heq.
  - intros d (cl' & [_ Hc]%list_elem_of_filter & Hd)%allWorks_elem (d' & Heq & Hd')%list_elem_of_fmap.
    apply Hcl. replace cl with cl'; [done|].
    rewrite <- (wantedWorks_namespace resolver s w cl' _ d Hd), <- (wantedWorks_namespace resolver s w cl _ d' Hd').
    cbn [objMeta workObject] in Heq. by rewrite Heq.
Qed.

Lemma reconcileCluster_step res names statuses byKey done cl acc wc :
  resolves s w res → cl ∉ done → cl ∈ selected s w →
  (names = [] → statuses !! cl = Some (statusAt resolver s w cl) ∧ crsStatus (statusAt resolver s w cl) = Succeeded) →
  loopInv w names wc done acc →
  let r := eval server (reconcileCluster resolver s res (sets_New names) statuses byKey acc cl) wc in
  loopInv w names r.2 (done ++ [cl]) r.1.
Proof.
  intros Hres Hfresh Hsel Hsucc (Hst & Hclean & Hnames & Hready). cbv zeta. unfold reconcileCluster.
  unfold loopInv. rewrite window_snoc.
  destruct (sets_Has (sets_New names) cl) eqn:Eh.
  - apply sets_Has_true, sets_New_elem_of in Eh. rewrite decide_True by done.
    destruct (rolloutCluster_eval resolver s res byKey acc cl wc) as (Hst2 & Hres2 & nm & Hnm & Hnm2).
    + by apply Hst.
    + rewrite (resolves_primaryRef s w res cl Hres). eapply sane_env; [apply Hst|by apply Hs].
    + rewrite (resolves_primaryRef s w res cl Hres). by eapply wanted_frame.
    + rewrite (resolves_primaryRef s w res cl Hres), (wantedWorks_env resolver s w wc) in * by apply Hst.
      destruct (fresh_cluster names done cl Hfresh) as [Hfm Hfw]. split_and!.
      * unfold allMSAs, allWorks. rewrite !map_app, !concat_app. cbn [map concat]. rewrite !app_nil_r.
        eapply stage_app; [exact Hst|exact Hst2|exact Hfm|exact Hfw].
      * destruct Hres2 as [-> | ->]; done.
      * intros cl' d Hc Hin Hd. rewrite Hnm. destruct (decide (cl' = cl)) as [->|Hne].
        { rewrite lookup_insert_eq. by apply Hnm2. }
        rewrite lookup_insert_ne by done. apply Hnames; [|done|done].
        apply elem_of_app in Hc as [?|Hc]; [done|]. by apply list_elem_of_singleton in Hc.
      * intros ->. by apply elem_of_nil in Eh.
  - apply sets_Has_false in Eh. rewrite sets_New_elem_of in Eh. rewrite decide_False, app_nil_r by done.
    destruct (settledCluster_eval res statuses byKey acc cl wc) as (-> & Hnm & Hr). split_and!.
    + done.
    + rewrite Hr. repeat case_goal; done.
    + intros cl' d Hc Hin Hd. rewrite Hnm. destruct (decide (cl' = cl)) as [->|Hne]; [done|].
      rewrite lookup_insert_ne by done. apply Hnames; [|done|done].
      apply elem_of_app in Hc as [?|Hc]; [done|]. by apply list_elem_of_singleton in Hc.
    + intros Hnil. destruct (Hsucc Hnil) as [Hst' Hsu]. rewrite Hr, Hst'.
      destruct (statusAt resolver s w cl) as [n st t]. cbn in Hsu. subst st. cbn [crReady incrReady].
      rewrite Hready, int32_add_int32_l, length_app by done. f_equal. cbn. lia.
Qed.

End fleet.

(** ** Deleting stale children *)

(** The objects under [ks] are gone or terminating, all others untouched. *)
Definition erased {A} (meta : A → ObjectMeta) (ks : list NamespacedName) (m m' : gmap NamespacedName A) : Prop :=
  ∀ k, (k ∈ ks → ∀ o, m' !! k = Some o → live (meta o) = false) ∧ (k ∉ ks → m' !! k = m !! k).

Lemma erased_nil {A} (meta : A → ObjectMeta) m : erased meta [] m m.
Proof. intros k. split; [by intros ?%elem_of_nil|done]. Qed.

Lemma erased_nil_eq {A} (meta : A → ObjectMeta) m m' : erased meta [] m m' → m' = m.
Proof. intros He. apply map_eq. intros k. apply He, not_elem_of_nil. Qed.

Lemma erased_snoc {A} (meta : A → ObjectMeta) ks k m m1 m2 :
  erased meta ks m m1 → (∀ o, m2 !! k = Some o → live (meta o) = false) →
  (∀ k', k' ≠ k → m2 !! k' = m1 !! k') → erased meta (ks ++ [k]) m m2.
Proof.
  intros He Hk Hne k'. rewrite elem_of_app, list_elem_of_singleton. destruct (decide (k' = k)) as [->|Hn].
  - split; [auto|tauto].
  - destruct (He k') as [Ha Hb]. rewrite Hne by done. split; [|tauto]. intros [?|?]; [auto|done].
Qed.

Section cleanup.
Context `{MetaConditions} `{LabelsLib} `{SemanticEquality} `{JSONCodec} `{ApiErrors} `{RolloutPolicy}.
Context (dc cc : gset string).

Definition staleWorkIn (names : gmap string (gset string)) (o : ManifestWork) : bool :=
  stale dc cc (mwMeta o) (default ∅ (names !! omNamespace (mwMeta o))).
Definition staleMSAIn (names : gset string) (o : ManagedServiceAccount) : bool := stale dc cc (msaMeta o) names.

Lemma staleWorks_eval names items w :
  let r := eval server (foldM (deleteStaleWork dc cc names) (false, None) items) w in
  r.1 = (existsb (staleWorkIn names) items, None) ∧ wSets r.2 = wSets w ∧ wMSAs r.2 = wMSAs w ∧
  erased mwMeta (map (λ o, ObjectKey (mwMeta o)) (List.filter (staleWorkIn names) items)) (wWorks w) (wWorks r.2).
Proof.
  apply (eval_foldM_inv server (λ w' done acc, acc = (existsb (staleWorkIn names) done, None) ∧
    wSets w' = wSets w ∧ wMSAs w' = wMSAs w ∧
    erased mwMeta (map (λ o, ObjectKey (mwMeta o)) (List.filter (staleWorkIn names) done)) (wWorks w) (wWorks w'))).
  { split_and!; auto using erased_nil. }
  intros done o rest acc w' _ (-> & Hs & Hm & He). unfold deleteStaleWork. fold (staleWorkIn names o).
  rewrite existsb_app, List.filter_app, map_app. cbn [existsb List.filter].
  destruct (staleWorkIn names o); cbn [map orb]; rewrite ?orb_true_r, ?orb_false_r, ?app_nil_r; [|done].
  rewrite eval_bind, (eval_send server (CDeleteWork o)). cbn [server].
  pose proof (delete_work_server (ObjectKey (mwMeta o)) w') as Hd.
  destruct (delete_work _ w') as [r w2]. destruct Hd as (Hr & Hs2 & Hm2 & Hk1 & Hk2). cbn [eval mret prog_ret fst snd].
  rewrite joinDeleteError_server, Hs2, Hm2 by done. split_and!; try done. by eapply erased_snoc.
Qed.

Lemma staleMSAs_eval names items w :
  let r := eval server (foldM (deleteStaleMSA dc cc names) None items) w in
  r.1 = None ∧ wSets r.2 = wSets w ∧ wWorks r.2 = wWorks w ∧
  erased msaMeta (map (λ o, ObjectKey (msaMeta o)) (List.filter (staleMSAIn names) items)) (wMSAs w) (wMSAs r.2).
Proof.
  apply (eval_foldM_inv server (λ w' done acc, acc = None ∧ wSets w' = wSets w ∧ wWorks w' = wWorks w ∧
    erased msaMeta (map (λ o, ObjectKey (msaMeta o)) (List.filter (staleMSAIn names) done)) (wMSAs w) (wMSAs w'))).
  { split_and!; auto using erased_nil. }
  intros done o rest acc w' _ (-> & Hs & Hm & He). unfold deleteStaleMSA. fold (staleMSAIn names o).
  rewrite List.filter_app, map_app. cbn [List.filter].
  destruct (staleMSAIn names o); cbn [map]; rewrite ?app_nil_r; [|done].
  rewrite eval_bind, (eval_send server (CDeleteMSA o)). cbn [server].
  pose proof (delete_msa_server (ObjectKey (msaMeta o)) w') as Hd.
  destruct (delete_msa _ w') as [r w2]. destruct Hd as (Hr & Hs2 & Hm2 & Hk1 & Hk2). cbn [eval mret prog_ret fst snd].
  rewrite joinDeleteError_server, Hs2, Hm2 by done. split_and!; try done. by eapply erased_snoc.
Qed.

Lemma deleteStaleChildren_eval s names msaNames w :
  let r := eval server (deleteStaleChildren s dc cc names msaNames) w in
  let saw := existsb (staleWorkIn names) (ownedWorks s w) in
  r.1 = (saw, None) ∧ wSets r.2 = wSets w ∧
  erased mwMeta (map (λ o, ObjectKey (mwMeta o)) (List.filter (staleWorkIn names) (ownedWorks s w)))
    (wWorks w) (wWorks r.2) ∧
  erased msaMeta (map (λ o, ObjectKey (msaMeta o))
    (if saw then [] else List.filter (staleMSAIn msaNames) (ownedMSAs s w))) (wMSAs w) (wMSAs r.2).
Proof.
  cbv zeta. unfold deleteStaleChildren. rewrite eval_bind.
  rewrite (eval_send server (CListWorks (generatedChildListOptions s))). cbn [server fst snd].
  unfold generatedChildListOptions. fold (ownedWorks s w). rewrite eval_bind.
  destruct (staleWorks_eval names (ownedWorks s w) w) as (Hr & Hs & Hm & He).
  set (w1 := (eval server (foldM _ _ _) w).2) in *. rewrite Hr. cbn [fst snd].
  rewrite bool_decide_eq_false_2 by (by intros [? ?]). cbn [orb].
  destruct (existsb (staleWorkIn names) (ownedWorks s w)) eqn:Ex.
  { cbn [eval mret prog_ret fst snd map]. rewrite Hm. split_and!; auto using erased_nil. }
  rewrite eval_bind, (eval_send server (CListMSAs (ownedSelector s))). cbn [server fst snd].
  fold (ownedMSAs s w1). rewrite (ownedMSAs_same s w w1) by done. rewrite eval_bind.
  destruct (staleMSAs_eval msaNames (ownedMSAs s w) w1) as (Hr2 & Hs2 & Hw2 & He2).
  rewrite Hr2. cbn [eval mret prog_ret fst snd]. rewrite Hs2, Hw2, Hs, <- Hm. split_and!; try done.
Qed.

End cleanup.

(** ** Reconciling the children of a live set *)

Section children.
Context `{MetaConditions} `{LabelsLib} `{SemanticEquality} `{JSONCodec} `{ApiErrors} `{ControllerUtil}
        `{ClusterGroups} `{PlacementTracker} `{RolloutPolicy}.
Context (resolver : bool) (s : ManagedServiceAccountReplicaSet).

(** The works, or accounts, of the set that [P] holds of are in selected
    clusters. *)
Definition worksIn (P : ObjectMeta → Prop) (sel : gset string) (w : Cluster) : Prop :=
  ∀ o, o ∈ ownedWorks s w → P (mwMeta o) → omNamespace (mwMeta o) ∈ sel.
Definition msasIn (P : ObjectMeta → Prop) (sel : gset string) (w : Cluster) : Prop :=
  ∀ o, o ∈ ownedMSAs s w → P (msaMeta o) → omNamespace (msaMeta o) ∈ sel.

Definition anyObject (om : ObjectMeta) : Prop := True.
Definition liveObject (om : ObjectMeta) : Prop := live om = true.

(** What one pass does to the children, given the window it worked on. *)
Record passed (w w' : Cluster) (names : list string) : Prop := mkPassed {
  passed_applied cl : cl ∈ selected s w → cl ∈ names → appliedIn resolver s w' cl (refAt s w cl);
  passed_msas cl d : cl ∈ selected s w → cl ∉ names → d ∈ wantedMSAs s cl (refAt s w cl) →
    wMSAs w' !! ObjectKey (msaMeta d) = wMSAs w !! ObjectKey (msaMeta d);
  passed_works cl d : cl ∈ selected s w → cl ∉ names → d ∈ wantedWorks resolver s w cl (refAt s w cl) →
    wWorks w' !! ObjectKey (mwMeta d) = wWorks w !! ObjectKey (mwMeta d);
  passed_tidy : worksIn liveObject (selected s w) w';
  passed_tidyMSAs : names = [] → worksIn anyObject (selected s w) w → msasIn liveObject (selected s w) w';
  passed_quiet : names = [] → worksIn anyObject (selected s w) w →
    wWorks w' = wWorks w ∧ (msasIn anyObject (selected s w) w → wMSAs w' = wMSAs w);
}.

Lemma wantedMSAs_names cl ref d :
  d ∈ wantedMSAs s cl ref → omName (msaMeta d) ∈ desiredManagedServiceAccountNames s.
Proof.
  unfold wantedMSAs, desiredManagedServiceAccountNames. intros [Hd| ->%list_elem_of_singleton]%elem_of_app.
  - destruct (selectorRBACEnabled s); [|by apply elem_of_nil in Hd]. apply list_elem_of_singleton in Hd as ->.
    apply elem_of_union. left. by apply elem_of_singleton.
  - destruct (selectorRBACEnabled s); [apply elem_of_union; right|]; apply sets_New_elem_of; left.
Qed.

(** A child with a wanted key is not stale. *)
Lemma stale_spec dc cc om names :
  stale dc cc om names = true ↔ omNamespace om ∉ dc ∨ (omNamespace om ∈ cc ∧ omName om ∉ names).
Proof.
  unfold stale. rewrite orb_true_iff, andb_true_iff, !negb_true_iff, !sets_Has_false, sets_Has_true. done.
Qed.

(** The list of the stale works, by key. *)
Definition staleKeys (w : Cluster) (dc cc : gset string) (names : gmap string (gset string)) : list NamespacedName :=
  map (λ o, ObjectKey (mwMeta o)) (List.filter (staleWorkIn dc cc names) (ownedWorks s w)).

Lemma staleKeys_elem w dc cc names k :
  k ∈ staleKeys w dc cc names ↔ ∃ o, o ∈ ownedWorks s w ∧ staleWorkIn dc cc names o = true ∧ ObjectKey (mwMeta o) = k.
Proof.
  unfold staleKeys. rewrite list_elem_of_fmap. setoid_rewrite list_elem_of_In. setoid_rewrite filter_In. naive_solver.
Qed.

Definition staleMSAKeys (w : Cluster) (dc cc names : gset string) : list NamespacedName :=
  map (λ o, ObjectKey (msaMeta o)) (List.filter (staleMSAIn dc cc names) (ownedMSAs s w)).

Lemma staleMSAKeys_elem w dc cc names k :
  k ∈ staleMSAKeys w dc cc names ↔ ∃ o, o ∈ ownedMSAs s w ∧ staleMSAIn dc cc names o = true ∧ ObjectKey (msaMeta o) = k.
Proof.
  unfold staleMSAKeys. rewrite list_elem_of_fmap. setoid_rewrite list_elem_of_In. setoid_rewrite filter_In. naive_solver.
Qed.

(** Erasing the stale works of deselected clusters leaves no live one. *)
Lemma erased_worksIn w w' dc cc names :
  keyed w → erased mwMeta (staleKeys w dc cc names) (wWorks w) (wWorks w') → worksIn liveObject dc w'.
Proof.
  intros (_ & _ & Hk) He o (Ho & k & Hl)%ownedWorks_elem Hlive. destruct (He k) as [Ha Hb].
  destruct (decide (omNamespace (mwMeta o) ∈ dc)) as [|Hn]; [done|exfalso].
  destruct (decide (k ∈ staleKeys w dc cc names)) as [Hin|Hin].
  { specialize (Ha Hin o Hl). unfold liveObject in Hlive. congruence. }
  rewrite Hb in Hl by done. apply Hin, staleKeys_elem. exists o. split_and!.
  - apply ownedWorks_elem. eauto.
  - apply stale_spec. by left.
  - by apply Hk.
Qed.

Lemma erased_msasIn w w' dc cc names :
  keyed w → erased msaMeta (staleMSAKeys w dc cc names) (wMSAs w) (wMSAs w') → msasIn liveObject dc w'.
Proof.
  intros (_ & Hk & _) He o (Ho & k & Hl)%ownedMSAs_elem Hlive. destruct (He k) as [Ha Hb].
  destruct (decide (omNamespace (msaMeta o) ∈ dc)) as [|Hn]; [done|exfalso].
  destruct (decide (k ∈ staleMSAKeys w dc cc names)) as [Hin|Hin].
  { specialize (Ha Hin o Hl). unfold liveObject in Hlive. congruence. }
  rewrite Hb in Hl by done. apply Hin, staleMSAKeys_elem. exists o. split_and!.
  - apply ownedMSAs_elem. eauto.
  - apply stale_spec. by left.
  - by apply Hk.
Qed.

(** Without a window only children of deselected clusters are stale. *)
Lemma staleKeys_nil w dc names : worksIn anyObject dc w → staleKeys w dc ∅ names = [].
Proof.
  intros Hin. destruct (staleKeys w dc ∅ names) as [|k l] eqn:E; [done|exfalso].
  assert (k ∈ staleKeys w dc ∅ names) as Hk by (rewrite E; left).
  apply staleKeys_elem in Hk as (o & Ho & [Hn|[Hn _]]%stale_spec & _); [by apply Hn, Hin|].
  by apply elem_of_empty in Hn.
Qed.

Lemma staleMSAKeys_nil w dc names : msasIn anyObject dc w → staleMSAKeys w dc ∅ names = [].
Proof.
  intros Hin. destruct (staleMSAKeys w dc ∅ names) as [|k l] eqn:E; [done|exfalso].
  assert (k ∈ staleMSAKeys w dc ∅ names) as Hk by (rewrite E; left).
  apply staleMSAKeys_elem in Hk as (o & Ho & [Hn|[Hn _]]%stale_spec & _); [by apply Hn, Hin|].
  by apply elem_of_empty in Hn.
Qed.

Lemma staleKeys_existsb w dc cc names :
  existsb (staleWorkIn dc cc names) (ownedWorks s w) = false ↔ staleKeys w dc cc names = [].
Proof.
  unfold staleKeys. induction (ownedWorks s w) as [|o l IH]; [done|]. cbn [existsb List.filter].
  destruct (staleWorkIn dc cc names o); [done|exact IH].
Qed.

(** ** From the loop and the cleanup to the outcome *)

Context (w : Cluster) (Hk : keyed w) (Hs : saneAll resolver s w) (Hu : usableAll resolver s w).

(** The keys of a cluster outside the window are not touched by the loop. *)
Lemma stage_outside names w1 cl :
  stage s (allMSAs s w (window names (sets_List (selected s w))))
    (allWorks resolver s w (window names (sets_List (selected s w)))) w w1 →
  cl ∉ names →
  (∀ d, d ∈ wantedMSAs s cl (refAt s w cl) →
     wMSAs w1 !! ObjectKey (msaMeta d) = wMSAs w !! ObjectKey (msaMeta d)) ∧
  (∀ d, d ∈ wantedWorks resolver s w cl (refAt s w cl) →
     wWorks w1 !! ObjectKey (mwMeta d) = wWorks w !! ObjectKey (mwMeta d)).
Proof.
  intros [_ _ _ [_ Hm] [_ Hw]] Hcl. split.
  - intros d Hd. apply Hm. intros (d' & Heq & Hd')%list_elem_of_fmap.
    apply allMSAs_elem in Hd' as (cl' & [Hc _]%list_elem_of_filter & Hd').
    apply (f_equal nnNamespace) in Heq. rewrite (wantedMSAs_namespace s cl _ d Hd) in Heq.
    cbn [objMeta msaObject] in Heq. rewrite (wantedMSAs_namespace s cl' _ d' Hd') in Heq. by subst.
  - intros d Hd. apply Hw. intros (d' & Heq & Hd')%list_elem_of_fmap.
    apply allWorks_elem in Hd' as (cl' & [Hc _]%list_elem_of_filter & Hd').
    apply (f_equal nnNamespace) in Heq. rewrite (wantedWorks_namespace resolver s w cl _ d Hd) in Heq.
    cbn [objMeta workObject] in Heq. rewrite (wantedWorks_namespace resolver s w cl' _ d' Hd') in Heq. by subst.
Qed.

Lemma window_nil cls : window [] cls = [].
Proof.
  unfold window. induction cls as [|c l IH]; [done|]. rewrite filter_cons_False; [done|apply not_elem_of_nil].
Qed.

(** Without a window the loop writes nothing. *)
Lemma stage_nowindow w1 cls :
  stage s (allMSAs s w (window [] cls)) (allWorks resolver s w (window [] cls)) w w1 →
  wMSAs w1 = wMSAs w ∧ wWorks w1 = wWorks w.
Proof.
  rewrite window_nil. intros [_ _ _ [_ Hm] [_ Hw]].
  split; apply map_eq; intros k; [apply Hm|apply Hw]; apply not_elem_of_nil.
Qed.

(** The loop ended in [w1] and the cleanup in [w']. *)
Record cleaned (names : list string) (wnames : gmap string (gset string)) (w1 w' : Cluster) (saw : bool) : Prop := mkCleaned {
  cleaned_stage : stage s (allMSAs s w (window names (sets_List (selected s w))))
    (allWorks resolver s w (window names (sets_List (selected s w)))) w w1;
  cleaned_names cl d : cl ∈ selected s w → cl ∈ names → d ∈ wantedWorks resolver s w cl (refAt s w cl) →
    omName (mwMeta d) ∈ default ∅ (wnames !! cl);
  cleaned_env : same_env w w';
  cleaned_saw : saw = existsb (staleWorkIn (selected s w) (sets_New names) wnames) (ownedWorks s w1);
  cleaned_works : erased mwMeta (staleKeys w1 (selected s w) (sets_New names) wnames) (wWorks w1) (wWorks w');
  cleaned_msas : erased msaMeta (if saw then [] else staleMSAKeys w1 (selected s w) (sets_New names)
    (desiredManagedServiceAccountNames s)) (wMSAs w1) (wMSAs w');
}.

Section cleaned.
Context (names : list string) (wnames : gmap string (gset string)) (w1 w' : Cluster) (saw : bool).
Context (Hc : cleaned names wnames w1 w' saw).

(** The cleanup keeps what is wanted. *)
Lemma cleaned_keeps_msa cl d :
  cl ∈ selected s w → d ∈ wantedMSAs s cl (refAt s w cl) →
  wMSAs w' !! ObjectKey (msaMeta d) = wMSAs w1 !! ObjectKey (msaMeta d).
Proof.
  intros Hcl Hd. apply (cleaned_msas _ _ _ _ _ Hc). destruct saw; [apply not_elem_of_nil|].
  intros (o & _ & Ho & Hkey)%staleMSAKeys_elem. injection Hkey as Hns Hn.
  apply stale_spec in Ho as [Ho|[_ Ho]]; [|rewrite Hn in Ho; by eapply Ho, wantedMSAs_names].
  rewrite Hns in Ho. pose proof (wantedMSAs_namespace s cl _ d Hd) as Hdn. cbn in Hdn. by rewrite Hdn in Ho.
Qed.

Lemma cleaned_keeps_work cl d :
  cl ∈ selected s w → d ∈ wantedWorks resolver s w cl (refAt s w cl) →
  wWorks w' !! ObjectKey (mwMeta d) = wWorks w1 !! ObjectKey (mwMeta d).
Proof.
  intros Hcl Hd. apply (cleaned_works _ _ _ _ _ Hc). intros (o & _ & Ho & Hkey)%staleKeys_elem.
  injection Hkey as Hns Hn. pose proof (wantedWorks_namespace resolver s w cl _ d Hd) as Hdn. cbn in Hdn.
  apply stale_spec in Ho. rewrite Hns, Hdn, Hn in Ho. destruct Ho as [Ho|[Hin Ho]]; [done|].
  apply sets_New_elem_of in Hin. by apply Ho, (cleaned_names _ _ _ _ _ Hc).
Qed.

(** Without a window and without works in deselected clusters, nothing but
    accounts in deselected clusters is deleted. *)
Lemma cleaned_quiet :
  names = [] → worksIn anyObject (selected s w) w →
  saw = false ∧ wWorks w' = wWorks w ∧
  erased msaMeta (staleMSAKeys w (selected s w) ∅ (desiredManagedServiceAccountNames s)) (wMSAs w) (wMSAs w').
Proof.
  intros Hn Hin. pose proof Hc as [Hst _ _ Hsaw Hew Hem]. rewrite Hn in *. change (sets_New []) with (∅ : gset string) in *.
  destruct (stage_nowindow _ _ Hst) as [Hm1 Hw1].
  assert (staleKeys w1 (selected s w) ∅ wnames = []) as Hnil.
  { apply staleKeys_nil. unfold worksIn. by rewrite (ownedWorks_same s w w1). }
  rewrite Hnil in Hew. apply erased_nil_eq in Hew. apply staleKeys_existsb in Hnil. rewrite Hnil in Hsaw.
  rewrite Hsaw in Hem. split_and!; [done|by rewrite Hew|]. rewrite <- Hm1.
  unfold staleMSAKeys. by rewrite <- (ownedMSAs_same s w w1).
Qed.

(** The outcome of ensuring and then erasing. *)
Lemma passed_intro : passed w w' names.
Proof.
  pose proof Hc as [Hst _ Henv _ Hew _]. pose proof (stage_keyed _ _ _ _ _ Hst Hk) as Hk1. split.
  - intros cl Hsel Hcl. assert (cl ∈ window names (sets_List (selected s w))) as Hwin
      by (apply list_elem_of_filter; split; [done|by apply sets_List_elem_of]).
    split.
    + intros d Hd. rewrite (cleaned_keeps_msa cl d) by done. apply (stage_msas _ _ _ _ _ Hst), allMSAs_elem. eauto.
    + rewrite (wantedWorks_env resolver s w w') by done. intros d Hd. rewrite (cleaned_keeps_work cl d) by done.
      apply (stage_works _ _ _ _ _ Hst), allWorks_elem. eauto.
  - intros cl d Hsel Hcl Hd. rewrite (cleaned_keeps_msa cl d) by done. by apply (stage_outside names w1 cl Hst).
  - intros cl d Hsel Hcl Hd. rewrite (cleaned_keeps_work cl d) by done. by apply (stage_outside names w1 cl Hst).
  - by eapply erased_worksIn.
  - intros Hn Hin. destruct (cleaned_quiet Hn Hin) as (_ & _ & He). exact (erased_msasIn w w' _ _ _ Hk He).
  - intros Hn Hin. destruct (cleaned_quiet Hn Hin) as (_ & Hw & He). split; [done|]. intros Hm.
    rewrite staleMSAKeys_nil in He by done. by apply erased_nil_eq in He.
Qed.

End cleaned.

End children.
