(* ===== verification/Liveness.v ===== *)
(** * Rounds of a live set: progress and convergence

    A round is a pass of the controller followed by the agents of the managed
    clusters.  The number of clusters whose children are not all done shrinks
    with every round; once it is zero, two more rounds remove what the set owns
    in deselected clusters and report Ready, and from then on no pass touches a
    child.  That the status comes to rest as well is shown in Quiescence. *)

From S2P Require Import Prelude GoStd ApiTypes Interfaces Reference Effects Samples Store.
From S2P Require Import Metadata Rbac ControllerAccess Validation Conditions Children Placement Rollout.
From S2P Require Import Cleanup ReconcileChildren Reconcile System Evaluation Convergence.
From Stdlib Require Import ZArith Lia.

(** ** The end of a pass on the server *)

Section pass.
Context `{MetaConditions} `{LabelsLib} `{SemanticEquality} `{JSONCodec} `{ApiErrors} `{ControllerUtil}
        `{ClusterGroups} `{PlacementTracker} `{RolloutPolicy}.
Context (now : Z) (cfg : reconcilerConfig).

Local Abbreviation hasResolver := (cfgResolver cfg).

(** After a status write the server holds exactly that status. *)
Lemma patchStatus_stores s st w :
  wSets w !! ObjectKey (setMeta s) = Some s →
  let r := eval server (patchStatus s st) w in
  wMSAs r.2 = wMSAs w ∧ wWorks r.2 = wWorks w ∧
  wSets r.2 !! ObjectKey (setMeta s) = Some (with_status s st).
Proof.
  intros Hs. unfold patchStatus. destruct (DeepEqual (setStatus s) st) eqn:Ed; simpl.
  { apply DeepEqual_spec in Ed as <-. split_and!; auto. rewrite Hs. f_equal. by destruct s. }
  unfold patch_set_status. cbn [with_status setMeta]. rewrite Hs. simpl. split_and!; auto. apply lookup_insert_eq.
Qed.

Lemma recordWarningEvent_reads s reason action msg : all_calls reading (recordWarningEvent cfg s reason action msg).
Proof. unfold recordWarningEvent. calls_steps; exact I. Qed.

(** The status of a clean pass in which every cluster was ready says so. *)
Lemma finishPass_eval s keep total requeue cr st w :
  wSets w !! ObjectKey (setMeta s) = Some s →
  let r := eval server (finishPass now cfg s keep total requeue cr st) w in
  wMSAs r.2 = wMSAs w ∧ wWorks r.2 = wWorks w ∧
  ∃ st', wSets r.2 !! ObjectKey (setMeta s) = Some (with_status s st') ∧
    (cleanResult cr → crReady cr = int32 (Z.of_nat total) → crCleanupPending cr = false →
     statusOf (stConditions st') conditionReady = Some ConditionTrue).
Proof.
  intros Hs. cbv zeta. unfold finishPass. rewrite eval_bind.
  match goal with |- context [patchStatus s ?x] => set (st' := x);
    destruct (patchStatus_stores s st' w Hs) as (Hm & Hw & Hset) end.
  destruct (eval server (patchStatus s st') w) as [[s' perr] w']. cbn [fst snd] in *.
  rewrite eval_reading; cycle 1.
  { calls_steps; try exact I; apply recordWarningEvent_reads. }
  split_and!; [done|done|]. exists st'. split; [done|]. intros (He & Hc & Hf) Hr Hp. unfold st'. rewrite Hp.
  unfold setNotDeletingCondition. read_conditions.
  destruct (applyChildResultConditions_spec now (with_stReadyClusterCount st (crReady cr)) cr total
    (setGeneration s) (rbacEnabled s)) as [-> _].
  rewrite He, Hc, Hf, Hr, Z.leb_refl. done.
Qed.

(** ** The children of a pass *)

Lemma reconcileChildren_eval s w res plan status :
  keyed w → saneAll hasResolver s w → usableAll hasResolver s w → resolves s w res → planned hasResolver s w plan →
  let names := planClusters plan in
  let r := eval server (reconcileChildren now hasResolver s res names (planCleanupClusters plan)
                          (planStatuses plan) status) w in
  passed hasResolver s w r.2 names ∧ wSets r.2 = wSets w ∧ cleanResult r.1.1 ∧
  (names = [] → crReady r.1.1 = int32 (Z.of_nat (length (resClusters res))) ∧
     (worksIn s anyObject (selected s w) w → crCleanupPending r.1.1 = false)).
Proof.
  intros Hk Hsane Hu Hres (Hcc & Hwin & Hpend & Hstat) names. pose proof Hres as (Hcls & _).
  fold (selected s w) in Hcls. cbv zeta. unfold reconcileChildren. rewrite Hcls, Hcc, eval_bind. cbv zeta.
  match goal with |- context [foldM ?f ?b ?l] => set (o := eval server (foldM f b l) w);
    assert (loopInv hasResolver s w names o.2 (sets_List (selected s w)) o.1) as (Hst & Hclean & Hnames & Hready) end.
  { apply (eval_foldM_inv server (loopInv hasResolver s w names)).
    { split_and!; [apply stage_refl|done|by intros ? ? ?%elem_of_nil|done]. }
    intros done cl rest acc wc Hl Hinv.
    assert (cl ∈ selected s w) as Hcl by (rewrite <- sets_List_elem_of, Hl; apply elem_of_middle).
    apply reconcileCluster_step; try done.
    - pose proof (sets_List_NoDup (selected s w)) as Hnd. rewrite Hl in Hnd.
      apply NoDup_app in Hnd as (_ & Hd & _). intros Hin. apply (Hd cl Hin). left.
    - intros Hn. split; [by apply Hstat|].
      destruct (decide (crsStatus (statusAt hasResolver s w cl) = Succeeded)) as [|Hne]; [done|].
      exfalso. by apply (Hpend cl). }
  destruct o as [lp w1]. cbn [fst snd] in *. destruct Hclean as (He & Hc & Hf). rewrite He, eval_bind.
  pose proof (deleteStaleChildren_eval (selected s w) (sets_New names) s (clWorkNames lp)
    (desiredManagedServiceAccountNames s) w1) as Hdel.
  assert (sets_New (sets_List (selected s w)) = selected s w) as ->.
  { apply leibniz_equiv. intros x. by rewrite sets_New_elem_of, sets_List_elem_of. }
  cbv zeta in Hdel. fold (staleKeys s w1 (selected s w) (sets_New names) (clWorkNames lp)) in Hdel.
  destruct Hdel as (Hr & Hs2 & Hew & Hem). set (saw := existsb _ _) in *.
  pose proof (eval_same_env (deleteStaleChildren s (selected s w) (sets_New names) (clWorkNames lp)
    (desiredManagedServiceAccountNames s)) w1) as Henv.
  destruct (eval server (deleteStaleChildren _ _ _ _ _) w1) as [dr w']. cbn [fst snd] in *. subst dr.
  assert (cleaned hasResolver s w names (clWorkNames lp) w1 w' saw) as Hcl.
  { split; try done.
    - intros cl d Hsel Hcl. apply Hnames; [by apply sets_List_elem_of|done].
    - etrans; [apply Hst|done].
    - by destruct saw. }
  cbn [eval mret prog_ret fst snd crReady crCleanupPending]. split_and!.
  - by eapply passed_intro.
  - rewrite Hs2. apply Hst.
  - done.
  - intros Hn. split; [by apply Hready|]. intros Hin. by destruct (cleaned_quiet hasResolver s w _ _ _ _ _ Hcl Hn Hin).
Qed.

Lemma passed_same s w w1 w2 names :
  wMSAs w2 = wMSAs w1 → wWorks w2 = wWorks w1 → same_env w1 w2 →
  passed hasResolver s w w1 names → passed hasResolver s w w2 names.
Proof.
  intros Hm Hw Henv [Ha Hpm Hpw Ht Htm Hq]. split; rewrite ?Hm, ?Hw; try done.
  - intros cl Hsel Hcl. destruct (Ha cl Hsel Hcl) as [Ham Haw]. split; [by rewrite Hm|].
    by rewrite Hw, (wantedWorks_env hasResolver s w1 w2).
  - intros o Ho. apply Ht. by rewrite <- (ownedWorks_same s w1 w2).
  - intros Hn Hin o Ho. apply Htm; [done|done|]. by rewrite <- (ownedMSAs_same s w1 w2).
Qed.

(** A set that can be acted on: live, finalized, valid, with placements that
    resolve. *)
Record actionable (s : ManagedServiceAccountReplicaSet) (w : Cluster) : Prop := mkActionable {
  act_live : omDeletionTimestamp (setMeta s) = None;
  act_finalizer : finalizerName ∈ omFinalizers (setMeta s);
  act_valid : validateRuntimeSpec s = None;
  act_resolved : selErr (selectionAt s w) = None;
}.

(** One pass over such a set. *)
Lemma pass_eval s w :
  actionable s w → keyed w → wSets w !! ObjectKey (setMeta s) = Some s →
  saneAll hasResolver s w → usableAll hasResolver s w →
  let w' := pass now cfg s w in
  ∃ names st, wSets w' !! ObjectKey (setMeta s) = Some (with_status s st) ∧
    passed hasResolver s w w' names ∧
    (∀ x, x ∈ names → pendingCluster hasResolver s w x) ∧ (∀ x, pendingCluster hasResolver s w x → names ≠ []) ∧
    (names = [] → worksIn s anyObject (selected s w) w →
     statusOf (stConditions st) conditionReady = Some ConditionTrue).
Proof.
  intros [Hlive Hfin Hval Herr] Hk Hset Hsane Hu. cbv zeta. unfold pass, Reconcile.
  rewrite eval_bind, (eval_send server (CGetSet (ObjectKey (setMeta s)))). cbn [server fst snd]. unfold find_obj.
  rewrite Hset, eval_bind.
  assert (∀ p : passOutcome, all_calls reading
    (_ ← stopNamespaceCaches cfg (passSet p) (passKeep p); mret (passResult p))) as Htail.
  { intros p. unfold stopNamespaceCaches. calls_steps; exact I. }
  rewrite eval_reading by apply Htail. unfold reconcileSet, reconcileLive.
  rewrite bool_decide_eq_false_2 by (rewrite Hlive; by intros [? ?]). rewrite AddFinalizer_present by done.
  unfold reconcileSpec. rewrite Hval. cbv zeta. rewrite eval_bind.
  destruct (resolvePlacementRefs_eval now s (setGeneration s) w) as [Hw Hres].
  destruct (eval server (resolvePlacementRefs now s (setGeneration s)) w) as [res w0]. cbn [fst snd] in *. subst w0.
  pose proof Hres as (_ & _ & _ & Hre). rewrite Hre, Herr. unfold reconcileResolved. cbv zeta. rewrite eval_bind.
  destruct (planRollout_eval now hasResolver s w (readable_sane hasResolver s w Hsane Hu) res Hres) as (plan & -> & Hplan).
  cbn [fst snd]. rewrite eval_bind.
  match goal with |- context [reconcileChildren _ _ _ _ _ _ _ ?st] =>
    destruct (reconcileChildren_eval s w res plan st Hk Hsane Hu Hres Hplan) as (Hp & Hs1 & Hclean & Hquiet) end.
  destruct (eval server (reconcileChildren _ _ _ _ _ _ _ _) w) as [[cr st1] w1]. cbn [fst snd] in *.
  match goal with |- context [finishPass _ _ _ ?keep ?total ?rq _ _] =>
    destruct (finishPass_eval s keep total rq cr st1 w1) as (Hm & Hwk & st' & Hst' & Hrd); [by rewrite Hs1|];
    pose proof (eval_same_env (finishPass now cfg s keep total rq cr st1) w1) as Henv end.
  exists (planClusters plan), st'. destruct Hplan as (_ & Hwin & Hpend & _). split_and!; try done.
  - by eapply passed_same.
  - intros Hn Hin. destruct (Hquiet Hn) as [Hr Hpd]. auto.
Qed.

End pass.

(** ** What does not depend on the status of the set *)

Section status.
Context `{MetaConditions} `{LabelsLib} `{SemanticEquality} `{JSONCodec} `{ApiErrors} `{ControllerUtil}
        `{ClusterGroups} `{PlacementTracker} `{RolloutPolicy}.
Context (resolver : bool) (s : ManagedServiceAccountReplicaSet) (st : ManagedServiceAccountReplicaSetStatus).
Context (w w' : Cluster) (Henv : same_env w w').

Local Abbreviation s' := (with_status s st).

Lemma selected_status : selected s' w' = selected s w.
Proof. unfold selected. by rewrite (selectionAt_env s st w w'). Qed.

Lemma wantedMSAs_status cl ref : wantedMSAs s' cl ref = wantedMSAs s cl ref.
Proof. done. Qed.

Lemma wantedWorks_status cl ref : wantedWorks resolver s' w' cl ref = wantedWorks resolver s w cl ref.
Proof. unfold wantedWorks. by rewrite (slicesAt_env resolver s st w w'). Qed.

Lemma sane_status cl ref : sane resolver s w cl ref → sane resolver s' w' cl ref.
Proof.
  intros [Hn Hc Hsl He Hm Hw]. split; rewrite ?wantedWorks_status; try done.
  - destruct Henv as (_ & _ & -> & _). done.
  - by rewrite (slicesAt_env resolver s st w w').
Qed.

Lemma saneAll_status : saneAll resolver s w → saneAll resolver s' w'.
Proof.
  intros Hs cl Hcl. rewrite selected_status in Hcl. rewrite (refAt_env s st w w') by done. by apply sane_status, Hs.
Qed.

Lemma actionable_status : actionable s w → actionable s' w'.
Proof.
  intros [Hl Hf Hv Hr]. split; [done|done|exact Hv|]. by rewrite (selectionAt_env s st w w').
Qed.

Lemma usableIn_status w1 cl ref : same_env w w1 → usableIn resolver s' w1 cl ref ↔ usableIn resolver s w1 cl ref.
Proof.
  intros Hw1. unfold usableIn. replace (wantedWorks resolver s' w1 cl ref) with (wantedWorks resolver s w1 cl ref); [done|].
  unfold wantedWorks. by rewrite (slicesAt_env resolver s st w1 w1).
Qed.

End status.

(** The same for a set at its own status. *)
Lemma with_status_id s : with_status s (setStatus s) = s.
Proof. by destruct s. Qed.

(** ** What the agents do *)

Section agents.
Context `{MetaConditions} `{LabelsLib} `{SemanticEquality} `{JSONCodec} `{ApiErrors} `{RolloutPolicy}.
Context (resolver : bool) (s : ManagedServiceAccountReplicaSet).

Lemma settledMSA_ready o : managedServiceAccountReady (settledMSA o) = true.
Proof.
  unfold managedServiceAccountReady, settledMSA, report. cbn [msaConditions]. apply orb_true_iff. left.
  apply IsStatusConditionTrue_spec. rewrite find_set by done. cbn [fst snd condType].
  rewrite decide_True by done. by eexists.
Qed.

Lemma settledWork_rolledOut o : workRolledOut (settledWork o).
Proof.
  unfold workRolledOut, settledWork, report. cbn [mwConditions mwMeta foldl fst snd]. split_and!.
  - repeat (rewrite find_set by done; cbn [condType]; first [rewrite decide_True by done; by eexists|rewrite decide_False by done]).
  - repeat (rewrite find_set by done; cbn [condType]; first [rewrite decide_True by done; by eexists|rewrite decide_False by done]).
  - intros d. rewrite find_set by done. cbn [condType]. rewrite decide_True by done. by intros [= <-].
Qed.

(** One run of the agents: everything is reported, terminating children go. *)
Definition agentsRun (w : Cluster) : Cluster := agents (settle w).

Lemma agentsRun_msas w k o :
  wMSAs (agentsRun w) !! k = Some o ↔ ∃ o0, wMSAs w !! k = Some o0 ∧ o = settledMSA o0 ∧ live (msaMeta o0) = true.
Proof.
  unfold agentsRun. rewrite agents_msas. unfold settle. cbn [wMSAs with_wWorks with_wMSAs].
  rewrite lookup_fmap_Some. split.
  - intros [(o0 & <- & Ho) Hl]. by exists o0.
  - intros (o0 & Ho & -> & Hl). split; [by exists o0|done].
Qed.

Lemma agentsRun_works w k o :
  wWorks (agentsRun w) !! k = Some o ↔ ∃ o0, wWorks w !! k = Some o0 ∧ o = settledWork o0 ∧ live (mwMeta o0) = true.
Proof.
  unfold agentsRun. rewrite agents_works. unfold settle. cbn [wWorks with_wWorks with_wMSAs].
  rewrite lookup_fmap_Some. split.
  - intros [(o0 & <- & Ho) Hl]. by exists o0.
  - intros (o0 & Ho & -> & Hl). split; [by exists o0|done].
Qed.

Lemma agentsRun_env w : same_env w (agentsRun w).
Proof. done. Qed.

Lemma agentsRun_sets w : wSets (agentsRun w) = wSets w.
Proof. done. Qed.

Lemma agentsRun_keyed w : keyed w → keyed (agentsRun w).
Proof. intros Hk. by apply agents_keyed, settle_keyed. Qed.

(** What is applied is done once the agents have run. *)
Lemma agentsRun_done w cl ref : appliedIn resolver s w cl ref → clusterDone resolver s (agentsRun w) cl ref.
Proof.
  intros [Hm Hw]. split; apply Forall_forall.
  - intros d Hd. destruct (Hm d Hd) as (o & Ho & Hc & Hown & Hl & _). exists (settledMSA o).
    split_and!; [apply agentsRun_msas; eauto|exact Hown|exact Hc|apply settledMSA_ready].
  - intros d Hd. rewrite (wantedWorks_env resolver s w (agentsRun w)) in Hd by done.
    destruct (Hw d Hd) as (o & Ho & Hc & Hown & Hl & _). exists (settledWork o).
    split_and!; [apply agentsRun_works; eauto|exact Hown|exact Hc|apply settledWork_rolledOut].
Qed.

Lemma agentsRun_usable w cl ref : usableIn resolver s w cl ref → usableIn resolver s (agentsRun w) cl ref.
Proof.
  intros [Hm Hw]. split.
  - eapply Forall_impl; [exact Hm|]. intros d Hd o (o0 & Ho & -> & Hl)%agentsRun_msas. by apply (Hd o0).
  - rewrite (wantedWorks_env resolver s w (agentsRun w)) by done.
    eapply Forall_impl; [exact Hw|]. intros d Hd o (o0 & Ho & -> & Hl)%agentsRun_works. by apply (Hd o0).
Qed.

(** Only live children are left. *)
Lemma agentsRun_worksIn w sel : worksIn s liveObject sel w → worksIn s anyObject sel (agentsRun w).
Proof.
  intros Hin o (Ho & k & (o0 & Hl & -> & Hlive)%agentsRun_works)%ownedWorks_elem _.
  apply (Hin o0); [|exact Hlive]. apply ownedWorks_elem. split; [exact Ho|eauto].
Qed.

Lemma agentsRun_msasIn w sel : msasIn s liveObject sel w → msasIn s anyObject sel (agentsRun w).
Proof.
  intros Hin o (Ho & k & (o0 & Hl & -> & Hlive)%agentsRun_msas)%ownedMSAs_elem _.
  apply (Hin o0); [|exact Hlive]. apply ownedMSAs_elem. split; [exact Ho|eauto].
Qed.

End agents.

(** ** Rounds *)

Section rounds.
Context `{MetaConditions} `{LabelsLib} `{SemanticEquality} `{JSONCodec} `{ApiErrors} `{ControllerUtil}
        `{ClusterGroups} `{PlacementTracker} `{RolloutPolicy}.
Context (cfg : reconcilerConfig) (s : ManagedServiceAccountReplicaSet).

Local Abbreviation hasResolver := (cfgResolver cfg).
Local Abbreviation req := (ObjectKey (setMeta s)).

(** A pass at time [t], and the agents afterwards. *)
Definition round (t : Z) (w : Cluster) : Cluster := agentsRun (pass t cfg s w).

Definition rounds (ts : list Z) (w : Cluster) : Cluster := foldl (λ w t, round t w) w ts.

(** The set is stored, can be acted on and is in order on its selection, and no
    other owner and no terminating child is in its way. *)
Record reconcilable (w : Cluster) : Prop := mkReconcilable {
  rec_act : actionable s w;
  rec_keyed : keyed w;
  rec_stored : ∃ st, wSets w !! req = Some (with_status s st);
  rec_sane : saneAll hasResolver s w;
  rec_usable : usableAll hasResolver s w;
}.

Definition done (w : Cluster) (cl : string) : Prop := clusterDone hasResolver s w cl (refAt s w cl).

(** The set reports that it is ready. *)
Definition reportsReady (w : Cluster) : Prop :=
  ∃ st, wSets w !! req = Some (with_status s st) ∧
        statusOf (stConditions st) conditionReady = Some ConditionTrue.

(** Every wanted child is there, and nothing in deselected clusters. *)
Record inPlace (w : Cluster) : Prop := mkInPlace {
  conv_rec : reconcilable w;
  conv_done cl : cl ∈ selected s w → done w cl;
  conv_works : worksIn s anyObject (selected s w) w;
  conv_msas : msasIn s anyObject (selected s w) w;
}.

(** Nothing is left to do, and the set says so. *)
Definition converged (w : Cluster) : Prop := inPlace w ∧ reportsReady w.

Lemma done_dec w cl : reconcilable w → cl ∈ selected s w → done w cl ∨ ¬ done w cl.
Proof.
  intros Hrec Hcl. pose proof (statusAt_done hasResolver s w cl (rec_sane _ Hrec) (rec_usable _ Hrec) Hcl) as Hd.
  destruct (decide (crsStatus (statusAt hasResolver s w cl) = Succeeded)); unfold done; tauto.
Qed.

Lemma clusterDone_status st w cl ref :
  clusterDone hasResolver (with_status s st) w cl ref ↔ clusterDone hasResolver s w cl ref.
Proof. unfold clusterDone. by rewrite (wantedWorks_status hasResolver s st w w). Qed.

Lemma passed_status st w w' names :
  same_env w w' → passed hasResolver (with_status s st) w w' names → passed hasResolver s w w' names.
Proof.
  intros Henv [Ha Hm Hw Ht Htm Hq]. rewrite (selected_status s st w w) in * by done. split; try done.
  - intros cl Hs Hcl. specialize (Ha cl Hs Hcl). rewrite (refAt_env s st w w) in Ha by done.
    unfold appliedIn in *. by rewrite (wantedWorks_status hasResolver s st w' w') in Ha.
  - intros cl d Hs Hcl Hd. apply (Hw cl); [done|done|].
    by rewrite (refAt_env s st w w), (wantedWorks_status hasResolver s st w w).
Qed.

(** One pass, in terms of the set we started with. *)
Lemma pass_step t w :
  reconcilable w →
  let w' := pass t cfg s w in
  ∃ names st, wSets w' !! req = Some (with_status s st) ∧ passed hasResolver s w w' names ∧
    (∀ x, x ∈ names → x ∈ selected s w ∧ ¬ done w x) ∧
    (∀ x, x ∈ selected s w → ¬ done w x → names ≠ []) ∧
    (names = [] → worksIn s anyObject (selected s w) w →
     statusOf (stConditions st) conditionReady = Some ConditionTrue).
Proof.
  intros Hrec. pose proof Hrec as [Hact Hk (st0 & Hst) Hs Hu].
  pose proof (saneAll_status hasResolver s st0 w w ltac:(done) Hs) as Hs'.
  assert (usableAll hasResolver (with_status s st0) w) as Hu'.
  { intros cl Hcl. rewrite (selected_status s st0 w w) in Hcl by done. rewrite (refAt_env s st0 w w) by done.
    apply (usableIn_status hasResolver s st0 w); [done|]. by apply Hu. }
  destruct (pass_eval t cfg (with_status s st0) w (actionable_status s st0 w w ltac:(done) Hact) Hk Hst Hs' Hu')
    as (names & st & Hset & Hp & Hwin & Hpend & Hready).
  assert (∀ x, pendingCluster hasResolver (with_status s st0) w x ↔ x ∈ selected s w ∧ ¬ done w x) as Hpc.
  { intros x. unfold pendingCluster. rewrite (selected_status s st0 w w) by done.
    split; intros [Hx Hd]; (split; [done|]).
    - intros Hdone. apply Hd, statusAt_done; try done.
      rewrite (refAt_env s st0 w w) by done. by apply clusterDone_status.
    - intros Hsu. apply Hd. apply statusAt_done in Hsu; try done.
      rewrite (refAt_env s st0 w w) in Hsu by done. by apply clusterDone_status in Hsu. }
  rewrite (selected_status s st0 w w) in Hready by done.
  exists names, st. split_and!; [exact Hset| | | |exact Hready].
  - eapply passed_status; [apply eval_same_env|exact Hp].
  - intros x Hx. by apply Hpc, Hwin.
  - intros x Hx Hd. apply (Hpend x). by apply Hpc.
Qed.

(** A done cluster that a pass left alone is applied. *)
Lemma done_applied w w' names cl :
  reconcilable w → same_env w w' → passed hasResolver s w w' names → cl ∈ selected s w → cl ∉ names →
  done w cl → appliedIn hasResolver s w' cl (refAt s w cl).
Proof.
  intros Hrec Henv Hp Hsel Hcl [Hm Hw]. pose proof (rec_keyed _ Hrec) as (_ & Hkm & Hkw).
  destruct (rec_usable _ Hrec cl Hsel) as [Hum Huw]. rewrite Forall_forall in Hm. rewrite Forall_forall in Hw.
  rewrite Forall_forall in Hum. rewrite Forall_forall in Huw. split.
  - intros d Hd. rewrite (passed_msas _ _ _ _ _ Hp cl d) by done. destruct (Hm d Hd) as (o & Ho & Hown & Hc & _).
    exists o. split; [done|]. split_and!; [done|exact Hown|by apply (Hum d Hd o Ho)|by apply Hkm].
  - rewrite (wantedWorks_env hasResolver s w w') by done. intros d Hd. rewrite (passed_works _ _ _ _ _ Hp cl d) by done.
    destruct (Hw d Hd) as (o & Ho & Hown & Hc & _).
    exists o. split; [done|]. split_and!; [done|exact Hown|by apply (Huw d Hd o Ho)|by apply Hkw].
Qed.

Lemma applied_usable w cl ref : appliedIn hasResolver s w cl ref → usableIn hasResolver s w cl ref.
Proof.
  intros [Hm Hw]. split; apply Forall_forall; intros d Hd o Ho; cbn [objMeta msaObject workObject] in Ho.
  - destruct (Hm d Hd) as (o' & Ho' & _ & Hown & Hl & _). rewrite Ho in Ho'. by injection Ho' as <-.
  - destruct (Hw d Hd) as (o' & Ho' & _ & Hown & Hl & _). rewrite Ho in Ho'. by injection Ho' as <-.
Qed.

(** A pass keeps the set reconcilable. *)
Lemma passed_usable w w' names :
  reconcilable w → same_env w w' → passed hasResolver s w w' names →
  ∀ cl, cl ∈ selected s w → usableIn hasResolver s w' cl (refAt s w cl).
Proof.
  intros Hrec Henv Hp cl Hsel. destruct (decide (cl ∈ names)) as [Hin|Hin].
  { by apply applied_usable, (passed_applied _ _ _ _ _ Hp). }
  destruct (rec_usable _ Hrec cl Hsel) as [Hum Huw]. rewrite Forall_forall in Hum. rewrite Forall_forall in Huw.
  split; apply Forall_forall.
  - intros d Hd o. cbn [objMeta msaObject]. rewrite (passed_msas _ _ _ _ _ Hp cl d) by done. by apply Hum.
  - rewrite (wantedWorks_env hasResolver s w w') by done. intros d Hd o. cbn [objMeta workObject].
    rewrite (passed_works _ _ _ _ _ Hp cl d) by done. by apply Huw.
Qed.

(** The selection and the primary refs stay what they are. *)
Lemma selected_env w w' : same_env w w' → selected s w' = selected s w.
Proof. intros He. pose proof (selected_status s (setStatus s) w w' He) as Hs. by rewrite with_status_id in Hs. Qed.

Lemma refAt_same w w' cl : same_env w w' → refAt s w' cl = refAt s w cl.
Proof. intros He. pose proof (refAt_env s (setStatus s) w w' cl He) as Hs. by rewrite with_status_id in Hs. Qed.

Lemma reconcilable_env w w' :
  reconcilable w → same_env w w' → keyed w' → (∃ st, wSets w' !! req = Some (with_status s st)) →
  (∀ cl, cl ∈ selected s w → usableIn hasResolver s w' cl (refAt s w cl)) → reconcilable w'.
Proof.
  intros Hrec He Hk Hst Hu. split; [|done|done|..].
  - pose proof (actionable_status s (setStatus s) w w' He (rec_act _ Hrec)) as Ha. by rewrite with_status_id in Ha.
  - pose proof (saneAll_status hasResolver s (setStatus s) w w' He (rec_sane _ Hrec)) as Ha. by rewrite with_status_id in Ha.
  - intros cl. rewrite (selected_env w w'), (refAt_same w w') by done. apply Hu.
Qed.

Lemma pass_reconcilable t w : reconcilable w → reconcilable (pass t cfg s w).
Proof.
  intros Hrec. destruct (pass_step t w Hrec) as (names & st & Hst & Hp & _).
  pose proof (eval_same_env (Reconcile t cfg req) w) as He.
  apply (reconcilable_env w); [done|done|apply eval_keyed, Hrec|by eexists|by eapply passed_usable].
Qed.

Lemma round_env t w : same_env w (round t w).
Proof. etrans; [apply (eval_same_env (Reconcile t cfg req))|apply agentsRun_env]. Qed.

Lemma round_reconcilable t w : reconcilable w → reconcilable (round t w).
Proof.
  intros Hrec. pose proof (pass_reconcilable t w Hrec) as Hp. apply (reconcilable_env (pass t cfg s w)); try done.
  - apply agentsRun_keyed, Hp.
  - apply Hp.
  - intros cl Hcl. apply agentsRun_usable. by apply Hp.
Qed.

(** A cluster that is done stays done; one of the window becomes done. *)
Lemma round_done t w names cl :
  reconcilable w → passed hasResolver s w (pass t cfg s w) names → cl ∈ selected s w →
  cl ∈ names ∨ done w cl → done (round t w) cl.
Proof.
  intros Hrec Hp Hsel Hd. unfold done. rewrite (refAt_same w) by apply round_env. apply agentsRun_done.
  destruct (decide (cl ∈ names)) as [Hin|Hin]; [by apply (passed_applied _ _ _ _ _ Hp)|].
  destruct Hd as [?|Hd]; [done|]. eapply done_applied; try done. apply (eval_same_env (Reconcile t cfg req)).
Qed.

(** The clusters that still have something to do. *)
Definition pendingSet (w : Cluster) : gset string :=
  filter (λ cl, crsStatus (statusAt hasResolver s w cl) ≠ Succeeded) (selected s w).

Lemma pendingSet_elem w cl : reconcilable w → cl ∈ pendingSet w ↔ cl ∈ selected s w ∧ ¬ done w cl.
Proof.
  intros Hrec. unfold pendingSet. rewrite elem_of_filter.
  split; intros [Ha Hb].
  - split; [done|]. intros Hd. apply Ha. by apply statusAt_done; [apply Hrec|apply Hrec|..].
  - split; [|done]. intros Hd. apply Hb. by apply statusAt_done in Hd; [|apply Hrec|apply Hrec|].
Qed.

(** Every round makes progress. *)
Lemma round_progress t w :
  reconcilable w → pendingSet w ≠ ∅ → pendingSet (round t w) ⊂ pendingSet w.
Proof.
  intros Hrec Hne. pose proof (round_reconcilable t w Hrec) as Hrec'.
  destruct (pass_step t w Hrec) as (names & st & _ & Hp & Hwin & Hpend & _).
  pose proof (selected_env w (round t w) (round_env t w)) as Hsel. split.
  - intros x. rewrite !pendingSet_elem, Hsel by done. intros [Hx Hd]. split; [done|]. intros Hd'.
    apply Hd. eapply round_done; eauto.
  - intros Hsub. apply set_choose_L in Hne as [x Hx]. apply pendingSet_elem in Hx as [Hx Hd]; [|done].
    destruct names as [|y l]; [by eapply Hpend|]. destruct (Hwin y) as [Hy Hyd]; [left|].
    assert (y ∈ pendingSet (round t w)) as Hin by (apply Hsub, pendingSet_elem; auto).
    apply pendingSet_elem in Hin as [_ Hnd]; [|done]. apply Hnd. eapply round_done; eauto. left. left.
Qed.

Lemma rounds_reconcilable ts w : reconcilable w → reconcilable (rounds ts w).
Proof. revert w. induction ts as [|t ts IH]; intros w Hrec; [done|]. by apply IH, round_reconcilable. Qed.

Lemma rounds_done ts w :
  reconcilable w → size (pendingSet w) <= length ts → pendingSet (rounds ts w) = ∅.
Proof.
  revert w. induction ts as [|t ts IH]; intros w Hrec Hlen; cbn in *.
  { apply leibniz_equiv, size_empty_inv. lia. }
  apply IH; [by apply round_reconcilable|]. destruct (decide (pendingSet w = ∅)) as [He|Hne].
  - enough (pendingSet (round t w) = ∅) as -> by (rewrite size_empty; lia).
    apply leibniz_equiv. intros x. split; [|by intros ?%elem_of_empty].
    rewrite pendingSet_elem by (by apply round_reconcilable). intros [Hx Hd]. exfalso. apply Hd.
    rewrite (selected_env w) in Hx by apply round_env.
    destruct (pass_step t w Hrec) as (names & st & _ & Hp & _). eapply round_done; eauto. right.
    destruct (done_dec w x Hrec Hx) as [|Hn]; [done|].
    assert (x ∈ pendingSet w) as Hin by (by apply pendingSet_elem). rewrite He in Hin. by apply elem_of_empty in Hin.
  - pose proof (subset_size _ _ (round_progress t w Hrec Hne)). lia.
Qed.

(** A round without a pending cluster: the works of deselected clusters are
    gone, and once they are, so are the accounts, and the set is ready. *)
Lemma quiet_round t w :
  reconcilable w → pendingSet w = ∅ →
  let w' := round t w in
  pendingSet w' = ∅ ∧ worksIn s anyObject (selected s w) w' ∧
  (worksIn s anyObject (selected s w) w → msasIn s anyObject (selected s w) w' ∧ reportsReady w').
Proof.
  intros Hrec He. cbv zeta. split; [by apply (rounds_done [t]); [|rewrite He, size_empty; lia]|].
  destruct (pass_step t w Hrec) as (names & st & Hst & Hp & Hwin & Hpend & Hready).
  assert (names = []) as Hn.
  { destruct names as [|x l]; [done|]. destruct (Hwin x) as [Hx Hd]; [left|].
    assert (x ∈ pendingSet w) as Hin by (by apply pendingSet_elem). rewrite He in Hin. by apply elem_of_empty in Hin. }
  split; [apply agentsRun_worksIn, Hp|]. intros Hin. split; [by apply agentsRun_msasIn, Hp|].
  exists st. split; [exact Hst|]. by apply Hready.
Qed.

(** The passes at the given times, without the agents. *)
Definition passesAt (ts : list Z) (w : Cluster) : Cluster := foldl (λ w t, pass t cfg s w) w ts.

(** With everything in place a pass touches no child, and reports Ready. *)
Lemma inPlace_pass t w :
  inPlace w →
  wMSAs (pass t cfg s w) = wMSAs w ∧ wWorks (pass t cfg s w) = wWorks w ∧ converged (pass t cfg s w).
Proof.
  intros [Hrec Hd Hw Hm]. destruct (pass_step t w Hrec) as (names & st & Hst & Hp & Hwin & Hpend & Hready).
  assert (names = []) as Hn by (destruct names as [|x l]; [done|]; destruct (Hwin x) as [Hx Hnd]; [left|]; by apply Hd in Hx).
  destruct (passed_quiet _ _ _ _ _ Hp Hn Hw) as [Hw' Hm']. specialize (Hm' Hm).
  pose proof (eval_same_env (Reconcile t cfg req) w) as He. split_and!; [done|done|]. split; [split|].
  - by apply pass_reconcilable.
  - intros cl. rewrite (selected_env w) by done. intros Hcl. specialize (Hd cl Hcl).
    unfold done, clusterDone, msaDone, workDone in *.
    by rewrite (refAt_same w), (wantedWorks_env hasResolver s w), Hw', Hm' by done.
  - unfold worksIn. rewrite (selected_env w), (ownedWorks_same s w) by done. exact Hw.
  - unfold msasIn. rewrite (selected_env w), (ownedMSAs_same s w) by done. exact Hm.
  - exists st. split; [done|]. by apply Hready.
Qed.

Lemma inPlace_passes ts w :
  inPlace w → let w' := passesAt ts w in
  wMSAs w' = wMSAs w ∧ wWorks w' = wWorks w ∧ inPlace w' ∧ (ts ≠ [] → reportsReady w').
Proof.
  revert w. induction ts as [|t ts IH]; intros w Hw; [by split_and!|]. cbn [passesAt foldl].
  destruct (inPlace_pass t w Hw) as (Hm & Hk & Hc & Hr). destruct (IH _ Hc) as (Hm' & Hk' & Hc' & Hr').
  unfold passesAt in *. rewrite Hm', Hk', Hm, Hk. split_and!; try done. intros _.
  destruct ts as [|t' ts]; [exact Hr|by apply Hr'].
Qed.

(** Enough rounds put everything in place. *)
Lemma rounds_converge ts w :
  reconcilable w → size (selected s w) + 2 <= length ts → converged (rounds ts w).
Proof.
  intros Hrec Hlen. destruct ts as [|t2 ts _] using rev_ind; [cbn in Hlen; lia|].
  destruct ts as [|t1 ts _] using rev_ind; [cbn in Hlen; lia|]. rewrite !length_app in Hlen. cbn in Hlen.
  unfold rounds. rewrite !foldl_app. cbn [foldl]. fold (rounds ts w). set (w0 := rounds ts w).
  pose proof (rounds_reconcilable ts w Hrec) as Hrec0. fold w0 in Hrec0.
  assert (pendingSet w0 = ∅) as He0.
  { apply rounds_done; [done|]. assert (size (pendingSet w) <= size (selected s w)); [|lia].
    apply subseteq_size. unfold pendingSet. intros x. by intros [_ ?]%elem_of_filter. }
  destruct (quiet_round t1 w0 Hrec0 He0) as (He1 & Hw1 & _).
  pose proof (round_reconcilable t1 w0 Hrec0) as Hrec1. pose proof (round_env t1 w0) as Henv1.
  destruct (quiet_round t2 (round t1 w0) Hrec1 He1) as (He2 & Hw2 & Hrest).
  pose proof (selected_env _ _ Henv1) as Hs1. pose proof (round_env t2 (round t1 w0)) as Henv2.
  pose proof (selected_env _ _ Henv2) as Hs2. rewrite Hs1 in *. destruct (Hrest Hw1) as [Hm2 Hr2].
  pose proof (round_reconcilable t2 _ Hrec1) as Hrec2. split; [split|]; rewrite ?Hs2; try done.
  intros cl Hcl. destruct (done_dec (round t2 (round t1 w0)) cl Hrec2) as [|Hn]; [by rewrite Hs2|done|].
  assert (cl ∈ pendingSet (round t2 (round t1 w0))) as Hin by (apply pendingSet_elem; [done|by rewrite Hs2]).
  rewrite He2 in Hin. by apply elem_of_empty in Hin.
Qed.


End rounds.

(** ** Revoking grants *)

(** The set after an edit that removes [spec.rbac], at generation [g]. *)
Definition without_rbac (s : ManagedServiceAccountReplicaSet) (g : Z) : ManagedServiceAccountReplicaSet :=
  let om := setMeta s in
  mkReplicaSet (mkObjectMeta (omName om) (omNamespace om) (omUID om) g (omResourceVersion om)
                  (omLabels om) (omAnnotations om) (omFinalizers om) (omDeletionTimestamp om))
    (mkSpec (specPlacementRefs (setSpec s)) (specTemplate (setSpec s)) None) (setStatus s).

Section revoked.
Context `{MetaConditions} `{LabelsLib} `{SemanticEquality} `{JSONCodec} `{ApiErrors} `{ControllerUtil}
        `{ClusterGroups} `{PlacementTracker} `{RolloutPolicy}.
Context (cfg : reconcilerConfig) (s : ManagedServiceAccountReplicaSet) (g : Z).

Local Abbreviation s2 := (without_rbac s g).
Local Abbreviation req := (ObjectKey (setMeta s)).

(** The world after the edit. *)
Definition edited (w : Cluster) : Cluster := with_wSets w (<[req := s2]> (wSets w)).

Lemma revoked_selection w w' : same_env w w' → selectionAt s2 w' = selectionAt s w.
Proof.
  intros He. pose proof (selectionAt_env s (setStatus s) w w' He) as Hs. rewrite with_status_id in Hs.
  rewrite <- Hs. done.
Qed.

Lemma revoked_refAt w w' cl : same_env w w' → refAt s2 w' cl = refAt s w cl.
Proof. intros He. unfold refAt. by rewrite (revoked_selection w w'). Qed.

Lemma revoked_selected w w' : same_env w w' → selected s2 w' = selected s w.
Proof. intros He. unfold selected. by rewrite (revoked_selection w w'). Qed.

Lemma revoked_valid : validateRuntimeSpec s = None → validateRuntimeSpec s2 = None.
Proof.
  unfold validateRuntimeSpec. cbn [without_rbac setSpec specPlacementRefs specTemplate specRBAC].
  repeat case_goal; done.
Qed.

(** The children the edited set wants are among those it wanted before. *)
Lemma revoked_wanted_msa cl ref d : d ∈ wantedMSAs s2 cl ref → d ∈ wantedMSAs s cl ref.
Proof. intros Hd. apply elem_of_app. right. exact Hd. Qed.

Lemma revoked_inPlace w : inPlace cfg s w → inPlace cfg s2 (edited w).
Proof.
  intros [Hrec Hd Hw Hm]. pose proof Hrec as [[Hl Hf Hv Hr] Hk (st & Hst) Hs Hu].
  assert (same_env w (edited w)) as He by done.
  assert (keyed (edited w)) as Hk'.
  { apply keyed_sets; [done|]. apply (keyed_insert (λ o, ObjectKey (setMeta o))); [apply Hk|done]. }
  split; [split|..]; rewrite ?(revoked_selected w (edited w)) by done.
  - split; [done|done|by apply revoked_valid|]. by rewrite (revoked_selection w (edited w)).
  - done.
  - exists (setStatus s2). rewrite with_status_id. apply lookup_insert_eq.
  - intros cl. rewrite (revoked_selected w (edited w)), (revoked_refAt w (edited w)) by done. intros Hcl.
    destruct (Hs cl Hcl) as [Hn Hc _ _ _ _]. split; try done.
    + by intros d ?%elem_of_nil.
    + apply NoDup_singleton.
    + apply NoDup_nil_2.
  - intros cl. rewrite (revoked_selected w (edited w)), (revoked_refAt w (edited w)) by done. intros Hcl.
    destruct (Hu cl Hcl) as [Hum _]. split; [|by apply Forall_nil]. rewrite Forall_forall in Hum.
    apply Forall_forall. intros d Hd' o Ho. exact (Hum d (revoked_wanted_msa _ _ _ Hd') o Ho).
  - intros cl Hcl. destruct (Hd cl Hcl) as [Hdm _]. split; [|by apply Forall_nil].
    rewrite (revoked_refAt w (edited w)) by done. rewrite Forall_forall in Hdm.
    apply Forall_forall. intros d Hd'. exact (Hdm d (revoked_wanted_msa _ _ _ Hd')).
  - exact Hw.
  - exact Hm.
Qed.

(** Revoked permissions outlive their grants: when everything of a set is in
    place and [spec.rbac] is then removed, no number of passes deletes any of
    the works that carry the permissions, not even those of the selected
    clusters, while the set reports Ready. *)
Theorem revoked_grants_survive ts w :
  inPlace cfg s w → ts ≠ [] →
  let w' := passesAt cfg s2 ts (edited w) in
  wWorks w' = wWorks w ∧ wMSAs w' = wMSAs w ∧ reportsReady s2 w'.
Proof.
  intros Hw Hts. destruct (inPlace_passes cfg s2 ts (edited w) (revoked_inPlace w Hw)) as (Hm & Hk & _ & Hr).
  cbv zeta. rewrite Hk, Hm. auto.
Qed.

End revoked.

(** ** On a concrete fleet *)

Section witnesses.
Import Ref.

(** One cluster at a time. *)
#[local] Existing Instance policy_one.

Definition sampleConfig : reconcilerConfig := mkConfig true true true.

Lemma sample_selected : sets_List (selected sampleSet sampleWorld) = ["cluster-a"; "cluster-b"].
Proof. vm_compute. reflexivity. Qed.

Lemma encodable_any spec : encodable spec.
Proof. intros m _. unfold rawExtensionJSON. repeat case_goal; by eexists. Qed.

Lemma sampleWorld_reconcilable : reconcilable sampleConfig sampleSet sampleWorld.
Proof.
  assert (∀ cl, cl ∈ selected sampleSet sampleWorld → cl = "cluster-a" ∨ cl = "cluster-b") as Hsel.
  { intros cl Hcl. rewrite <- sets_List_elem_of, sample_selected in Hcl.
    apply elem_of_cons in Hcl as [?|Hcl]; [by left|]. apply list_elem_of_singleton in Hcl. by right. }
  split.
  - split; [done|left|vm_compute; reflexivity|vm_compute; reflexivity].
  - apply sampleWorldWith_keyed.
  - exists emptyStatus. vm_compute. reflexivity.
  - intros cl [-> | ->]%Hsel; (split; [|done|vm_compute; reflexivity|intros; apply encodable_any|..];
      apply (bool_decide_unpack _); vm_compute; exact I).
  - intros cl _. split; apply Forall_forall; intros d _ o Ho; cbn [sampleWorld sampleWorldWith wMSAs wWorks map list_to_map] in Ho;
      exfalso; vm_compute in Ho; discriminate Ho.
Qed.

Lemma sample_rounds_enough : size (selected sampleSet sampleWorld) + 2 <= length [1; 2; 3; 4]%Z.
Proof. rewrite <- sets_List_length, sample_selected. cbn. lia. Qed.

(** The fleet once the sample set has converged. *)
Definition settledWorld : Cluster := rounds sampleConfig sampleSet [1; 2; 3; 4]%Z sampleWorld.

Lemma settledWorld_inPlace : inPlace sampleConfig sampleSet settledWorld.
Proof. apply rounds_converge; [apply sampleWorld_reconcilable|apply sample_rounds_enough]. Qed.


(** Six works remain of a set that grants nothing any more. *)
Lemma revoked_grants_survive_witness :
  let w' := passesAt sampleConfig (without_rbac sampleSet 8) [5; 6; 7]%Z (edited sampleSet 8 settledWorld) in
  size (wWorks w') = 6 ∧ reportsReady (without_rbac sampleSet 8) w'.
Proof.
  destruct (revoked_grants_survive sampleConfig sampleSet 8 [5; 6; 7]%Z settledWorld settledWorld_inPlace)
    as (Hw & _ & Hr); [discriminate|]. split; [|exact Hr]. rewrite Hw. vm_compute. reflexivity.
Defined.

End witnesses.
