(* ===== verification/Quiescence.v ===== *)
(** * Quiescence: a pass that has nothing to do changes nothing

    The status of a set is rewritten from scratch in every pass, its conditions
    by updating the ones found.  The controller reconciles again whenever the
    status changes, so it comes to rest only if a pass over a set with
    everything in place writes the very status it read.  Two passes are
    compared in lockstep: they send the same requests, and the second sets only
    conditions that the first left behind. *)

From S2P Require Import Prelude GoStd ApiTypes Interfaces Reference Effects Samples Store.
From S2P Require Import Metadata Rbac ControllerAccess Validation Conditions Children Placement Rollout.
From S2P Require Import Cleanup ReconcileChildren Reconcile StatusSchema System Evaluation Convergence Liveness.
From Stdlib Require Import ZArith Lia.

(** ** Two programs in lockstep *)

(** The requests that have nothing to do with the stored sets. *)
Definition ignores_sets (c : call) : Prop :=
  match c with
  | CGetSet _ | CPatchSet _ _ _ | CPatchSetStatus _ _ | CListSets _ _ => False
  | _ => True
  end.

(** They send the same requests, up to the version of the set that the
    namespace resolver is told about, and return related values. *)
Inductive lock {A B} (Q : A → B → Prop) : prog A → prog B → Prop :=
| lock_ret a b : Q a b → lock Q (Ret a) (Ret b)
| lock_call c k k' : ignores_sets c → (∀ r, lock Q (k r) (k' r)) → lock Q (Call c k) (Call c k')
| lock_resolve s s' cl g sel k k' :
    (∀ r : result (list string), lock Q (k r) (k' r)) →
    lock Q (Call (CResolveNamespaceSelector s cl g sel) k) (Call (CResolveNamespaceSelector s' cl g sel) k').

Section lock_rules.

Lemma lock_bind {A B A' B'} (R : A → B → Prop) (Q : A' → B' → Prop) p q (f : A → prog A') (g : B → prog B') :
  lock R p q → (∀ a b, R a b → lock Q (f a) (g b)) → lock Q (p ≫= f) (q ≫= g).
Proof.
  intros Hl Hf. induction Hl as [a b Hab|c k k' Hc _ IH|s s' cl gr sel k k' _ IH].
  - by apply Hf.
  - apply (lock_call Q c (λ r, k r ≫= f) (λ r, k' r ≫= g)); done.
  - apply (lock_resolve Q s s' cl gr sel (λ r, k r ≫= f) (λ r, k' r ≫= g)); done.
Qed.

Lemma lock_mono {A B} (Q Q' : A → B → Prop) p q : (∀ a b, Q a b → Q' a b) → lock Q p q → lock Q' p q.
Proof. intros HQ Hl. induction Hl; constructor; auto. Qed.

Lemma lock_refl {A} (p : prog A) : all_calls ignores_sets p → lock eq p p.
Proof. induction p as [a|c k IH]; [by constructor|]. intros [Hc Hk]. constructor; auto. Qed.

Lemma lock_foldM {A B C} (R : A → B → Prop) (f : A → C → prog A) (g : B → C → prog B) l a b :
  (∀ a b x, x ∈ l → R a b → lock R (f a x) (g b x)) → R a b → lock R (foldM f a l) (foldM g b l).
Proof.
  revert a b. induction l as [|x l IH]; intros a b Hf Hab; [by constructor|]. cbn [foldM].
  eapply lock_bind; [apply Hf; [left|done]|]. intros a' b' Hab'. apply IH; [|done].
  intros a1 b1 y Hy. apply Hf. by right.
Qed.

(** Results of loops that may fail: related, with the same error. *)
Definition withErr {A B} (R : A → B → Prop) (x : A * option error) (y : B * option error) : Prop :=
  R x.1 y.1 ∧ x.2 = y.2.

Lemma lock_foldE {A B C} (R : A → B → Prop) (f : A → C → prog (A * option error))
    (g : B → C → prog (B * option error)) l a b :
  (∀ a b x, x ∈ l → R a b → lock (withErr R) (f a x) (g b x)) → R a b →
  lock (withErr R) (foldE f a l) (foldE g b l).
Proof.
  revert a b. induction l as [|x l IH]; intros a b Hf Hab; [by constructor|]. cbn [foldE].
  eapply lock_bind; [apply Hf; [left|done]|]. intros [a' e] [b' e'] [Hab' He]. cbn [fst snd] in *. subst e'.
  destruct e; [by constructor|]. apply IH; [|done]. intros a1 b1 y Hy. apply Hf. by right.
Qed.

(** What a program returns in every run, it returns on the server. *)
Lemma returns_eval {A W} (h : handler W) (P : A → Prop) (p : prog A) w : returns P p → P (eval h p w).1.
Proof.
  intros Hp. specialize (Hp []). revert w Hp. generalize (@nil event).
  induction p as [a|c k IH]; intros tr w; cbn; [done|]. intros [_ Hk].
  destruct (h c w) as [r w']. by apply (IH r (Ev c r :: tr)), Hk.
Qed.

End lock_rules.

(** ** Lockstep on the server *)

(** Two worlds that differ in the stored sets at most. *)
Definition agree (w w' : Cluster) : Prop :=
  same_env w w' ∧ wMSAs w' = wMSAs w ∧ wWorks w' = wWorks w.

Lemma agree_refl w : agree w w.
Proof. by split_and!. Qed.

Section server.
Context `{LabelsLib} `{RolloutPolicy}.

Lemma server_agree c w w' :
  ignores_sets c → agree w w' → (server c w').1 = (server c w).1 ∧ agree (server c w).2 (server c w').2.
Proof.
  intros Hc ((Hp & Hd & Hn & Hr) & Hm & Hw). destruct w, w'. cbn in *. subst.
  destruct c; try done; cbn [server fst snd];
    unfold create_msa, patch_msa, delete_msa, create_work, patch_work, delete_work; cbn;
    repeat case_goal; done.
Qed.

Lemma lock_sound {A B} (Q : A → B → Prop) p q w w' :
  lock Q p q → agree w w' →
  Q (eval server p w).1 (eval server q w').1 ∧ agree (eval server p w).2 (eval server q w').2.
Proof.
  intros Hl. revert w w'. induction Hl as [a b Hab|c k k' Hc _ IH|s s' cl g sel k k' _ IH]; intros w w' Hag.
  - done.
  - cbn [eval]. destruct (server_agree c w w' Hc Hag) as [Hr Hag'].
    destruct (server c w) as [r w1], (server c w') as [r' w1']. cbn [fst snd] in *. subst r'. by apply IH.
  - cbn [eval server]. pose proof Hag as ((_ & _ & _ & ->) & _). by apply IH.
Qed.

End server.

(** ** Two versions of the set *)

Section versions.
Context `{MetaConditions} `{LabelsLib} `{SemanticEquality} `{JSONCodec} `{ApiErrors} `{ControllerUtil}
        `{ClusterGroups} `{PlacementTracker}.
Context (resolver : bool) (s : ManagedServiceAccountReplicaSet) (p q : ManagedServiceAccountReplicaSetStatus).

Local Abbreviation sA := (with_status s p).
Local Abbreviation sB := (with_status s q).

Lemma lock_eq_bind {A B} (a : prog A) (a' : prog A) (f g : A → prog B) (Q : B → B → Prop) :
  lock eq a a' → (∀ x, lock Q (f x) (g x)) → lock Q (a ≫= f) (a' ≫= g).
Proof. intros Hl Hf. eapply lock_bind; [exact Hl|]. intros x ? <-. apply Hf. Qed.

Lemma resolveGrantNamespaces_lock cl g :
  lock eq (resolveGrantNamespaces sA cl g resolver) (resolveGrantNamespaces sB cl g resolver).
Proof.
  unfold resolveGrantNamespaces. repeat case_goal; try (by apply lock_ret).
  apply (lock_resolve eq sA sB). intros r. destruct r; by apply lock_ret.
Qed.

Lemma desiredRBACSlices_lock cl : lock eq (desiredRBACSlices sA cl resolver) (desiredRBACSlices sB cl resolver).
Proof.
  unfold desiredRBACSlices. cbn [with_status setSpec]. destruct (specRBAC (setSpec s)) as [rbac|]; [|by apply lock_ret].
  eapply lock_bind.
  - apply (lock_foldE eq); [|done]. intros acc ? g _ <-. unfold sliceGrant.
    repeat case_goal; try (by apply lock_ret). apply lock_eq_bind; [apply resolveGrantNamespaces_lock|].
    intros [nss|e]; by apply lock_ret.
  - intros [acc e] [acc' e'] [Ha He]. cbn [fst snd] in *. subst acc' e'. destruct e; by apply lock_ret.
Qed.

(** Reads that name no set are the same program. *)
Lemma reads_lock {A} (a : prog A) (P : call → Prop) :
  all_calls P a → (∀ c, P c → ignores_sets c) → lock eq a a.
Proof. intros Ha HP. apply lock_refl. by eapply all_calls_mono. Qed.

Lemma checkChild_lock cl t check check' k k' :
  lock eq check check' → (∀ t, lock eq (k t) (k' t)) →
  lock eq (checkChild cl t check k) (checkChild cl t check' k').
Proof.
  intros Hc Hk. unfold checkChild. apply lock_eq_bind; [exact Hc|]. intros [[st tm] e].
  case_goal; [by apply lock_ret|apply Hk].
Qed.

Lemma child_read_ignores c : child_read c → ignores_sets c.
Proof. by destruct c. Qed.

Lemma existingMSA_lock d :
  lock eq (existingManagedServiceAccountRolloutStatus sA d) (existingManagedServiceAccountRolloutStatus sB d).
Proof. apply (reads_lock _ child_read); [apply existingMSA_reads|apply child_read_ignores]. Qed.

Lemma existingWork_lock d :
  lock eq (existingManifestWorkRolloutStatus sA d) (existingManifestWorkRolloutStatus sB d).
Proof. apply (reads_lock _ child_read); [apply existingWork_reads|apply child_read_ignores]. Qed.

Lemma checkSlices_lock cl ref slices t : lock eq (checkSlices sA cl ref slices t) (checkSlices sB cl ref slices t).
Proof.
  revert t. induction slices as [|sl slices IH]; intros t; cbn [checkSlices]; [by apply lock_ret|].
  apply checkChild_lock; [apply existingWork_lock|exact IH].
Qed.

Lemma checkWorkloadRBAC_lock cl ref t :
  lock eq (checkWorkloadRBAC sA cl ref resolver t) (checkWorkloadRBAC sB cl ref resolver t).
Proof.
  unfold checkWorkloadRBAC. change (rbacEnabled sB) with (rbacEnabled sA). case_goal; [|by apply lock_ret].
  apply lock_eq_bind; [apply desiredRBACSlices_lock|]. intros [slices e]. cbn [fst snd].
  destruct e; [by apply lock_ret|apply checkSlices_lock].
Qed.

Lemma clusterRolloutStatus_lock cl ref :
  lock eq (clusterRolloutStatus sA cl ref resolver) (clusterRolloutStatus sB cl ref resolver).
Proof.
  unfold clusterRolloutStatus. cbv zeta.
  change (selectorRBACEnabled sB) with (selectorRBACEnabled sA).
  apply (lock_call eq (CGetMSA (ObjectKey (msaMeta (buildManagedServiceAccount s cl ref))))); [done|].
  intros [msa|e]; [|case_goal; by apply lock_ret].
  change (ownedBySet sB) with (ownedBySet sA).
  change (buildManagedServiceAccount sB cl ref) with (buildManagedServiceAccount sA cl ref).
  case_goal; [by apply lock_ret|]. case_goal; [by apply lock_ret|].
  destruct (managedServiceAccountRolloutStatus msa) as [st t]. case_goal; [by apply lock_ret|].
  case_goal; [|apply checkWorkloadRBAC_lock].
  apply checkChild_lock; [apply existingMSA_lock|]. intros t1.
  apply checkChild_lock; [apply existingWork_lock|]. intros t2. apply checkWorkloadRBAC_lock.
Qed.

End versions.

(** ** Setting conditions again *)

Section conditions.
Context `{MC : MetaConditions} `{!ConditionLists}.

(** The list has the condition with that content, whenever it changed. *)
Definition has (cs : list Condition) (c : Condition) : Prop :=
  ∃ old, FindStatusCondition cs (condType c) = Some old ∧ condStatus old = condStatus c ∧
    condObservedGeneration old = condObservedGeneration c ∧ condReason old = condReason c ∧
    condMessage old = condMessage c.

Lemma has_noop now cs c : has cs c → SetStatusCondition now cs c = cs.
Proof. intros (old & ? & ? & ? & ? & ?). by eapply SetStatusCondition_same. Qed.

Lemma has_set now cs c : condLastTransitionTime c = None → has (SetStatusCondition now cs c) c.
Proof. intros Hc. eexists. split; [by apply FindStatusCondition_set_eq|done]. Qed.

Lemma has_set_ne now cs c c' : condType c ≠ condType c' → has cs c → has (SetStatusCondition now cs c') c.
Proof. intros Hne (old & Hf & ?). exists old. by rewrite FindStatusCondition_set_ne. Qed.

Lemma has_remove cs c t : condType c ≠ t → has cs c → has (RemoveStatusCondition cs t) c.
Proof. intros Hne (old & Hf & ?). exists old. by rewrite FindStatusCondition_remove_ne. Qed.

Lemma remove_twice cs t : RemoveStatusCondition (RemoveStatusCondition cs t) t = RemoveStatusCondition cs t.
Proof.
  rewrite !RemoveStatusCondition_filter. induction cs as [|c cs IH]; [done|].
  rewrite (filter_cons _ c). case_decide; [|done]. by rewrite filter_cons, decide_True, IH.
Qed.

(** A list of settings, one after the other. *)
Definition setAll (now : Z) (cs : list Condition) (L : list Condition) : list Condition :=
  foldl (SetStatusCondition now) cs L.

Lemma setAll_has_other now cs L c : condType c ∉ map condType L → has cs c → has (setAll now cs L) c.
Proof.
  revert cs. induction L as [|x L IH]; intros cs Hn Hh; [done|]. cbn in Hn. apply not_elem_of_cons in Hn as [? ?].
  apply IH; [done|]. by apply has_set_ne.
Qed.

Lemma setAll_has now cs L c :
  NoDup (map condType L) → c ∈ L → condLastTransitionTime c = None → has (setAll now cs L) c.
Proof.
  revert cs. induction L as [|x L IH]; intros cs Hnd Hc Hl; [by apply elem_of_nil in Hc|].
  cbn in Hnd. apply NoDup_cons in Hnd as [Hx Hnd]. apply elem_of_cons in Hc as [->|Hc]; [|by apply IH].
  cbn. apply setAll_has_other; [done|]. by apply has_set.
Qed.

Lemma setAll_noop now cs L : (∀ c, c ∈ L → has cs c) → setAll now cs L = cs.
Proof.
  induction L as [|x L IH]; intros Hh; [done|]. cbn. rewrite has_noop by (apply Hh; left).
  apply IH. intros c Hc. apply Hh. by right.
Qed.

(** Setting the same conditions, of different types, again changes nothing. *)
Lemma setAll_idem t1 t2 cs L :
  NoDup (map condType L) → (∀ c, c ∈ L → condLastTransitionTime c = None) →
  setAll t2 (setAll t1 cs L) L = setAll t1 cs L.
Proof. intros Hnd Hl. apply setAll_noop. intros c Hc. apply setAll_has; auto. Qed.

Lemma setCondition_idem t1 t2 cs t s reason msg g :
  setCondition t2 (setCondition t1 cs t s reason msg g) t s reason msg g = setCondition t1 cs t s reason msg g.
Proof. apply has_noop. by apply has_set. Qed.

Lemma newRolloutSummary_idem t1 t2 total u o sts prev g :
  newRolloutSummary t2 total u o sts (rsumConditions (newRolloutSummary t1 total u o sts prev g)) g =
  newRolloutSummary t1 total u o sts prev g.
Proof.
  unfold newRolloutSummary. destruct (foldl _ _ _) as [[a b] c]. cbn [rsumConditions].
  case_goal; by rewrite setCondition_idem.
Qed.

(** The status of a ref as a function of the answer for its placement and of
    the conditions it had. *)
Definition refStatus (now : Z) (name : string) (a : option Placement * ClusterGroupsMap * option error)
    `{ClusterGroups} (prev : list Condition) (g : Z) : PlacementStatus :=
  let status := mkPlacementStatus name 0 None None "" prev in
  let status :=
    match a.2 with
    | Some _ => status
    | None => with_psConditions status
                (setCondition now (psConditions status) conditionPlacementResolved ConditionTrue
                   reasonResolved "OCM Placement and PlacementDecision objects resolved" g)
    end in
  finishStatus now (mkRefOutcome a.1.1 a.1.2 status a.2) (sets_List (GetClusters a.1.2)) g.

Lemma refStatus_name now name a `{ClusterGroups} prev g : psName (refStatus now name a prev g) = name.
Proof. unfold refStatus, finishStatus. destruct a as [[pl gr] [e|]]; cbn [fst snd roErr]; case_goal; done. Qed.

Lemma refStatus_idem t1 t2 name a `{ClusterGroups} prev g :
  refStatus t2 name a (psConditions (refStatus t1 name a prev g)) g = refStatus t1 name a prev g.
Proof.
  unfold refStatus, finishStatus. destruct a as [[pl gr] [e|]]; cbn [fst snd roErr roStatus roGroups].
  - rewrite bool_decide_eq_false_2, andb_false_r by done. cbn. unfold setCondition.
    rewrite (has_noop t2); [by rewrite remove_twice|]. apply has_remove; [done|]. by apply has_set.
  - rewrite bool_decide_eq_true_2, andb_true_r by done. case_goal; cbn; unfold setCondition.
    + rewrite (has_noop t2 _ (mkCondition conditionPlacementResolved _ _ _ _ _)); cycle 1.
      { apply has_set_ne; [done|]. by apply has_set. }
      rewrite (has_noop t2); [done|]. by apply has_set.
    + rewrite (has_noop t2); [by rewrite remove_twice|]. apply has_remove; [done|]. by apply has_set.
Qed.

End conditions.

(** ** Resolving the placements again *)

Section resolution.
Context `{MC : MetaConditions} `{!ConditionLists} `{LabelsLib} `{RolloutPolicy} `{ClusterGroups} `{PlacementTracker}.

Lemma resolvePlacementRef_exact now s ref g prev w :
  let a := answerOf s w (prefName ref) in
  ∃ out, eval server (resolvePlacementRef now s ref g prev) w = (out, w) ∧
    roPlacement out = a.1.1 ∧ roGroups out = a.1.2 ∧ roErr out = a.2 ∧
    finishStatus now out (sets_List (GetClusters (roGroups out))) g = refStatus now (prefName ref) a prev g.
Proof.
  unfold resolvePlacementRef. rewrite eval_bind, (eval_read_eq (resolveOCMPlacement _ _)) by
    (eapply all_calls_mono; [apply resolveOCMPlacement_calls|apply placement_read_reading]).
  fold (answerOf s w (prefName ref)). cbn [fst snd]. unfold refStatus.
  destruct (answerOf s w (prefName ref)) as [[pl gr] err]. eexists. by split_and!.
Qed.

Lemma resolvePlacementRefs_exact now s g w :
  let res := (eval server (resolvePlacementRefs now s g) w).1 in
  let refs := specPlacementRefs (setSpec s) in
  resPlacementStatuses res = map (λ ref, refStatus now (prefName ref) (answerOf s w (prefName ref))
                                           (previousConditions s (prefName ref)) g) refs ∧
  resPlacementsByRef res = foldl (λ m ref, <[prefName ref := (answerOf s w (prefName ref)).1.1]> m) ∅ refs.
Proof.
  cbv zeta. unfold resolvePlacementRefs. rewrite eval_bind.
  match goal with |- context [foldM ?f ?b ?l] =>
    destruct (eval_foldM_inv server (λ w' done acc, w' = w ∧
      raStatuses acc = map (λ ref, refStatus now (prefName ref) (answerOf s w (prefName ref))
                                     (previousConditions s (prefName ref)) g) done ∧
      raPlacements acc = foldl (λ m ref, <[prefName ref := (answerOf s w (prefName ref)).1.1]> m) ∅ done)
      f l b w) as (Hw & Hst & Hpl) end.
  - done.
  - intros done ref rest acc w' _ (-> & Hst & Hpl). rewrite eval_bind.
    destruct (resolvePlacementRef_exact now s ref g (previousConditions s (prefName ref)) w)
      as (out & -> & Hp & Hg & He & Hf).
    cbn [eval mret prog_ret fst snd addRef raStatuses raPlacements].
    by rewrite Hst, Hpl, Hf, Hp, map_app, foldl_app.
  - done.
Qed.

(** The conditions of the last entry of a name, when all entries of a name
    have the same. *)
Lemma previousConditions_lookup s (F : string → list Condition) name :
  (∀ e, e ∈ stPlacements (setStatus s) → psConditions e = F (psName e)) →
  name ∈ map psName (stPlacements (setStatus s)) → previousConditions s name = F name.
Proof.
  unfold previousConditions. induction (stPlacements (setStatus s)) as [|e l IH] using rev_ind; intros HF Hin.
  { by apply elem_of_nil in Hin. }
  rewrite foldl_app. cbn [foldl]. destruct (decide (psName e = name)) as [<-|Hne].
  - rewrite lookup_insert_eq. cbn. apply HF. apply elem_of_app. right. left.
  - rewrite lookup_insert_ne by done. apply IH.
    + intros e' He'. apply HF. apply elem_of_app. by left.
    + rewrite map_app in Hin. apply elem_of_app in Hin as [?|Hin%list_elem_of_singleton]; [done|]. by subst.
Qed.

(** A second resolution, of a set whose status holds the conditions that the
    first one reported, reports the same. *)
Lemma resolution_again t1 t2 g s p q w w' :
  let resA := (eval server (resolvePlacementRefs t1 (with_status s p) g) w).1 in
  same_env w w' →
  map (λ e, (psName e, psConditions e)) (stPlacements q) =
    map (λ e, (psName e, psConditions e)) (resPlacementStatuses resA) →
  (eval server (resolvePlacementRefs t2 (with_status s q) g) w').1 = resA.
Proof.
  intros resA Henv Hq.
  destruct (resolvePlacementRefs_exact t1 (with_status s p) g w) as [HstA HplA].
  destruct (resolvePlacementRefs_exact t2 (with_status s q) g w') as [HstB HplB].
  destruct (resolvePlacementRefs_eval t1 (with_status s p) g w) as [_ (Hc & Hr & Hg & He)].
  destruct (resolvePlacementRefs_eval t2 (with_status s q) g w') as [_ (Hc' & Hr' & Hg' & He')].
  fold resA in HstA, HplA, Hc, Hr, Hg, He.
  rewrite (selectionAt_env s q w w') in * by done. rewrite (selectionAt_env s p w w) in * by done.
  destruct (eval server (resolvePlacementRefs t2 (with_status s q) g) w').1 as [c r gr pls sts er] eqn:EB.
  clear EB. clearbody resA. destruct resA as [cA rA grA plsA stsA erA].
  cbn in *. subst. f_equal.
  - clear -Henv. generalize (∅ : gmap string (option Placement)).
    induction (specPlacementRefs (setSpec s)) as [|ref refs IH]; intros m; cbn [foldl]; [done|].
    change (answerOf (with_status s q) w' (prefName ref)) with (answerOf s w' (prefName ref)).
    rewrite (answerOf_env s w w') by done. apply IH.
  - apply map_ext_in. intros ref Hin%list_elem_of_In. change (answerOf (with_status s q)) with (answerOf s).
    change (answerOf (with_status s p)) with (answerOf s) in *. rewrite (answerOf_env s w w') by done.
    set (F := λ name, psConditions (refStatus t1 name (answerOf s w name) (previousConditions (with_status s p) name) g)).
    rewrite (previousConditions_lookup (with_status s q) F); [apply refStatus_idem|..]; cbn [with_status setStatus].
    + intros e He. apply (list_elem_of_fmap_2 (λ e, (psName e, psConditions e))) in He.
      change (fmap (λ e, (psName e, psConditions e)) (stPlacements q)) with (map (λ e, (psName e, psConditions e)) (stPlacements q)) in He.
      rewrite Hq, map_map in He. apply list_elem_of_fmap in He as (ref' & Heq & _). injection Heq as -> ->.
      unfold F. by rewrite refStatus_name.
    + assert (map psName (stPlacements q) = map prefName (specPlacementRefs (setSpec s))) as ->.
      { apply (f_equal (map fst)) in Hq. rewrite !map_map in Hq. cbn [fst] in Hq. etrans; [exact Hq|].
        apply map_ext. intros r. apply refStatus_name. }
      by apply list_elem_of_fmap_2.
Qed.

End resolution.

(** ** Planning again *)

Section plan.
Context `{MC : MetaConditions} `{!ConditionLists} `{LabelsLib} `{SemanticEquality} `{JSONCodec} `{ApiErrors}
        `{ControllerUtil} `{ClusterGroups} `{PlacementTracker}.
Context (t1 t2 : Z) (resolver : bool) (s : ManagedServiceAccountReplicaSet)
        (p q : ManagedServiceAccountReplicaSetStatus) (res : placementResolution).

Local Abbreviation sA := (with_status s p).
Local Abbreviation sB := (with_status s q).

(** Two summaries of the same numbers, each made from the conditions of its own
    version of the set. *)
Definition summaries (prevA prevB : list Condition) (a b : RolloutSummary) : Prop :=
  ∃ total u o sts, a = newRolloutSummary t1 total u o sts prevA (setGeneration s) ∧
                   b = newRolloutSummary t2 total u o sts prevB (setGeneration s).

Definition rolloutMaps (a b : gmap string RolloutSummary) : Prop :=
  ∀ key, match a !! key, b !! key with
         | Some x, Some y => key ∈ map prefName (specPlacementRefs (setSpec s)) ∧
             summaries (placementRolloutConditions sA key) (placementRolloutConditions sB key) x y
         | None, None => True
         | _, _ => False
         end.

Lemma summaries_again prevA a b : summaries prevA (rsumConditions a) a b → b = a.
Proof. intros (total & u & o & sts & -> & ->). apply newRolloutSummary_idem. Qed.

Lemma rolloutMaps_insert a b key x y :
  rolloutMaps a b → key ∈ map prefName (specPlacementRefs (setSpec s)) →
  summaries (placementRolloutConditions sA key) (placementRolloutConditions sB key) x y →
  rolloutMaps (<[key := x]> a) (<[key := y]> b).
Proof.
  intros Hab Hin Hxy k. destruct (decide (key = k)) as [<-|Hne]; [by rewrite !lookup_insert_eq|].
  rewrite !lookup_insert_ne by done. apply Hab.
Qed.

Definition planAccs (a b : planAcc) : Prop :=
  paCleanup b = paCleanup a ∧ paStatuses b = paStatuses a ∧ paGroups b = paGroups a ∧
  paRolloutClusters b = paRolloutClusters a ∧ paTimeoutClusters b = paTimeoutClusters a ∧
  paRequeueAfter b = paRequeueAfter a ∧ rolloutMaps (paRollouts a) (paRollouts b).

Lemma planCluster_lock acc cl : lock (withErr eq) (planCluster resolver sA res acc cl) (planCluster resolver sB res acc cl).
Proof.
  unfold planCluster. destruct acc as [[all sts] ex].
  apply lock_eq_bind; [apply clusterRolloutStatus_lock|]. intros [st e]. cbn [fst snd].
  repeat case_goal; by apply lock_ret.
Qed.

Lemma planRef_lock a b ref :
  ref ∈ specPlacementRefs (setSpec s) → planAccs a b → lock (withErr planAccs) (planRef t1 resolver sA res a ref) (planRef t2 resolver sB res b ref).
Proof.
  intros Href%(list_elem_of_fmap_2 prefName) Hab. pose proof Hab as (Hc & Hs & Hg & Hr & Ht & Hq & Hm). unfold planRef. cbv zeta.
  destruct (size _ =? 0).
  { apply lock_ret. split; [|done]. split_and!; cbn; rewrite ?Hc, ?Hs, ?Hg; try done.
    apply rolloutMaps_insert; [done|done|]. by repeat eexists. }
  rewrite Hs. eapply lock_bind.
  { apply (lock_foldE eq); [|done]. intros acc ? cl _ <-. apply planCluster_lock. }
  intros [[[all sts] ex] e] [[[all' sts'] ex'] e'] [Heq He]. cbn [fst snd] in *. subst e'.
  injection Heq as -> -> ->. destruct e as [e|]; [by apply lock_ret|].
  apply (lock_call _ (CGetRolloutCluster _ _ _ _)); [done|]. intros [rr|e]; [|by apply lock_ret].
  apply lock_ret. split; [|done]. split_and!; cbn; rewrite ?Hc, ?Hg, ?Hr, ?Ht, ?Hq; try done.
  apply rolloutMaps_insert; [done|done|]. by repeat eexists.
Qed.

Definition plans (a b : result rolloutPlan) : Prop :=
  match a, b with
  | Ok a, Ok b =>
      planClusters b = planClusters a ∧ planCleanupClusters b = planCleanupClusters a ∧
      planStatuses b = planStatuses a ∧ planAvailableDecisionGroups b = planAvailableDecisionGroups a ∧
      planRequeueAfter b = planRequeueAfter a ∧ rolloutMaps (planPlacementRollouts a) (planPlacementRollouts b) ∧
      ∃ x y, planSummary a = Some x ∧ planSummary b = Some y ∧
        summaries (rolloutConditions (stRollout p)) (rolloutConditions (stRollout q)) x y
  | Err e, Err e' => e' = e
  | _, _ => False
  end.

Lemma planRollout_lock : lock plans (planRollout t1 resolver sA res) (planRollout t2 resolver sB res).
Proof.
  unfold planRollout. eapply lock_bind.
  { apply (lock_foldE planAccs); [intros a b ref; apply planRef_lock|]. by split_and!. }
  intros [a e] [b e'] [(Hc & Hs & Hg & Hr & Ht & Hq & Hm) He]. cbn [fst snd] in *. subst e'.
  destruct e; [by apply lock_ret|]. apply lock_ret. split_and!; cbn; rewrite ?Hr, ?Ht, ?Hs; try done.
  by repeat eexists.
Qed.

(** The second plan of a set whose status holds the rollout conditions of the
    first is the first. *)
Lemma plan_again a b :
  plans (Ok a) (Ok b) →
  (∀ key x, planPlacementRollouts a !! key = Some x → key ∈ map prefName (specPlacementRefs (setSpec s)) →
     placementRolloutConditions sB key = rsumConditions x) →
  rolloutConditions (stRollout q) = rolloutConditions (planSummary a) → b = a.
Proof.
  intros (Hc & Hcl & Hs & Hg & Hq & Hm & x & y & Hx & Hy & Hxy) Hkey Hsum.
  assert (planPlacementRollouts b = planPlacementRollouts a) as Hr.
  { apply map_eq. intros key. specialize (Hm key). specialize (Hkey key).
    destruct (planPlacementRollouts a !! key) as [xa|], (planPlacementRollouts b !! key) as [xb|]; try done.
    destruct Hm as [Hin Hm]. rewrite (Hkey xa eq_refl Hin) in Hm. f_equal. by eapply summaries_again. }
  rewrite Hx in Hsum. cbn in Hsum. rewrite Hsum in Hxy. apply summaries_again in Hxy as ->.
  destruct a, b. cbn in *. by subst.
Qed.

End plan.

(** ** The children again *)

(** The status with other conditions of its own and of the controller access. *)
Definition reframe (X Y : list Condition) (st : ManagedServiceAccountReplicaSetStatus)
    : ManagedServiceAccountReplicaSetStatus :=
  mkStatus (stObservedGeneration st) (stSelectedClusterCount st) (stReadyClusterCount st) (stSummary st)
    (stRollout st)
    ((λ c, mkControllerAccessStatus (caDesiredClusterCount c) (caReadyClusterCount c) Y) <$> stControllerAccess st)
    (stPlacements st) X.

(** Two statuses that differ in those conditions only, with the conditions. *)
Definition framed (X Y X' Y' : list Condition) (a b : ManagedServiceAccountReplicaSetStatus) : Prop :=
  a = reframe X Y a ∧ b = reframe X' Y' a.

(** An update that does not look at them. *)
Definition frames (f : ManagedServiceAccountReplicaSetStatus → ManagedServiceAccountReplicaSetStatus) : Prop :=
  ∀ X Y st, f (reframe X Y st) = reframe X Y (f st).

Lemma framed_update f X Y X' Y' a b : frames f → framed X Y X' Y' a b → framed X Y X' Y' (f a) (f b).
Proof. intros Hf [Ha ->]. split; [rewrite Ha at 1; apply Hf|apply Hf]. Qed.

Lemma updateSummaries_frames g idx keys : frames (updateSummaries g idx keys).
Proof.
  intros X Y st. unfold updateSummaries.
  assert (∀ st, foldl (λ st refKey, match idx !! refKey with
      | Some i => with_stPlacements st (alter (updatePlacementSummary g) i (stPlacements st)) | None => st end)
    (reframe X Y st) keys = reframe X Y (foldl (λ st refKey, match idx !! refKey with
      | Some i => with_stPlacements st (alter (updatePlacementSummary g) i (stPlacements st)) | None => st end) st keys))
    as Hloop.
  { induction keys as [|k keys IH]; intros st'; cbn [foldl]; [done|]. by destruct (idx !! k); rewrite <- IH. }
  by rewrite <- Hloop.
Qed.

Lemma incrAccessReady_frames : frames incrAccessReady.
Proof.
  intros X Y st. unfold incrAccessReady, reframe. cbn. by destruct (stControllerAccess st).
Qed.

Lemma id_frames : frames id.
Proof. done. Qed.

Section children.
Context `{MC : MetaConditions} `{!ConditionLists} `{LabelsLib} `{SemanticEquality} `{JSONCodec} `{ApiErrors}
        `{ControllerUtil} `{ClusterGroups} `{PlacementTracker}.
Context (t1 t2 : Z) (resolver : bool) (s : ManagedServiceAccountReplicaSet)
        (p q : ManagedServiceAccountReplicaSetStatus) (res : placementResolution).
Context (X Y X' Y' : list Condition).

Local Abbreviation sA := (with_status s p).
Local Abbreviation sB := (with_status s q).
Local Abbreviation same := (framed X Y X' Y').

Lemma ensureMSA_lock d ops : lock eq (ensureChild (T := ManagedServiceAccount) sA d ops) (ensureChild sB d ops).
Proof.
  apply lock_refl. unfold ensureChild. cbn [client_Get client_Create client_Patch msaObject]. calls_steps; done.
Qed.

Lemma ensureWork_lock d ops : lock eq (ensureChild (T := ManifestWork) sA d ops) (ensureChild sB d ops).
Proof.
  apply lock_refl. unfold ensureChild. cbn [client_Get client_Create client_Patch workObject]. calls_steps; done.
Qed.

Definition loops (a b : childLoop) : Prop :=
  clResult b = clResult a ∧ clWorkNames b = clWorkNames a ∧ same (clStatus a) (clStatus b).

Definition bodies (a b : clusterLoop) : Prop :=
  cloResult b = cloResult a ∧ cloReady b = cloReady a ∧ cloNames b = cloNames a ∧ same (cloStatus a) (cloStatus b).

Lemma reconcileAccess_lock cl ref a b :
  bodies a b → lock bodies (reconcileAccess sA cl ref a) (reconcileAccess sB cl ref b).
Proof.
  intros (Hr & Hrd & Hn & Hs). unfold reconcileAccess. apply lock_eq_bind; [apply ensureMSA_lock|]. intros m.
  cbv zeta. apply lock_eq_bind; [apply ensureWork_lock|]. intros wk. rewrite Hr.
  destruct (noteChild _ _ wk) as [r rd]. apply lock_ret. split_and!; cbn; [done|by rewrite Hrd|by rewrite Hn|].
  destruct rd; [|done]. by apply framed_update; [apply incrAccessReady_frames|].
Qed.

Lemma reconcileWorkloadMSA_lock cl ref a b :
  bodies a b → lock bodies (reconcileWorkloadMSA sA cl ref a) (reconcileWorkloadMSA sB cl ref b).
Proof.
  intros (Hr & Hrd & Hn & Hs). unfold reconcileWorkloadMSA. apply lock_eq_bind; [apply ensureMSA_lock|]. intros m.
  rewrite Hr, Hrd. destruct (noteChild _ _ m) as [r rd]. by apply lock_ret.
Qed.

Lemma reconcileRBAC_lock cl ref idx keys a b :
  bodies a b → lock bodies (reconcileRBAC resolver sA cl ref idx keys a) (reconcileRBAC resolver sB cl ref idx keys b).
Proof.
  intros (Hr & Hrd & Hn & Hs). unfold reconcileRBAC. apply lock_eq_bind; [apply desiredRBACSlices_lock|].
  intros [slices err]. rewrite Hr, Hrd. destruct (match err with Some e => _ | None => _ end) as [r rd]. cbv zeta.
  apply lock_foldM.
  - intros a' b' sl _ (Hr' & Hrd' & Hn' & Hs'). unfold reconcileSlice. cbv zeta.
    apply lock_eq_bind; [apply ensureWork_lock|]. intros [wk|e]; apply lock_ret;
      split_and!; cbn; rewrite ?Hr', ?Hrd', ?Hn'; try done.
    apply framed_update; [apply updateSummaries_frames|done].
  - split_and!; cbn; try done. apply framed_update; [apply updateSummaries_frames|done].
Qed.

Lemma aggregate_lock cl ref keys idx a b :
  same a b → lock same (aggregateExistingRBACSummary resolver sA cl ref keys idx a)
                       (aggregateExistingRBACSummary resolver sB cl ref keys idx b).
Proof.
  intros Hs. unfold aggregateExistingRBACSummary. change (rbacEnabled sB) with (rbacEnabled sA).
  case_goal; [by apply lock_ret|]. apply lock_eq_bind; [apply desiredRBACSlices_lock|]. intros [slices err].
  cbv zeta. cbn [fst]. apply lock_foldM; [|apply framed_update; [apply updateSummaries_frames|done]].
  intros a' b' sl _ Hs'. cbv zeta. apply (lock_call _ (CGetWork _)); [done|]. intros [wk|e]; [|by apply lock_ret].
  change (ownedBySet sB) with (ownedBySet sA).
  change (buildManifestWork sB cl ref sl) with (buildManifestWork sA cl ref sl).
  case_goal; apply lock_ret; [done|]. by apply framed_update; [apply updateSummaries_frames|].
Qed.

Lemma reconcileCluster_lock window sts idx cl a b :
  loops a b → lock loops (reconcileCluster resolver sA res window sts idx a cl)
                         (reconcileCluster resolver sB res window sts idx b cl).
Proof.
  intros (Hr & Hw & Hs). unfold reconcileCluster. case_goal.
  - unfold rolloutCluster. apply (lock_call _ (CGetNamespace _)); [done|]. intros [[]|e]; cycle 1.
    { apply lock_ret. by split_and!; cbn; rewrite ?Hr, ?Hw. }
    cbv zeta. change (selectorRBACEnabled sB) with (selectorRBACEnabled sA).
    change (rbacEnabled sB) with (rbacEnabled sA). eapply lock_bind.
    { assert (bodies (mkClusterLoop (clResult a) (clStatus a) true ∅) (mkClusterLoop (clResult b) (clStatus b) true ∅))
        as Hb by (by split_and!).
      destruct (selectorRBACEnabled sA); [by apply reconcileAccess_lock|by apply lock_ret]. }
    intros a1 b1 Hb1. eapply lock_bind; [by apply reconcileWorkloadMSA_lock|]. intros a2 b2 Hb2.
    eapply lock_bind; [destruct (rbacEnabled sA); [by apply reconcileRBAC_lock|by apply lock_ret]|].
    intros a3 b3 (Hr3 & Hrd3 & Hn3 & Hs3). apply lock_ret. by split_and!; cbn; rewrite ?Hr3, ?Hrd3, ?Hn3, ?Hw.
  - unfold settledCluster. destruct (sts !! cl) as [[x [] t]|]; cbv zeta;
      try (apply lock_ret; by split_and!; cbn; rewrite ?Hr, ?Hw).
    change (selectorRBACEnabled sB) with (selectorRBACEnabled sA). eapply lock_bind.
    { apply aggregate_lock. destruct (selectorRBACEnabled sA); [|done].
      by apply framed_update; [apply incrAccessReady_frames|]. }
    intros a' b' Hs'. apply lock_ret. by split_and!; cbn; rewrite ?Hr, ?Hw.
Qed.

End children.

Section childrenLoop.
Context `{MC : MetaConditions} `{!ConditionLists} `{LabelsLib} `{SemanticEquality} `{JSONCodec} `{ApiErrors}
        `{ControllerUtil} `{ClusterGroups} `{PlacementTracker}.
Context (t1 t2 : Z) (resolver : bool) (s : ManagedServiceAccountReplicaSet)
        (p q : ManagedServiceAccountReplicaSetStatus) (res : placementResolution).

Local Abbreviation sA := (with_status s p).
Local Abbreviation sB := (with_status s q).

(** The conditions of the controller access. *)
Definition accessConditions (st : ManagedServiceAccountReplicaSetStatus) : list Condition :=
  match stControllerAccess st with Some c => caConditions c | None => [] end.

(** The end of the loop sets the same condition in both statuses. *)
Lemma finishAccess_framed X Y X' Y' a b :
  framed X Y X' Y' a b →
  ∃ c, condLastTransitionTime c = None ∧
    framed X (SetStatusCondition t1 Y c) X' (SetStatusCondition t2 Y' c) (finishAccess t1 sA a) (finishAccess t2 sB b).
Proof.
  intros [Ha ->]. unfold finishAccess, framed, reframe. cbn [with_stControllerAccess stControllerAccess].
  change (setGeneration sB) with (setGeneration sA). destruct a as [og sc rc sm ro acc pl cs]. cbn in *.
  destruct acc as [[d r cc]|]; cbn in *; injection Ha as -> -> || injection Ha as ->.
  - destruct (r =? d)%Z; unfold setCondition; eexists; (split; [|split; reflexivity]); done.
  - exists (mkCondition "" "" 0 None "" ""). by split_and!.
Qed.

(** The access of the status is that of the set, or there is none. *)
Definition childrenOut (X X' : list Condition) (x y : childReconcileResult * ManagedServiceAccountReplicaSetStatus) : Prop :=
  y.1 = x.1 ∧
  if selectorRBACEnabled s
  then ∃ c, condLastTransitionTime c = None ∧
       framed X (SetStatusCondition t1 (accessConditions p) c) X' (SetStatusCondition t2 (accessConditions q) c) x.2 y.2
  else framed X [] X' [] x.2 y.2.

Lemma initAccess_framed X X' a b clusters :
  framed X [] X' [] a b →
  framed X (accessConditions p) X' (accessConditions q) (initAccess sA clusters a) (initAccess sB clusters b).
Proof. intros [Ha ->]. rewrite Ha. by split. Qed.

Lemma deleteStaleChildren_ignores dc cc names msaNames :
  all_calls ignores_sets (deleteStaleChildren s dc cc names msaNames).
Proof. unfold deleteStaleChildren, deleteStaleWork, deleteStaleMSA. cbv zeta. calls_steps; done. Qed.

Lemma reconcileChildren_lock names cleanup sts X X' a b :
  framed X [] X' [] a b →
  lock (childrenOut X X') (reconcileChildren t1 resolver sA res names cleanup sts a)
                          (reconcileChildren t2 resolver sB res names cleanup sts b).
Proof.
  intros Hab. unfold reconcileChildren, childrenOut. cbv zeta. change (selectorRBACEnabled sB) with (selectorRBACEnabled s).
  change (selectorRBACEnabled sA) with (selectorRBACEnabled s).
  assert (stPlacements b = stPlacements a) as -> by (by destruct Hab as [_ ->]).
  assert (∃ Y Y', framed X Y X' Y' (if selectorRBACEnabled s then initAccess sA (resClusters res) a else a)
                                   (if selectorRBACEnabled s then initAccess sB (resClusters res) b else b) ∧
    if selectorRBACEnabled s then Y = accessConditions p ∧ Y' = accessConditions q else Y = [] ∧ Y' = [])
    as (Y & Y' & Hfr & HY).
  { destruct (selectorRBACEnabled s); do 2 eexists; (split; [|done]); [by apply initAccess_framed|exact Hab]. }
  eapply lock_bind.
  { apply (lock_foldM (loops X Y X' Y')); [intros a' b' cl _; apply reconcileCluster_lock|]. by split_and!. }
  intros la lb (Hr & Hw & Hst). rewrite Hr, Hw.
  assert (∀ r, childrenOut X X'
    (r, if selectorRBACEnabled s then finishAccess t1 sA (clStatus la) else clStatus la)
    (r, if selectorRBACEnabled s then finishAccess t2 sB (clStatus lb) else clStatus lb)) as Hout.
  { intros r. split; [done|]. destruct (selectorRBACEnabled s); destruct HY as [-> ->]; [|done].
    by apply finishAccess_framed. }
  unfold childrenOut in Hout. destruct (crErr (clResult la)); [by apply lock_ret|].
  apply lock_eq_bind; [apply lock_refl, deleteStaleChildren_ignores|]. intros [pending e]. by apply lock_ret.
Qed.

End childrenLoop.

(** ** The conditions of the set *)

Section setConditions.
Context `{MC : MetaConditions} `{!ConditionLists}.

(** An update of the status that sets the conditions [L]. *)
Definition sets (L : list Condition) (t : Z) (st st' : ManagedServiceAccountReplicaSetStatus) : Prop :=
  st' = with_stConditions st (setAll t (stConditions st) L).

Definition settings (L : list Condition) : Prop := ∀ c, c ∈ L → condLastTransitionTime c = None.

Lemma sets_app L L' t st st' st'' : sets L t st st' → sets L' t st' st'' → sets (L ++ L') t st st''.
Proof. intros -> ->. unfold sets, setAll. cbn. by rewrite foldl_app. Qed.

Lemma rolledOut_sets summary g :
  ∃ L, map condType L `sublist_of` [conditionPlacementRolledOut] ∧ settings L ∧
    ∀ t st, sets L t st (applyPlacementRolledOutCondition t st summary g).
Proof.
  unfold applyPlacementRolledOutCondition.
  assert (∃ L, map condType L `sublist_of` [conditionPlacementRolledOut] ∧ settings L ∧
    ∀ t st, sets L t st st) as Hnone.
  { exists []. split_and!; [by apply sublist_nil_l|by intros ? ?%elem_of_nil|]. intros t st. by destruct st. }
  destruct summary as [summary|]; [|exact Hnone]. destruct (FindStatusCondition _ _) as [pr|]; [|exact Hnone].
  case_goal; eexists [mkCondition _ _ _ None _ _];
    (split_and!; [|by intros ? ->%list_elem_of_singleton|reflexivity]); done.
Qed.

Lemma ready_sets r total g remote summary :
  ∃ L, map condType L = [conditionManagedServiceAccountsReady; conditionReady] ∧ settings L ∧
    ∀ t st, stSummary st = summary → sets L t st (applyReadyConditions t st r total g remote).
Proof.
  unfold applyReadyConditions, setBoth.
  assert (∀ x y : Condition, condLastTransitionTime x = None → condLastTransitionTime y = None → settings [x; y]) as Hs.
  { by intros x y Hx Hy c [->| ->%list_elem_of_singleton]%elem_of_cons. }
  destruct (crErr r); [|destruct (0 <? crConflicts r)%Z; [|destruct (0 <? crFailures r)%Z;
    [|destruct (crReady r <? int32 (Z.of_nat total))%Z; [destruct (remote && summaryRBACPending summary) eqn:Er|]]]];
    (eexists [mkCondition _ _ _ None _ _; mkCondition _ _ _ None _ _]; split_and!;
      [|by apply Hs|intros t st Hst; rewrite ?Hst, ?Er; reflexivity]); done.
Qed.

Lemma remote_sets r g remote summary :
  ∃ L, map condType L = [conditionRemotePermissionsApplied] ∧ settings L ∧
    ∀ t st, stSummary st = summary → sets L t st (applyRemoteCondition t st r g remote).
Proof.
  unfold applyRemoteCondition. destruct (negb remote);
    [|destruct (_ || _ || _); [|destruct (summaryRBACPending summary) eqn:Ep]];
    (eexists [mkCondition _ _ _ None _ _]; split_and!;
      [|by intros ? ->%list_elem_of_singleton|intros t st Hst; rewrite ?Hst, ?Ep; reflexivity]); done.
Qed.

Lemma settings_app L L' : settings L → settings L' → settings (L ++ L').
Proof. intros HL HL' c [?|?]%elem_of_app; auto. Qed.

Lemma children_sets r total g remote summary :
  ∃ L, map condType L = [conditionManagedServiceAccountsReady; conditionReady; conditionRemotePermissionsApplied] ∧
    settings L ∧ ∀ t st, stSummary st = summary → sets L t st (applyChildResultConditions t st r total g remote).
Proof.
  destruct (ready_sets r total g remote summary) as (L1 & Ht1 & Hs1 & H1).
  destruct (remote_sets r g remote summary) as (L2 & Ht2 & Hs2 & H2). exists (L1 ++ L2).
  split_and!; [by rewrite map_app, Ht1, Ht2|by apply settings_app|]. intros t st Hst.
  eapply sets_app; [by apply H1|]. apply H2. by rewrite (H1 t st Hst).
Qed.

End setConditions.

(** ** A pass with nothing to do *)

Section quiet.
Context `{MC : MetaConditions} `{!ConditionLists} `{LabelsLib} `{SemanticEquality} `{JSONCodec} `{ApiErrors}
        `{ControllerUtil} `{ClusterGroups} `{PlacementTracker} `{RolloutPolicy}.
Context (cfg : reconcilerConfig) (s : ManagedServiceAccountReplicaSet).

Local Abbreviation hasResolver := (cfgResolver cfg).
Local Abbreviation req := (ObjectKey (setMeta s)).
Local Abbreviation generation := (setGeneration s).

(** The status before the children of a pass over the version [st]. *)
Definition startStatus (t : Z) (st : ManagedServiceAccountReplicaSetStatus) (res : placementResolution)
    (plan : rolloutPlan) : ManagedServiceAccountReplicaSetStatus :=
  let status := with_stPlacements (newStatus (with_status s st)) (resPlacementStatuses res) in
  let status := with_stSelectedClusterCount status (int32_len (resClusters res)) in
  let status := setStatusCondition t status conditionPlacementResolved ConditionTrue reasonResolved
                  "placement refs resolved" generation in
  let status := with_stObservedGeneration status generation in
  let status := with_stRollout status (planSummary plan) in
  let status := applyPlacementRolloutStatus status plan in
  applyPlacementRolledOutCondition t status (planSummary plan) generation.

(** The status such a pass ends with. *)
Definition endStatus (t : Z) (res : placementResolution) (cr : childReconcileResult)
    (x : ManagedServiceAccountReplicaSetStatus) : ManagedServiceAccountReplicaSetStatus :=
  setNotDeletingCondition t
    (applyChildResultConditions t (with_stReadyClusterCount x (crReady cr)) cr (length (resClusters res))
       generation (rbacEnabled s)) generation.

(** The stages of a pass over the version [st] in the world [w]. *)
Record stages (t : Z) (st : ManagedServiceAccountReplicaSetStatus) (w : Cluster) (res : placementResolution)
    (plan : rolloutPlan) (cr : childReconcileResult) (x : ManagedServiceAccountReplicaSetStatus) : Prop := {
  sg_res : (eval server (resolvePlacementRefs t (with_status s st) generation) w).1 = res;
  sg_plan : (eval server (planRollout t hasResolver (with_status s st) res) w).1 = Ok plan;
  sg_children : (eval server (reconcileChildren t hasResolver (with_status s st) res (planClusters plan)
                   (planCleanupClusters plan) (planStatuses plan) (startStatus t st res plan)) w).1 = (cr, x);
}.

(** The status write, as an update of the stored sets. *)
Lemma patchStatus_world s0 st w :
  wSets w !! ObjectKey (setMeta s0) = Some s0 →
  eval server (patchStatus s0 st) w =
  ((with_status s0 st, None), with_wSets w (<[ObjectKey (setMeta s0) := with_status s0 st]> (wSets w))).
Proof.
  intros Hs. unfold patchStatus. destruct (DeepEqual (setStatus s0) st) eqn:Ed; cbn.
  - apply DeepEqual_spec in Ed as <-. rewrite with_status_id, insert_id by done. by destruct w.
  - unfold patch_set_status. cbn [with_status setMeta]. by rewrite Hs.
Qed.

Lemma finishPass_quiet t st keep total requeue cr x w :
  wSets w !! req = Some (with_status s st) → crErr cr = None → crConflicts cr = 0%Z → crCleanupPending cr = false →
  eval server (finishPass t cfg (with_status s st) keep total requeue cr x) w =
  let st' := setNotDeletingCondition t (applyChildResultConditions t (with_stReadyClusterCount x (crReady cr)) cr total
               generation (rbacEnabled s)) generation in
  (mkPass (with_status s st') keep
     (if (0 <? requeue)%Z then requeue else if selectorRBACEnabled s then selectorRequeueInterval else 0%Z, None),
   with_wSets w (<[req := with_status s st']> (wSets w))).
Proof.
  intros Hs He Hc Hp. cbv zeta. unfold finishPass. cbv zeta. rewrite Hp, He, Hc, eval_bind.
  rewrite (patchStatus_world (with_status s st)) by exact Hs. reflexivity.
Qed.

Lemma quiet_pass t st w :
  inPlace cfg s w → wSets w !! req = Some (with_status s st) →
  ∃ res plan cr x, stages t st w res plan cr x ∧
    eval server (Reconcile t cfg req) w =
    ((if (0 <? planRequeueAfter plan)%Z then planRequeueAfter plan
      else if selectorRBACEnabled s then selectorRequeueInterval else 0%Z, None),
     with_wSets w (<[req := with_status s (endStatus t res cr x)]> (wSets w))).
Proof.
  intros [Hrec Hd Hwk Hms] Hset. pose proof Hrec as [Hact0 Hk _ Hs0 Hu0].
  pose proof (saneAll_status hasResolver s st w w ltac:(done) Hs0) as Hsane.
  pose proof (actionable_status s st w w ltac:(done) Hact0) as [Hlive Hfin Hval Herr].
  assert (usableAll hasResolver (with_status s st) w) as Hu.
  { intros cl Hcl. rewrite (selected_status s st w w) in Hcl by done. rewrite (refAt_env s st w w) by done.
    apply (usableIn_status hasResolver s st w); [done|]. by apply Hu0. }
  destruct (resolvePlacementRefs_eval t (with_status s st) generation w) as [Hw Hres].
  destruct (eval server (resolvePlacementRefs t (with_status s st) generation) w) as [res w0] eqn:Eres.
  cbn [fst snd] in Hw, Hres. subst w0.
  destruct (planRollout_eval t hasResolver (with_status s st) w (readable_sane hasResolver _ w Hsane Hu) res Hres)
    as (plan & Eplan & Hplan).
  destruct (reconcileChildren_eval t cfg (with_status s st) w res plan (startStatus t st res plan) Hk Hsane Hu Hres Hplan)
    as (Hp & Hsets & (He & Hc & _) & Hquiet).
  assert (planClusters plan = []) as Hn.
  { destruct Hplan as (_ & Hwin & _ & _). destruct (planClusters plan) as [|y l]; [done|].
    destruct (Hwin y) as [Hy Hyd]; [left|]. rewrite (selected_status s st w w) in Hy by done.
    exfalso. apply Hyd. apply statusAt_done; [done|done|by rewrite (selected_status s st w w)|].
    rewrite (refAt_env s st w w) by done. apply clusterDone_status. by apply Hd. }
  rewrite (selected_status s st w w) in Hquiet by done. destruct (Hquiet Hn) as [Hready Hpend].
  specialize (Hpend Hwk). destruct (passed_quiet _ _ _ _ _ Hp Hn) as [Hw1 Hm1].
  { by rewrite (selected_status s st w w). }
  rewrite (selected_status s st w w) in Hm1 by done. specialize (Hm1 Hms).
  pose proof (eval_same_env (reconcileChildren t hasResolver (with_status s st) res (planClusters plan)
    (planCleanupClusters plan) (planStatuses plan) (startStatus t st res plan)) w) as (Hpl & Hdc & Hns & Hrm).
  destruct (eval server (reconcileChildren t hasResolver (with_status s st) res (planClusters plan)
    (planCleanupClusters plan) (planStatuses plan) (startStatus t st res plan)) w) as [[cr x] w1] eqn:Ech.
  cbn [fst snd] in *. assert (w1 = w) as -> by (destruct w, w1; cbn in *; by subst).
  exists res, plan, cr, x. split; [split; [by rewrite Eres|by rewrite Eplan|by rewrite Ech]|].
  match goal with |- _ = (?r, ?w') => assert (∃ ps keep, eval server (reconcileSet t cfg (with_status s st)) w =
    (mkPass ps keep r, w')) as (ps & keep & Hpass) end.
  { do 2 eexists. unfold reconcileSet, reconcileLive.
    rewrite bool_decide_eq_false_2 by (rewrite Hlive; by intros [? ?]). rewrite AddFinalizer_present by done.
    unfold reconcileSpec. rewrite Hval. cbv zeta. rewrite eval_bind.
    change (setGeneration (with_status s st)) with generation. rewrite Eres. cbn [fst snd].
    pose proof Hres as (_ & _ & _ & Hre). rewrite Hre, Herr. unfold reconcileResolved. cbv zeta.
    rewrite eval_bind, Eplan. cbn [fst snd]. rewrite eval_bind. unfold startStatus in Ech. cbv zeta in Ech.
    change (setGeneration (with_status s st)) with generation. rewrite Ech. cbn [fst snd].
    rewrite finishPass_quiet by done. reflexivity. }
  unfold Reconcile. rewrite eval_bind, (eval_send server (CGetSet req)). cbn [server fst snd]. unfold find_obj.
  rewrite Hset, eval_bind, Hpass. cbn [fst snd]. rewrite eval_bind. unfold stopNamespaceCaches. by destruct (cfgResolver cfg && cfgJanitor cfg).
Qed.

(** What the end of a pass leaves of the status. *)
Lemma endStatus_sets res cr x :
  ∃ L, map condType L = [conditionManagedServiceAccountsReady; conditionReady; conditionRemotePermissionsApplied;
                         conditionCleanupBlocked] ∧ settings L ∧
    ∀ t x', stSummary x' = stSummary x →
      sets L t (with_stReadyClusterCount x' (crReady cr)) (endStatus t res cr x').
Proof.
  destruct (children_sets cr (length (resClusters res)) generation (rbacEnabled s) (stSummary x)) as (L & Ht & Hs & HL).
  exists (L ++ [mkCondition conditionCleanupBlocked ConditionFalse generation None reasonNotDeleting "cleanup is not active"]).
  split_and!; [by rewrite map_app, Ht|apply settings_app; [done|by intros ? ->%list_elem_of_singleton]|].
  intros t' x' Hx. eapply sets_app; [by apply HL|]. reflexivity.
Qed.

(** The status before the children sets the conditions on the placements. *)
Lemma startStatus_sets res plan :
  ∃ L, map condType L `sublist_of` [conditionPlacementResolved; conditionPlacementRolledOut] ∧ settings L ∧
    ∀ t st, startStatus t st res plan =
      mkStatus generation (int32_len (resClusters res)) 0 None (planSummary plan) None
        (stPlacements (startStatus 0 st res plan)) (setAll t (stConditions st) L).
Proof.
  destruct (rolledOut_sets (planSummary plan) generation) as (L & Ht & Hs & HL).
  exists (mkCondition conditionPlacementResolved ConditionTrue generation None reasonResolved "placement refs resolved" :: L).
  split_and!; [cbn; by apply sublist_skip|intros c [->|?]%elem_of_cons; [done|by apply Hs]|].
  intros t st. unfold startStatus. cbv zeta. rewrite (HL t), (HL 0%Z). reflexivity.
Qed.

Lemma startStatus_placements t st res plan :
  stPlacements (startStatus t st res plan) =
  map (λ e, with_psRollout e (planPlacementRollouts plan !! psName e)
              (default "" (planAvailableDecisionGroups plan !! psName e))) (resPlacementStatuses res).
Proof.
  unfold startStatus. cbv zeta. destruct (rolledOut_sets (planSummary plan) generation) as (L & _ & _ & ->). done.
Qed.

(** The entries of the status after a pass: names and conditions as resolved,
    rollouts as planned. *)
Lemma stages_frame t st w res plan cr x :
  stages t st w res plan cr x →
  stRollout x = planSummary plan ∧
  map placementCore (stPlacements x) =
    map (λ e, (psName e, planPlacementRollouts plan !! psName e, psConditions e)) (resPlacementStatuses res).
Proof.
  intros [_ _ Hch]. pose proof (returns_eval server _ _ w (reconcileChildren_frame t hasResolver (with_status s st) res
    (planClusters plan) (planCleanupClusters plan) (planStatuses plan) (startStatus t st res plan))) as Hf.
  cbv beta in Hf. rewrite Hch in Hf. destruct Hf as (_ & _ & _ & Hro & Hpl). cbn [snd] in *. split.
  - rewrite Hro. destruct (startStatus_sets res plan) as (L & _ & _ & ->). done.
  - rewrite Hpl, startStatus_placements, map_map. done.
Qed.

(** The first entry of a name, when all entries of a name have the same
    rollout. *)
Lemma placementRolloutConditions_lookup (F : string → option RolloutSummary) st key :
  (∀ e, e ∈ stPlacements st → psRollout e = F (psName e)) → key ∈ map psName (stPlacements st) →
  placementRolloutConditions (with_status s st) key = rolloutConditions (F key).
Proof.
  unfold placementRolloutConditions. cbn [with_status setStatus].
  induction (stPlacements st) as [|e l IH]; intros HF Hin; [by apply elem_of_nil in Hin|].
  cbn [List.find]. case_bool_decide as He.
  - subst key. f_equal. apply HF. left.
  - apply IH; [intros e' He'; apply HF; by right|].
    cbn in Hin. apply elem_of_cons in Hin as [Hin|?]; [by subst|done].
Qed.

(** The same stages, from the status of the first pass, at another time. *)
Lemma stages_again t1 t2 st w w' res plan cr x resB planB crB xB :
  let e := endStatus t1 res cr x in
  stages t1 st w res plan cr x → agree w w' → stages t2 e w' resB planB crB xB →
  resB = res ∧ planB = plan.
Proof.
  intros e HA Hag HB. destruct (stages_frame _ _ _ _ _ _ _ HA) as [Hro Hpl].
  assert (stPlacements e = stPlacements x ∧ stRollout e = stRollout x) as [Hep Her].
  { destruct (endStatus_sets res cr x) as (L & _ & _ & HL). unfold e. by rewrite (HL t1 x eq_refl). }
  assert (resB = res) as ->.
  { rewrite <- (sg_res _ _ _ _ _ _ _ HA), <- (sg_res _ _ _ _ _ _ _ HB).
    apply (resolution_again t1 t2 generation s st e w w'); [apply Hag|].
    rewrite (sg_res _ _ _ _ _ _ _ HA), Hep.
    apply (f_equal (map (λ c : string * option RolloutSummary * list Condition, (c.1.1, c.2)))) in Hpl.
    by rewrite !map_map in Hpl. }
  split; [done|].
  destruct (lock_sound _ _ _ w w' (planRollout_lock t1 t2 hasResolver s st e res) Hag) as [Hplans _].
  rewrite (sg_plan _ _ _ _ _ _ _ HA), (sg_plan _ _ _ _ _ _ _ HB) in Hplans.
  apply (plan_again t1 t2 s st e plan planB Hplans).
  - intros key y Hy Hkey. rewrite (placementRolloutConditions_lookup (λ n, planPlacementRollouts plan !! n)).
    + by rewrite Hy.
    + intros en Hen. rewrite Hep in Hen. apply (list_elem_of_fmap_2 placementCore) in Hen.
      change (placementCore <$> stPlacements x) with (map placementCore (stPlacements x)) in Hen.
      rewrite Hpl in Hen. apply list_elem_of_fmap in Hen as (e0 & Heq & _). injection Heq as -> -> _. done.
    + rewrite Hep. assert (map psName (stPlacements x) = map psName (resPlacementStatuses res)) as ->.
      { apply (f_equal (map (λ c : string * option RolloutSummary * list Condition, c.1.1))) in Hpl.
        by rewrite !map_map in Hpl. }
      rewrite <- (sg_res _ _ _ _ _ _ _ HA).
      destruct (resolvePlacementRefs_exact t1 (with_status s st) generation w) as [-> _].
      rewrite map_map. cbn [with_status setSpec].
      apply list_elem_of_fmap in Hkey as (ref & -> & Hin). apply list_elem_of_fmap.
      exists ref. split; [by rewrite refStatus_name|done].
  - by rewrite Her, Hro.
Qed.

(** The second status is the first, once the conditions of the access agree. *)
Lemma reframe_access X' Y' st :
  (∀ c, stControllerAccess st = Some c → caConditions c = Y') → reframe X' Y' st = with_stConditions st X'.
Proof.
  intros Hc. unfold reframe, with_stConditions. f_equal. destruct (stControllerAccess st) as [[d r cs]|]; [|done].
  cbn. by rewrite <- (Hc _ eq_refl).
Qed.

Lemma endStatus_again t1 t2 st w w' res plan cr x crB xB :
  let e := endStatus t1 res cr x in
  stages t1 st w res plan cr x → agree w w' → stages t2 e w' res plan crB xB →
  endStatus t2 res crB xB = e.
Proof.
  intros e HA Hag HB. destruct (startStatus_sets res plan) as (L0 & Ht0 & Hs0 & HL0).
  destruct (endStatus_sets res cr x) as (L1 & Ht1 & Hs1 & HL1).
  set (X := setAll t1 (stConditions st) L0). set (X' := setAll t2 (stConditions e) L0).
  assert (framed X [] X' [] (startStatus t1 st res plan) (startStatus t2 e res plan)) as Hfr.
  { rewrite (HL0 t1 st), (HL0 t2 e), !startStatus_placements. by split. }
  destruct (lock_sound _ _ _ w w' (reconcileChildren_lock t1 t2 hasResolver s st e res (planClusters plan)
    (planCleanupClusters plan) (planStatuses plan) X X' _ _ Hfr) Hag) as [Hout _].
  rewrite (sg_children _ _ _ _ _ _ _ HA), (sg_children _ _ _ _ _ _ _ HB) in Hout.
  destruct Hout as [Hcr Hst]. cbn [fst snd] in *. subst crB.
  pose proof (HL1 t1 x eq_refl) as He. fold e in He. unfold sets in He.
  assert (stControllerAccess e = stControllerAccess x) as Hacc by (by rewrite He).
  assert (stConditions x = X ∧ xB = with_stConditions x X') as [HX HxB].
  { destruct (selectorRBACEnabled s).
    - destruct Hst as (c & Hc & Hx & ->). split; [by rewrite Hx|]. apply reframe_access. intros a Ha.
      assert (caConditions a = SetStatusCondition t1 (accessConditions st) c) as Hca.
      { rewrite Hx in Ha. unfold reframe in Ha. cbn in Ha. destruct (stControllerAccess x); [|done].
        by injection Ha as <-. }
      unfold accessConditions at 1. rewrite Hacc, Ha, Hca. symmetry. by apply has_noop, has_set.
    - destruct Hst as [Hx ->]. split; [by rewrite Hx|]. apply reframe_access. intros a Ha.
      rewrite Hx in Ha. unfold reframe in Ha. cbn in Ha. destruct (stControllerAccess x); [|done].
      by injection Ha as <-. }
  assert (stConditions e = setAll t1 (stConditions st) (L0 ++ L1)) as HC.
  { rewrite He. cbn. rewrite HX. unfold X, setAll. by rewrite foldl_app. }
  assert (setAll t2 X' L1 = stConditions e) as HX'.
  { unfold X', setAll. rewrite <- foldl_app. fold (setAll t2 (stConditions e) (L0 ++ L1)). rewrite HC.
    apply setAll_idem; [|by apply settings_app]. rewrite map_app, Ht1.
    eapply sublist_NoDup; [|apply sublist_app; [exact Ht0|reflexivity]].
    apply (bool_decide_unpack _). vm_compute. exact I. }
  pose proof (HL1 t2 xB ltac:(by rewrite HxB)) as HeB. unfold sets in HeB. rewrite HeB, HxB.
  change (with_stConditions (with_stReadyClusterCount x (crReady cr)) (setAll t2 X' L1) = e).
  rewrite HX', (f_equal stConditions He). symmetry. exact He.
Qed.

(** A second pass, at whatever time, changes nothing at all. *)
Lemma pass_again t1 t2 w : inPlace cfg s w → pass t2 cfg s (pass t1 cfg s w) = pass t1 cfg s w.
Proof.
  intros Hw. pose proof Hw as [Hrec _ _ _]. destruct (rec_stored _ _ _ Hrec) as [st Hst].
  destruct (quiet_pass t1 st w Hw Hst) as (res & plan & cr & x & HA & Hpass).
  assert (pass t1 cfg s w = with_wSets w (<[req := with_status s (endStatus t1 res cr x)]> (wSets w))) as Hw1
    by (unfold pass; by rewrite Hpass).
  destruct (inPlace_pass cfg s t1 w Hw) as (_ & _ & Hw' & _). rewrite Hw1 in *.
  destruct (quiet_pass t2 (endStatus t1 res cr x) _ Hw') as (resB & planB & crB & xB & HB & HpassB).
  { cbn. apply lookup_insert_eq. }
  assert (agree w (with_wSets w (<[req := with_status s (endStatus t1 res cr x)]> (wSets w)))) as Hag by done.
  destruct (stages_again _ _ _ _ _ _ _ _ _ _ _ _ _ HA Hag HB) as [-> ->].
  unfold pass. rewrite HpassB, (endStatus_again _ _ _ _ _ _ _ _ _ _ _ HA Hag HB). cbn.
  by rewrite insert_insert_eq.
Qed.


End quiet.

(** ** On the settled fleet *)

Section witnesses.
Import Ref.

#[local] Existing Instance policy_one.


End witnesses.
