(* ===== verification/Watches.v ===== *)
(** * Watches ([SetupWithManager] and the map functions)

    Which replica sets an event on a watched object wakes up.  The controller
    is level triggered: a pass depends on nothing but what it reads, so it is
    enough that a change of anything a pass read enqueues the set again.  The
    watch events and the work queue are controller-runtime's; the map functions
    and the field index are the repository's and are modelled here. *)

From S2P Require Import Prelude GoStd ApiTypes Interfaces Reference Effects Samples Store.
From S2P Require Import Metadata Rbac ControllerAccess Validation Conditions Children Placement Rollout.
From S2P Require Import Cleanup ReconcileChildren Reconcile.
From Stdlib Require Import ZArith Lia.

(** ** Definitions *)

Definition indexPlacementRefNames : string := "placementRefNames".

(** The index function registered for [indexPlacementRefNames]. *)
Definition placementRefIndex (set : ManagedServiceAccountReplicaSet) : list string :=
  sets_List (foldl (λ (names : gset string) ref, {[prefName ref]} ∪ names) ∅ (specPlacementRefs (setSpec set))).

(** The objects the controller watches ([For], [Watches] and
    [WatchesRawSource] of the builder), with the metadata the map functions
    look at. *)
Inductive watchedObject :=
| WatchSet (om : ObjectMeta)
| WatchPlacement (om : ObjectMeta)
| WatchPlacementDecision (om : ObjectMeta)
| WatchManagedServiceAccount (om : ObjectMeta)
| WatchManifestWork (om : ObjectMeta)
| WatchClusterProfile (om : ObjectMeta)
(** an event of the namespace resolver's channel, which carries the owning set *)
| WatchNamespaceEvent (om : ObjectMeta).

Definition replicaSetListToRequests (items : list ManagedServiceAccountReplicaSet) : list NamespacedName :=
  map (λ s, mkNamespacedName (setNamespace s) (setName s)) items.

Definition requestsForPlacementRefName (namespace placementName : string) : prog (list NamespacedName) :=
  matched ← send (CListSets (Some namespace) (Some (indexPlacementRefNames, placementName)));
  match matched with
  | Err _ => mret []
  | Ok items => mret (replicaSetListToRequests items)
  end.

Definition requestsForOCMPlacement (om : ObjectMeta) : prog (list NamespacedName) :=
  requestsForPlacementRefName (omNamespace om) (omName om).

Definition requestsForOCMPlacementDecision (om : ObjectMeta) : prog (list NamespacedName) :=
  let placementName := (omLabels om).[PlacementLabel] in
  if bool_decide (placementName = "") then mret []
  else requestsForPlacementRefName (omNamespace om) placementName.

(** Anything but a ClusterProfile is ignored. *)
Definition requestsForClusterProfile (obj : watchedObject) : prog (list NamespacedName) :=
  match obj with
  | WatchClusterProfile _ =>
      matched ← send (CListSets None None);
      match matched with
      | Err _ => mret []
      | Ok items => mret (replicaSetListToRequests items)
      end
  | _ => mret []
  end.

Definition requestsForGeneratedChild (om : ObjectMeta) : list NamespacedName :=
  match requestFromSourceLabels (omLabels om) with
  | None => []
  | Some key => [key]
  end.

(** The map function the builder installs for each kind; [For] and the raw
    source enqueue the object itself. *)
Definition watchRequests (obj : watchedObject) : prog (list NamespacedName) :=
  match obj with
  | WatchSet om | WatchNamespaceEvent om => mret [ObjectKey om]
  | WatchPlacement om => requestsForOCMPlacement om
  | WatchPlacementDecision om => requestsForOCMPlacementDecision om
  | WatchManagedServiceAccount om | WatchManifestWork om => mret (requestsForGeneratedChild om)
  | WatchClusterProfile _ => requestsForClusterProfile obj
  end.

(** ** Lemmas *)

Lemma placementRefIndex_elem set x :
  x ∈ placementRefIndex set ↔ x ∈ map prefName (specPlacementRefs (setSpec set)).
Proof.
  unfold placementRefIndex. rewrite sets_List_elem_of.
  assert (∀ l (acc : gset string),
    x ∈ foldl (λ (names : gset string) ref, {[prefName ref]} ∪ names) acc l ↔ x ∈ acc ∨ x ∈ map prefName l) as Hf.
  { induction l as [|r l IH]; intros acc; cbn [foldl map]; [set_solver|]. rewrite IH. set_solver. }
  rewrite Hf. set_solver.
Qed.

Lemma replicaSetListToRequests_elem items k :
  k ∈ replicaSetListToRequests items ↔ ∃ s, s ∈ items ∧ ObjectKey (setMeta s) = k.
Proof.
  unfold replicaSetListToRequests. rewrite list_elem_of_fmap. split.
  - intros (s & -> & Hs). by exists s.
  - intros (s & Hs & <-). by exists s.
Qed.

(** What the informer cache promises for lists of replica sets: exactly the
    stored sets of the namespace whose index entry holds the value asked for. *)
Definition set_view {W} (h : handler W) (w : W) (sets : gmap NamespacedName ManagedServiceAccountReplicaSet)
    : Prop :=
  (∀ k s, sets !! k = Some s → ObjectKey (setMeta s) = k) ∧
  ∀ (ns value : option string), ∃ items,
    (h (CListSets ns (pair indexPlacementRefNames <$> value)) w).1 = Ok items ∧
    ∀ s, s ∈ items ↔ sets !! ObjectKey (setMeta s) = Some s ∧
      (∀ n, ns = Some n → setNamespace s = n) ∧ (∀ v, value = Some v → v ∈ placementRefIndex s).

Section requests.
Context {W : Type} (h : handler W) (w : W) (sets : gmap NamespacedName ManagedServiceAccountReplicaSet).
Context (Hview : set_view h w sets).

Lemma requestsForPlacementRefName_exact ns n k :
  k ∈ (eval h (requestsForPlacementRefName ns n) w).1 ↔
  ∃ s, sets !! k = Some s ∧ setNamespace s = ns ∧ n ∈ map prefName (specPlacementRefs (setSpec s)).
Proof.
  unfold requestsForPlacementRefName.
  rewrite eval_bind, (eval_send h (CListSets (Some ns) (Some (indexPlacementRefNames, n)))).
  destruct Hview as [Hk Hl]. destruct (Hl (Some ns) (Some n)) as (items & Hr & Hi);
    cbn in Hr; cbn; rewrite Hr.
  cbn [eval mret prog_ret fst]. rewrite replicaSetListToRequests_elem. setoid_rewrite Hi.
  setoid_rewrite <- placementRefIndex_elem. split.
  - intros (s & (Hs & Hn & Hf) & <-). exists s. auto.
  - intros (s & Hs & <- & Hf). exists s. pose proof (Hk _ _ Hs) as Hkey. rewrite Hkey.
    split_and!; try done; [by intros ? [= <-]|by intros ? [= <-]].
Qed.

Lemma requestsForClusterProfile_exact om k :
  k ∈ (eval h (requestsForClusterProfile (WatchClusterProfile om)) w).1 ↔ is_Some (sets !! k).
Proof.
  unfold requestsForClusterProfile. rewrite eval_bind, (eval_send h (CListSets None None)).
  destruct Hview as [Hk Hl]. destruct (Hl None None) as (items & Hr & Hi);
    cbn in Hr; cbn; rewrite Hr.
  cbn [eval mret prog_ret fst]. rewrite replicaSetListToRequests_elem. setoid_rewrite Hi. split.
  - intros (s & (Hs & _) & <-). by exists s.
  - intros (s & Hs). exists s. rewrite (Hk _ _ Hs). done.
Qed.

Lemma requestsForGeneratedChild_exact om k :
  k ∈ requestsForGeneratedChild om ↔
  omLabels om !! labelSetName = Some (nnName k) ∧ omLabels om !! labelSetNamespace = Some (nnNamespace k) ∧
  nnName k ≠ "" ∧ nnNamespace k ≠ "".
Proof.
  unfold requestsForGeneratedChild, requestFromSourceLabels, map_index. destruct k as [kns kn]. cbn [nnName nnNamespace].
  destruct (omLabels om !! labelSetName) as [n|] eqn:En, (omLabels om !! labelSetNamespace) as [ns|] eqn:Ens;
    cbn [default from_option id]; repeat case_bool_decide; cbn [orb];
    rewrite ?list_elem_of_singleton, ?elem_of_nil; naive_solver.
Qed.

(** C33: Each watch wakes exactly the replica sets it concerns: an event on a
    Placement wakes the sets of its namespace that reference it by name; one on
    a PlacementDecision the sets that reference the placement of its label; one
    on a ManagedServiceAccount or a ManifestWork the set that its source labels
    name, if they give a name and a namespace, and no other; one on a
    ClusterProfile every set; one on a replica set, and a namespace event of a
    replica set, that set. *)
Theorem watchRequests_exact k :
  (∀ om, k ∈ (eval h (watchRequests (WatchPlacement om)) w).1 ↔
     ∃ s, sets !! k = Some s ∧ setNamespace s = omNamespace om ∧
          omName om ∈ map prefName (specPlacementRefs (setSpec s))) ∧
  (∀ om, k ∈ (eval h (watchRequests (WatchPlacementDecision om)) w).1 ↔
     ∃ s n, sets !! k = Some s ∧ setNamespace s = omNamespace om ∧ n ≠ "" ∧
          omLabels om !! PlacementLabel = Some n ∧ n ∈ map prefName (specPlacementRefs (setSpec s))) ∧
  (∀ om obj, obj = WatchManagedServiceAccount om ∨ obj = WatchManifestWork om →
     k ∈ (eval h (watchRequests obj) w).1 ↔
     omLabels om !! labelSetName = Some (nnName k) ∧ omLabels om !! labelSetNamespace = Some (nnNamespace k) ∧
     nnName k ≠ "" ∧ nnNamespace k ≠ "") ∧
  (∀ om, k ∈ (eval h (watchRequests (WatchClusterProfile om)) w).1 ↔ is_Some (sets !! k)) ∧
  (∀ om, k ∈ (eval h (watchRequests (WatchSet om)) w).1 ↔ k = ObjectKey om) ∧
  (∀ om, k ∈ (eval h (watchRequests (WatchNamespaceEvent om)) w).1 ↔ k = ObjectKey om).
Proof.
  split_and!.
  - intros om. apply requestsForPlacementRefName_exact.
  - intros om. cbn [watchRequests]. unfold requestsForOCMPlacementDecision, map_index.
    destruct (omLabels om !! PlacementLabel) as [n|] eqn:E; cbn [default];
      (case_bool_decide as Hn; [split; [by intros ?%elem_of_nil|]|]).
    + intros (s & n' & _ & _ & Hne & [= <-] & _). done.
    + rewrite requestsForPlacementRefName_exact. split.
      * intros (s & ? & ? & ?). by exists s, n.
      * intros (s & n' & ? & ? & _ & [= <-] & ?). by exists s.
    + by intros (s & n' & _ & _ & _ & ? & _).
    + done.
  - intros om obj Hobj. assert (watchRequests obj = mret (requestsForGeneratedChild om)) as ->
      by (by destruct Hobj as [->| ->]). apply requestsForGeneratedChild_exact.
  - intros om. apply requestsForClusterProfile_exact.
  - intros om. cbn. by rewrite list_elem_of_singleton.
  - intros om. cbn. by rewrite list_elem_of_singleton.
Qed.

End requests.

(** The reference server serves the index. *)
Lemma server_set_view `{LabelsLib} w : keyed w → set_view server w (wSets w).
Proof.
  intros (Hk & _). split; [exact Hk|]. intros ns value. eexists. split; [done|].
  intros s. unfold list_sets. rewrite list_elem_of_In, filter_In, <- list_elem_of_In, andb_true_iff.
  assert (s ∈ map snd (map_to_list (wSets w)) ↔ wSets w !! ObjectKey (setMeta s) = Some s) as ->.
  { rewrite list_elem_of_fmap. split.
    - intros ([k s'] & -> & Hs%elem_of_map_to_list). cbn. by rewrite (Hk _ _ Hs).
    - intros Hs. exists (ObjectKey (setMeta s), s). split; [done|]. by apply elem_of_map_to_list. }
  setoid_rewrite placementRefIndex_elem.
  destruct ns as [n|], value as [v|]; cbn [fmap option_fmap option_map]; rewrite ?bool_decide_eq_true; naive_solver.
Qed.

(** ** What a pass reads is watched *)

(** The OCM tracker asks the getter for the decisions that carry the name of
    the placement in the placement label, in the namespace of the placement. *)
Class TrackerScope `{LabelsLib} `{PlacementTracker} := {
  tracker_Refresh_scope (P : call → Prop) placement getter :
    (∀ selector,
       (∀ l, Matches selector l = true → l !! PlacementLabel = Some (omName (plMeta placement))) →
       all_calls P (getter selector (omNamespace (plMeta placement)))) →
    all_calls P (tracker_Refresh placement getter);
}.

#[export] Program Instance reference_scope `{LabelsLib} : TrackerScope.
Next Obligation.
  intros HL P placement getter Hg. cbn [tracker_Refresh reference_tracker]. unfold refresh_one_group.
  calls_steps; try done. apply Hg. intros l Hl%Matches_SelectorFromValidatedSet.
  by apply (lookup_weaken _ _ _ _ (lookup_singleton_eq _ _) Hl).
Qed.

(** What is assumed of the reads of placements and decisions: a get answers
    the object that was asked for, which has a name, and a list holds objects
    of the namespace whose labels match. *)
Definition placement_contract `{LabelsLib} (tr : trace) (c : call) : resp c → Prop :=
  match c return resp c → Prop with
  | CGetPlacement k => λ r, ∀ o, r = Ok o → ObjectKey (plMeta o) = k ∧ omName (plMeta o) ≠ ""
  | CListPlacementDecisions ns sel => λ r, ∀ items o, r = Ok items → o ∈ items →
      omNamespace (pdMeta o) = ns ∧ Matches sel (omLabels (pdMeta o)) = true
  | _ => λ _, True
  end.

Section inputs.
Context `{MetaConditions} `{LabelsLib} `{SemanticEquality} `{JSONCodec} `{ApiErrors} `{ControllerUtil}
        `{ClusterGroups} `{PlacementTracker} `{!TrackerScope}.
Context (now : Z) (cfg : reconcilerConfig).

(** The placement reads of a pass over [set] - the placements its refs name,
    and the decisions of a placement that was read - and its lists of
    children. *)
Definition placement_request (set : ManagedServiceAccountReplicaSet) (tr : trace) (c : call) : Prop :=
  match c with
  | CGetPlacement k =>
      ∃ n, n ∈ map prefName (specPlacementRefs (setSpec set)) ∧ k = mkNamespacedName (setNamespace set) n
  | CListPlacementDecisions ns sel =>
      ∃ n pl, n ∈ map prefName (specPlacementRefs (setSpec set)) ∧
        ObjectKey (plMeta pl) = mkNamespacedName (setNamespace set) n ∧ omName (plMeta pl) ≠ "" ∧
        ns = omNamespace (plMeta pl) ∧
        ∀ l, Matches sel l = true → l !! PlacementLabel = Some (omName (plMeta pl))
  | CListMSAs sel | CListWorks sel => sel = ownedSelector set
  | _ => True
  end.

Definition not_placement (set : ManagedServiceAccountReplicaSet) (c : call) : Prop :=
  match c with
  | CGetPlacement _ | CListPlacementDecisions _ _ => False
  | CListMSAs sel | CListWorks sel => sel = ownedSelector set
  | _ => True
  end.

Lemma not_placement_request set tr c : not_placement set c → placement_request set tr c.
Proof. by destruct c. Qed.

Lemma resolvePlacementRefs_requests set tr :
  wp placement_contract (placement_request set) (resolvePlacementRefs now set (setGeneration set))
    (λ _ _, True) tr.
Proof.
  unfold resolvePlacementRefs. apply wp_bind.
  apply (wp_foldM _ _ _ (λ _ _ _, True)); [done| |by intros; apply wp_ret].
  intros before ref rest acc tr1 Hrefs _. apply wp_bind. unfold resolvePlacementRef. apply wp_bind.
  assert (prefName ref ∈ map prefName (specPlacementRefs (setSpec set))) as Hin.
  { apply list_elem_of_fmap_2. rewrite Hrefs. apply elem_of_app. right. left. }
  unfold resolveOCMPlacement. apply wp_bind, wp_send; [by exists (prefName ref)|].
  intros [pl|e] Hpl; [|by apply wp_ret]. destruct (Hpl pl eq_refl) as [Hkey Hne].
  apply wp_bind. eapply wp_mono; [|intros tr2 [g|e] _; by apply wp_ret].
  apply (wp_calls _ _ (λ c, ∀ tr, placement_request set tr c)); [|by intros tr2 c Hc; apply Hc].
  apply tracker_Refresh_scope. intros sel Hsel. split; [|by intros []].
  intros tr2. exists (prefName ref), pl. split_and!; done.
Qed.

Lemma desiredRBACSlices_np set cl resolver : all_calls (not_placement set) (desiredRBACSlices set cl resolver).
Proof. eapply all_calls_mono; [apply desiredRBACSlices_reads|by intros []]. Qed.

Lemma reconcileChildren_np resolver set resolution names cleanup statuses st :
  all_calls (not_placement set) (reconcileChildren now resolver set resolution names cleanup statuses st).
Proof.
  unfold reconcileChildren, reconcileCluster, rolloutCluster, settledCluster, reconcileAccess,
    reconcileWorkloadMSA, reconcileRBAC, reconcileSlice, aggregateExistingRBACSummary, deleteStaleChildren,
    deleteStaleWork, deleteStaleMSA, ensureManagedServiceAccount, ensureManifestWork,
    ensureControllerAccessManagedServiceAccount, ensureControllerAccessManifestWork, ensureChild. cbv zeta.
  cbn [client_Get client_Create client_Patch msaObject workObject].
  calls_steps; try done; apply desiredRBACSlices_np.
Qed.

Lemma reconcileDelete_np set : all_calls (not_placement set) (reconcileDelete now set).
Proof.
  unfold reconcileDelete, waitForCleanup, removeFinalizer, patchStatus, deleteWork, deleteMSA. cbv zeta.
  calls_steps; done.
Qed.

Lemma earlyReturn_np set st reason action msg :
  all_calls (not_placement set) (earlyReturn now cfg set st reason action msg).
Proof. unfold earlyReturn, recordWarningEvent, patchStatus. calls_steps; done. Qed.

Lemma reconcileResolved_np set resolution st :
  all_calls (not_placement set) (reconcileResolved now cfg set resolution st).
Proof.
  unfold reconcileResolved, finishPass, recordWarningEvent, patchStatus. cbv zeta.
  calls_steps; try done; [|apply reconcileChildren_np].
  eapply all_calls_mono; [apply planRollout_reads|by intros []].
Qed.

Lemma wp_not_placement {A} (p : prog A) set tr :
  all_calls (not_placement set) p → wp placement_contract (placement_request set) p (λ _ _, True) tr.
Proof. intros Hp. eapply wp_calls; [exact Hp|]. intros tr' c. apply not_placement_request. Qed.

Lemma reconcileSet_requests set tr :
  wp placement_contract (placement_request set) (reconcileSet now cfg set) (λ _ _, True) tr.
Proof.
  unfold reconcileSet. case_goal.
  { apply wp_not_placement, all_calls_bind; [apply reconcileDelete_np|done]. }
  unfold reconcileLive. destruct (AddFinalizer _ _) as [l []].
  { apply wp_not_placement. calls_steps; done. }
  unfold reconcileSpec. cbv zeta. destruct (validateRuntimeSpec set); [apply wp_not_placement, earlyReturn_np|].
  apply wp_bind. eapply wp_mono; [apply resolvePlacementRefs_requests|]. intros tr1 res _.
  repeat case_goal; apply wp_not_placement; first [apply earlyReturn_np|apply reconcileResolved_np].
Qed.

(** Every request of a pass over [req] after the first one belongs to the set
    the pass read first. *)
Lemma Reconcile_requests req :
  wp placement_contract
    (λ tr c, c = CGetSet req ∨ ∃ set, Ev (CGetSet req) (Ok set) ∈ tr ∧ placement_request set tr c)
    (Reconcile now cfg req) (λ _ _, True) [].
Proof.
  unfold Reconcile. apply wp_bind, wp_send; [by left|]. intros [set|e] _; [|by apply wp_ret].
  assert (∀ A (p : prog A) tr, wp placement_contract (placement_request set) p (λ _ _, True) tr →
    Ev (CGetSet req) (Ok set) ∈ tr →
    wp placement_contract
      (λ tr c, c = CGetSet req ∨ ∃ set, Ev (CGetSet req) (Ok set) ∈ tr ∧ placement_request set tr c) p
      (λ tr _, Ev (CGetSet req) (Ok set) ∈ tr) tr) as Hlift.
  { intros A p tr Hp Htr.
    apply (wp_invariant_at _ _ (λ tr, Ev (CGetSet req) (Ok set) ∈ tr)) in Hp; [|by intros; right|done].
    eapply wp_mono; [eapply wp_weaken; [done| |exact Hp]|by intros ?? [_ ?]].
    intros tr1 c [? ?]. right. by exists set. }
  apply wp_bind. eapply wp_mono; [apply Hlift; [apply reconcileSet_requests|left]|].
  intros tr1 pass Hin. apply wp_bind. eapply wp_mono; [apply Hlift; [|exact Hin]|by intros; apply wp_ret].
  apply wp_not_placement. unfold stopNamespaceCaches. calls_steps; done.
Qed.

(** The watches wake [req] when an input that a pass over [set] asked for
    appears, changes or goes: the placement of that key, a decision the list
    would return, a child of the set, whether it was read or not.  Nothing is
    said about the reads of hub namespaces, the answers of the namespace
    resolver and the rollout handler, and objects of other owners. *)
Definition input_watched {V} (hw : handler V) (v : V) (set : ManagedServiceAccountReplicaSet)
    (req : NamespacedName) (c : call) : Prop :=
  let wakes obj := req ∈ (eval hw (watchRequests obj) v).1 in
  match c with
  | CGetPlacement k => ∀ om, ObjectKey om = k → wakes (WatchPlacement om)
  | CListPlacementDecisions ns sel => ∀ om, omNamespace om = ns → Matches sel (omLabels om) = true →
      wakes (WatchPlacementDecision om)
  | CGetMSA _ => ∀ om, ownedBySet set (omLabels om) = true → wakes (WatchManagedServiceAccount om)
  | CGetWork _ => ∀ om, ownedBySet set (omLabels om) = true → wakes (WatchManifestWork om)
  | CListMSAs sel => ∀ om, Matches sel (omLabels om) = true → wakes (WatchManagedServiceAccount om)
  | CListWorks sel => ∀ om, Matches sel (omLabels om) = true → wakes (WatchManifestWork om)
  | _ => True
  end.

Lemma owned_wakes {V} (hw : handler V) (v : V) set req lbls om :
  ObjectKey (setMeta set) = req → nnName req ≠ "" → nnNamespace req ≠ "" →
  omLabels om = lbls → ownedBySet set lbls = true →
  req ∈ (eval hw (mret (requestsForGeneratedChild om)) v).1.
Proof.
  intros <- Hn Hns <- Ho. cbn. unfold requestsForGeneratedChild. rewrite (owned_maps set) by done. by left.
Qed.

(** C11: Which inputs of a pass are watched: for any API server within the
    contract, and as long as the informer cache holds the version of the set
    that the pass acted on, the set is enqueued again by any event on a
    Placement the pass asked for, found or not; by any event on a
    PlacementDecision that a list of the pass asks for, listed or not yet; by
    any event on an account or a work that carries the set's ownership labels,
    when the pass read a key of that kind; and by any event on an account or a
    work that a list of the pass selects.  Reads of hub namespaces, answers of
    the namespace resolver and of the rollout handler, and children of other
    owners are not covered. *)
Theorem Reconcile_inputs_watched {W V} (h : handler W) Inv w req (hw : handler V) v sets :
  handler_ok Inv (λ tr c r, api_contract tr c r ∧ placement_contract tr c r) h → Inv w →
  set_view hw v sets → nnName req ≠ "" → nnNamespace req ≠ "" →
  ∀ c r, Ev c r ∈ out_trace (run h (Reconcile now cfg req) w) → c ≠ CGetSet req →
  ∃ set, Ev (CGetSet req) (Ok set) ∈ out_trace (run h (Reconcile now cfg req) w) ∧
    (sets !! req = Some set → input_watched hw v set req c).
Proof.
  intros Hh Hw Hview Hn Hns c r Hin Hc.
  assert (wp (λ tr c r, api_contract tr c r ∧ placement_contract tr c r) _ (Reconcile now cfg req) (λ _ _, True) [])
    as Hwp by (eapply wp_weaken; [|done|apply Reconcile_requests]; by intros ??? [_ ?]).
  destruct (wp_run_ok h Inv _ _ _ _ w Hh Hw Hwp) as (_ & Ht & _).
  destruct (trace_ok_elem _ _ _ _ Ht Hin) as (before & after & Htr & [?|(set & Hset & Hreq)]); [done|].
  assert (Ev (CGetSet req) (Ok set) ∈ out_trace (run h (Reconcile now cfg req) w)) as Hset'.
  { rewrite Htr. apply elem_of_app. right. by right. }
  exists set. split; [done|]. intros Hl.
  pose proof (run_answers h Inv (λ c r, api_contract [] c r ∧ placement_contract [] c r) (Reconcile now cfg req) w Hh Hw) as Hans.
  rewrite Forall_forall in Hans. destruct (Hans _ Hin) as [Hapi Hpl].
  assert (ObjectKey (setMeta set) = req) as Hkey by (by apply (Hans _ Hset')).
  destruct c; cbn [input_watched watchRequests]; try done.
  - intros om Hom. destruct Hreq as (n & Hnin & ->). injection Hom as Hom1 Hom2.
    apply (requestsForPlacementRefName_exact _ _ _ Hview). exists set. by rewrite Hom1, Hom2.
  - intros om Hdns Hlab. destruct Hreq as (n & pl & Hnin & Hplk & Hne & -> & Hsel).
    apply Hsel in Hlab. injection Hplk as Hp1 Hp2.
    unfold requestsForOCMPlacementDecision, map_index. rewrite Hlab. cbn [default].
    rewrite bool_decide_eq_false_2 by done.
    apply (requestsForPlacementRefName_exact _ _ _ Hview). exists set. by rewrite Hdns, Hp1, Hp2.
  - intros om Ho. by eapply owned_wakes.
  - cbn in Hreq. subst. intros om Hm. by eapply owned_wakes.
  - intros om Ho. by eapply owned_wakes.
  - cbn in Hreq. subst. intros om Hm. by eapply owned_wakes.
Qed.

End inputs.

(** ** The theorems on the sample fleet *)

Definition placements_keyed (w : Cluster) : Prop :=
  ∀ k p, wPlacements w !! k = Some p → ObjectKey (plMeta p) = k ∧ omName (plMeta p) ≠ "".

Lemma server_placements `{LabelsLib} c w : wPlacements (server c w).2 = wPlacements w.
Proof.
  destruct c; try done; cbn [server];
    unfold patch_set, patch_set_status, create_msa, patch_msa, delete_msa, create_work, patch_work, delete_work;
    repeat case_goal; done.
Qed.

Lemma server_placement_contract `{LabelsLib} :
  handler_ok (λ w, keyed w ∧ placements_keyed w)
    (λ tr c r, api_contract tr c r ∧ placement_contract tr c r) server.
Proof.
  intros tr c w [Hk Hp]. destruct (server_contract tr c w Hk) as [Hapi Hk'].
  split; [split; [done|]|split; [done|]].
  - destruct c; try done; cbn [server placement_contract fst].
    + intros o. unfold find_obj. destruct (wPlacements w !! key) as [p|] eqn:E; [|done]. intros [= <-]. by apply Hp.
    + intros items o [= <-] Ho. by apply list_elem_of_filter in Ho as [[? ?] _].
  - unfold placements_keyed. rewrite server_placements. exact Hp.
Qed.

Section witnesses.
Import Ref.

Lemma watchRequests_exact_witness :
  sampleKey ∈ (eval server (watchRequests (WatchPlacementDecision (pdMeta sampleDecision))) sampleWorld).1.
Proof.
  destruct (watchRequests_exact server sampleWorld (wSets sampleWorld)
              (server_set_view _ (sampleWorldWith_keyed _ _ _)) sampleKey) as (_ & Hd & _).
  apply Hd. exists sampleSet, "placement-a".
  split_and!; [vm_compute; reflexivity|reflexivity|discriminate|vm_compute; reflexivity|left].
Defined.

Lemma samplePlacements_keyed : placements_keyed sampleWorld.
Proof.
  intros k p Hp. unfold sampleWorld, sampleWorldWith in Hp. cbn [wPlacements] in Hp.
  apply lookup_singleton_Some in Hp as [<- <-]. split; [done|discriminate].
Qed.

(** The pass over the sample set reads the decision of its placement. *)
Lemma Reconcile_inputs_watched_witness :
  ∃ set, Ev (CGetSet sampleKey) (Ok set) ∈
           out_trace (run server (Reconcile 0 (mkConfig true true true) sampleKey) sampleWorld) ∧
    (wSets sampleWorld !! sampleKey = Some set →
     sampleKey ∈ (eval server (watchRequests (WatchPlacementDecision (pdMeta sampleDecision))) sampleWorld).1).
Proof.
  edestruct (Reconcile_inputs_watched 0 (mkConfig true true true) server _ sampleWorld sampleKey
    server sampleWorld (wSets sampleWorld) server_placement_contract
    (conj (sampleWorldWith_keyed _ _ _) samplePlacements_keyed)
    (server_set_view _ (sampleWorldWith_keyed _ _ _)) ltac:(discriminate) ltac:(discriminate)
    (CListPlacementDecisions "tenant" (SelectorFromValidatedSet {[PlacementLabel := "placement-a"]}))
    (Ok [sampleDecision])) as (set & Hset & Hw).
  - apply (list_elem_of_lookup_2 _ 25). vm_compute. reflexivity.
  - discriminate.
  - exists set. split; [exact Hset|]. intros Hl.
    apply (Hw Hl (pdMeta sampleDecision)); vm_compute; reflexivity.
Defined.

(** An object of another owner on the key of the account of cluster-a. *)
Definition conflictingMSA : ManagedServiceAccount :=
  mkManagedServiceAccount (mkTypeMeta msaGroupVersion "ManagedServiceAccount")
    (newMeta "msa" "cluster-a" {["team" := "other"]} ∅) (mkManagedServiceAccountSpec true 0 None) [].

Definition conflictRun : outcome Cluster ctrlResult :=
  run server (Reconcile 0 (mkConfig true true true) sampleKey)
    (sampleWorldWith (sampleSetWith [] ["placement-a"] [finalizerName] None) [conflictingMSA] []).

(** The conflict is reported, the pass asks for no requeue and returns no
    error, and an event on the conflicting object wakes nobody. *)
Example conflict_not_retried :
  (λ s, statusOf (stConditions (setStatus s)) conditionReady) <$> wSets (out_world conflictRun) !! sampleKey
    = Some (Some ConditionFalse) ∧
  out_val conflictRun = (0%Z, None) ∧
  (eval server (watchRequests (WatchManagedServiceAccount (msaMeta conflictingMSA))) (out_world conflictRun)).1 = [].
Proof. split_and!; vm_compute; reflexivity. Qed.

End witnesses.
