(* ===== verification/NamespaceResolver.v ===== *)
(** * The namespace resolver, its pure parts ([namespace_resolver.go])

    Choosing the ClusterProfile of a managed cluster and deriving the
    credentials configuration for it.  The shared access configuration is
    reached through pointers and slices, so exec configurations and the backing
    arrays of provider slices live in a heap, and the derivation is modelled
    with its allocations and writes: what it must not do is write to what is
    shared. *)

From S2P Require Import Prelude GoStd ApiTypes Interfaces Effects Samples.
From S2P Require Import Metadata Rbac ControllerAccess.
From Stdlib Require Import ZArith Lia Ascii.

Definition clusterProfileAccessProviderName : string := "open-cluster-management".

(** ** Data *)

(** [civ1alpha1.ClusterProfile]; of a provider only the name is read. *)
Record ClusterProfile := mkClusterProfile {
  cpMeta : ObjectMeta;
  cpAccessProviders : list string;
  cpCredentialProviders : list string;
}.

(** [clientcmdapi.ExecConfig]: the fields the resolver rewrites, and the rest. *)
Record ExecEnvVar := mkExecEnvVar { envName : string; envValue : string }.
Record ExecConfig := mkExecConfig {
  ecCommand : string;
  ecArgs : list string;
  ecEnv : list ExecEnvVar;
}.

(** [access.Provider] holds a pointer to its exec configuration, and
    [access.Config] a slice of providers: a reference to its backing array. *)
Definition loc : Set := nat.
Record Provider := mkProvider { provName : string; provExecConfig : option loc }.
Record AccessConfig := mkAccessConfig { acProviders : loc }.

(** The memory: exec configurations and arrays of providers. *)
Record heap := mkHeap {
  hpExec : gmap loc ExecConfig;
  hpArrays : gmap loc (list Provider);
}.

#[export] Instance ExecEnvVar_eq : EqDecision ExecEnvVar.
Proof. solve_decision. Defined.
#[export] Instance ExecConfig_eq : EqDecision ExecConfig.
Proof. solve_decision. Defined.
#[export] Instance Provider_eq : EqDecision Provider.
Proof. solve_decision. Defined.

(** ** Choosing the ClusterProfile *)

Definition hasClusterProfileAccessProvider (profile : ClusterProfile) (providerName : string) : bool :=
  let matchName p := bool_decide (p = providerName) in
  ContainsFunc matchName (cpAccessProviders profile) || ContainsFunc matchName (cpCredentialProviders profile).

Definition errNoClusterProfile (clusterName : string) : error :=
  ErrNew ("waiting for ClusterProfile labeled " +:+ ocmClusterNameLabel +:+ "=" +:+ clusterName).

Definition errManyClusterProfiles (preferredNamespace clusterName : string) : error :=
  ErrNew ("multiple ClusterProfiles labeled " +:+ ocmClusterNameLabel +:+ "=" +:+ clusterName
          +:+ "; waiting for a single selected profile in namespace " +:+ fmt_q preferredNamespace
          +:+ " or with " +:+ fmt_q clusterProfileAccessProviderName +:+ " access provider").

(** [localList] is the answer to listing the ClusterProfiles with the label of
    the cluster, [None] when no local client is configured. *)
Definition clusterProfileForOCMCluster (localList : option (result (list ClusterProfile)))
    (preferredNamespace clusterName : string) : result ClusterProfile :=
  match localList with
  | None => Err (ErrNew "local client is not configured")
  | Some (Err e) => Err e
  | Some (Ok []) => Err (errNoClusterProfile clusterName)
  | Some (Ok [profile]) => Ok profile
  | Some (Ok items) =>
      let preferred :=
        if bool_decide (preferredNamespace ≠ "")
        then List.filter (λ p, bool_decide (omNamespace (cpMeta p) = preferredNamespace)) items
        else [] in
      match preferred with
      | [profile] => Ok profile
      | _ =>
          match List.filter (λ p, hasClusterProfileAccessProvider p clusterProfileAccessProviderName) items with
          | [profile] => Ok profile
          | _ => Err (errManyClusterProfiles preferredNamespace clusterName)
          end
      end
  end.

(** ** Credentials configuration *)

Definition msaFlag : string := "--managed-serviceaccount".
Definition msaFlagEq : string := "--managed-serviceaccount=".

(** The second half of [managedServiceAccountArgs], when no flag with a value
    of its own was found. *)
Definition msaArgsInline (args : list string) (managedServiceAccountName : string) : list string :=
  let desired := msaFlagEq +:+ managedServiceAccountName in
  match IndexFunc (λ a, HasPrefix a msaFlagEq) args with
  | Some i => <[i := desired]> args
  | None => args ++ [desired]
  end.

Definition managedServiceAccountArgs (args : list string) (managedServiceAccountName : string) : list string :=
  match IndexFunc (λ a, bool_decide (a = msaFlag)) args with
  | Some i =>
      if i + 1 <? length args then <[i + 1 := managedServiceAccountName]> args
      else msaArgsInline args managedServiceAccountName
  | None => msaArgsInline args managedServiceAccountName
  end.

Definition execEnv (env : list ExecEnvVar) (name value : string) : list ExecEnvVar :=
  match IndexFunc (λ e, bool_decide (envName e = name)) env with
  | Some i => alter (λ e, mkExecEnvVar (envName e) value) i env
  | None => env ++ [mkExecEnvVar name value]
  end.

(** The provider whose exec configuration is rewritten. *)
Definition isExecProvider (p : Provider) : bool :=
  bool_decide (provName p = clusterProfileAccessProviderName) && bool_decide (provExecConfig p ≠ None).

Definition errMissingProvider : error :=
  ErrNew ("access config missing " +:+ fmt_q clusterProfileAccessProviderName +:+ " exec provider").

(** [*provider.ExecConfig]; the pointers of a configuration are valid. *)
Definition derefExec (h : heap) (p : option Provider) : option ExecConfig :=
  match p with
  | Some (mkProvider _ (Some l)) => hpExec h !! l
  | _ => None
  end.

(** The elements of a slice. *)
Definition elements (h : heap) (array : loc) : list Provider := default [] (hpArrays h !! array).

(** [slices.Clone]: a new array with the same elements. *)
Definition cloneProviders (h : heap) (array : loc) : heap * loc :=
  let array' := fresh (dom (hpArrays h)) in
  (mkHeap (hpExec h) (<[array' := elements h array]> (hpArrays h)), array').

(** [DeepCopy]: a new exec configuration with the same contents. *)
Definition deepCopyExec (h : heap) (ec : ExecConfig) : heap * loc :=
  let l := fresh (dom (hpExec h)) in (mkHeap (<[l := ec]> (hpExec h)) (hpArrays h), l).

(** Writes through a pointer to an element, and through an exec pointer. *)
Definition writeProvider (h : heap) (array : loc) (i : nat) (f : Provider → Provider) : heap :=
  mkHeap (hpExec h) (alter (alter f i) array (hpArrays h)).
Definition writeExec (h : heap) (l : loc) (f : ExecConfig → ExecConfig) : heap :=
  mkHeap (alter f l (hpExec h)) (hpArrays h).

Definition accessConfigForManagedServiceAccount (h : heap) (cfg : AccessConfig)
    (managedServiceAccountName namespace : string) : heap * result AccessConfig :=
  let '(h, array) := cloneProviders h (acProviders cfg) in
  let out := mkAccessConfig array in
  match IndexFunc isExecProvider (elements h (acProviders out)) with
  | None => (h, Err errMissingProvider)
  | Some i =>
      match derefExec h (elements h (acProviders out) !! i) with
      | None => (h, Err errMissingProvider)
      | Some ec =>
          let '(h, l) := deepCopyExec h ec in
          let h := writeProvider h (acProviders out) i (λ p, mkProvider (provName p) (Some l)) in
          let h := writeExec h l (λ c, mkExecConfig (ecCommand c)
                     (managedServiceAccountArgs (ecArgs c) managedServiceAccountName) (ecEnv c)) in
          let h := writeExec h l (λ c, mkExecConfig (ecCommand c) (ecArgs c)
                     (execEnv (ecEnv c) "NAMESPACE" namespace)) in
          (h, Ok out)
      end
  end.

(** The key of a cache in the resolver's map. *)
Definition namespaceCacheKey (set : ManagedServiceAccountReplicaSet) (clusterName : string)
    (clusterProfile : ClusterProfile) : string :=
  strings_Join [setUID set; setNamespace set; setName set; clusterName;
                omNamespace (cpMeta clusterProfile); omName (cpMeta clusterProfile);
                controllerAccessManagedServiceAccountName set] "/".

(** ** Lemmas *)

Lemma IndexFunc_ext {A} (f : A → bool) (l l' : list A) :
  length l = length l' → (∀ i x y, l !! i = Some x → l' !! i = Some y → f x = f y) →
  IndexFunc f l = IndexFunc f l'.
Proof.
  revert l'. induction l as [|x l IH]; intros [|y l'] Hlen Hf; simplify_eq/=; [done|].
  rewrite (Hf 0 x y eq_refl eq_refl). case_goal; [done|].
  f_equal. apply IH; [done|]. intros i. apply (Hf (S i)).
Qed.

(** Writing a position that the predicate does not tell apart. *)
Lemma IndexFunc_insert {A} (f : A → bool) (l : list A) i x y :
  l !! i = Some y → f x = f y → IndexFunc f (<[i := x]> l) = IndexFunc f l.
Proof.
  intros Hi Hf. apply IndexFunc_ext; [apply length_insert|]. intros j a b Ha Hb.
  destruct (decide (i = j)) as [<-|Hne].
  - rewrite list_lookup_insert_eq in Ha by (by eapply lookup_lt_Some). congruence.
  - rewrite list_lookup_insert_ne in Ha by done. congruence.
Qed.

(** A write behind the first hit. *)
Lemma IndexFunc_insert_after {A} (f : A → bool) (l : list A) i j x :
  IndexFunc f l = Some i → i < j → IndexFunc f (<[j := x]> l) = Some i.
Proof.
  revert i j. induction l as [|y l IH]; intros i j Hi Hj; [done|]. destruct j as [|j]; [lia|].
  change (<[S j := x]> (y :: l)) with (y :: <[j := x]> l). cbn [IndexFunc] in *.
  destruct (f y); [done|]. destruct (IndexFunc f l) as [k|]; [|done]. injection Hi as <-.
  by rewrite (IH k j) by (done || lia).
Qed.

Lemma IndexFunc_app {A} (f : A → bool) (l1 l2 : list A) :
  IndexFunc f (l1 ++ l2) =
  match IndexFunc f l1 with Some i => Some i | None => (λ i, length l1 + i) <$> IndexFunc f l2 end.
Proof.
  induction l1 as [|x l1 IH]; cbn; [by destruct (IndexFunc f l2)|]. destruct (f x); [done|].
  rewrite IH. destruct (IndexFunc f l1); [done|]. by destruct (IndexFunc f l2).
Qed.

Lemma HasPrefix_append p s : HasPrefix (p +:+ s) p = true.
Proof.
  unfold HasPrefix. induction p as [|c p IH]; [by destruct s|]. rewrite append_cons. cbn [String.prefix].
  match goal with |- context [if ?d then _ else _] => by destruct d end.
Qed.

Lemma msaFlagEq_not_flag s : HasPrefix s msaFlagEq = true → bool_decide (s = msaFlag) = false.
Proof. intros Hp. apply bool_decide_eq_false_2. intros ->. by vm_compute in Hp. Qed.

(** The bare flag is found at the same place after the inline form was
    rewritten. *)
Lemma msaArgsInline_spec args name :
  last args ≠ Some msaFlag →
  let flag := λ a, bool_decide (a = msaFlag) in
  IndexFunc flag (msaArgsInline args name) = IndexFunc flag args ∧
  (∀ i, IndexFunc flag args = Some i → (i + 1 <? length (msaArgsInline args name)) = (i + 1 <? length args)) ∧
  ∀ name', msaArgsInline (msaArgsInline args name) name' = msaArgsInline args name'.
Proof.
  intros Hlast flag. unfold msaArgsInline at 1 2 4.
  destruct (IndexFunc (λ a, HasPrefix a msaFlagEq) args) as [i|] eqn:Ei.
  - destruct (IndexFunc_Some _ _ _ Ei) as (x & Hx & Hp & _). split_and!.
    + apply (IndexFunc_insert _ _ _ _ x Hx). unfold flag.
      rewrite !msaFlagEq_not_flag; [done|exact Hp|apply HasPrefix_append].
    + intros j _. by rewrite length_insert.
    + intros name'. unfold msaArgsInline. rewrite Ei, (IndexFunc_insert _ _ _ _ x Hx), Ei
        by (rewrite Hp; apply HasPrefix_append). apply list_insert_insert_eq.
  - split_and!.
    + rewrite IndexFunc_app. destruct (IndexFunc flag args) as [j|]; [done|]. cbn [IndexFunc]. unfold flag.
      by rewrite msaFlagEq_not_flag by apply HasPrefix_append.
    + intros j Hj. destruct (IndexFunc_Some _ _ _ Hj) as (x & Hx & Hf & _). unfold flag in Hf.
      apply bool_decide_eq_true in Hf as ->. rewrite length_app. cbn [length].
      pose proof (lookup_lt_Some _ _ _ Hx) as Hlt. rewrite last_lookup in Hlast.
      assert (j ≠ pred (length args)) by (intros ->; done).
      transitivity true; [|symmetry]; apply Nat.ltb_lt; lia.
    + intros name'. unfold msaArgsInline. rewrite Ei, IndexFunc_app, Ei. cbn [IndexFunc].
      rewrite HasPrefix_append. cbn [fmap option_fmap option_map]. rewrite Nat.add_0_r.
      by rewrite insert_app_r_alt, Nat.sub_diag by lia.
Qed.

(** C38: rewriting the service account argument is a well-behaved update: the
    result names the account, in the form of the flag the configuration uses;
    writing a second name gives what writing only that one gives; and a
    configuration that names the account already is left alone.  A bare flag
    at the very end of the arguments, which lacks its value, is excluded. *)
Theorem managedServiceAccountArgs_update args name name' :
  last args ≠ Some msaFlag →
  let out := managedServiceAccountArgs args name in
  ((∃ i, out !! i = Some msaFlag ∧ out !! (i + 1) = Some name) ∨ (msaFlagEq +:+ name) ∈ out) ∧
  managedServiceAccountArgs out name' = managedServiceAccountArgs args name' ∧
  managedServiceAccountArgs out name = out.
Proof.
  intros Hlast out.
  assert (∀ name', managedServiceAccountArgs out name' = managedServiceAccountArgs args name') as Hput.
  { intros n'. unfold out, managedServiceAccountArgs.
    destruct (msaArgsInline_spec args name Hlast) as (Hidx & Hlen & Hpp).
    destruct (IndexFunc (λ a, bool_decide (a = msaFlag)) args) as [i|] eqn:Ei.
    - specialize (Hlen i eq_refl). destruct (i + 1 <? length args) eqn:El.
      + rewrite (IndexFunc_insert_after _ _ i) by (done || lia).
        rewrite length_insert, El. apply list_insert_insert_eq.
      + by rewrite Hidx, Hlen, Hpp.
    - by rewrite Hidx, Hpp. }
  split; [|split; [apply Hput|apply Hput]].
  unfold out, managedServiceAccountArgs.
  assert ((msaFlagEq +:+ name) ∈ msaArgsInline args name) as Hin.
  { unfold msaArgsInline. destruct (IndexFunc _ args) as [i|] eqn:Ei.
    - destruct (IndexFunc_Some _ _ _ Ei) as (x & Hx & _). apply list_elem_of_insert. by eapply lookup_lt_Some.
    - apply elem_of_app. right. by left. }
  destruct (IndexFunc _ args) as [i|] eqn:Ei; [|by right]. destruct (i + 1 <? length args) eqn:El; [|by right].
  left. exists i. apply Nat.ltb_lt in El. destruct (IndexFunc_Some _ _ _ Ei) as (x & Hx & Hf & _).
  apply bool_decide_eq_true in Hf as ->. rewrite list_lookup_insert_ne, list_lookup_insert_eq by lia. done.
Qed.

(** A bare flag without a value is not repaired: the account is appended behind
    it, where the flag takes the whole argument for its value. *)
Example managedServiceAccountArgs_trailing_flag :
  managedServiceAccountArgs ["token"; "--managed-serviceaccount"] "acc" =
  ["token"; "--managed-serviceaccount"; "--managed-serviceaccount=acc"].
Proof. reflexivity. Qed.

(** What [NAMESPACE] is set to: the entry that is read first. *)
Definition envGet (env : list ExecEnvVar) (name : string) : option string :=
  match IndexFunc (λ e, bool_decide (envName e = name)) env with
  | Some i => envValue <$> env !! i
  | None => None
  end.

Lemma execEnv_get env name value other :
  envGet (execEnv env name value) other = if decide (other = name) then Some value else envGet env other.
Proof.
  assert (∀ i (l : list ExecEnvVar) f, (∀ e, envName (f e) = envName e) →
    IndexFunc (λ e, bool_decide (envName e = other)) (alter f i l) =
    IndexFunc (λ e, bool_decide (envName e = other)) l) as Halter.
  { intros i l f Hf. apply IndexFunc_ext; [apply length_alter|]. intros j a b Ha Hb.
    destruct (decide (i = j)) as [<-|Hne].
    - rewrite list_lookup_alter_eq, Hb in Ha. simplify_eq/=. by rewrite Hf.
    - rewrite list_lookup_alter_ne, Hb in Ha by done. by simplify_eq. }
  unfold envGet, execEnv. destruct (IndexFunc (λ e, bool_decide (envName e = name)) env) as [i|] eqn:Ei.
  - rewrite Halter by done. destruct (IndexFunc_Some _ _ _ Ei) as (e & He & Hn & _).
    apply bool_decide_eq_true in Hn. case_decide as Hd.
    + subst other. by rewrite Ei, list_lookup_alter_eq, He.
    + destruct (IndexFunc (λ e, bool_decide (envName e = other)) env) as [j|] eqn:Ej; [|done].
      destruct (IndexFunc_Some _ _ _ Ej) as (e' & He' & Hn' & _). apply bool_decide_eq_true in Hn'.
      rewrite list_lookup_alter_ne; [done|]. intros ->. rewrite He in He'. simplify_eq.
  - rewrite IndexFunc_app. case_decide as Hd.
    + subst other. rewrite Ei. cbn. rewrite bool_decide_eq_true_2 by done. cbn.
      rewrite Nat.add_0_r, lookup_app_r, Nat.sub_diag by lia. done.
    + destruct (IndexFunc (λ e, bool_decide (envName e = other)) env) as [j|] eqn:Ej.
      * destruct (IndexFunc_Some _ _ _ Ej) as (e' & He' & _). by rewrite lookup_app_l by (by eapply lookup_lt_Some).
      * cbn. by rewrite bool_decide_eq_false_2.
Qed.

(** One heap extends another: whatever was allocated before is still there,
    with the same contents. *)
#[export] Instance heap_subseteq : SubsetEq heap :=
  λ h h', hpExec h ⊆ hpExec h' ∧ hpArrays h ⊆ hpArrays h'.

#[export] Instance heap_subseteq_refl : Reflexive (⊆@{heap}).
Proof. by split. Qed.

#[export] Instance heap_subseteq_trans : Transitive (⊆@{heap}).
Proof. intros h1 h2 h3 [? ?] [? ?]. split; by etrans. Qed.

Lemma cloneProviders_extends h array : h ⊆ (cloneProviders h array).1.
Proof. split; [done|]. apply insert_subseteq, not_elem_of_dom, is_fresh. Qed.

Lemma deepCopyExec_extends h ec : h ⊆ (deepCopyExec h ec).1.
Proof. split; [|done]. apply insert_subseteq, not_elem_of_dom, is_fresh. Qed.

(** A write to what was allocated after [h0] leaves [h0] alone. *)
Lemma writeProvider_extends h0 h array i f :
  hpArrays h0 !! array = None → h0 ⊆ h → h0 ⊆ writeProvider h array i f.
Proof.
  intros Hn [He Ha]. split; [done|]. cbn [hpArrays writeProvider]. apply map_subseteq_spec. intros k x Hk.
  rewrite lookup_alter_ne by (intros ->; congruence). by eapply lookup_weaken.
Qed.

Lemma writeExec_extends h0 h l f : hpExec h0 !! l = None → h0 ⊆ h → h0 ⊆ writeExec h l f.
Proof.
  intros Hn [He Ha]. split; [|done]. cbn [hpExec writeExec]. apply map_subseteq_spec. intros k x Hk.
  rewrite lookup_alter_ne by (intros ->; congruence). by eapply lookup_weaken.
Qed.

(** The derivation extends the heap: it writes only to what it allocates. *)
Lemma accessConfig_extends h cfg name namespace :
  h ⊆ (accessConfigForManagedServiceAccount h cfg name namespace).1.
Proof.
  unfold accessConfigForManagedServiceAccount.
  pose proof (cloneProviders_extends h (acProviders cfg)) as Hc.
  assert (hpArrays h !! (cloneProviders h (acProviders cfg)).2 = None) as Hna
    by (apply not_elem_of_dom, is_fresh).
  destruct (cloneProviders h (acProviders cfg)) as [h1 array] eqn:Eh1. cbn [fst snd acProviders] in *.
  destruct (IndexFunc _ _) as [i|]; [|exact Hc]. destruct (derefExec _ _) as [ec|]; [|exact Hc].
  pose proof (deepCopyExec_extends h1 ec) as Hd.
  assert (hpExec h1 !! (deepCopyExec h1 ec).2 = None) as Hne by (apply not_elem_of_dom, is_fresh).
  destruct (deepCopyExec h1 ec) as [h2 l]. cbn [fst snd] in *.
  assert (hpExec h !! l = None) as Hne'.
  { destruct (hpExec h !! l) as [x|] eqn:El; [|done]. destruct Hc as [Hc _].
    by rewrite (lookup_weaken _ _ _ _ El Hc) in Hne. }
  apply writeExec_extends; [done|]. apply writeExec_extends; [done|].
  apply writeProvider_extends; [done|]. by etrans.
Qed.

(** The slice of a configuration refers to an array, and the pointers of its
    providers to exec configurations. *)
Definition pointers_valid (h : heap) (cfg : AccessConfig) (providers : list Provider) : Prop :=
  hpArrays h !! acProviders cfg = Some providers ∧
  ∀ p l, p ∈ providers → provExecConfig p = Some l → is_Some (hpExec h !! l).

(** C28: Deriving the credentials of one set does not touch the shared access
    configuration: every exec configuration and every array of providers that
    was allocated before is as it was; the result has an array of its own,
    which differs from the shared one in the first exec provider of that name
    only, and that one refers to a freshly allocated exec configuration with
    the account in the arguments, NAMESPACE set and every other environment
    variable as before; and it fails exactly when there is no such provider. *)
Theorem accessConfig_isolated h cfg providers name namespace :
  pointers_valid h cfg providers →
  let '(h', r) := accessConfigForManagedServiceAccount h cfg name namespace in
  (hpExec h ⊆ hpExec h' ∧ hpArrays h ⊆ hpArrays h') ∧
  match r with
  | Err e => e = errMissingProvider ∧ Forall (λ p, isExecProvider p = false) providers
  | Ok out => ∃ i p l l' ec ec',
      providers !! i = Some p ∧ isExecProvider p = true ∧
      (∀ j q, j < i → providers !! j = Some q → isExecProvider q = false) ∧
      provExecConfig p = Some l ∧ hpExec h !! l = Some ec ∧
      hpArrays h !! acProviders out = None ∧
      hpArrays h' !! acProviders out = Some (<[i := mkProvider (provName p) (Some l')]> providers) ∧
      hpExec h !! l' = None ∧ hpExec h' !! l' = Some ec' ∧
      ecCommand ec' = ecCommand ec ∧ ecArgs ec' = managedServiceAccountArgs (ecArgs ec) name ∧
      ∀ v, envGet (ecEnv ec') v = if decide (v = "NAMESPACE") then Some namespace else envGet (ecEnv ec) v
  end.
Proof.
  intros [Harr Hv]. pose proof (accessConfig_extends h cfg name namespace) as Hext. revert Hext.
  unfold accessConfigForManagedServiceAccount, cloneProviders, elements. rewrite Harr. cbn [acProviders hpArrays hpExec].
  rewrite lookup_insert_eq. simpl (default _ _).
  destruct (IndexFunc isExecProvider providers) as [i|] eqn:Ei; cycle 1.
  { intros Hext. split; [exact Hext|]. split; [done|]. by apply IndexFunc_None. }
  destruct (IndexFunc_Some _ _ _ Ei) as ([pn pe] & Hp & Hexec & Hfirst). rewrite Hp. unfold derefExec.
  pose proof Hexec as Hexec'. unfold isExecProvider in Hexec'. apply andb_true_iff in Hexec' as [_ Hpe].
  apply bool_decide_eq_true in Hpe. cbn [provExecConfig] in Hpe. destruct pe as [l|]; [|done].
  destruct (Hv (mkProvider pn (Some l)) l) as [ec Hec]; [by eapply list_elem_of_lookup_2|done|].
  cbn [hpExec]. rewrite Hec. intros Hext. split; [exact Hext|].
  exists i, (mkProvider pn (Some l)), l, (fresh (dom (hpExec h))), ec,
    (mkExecConfig (ecCommand ec) (managedServiceAccountArgs (ecArgs ec) name) (execEnv (ecEnv ec) "NAMESPACE" namespace)).
  assert (hpExec h !! fresh (dom (hpExec h)) = None) as Hfresh by (apply not_elem_of_dom, is_fresh).
  assert (hpArrays h !! fresh (dom (hpArrays h)) = None) as Hfresh' by (apply not_elem_of_dom, is_fresh).
  split_and!; try done.
  - cbn [hpArrays writeExec writeProvider deepCopyExec acProviders]. rewrite alter_insert_eq, lookup_insert_eq.
    f_equal. apply list_eq. intros j. destruct (decide (i = j)) as [<-|Hne].
    + by rewrite list_lookup_alter_eq, Hp, list_lookup_insert_eq by (by eapply lookup_lt_Some).
    + by rewrite list_lookup_alter_ne, list_lookup_insert_ne.
  - cbn [hpExec writeExec writeProvider deepCopyExec]. by rewrite !alter_insert_eq, lookup_insert_eq.
  - intros v. cbn [ecEnv]. apply execEnv_get.
Qed.

(** [p] is the only item that satisfies [f]. *)
Definition sole (f : ClusterProfile → bool) (items : list ClusterProfile) (p : ClusterProfile) : Prop :=
  List.filter f items = [p].

Lemma filter_Permutation {A} (f : A → bool) (l l' : list A) :
  l ≡ₚ l' → List.filter f l ≡ₚ List.filter f l'.
Proof.
  induction 1; cbn; repeat case_goal; auto using perm_swap. by etrans.
Qed.

Lemma singleton_match {A B} (l l' : list A) (f : A → B) (d : B) :
  l ≡ₚ l' → match l with [x] => f x | _ => d end = match l' with [x] => f x | _ => d end.
Proof.
  intros Hp. destruct l as [|x [|y l]].
  - by apply Permutation_nil_l in Hp as <-.
  - by apply Permutation_singleton_l in Hp as <-.
  - apply Permutation_length in Hp. by destruct l' as [|? [|? ?]].
Qed.

(** C37: the ClusterProfile of a cluster is chosen unambiguously: it is the only
    one listed, or the only one in the set's namespace, or else the only one
    with the access provider; in every other case nothing is chosen; and the
    order in which the cache lists the profiles does not matter. *)
Theorem clusterProfileForOCMCluster_choice items ns cl :
  (∀ p, clusterProfileForOCMCluster (Some (Ok items)) ns cl = Ok p ↔
     items = [p] ∨
     (1 < length items ∧
      let inNamespace q := bool_decide (omNamespace (cpMeta q) = ns) in
      ((ns ≠ "" ∧ sole inNamespace items p) ∨
       (¬ (ns ≠ "" ∧ ∃ q, sole inNamespace items q) ∧
        sole (λ q, hasClusterProfileAccessProvider q clusterProfileAccessProviderName) items p)))) ∧
  (∀ items', items ≡ₚ items' →
     clusterProfileForOCMCluster (Some (Ok items')) ns cl = clusterProfileForOCMCluster (Some (Ok items)) ns cl).
Proof.
  split.
  - intros p. unfold sole. destruct items as [|p1 [|p2 items]].
    + split; [done|]. intros [?|[Hl _]]; [done|]. cbn in Hl. lia.
    + split; [intros [= ->]; by left|]. intros [[= ->]|[Hl _]]; [done|]. cbn in Hl. lia.
    + unfold clusterProfileForOCMCluster. set (l := p1 :: p2 :: items).
      split.
      * intros Hr. right. split; [cbn; lia|]. cbv zeta. revert Hr.
        case_bool_decide as Hns; (destruct (List.filter _ l) as [|q [|q' l']] eqn:Ef; [| |]).
        all: try (destruct (List.filter (λ p, hasClusterProfileAccessProvider p _) l) as [|x [|x' l'']] eqn:Eg);
          intros [= <-] || idtac.
        all: try done.
        all: first [left; split; done | right; split; [naive_solver|done]].
      * intros [?|[_ Hc]]; [done|]. cbv zeta in Hc. case_bool_decide as Hns.
        -- destruct (List.filter _ l) as [|q [|q' l']] eqn:Ef;
             (destruct Hc as [[_ Hp]|[Hn Hp]]; [try done; by injection Hp as ->|]).
           ++ rewrite Hp. done.
           ++ destruct Hn. split; [done|by exists q].
           ++ rewrite Hp. done.
        -- destruct Hc as [[? _]|[_ Hp]]; [done|]. by rewrite Hp.
  - intros items' Hp. unfold clusterProfileForOCMCluster. pose proof (Permutation_length Hp) as Hlen.
    destruct items as [|p1 [|p2 items]], items' as [|q1 [|q2 items']]; try done.
    + apply Permutation_singleton_l in Hp. by injection Hp as ->.
    + set (l := p1 :: p2 :: items) in *. set (l' := q1 :: q2 :: items') in *.
      erewrite (singleton_match (List.filter (λ p, hasClusterProfileAccessProvider p _) l'));
        [|by apply filter_Permutation].
      case_bool_decide; [|done]. apply singleton_match, filter_Permutation. done.
Qed.

Lemma filter_singleton_elem {A} (f : A → bool) (l : list A) x : List.filter f l = [x] → x ∈ l.
Proof.
  intros Hf. assert (In x (List.filter f l)) as Hin by (rewrite Hf; by left).
  apply filter_In in Hin as [Hin _]. by apply list_elem_of_In.
Qed.

Lemma singleton_ok {A} (l : list A) (e : error) x :
  match l with [y] => Ok y | _ => Err e end = Ok x → l = [x].
Proof. destruct l as [|y [|z l]]; try done. by intros [= ->]. Qed.

Lemma clusterProfileForOCMCluster_elem profiles ns cl p :
  clusterProfileForOCMCluster profiles ns cl = Ok p → ∃ items, profiles = Some (Ok items) ∧ p ∈ items.
Proof.
  destruct profiles as [[items|e]|]; try done. intros Hr. exists items. split; [done|].
  unfold clusterProfileForOCMCluster in Hr. destruct items as [|p1 [|p2 items]]; try done.
  { injection Hr as <-. left. }
  revert Hr. generalize (p1 :: p2 :: items). intros l. destruct (bool_decide (ns ≠ "")).
  - destruct (List.filter (λ p, bool_decide (omNamespace (cpMeta p) = ns)) l) as [|x [|y l']] eqn:Ef;
      [intros Hr%singleton_ok; by eapply filter_singleton_elem| |intros Hr%singleton_ok; by eapply filter_singleton_elem].
    intros [= ->]. by eapply filter_singleton_elem.
  - intros Hr%singleton_ok. by eapply filter_singleton_elem.
Qed.

(** ** The cache key identifies its parts *)

Fixpoint lacks (c : ascii) (s : string) : Prop :=
  match s with
  | "" => True
  | String x s' => x ≠ c ∧ lacks c s'
  end.

Lemma append_sep_inj c a b a' b' :
  lacks c a → lacks c a' → a +:+ String c b = a' +:+ String c b' → a = a' ∧ b = b'.
Proof.
  revert a'. induction a as [|x a IH]; intros [|x' a'] Ha Ha' Heq; cbn in *.
  - by injection Heq.
  - injection Heq as -> _. by destruct Ha'.
  - injection Heq as -> _. by destruct Ha.
  - injection Heq as -> Heq. destruct (IH a') as [-> ->]; [apply Ha|apply Ha'|exact Heq|done].
Qed.

Lemma join_inj c (l l' : list string) :
  length l = length l' → Forall (lacks c) l → Forall (lacks c) l' →
  strings_Join l (String c "") = strings_Join l' (String c "") → l = l'.
Proof.
  unfold strings_Join. revert l'. induction l as [|a l IH]; intros [|a' l'] Hlen Hl Hl' Heq; try done.
  apply Forall_cons in Hl as [Ha Hl], Hl' as [Ha' Hl'].
  destruct l as [|b l], l' as [|b' l']; try done; cbn [String.concat] in Heq; [by subst|].
  change (a +:+ String c (String.concat (String c "") (b :: l)) =
          a' +:+ String c (String.concat (String c "") (b' :: l'))) in Heq.
  destruct (append_sep_inj c _ _ _ _ Ha Ha' Heq) as [-> Heq']. f_equal. apply IH; auto.
Qed.

(** The names a cache key is made of hold no slash, as API names do not. *)
Definition slash : ascii := "/"%char.

Record plain_names (set : ManagedServiceAccountReplicaSet) (cl : string) (cp : ClusterProfile) : Prop := {
  pn_uid : lacks slash (setUID set);
  pn_ns : lacks slash (setNamespace set);
  pn_name : lacks slash (setName set);
  pn_cluster : lacks slash cl;
  pn_cpns : lacks slash (omNamespace (cpMeta cp));
  pn_cpname : lacks slash (omName (cpMeta cp));
  pn_msa : lacks slash (controllerAccessManagedServiceAccountName set);
}.

Lemma namespaceCacheKey_inj s cl cp s' cl' cp' :
  plain_names s cl cp → plain_names s' cl' cp' →
  namespaceCacheKey s cl cp = namespaceCacheKey s' cl' cp' →
  setUID s = setUID s' ∧ setNamespace s = setNamespace s' ∧ setName s = setName s' ∧ cl = cl' ∧
  ObjectKey (cpMeta cp) = ObjectKey (cpMeta cp').
Proof.
  intros [] [] Heq. apply join_inj in Heq; [|done|by repeat constructor|by repeat constructor].
  injection Heq as -> -> -> -> Hns Hn _. split_and!; try done. unfold ObjectKey. by rewrite Hns, Hn.
Qed.

(** ** The theorems on concrete configurations *)

Section witnesses.

Definition sampleArgs : list string := ["token"; "--managed-serviceaccount"; "old"].

Lemma managedServiceAccountArgs_update_witness :
  managedServiceAccountArgs (managedServiceAccountArgs sampleArgs "a") "b" =
  ["token"; "--managed-serviceaccount"; "b"].
Proof.
  destruct (managedServiceAccountArgs_update sampleArgs "a" "b") as (_ & Hput & _); [discriminate|].
  rewrite Hput. reflexivity.
Defined.

Definition sampleHeap : heap :=
  mkHeap {[7 := mkExecConfig "plugin" sampleArgs [mkExecEnvVar "A" "1"]]}
         {[3 := [mkProvider clusterProfileAccessProviderName (Some 7)]]}.
Definition sampleAccess : AccessConfig := mkAccessConfig 3.

Lemma accessConfig_isolated_witness :
  hpArrays (accessConfigForManagedServiceAccount sampleHeap sampleAccess "acc" "ns").1 !! 3 =
  Some [mkProvider clusterProfileAccessProviderName (Some 7)].
Proof.
  pose proof (accessConfig_isolated sampleHeap sampleAccess
    [mkProvider clusterProfileAccessProviderName (Some 7)] "acc" "ns") as Ht.
  destruct (accessConfigForManagedServiceAccount sampleHeap sampleAccess "acc" "ns") as [h' r].
  cbn [fst]. assert (pointers_valid sampleHeap sampleAccess [mkProvider clusterProfileAccessProviderName (Some 7)]) as Hv.
  { split; [reflexivity|]. intros p l Hp Hl. apply list_elem_of_singleton in Hp as ->. injection Hl as <-.
    vm_compute. by eexists. }
  destruct (Ht Hv) as [[_ Harr] _]. exact (lookup_weaken (hpArrays sampleHeap) (hpArrays h') 3 _ eq_refl Harr).
Defined.

Definition profileIn (ns n : string) (providers : list string) : ClusterProfile :=
  mkClusterProfile (newMeta n ns ∅ ∅) providers [].

(** Two profiles, the one with the access provider is chosen. *)
Lemma clusterProfileForOCMCluster_choice_witness :
  clusterProfileForOCMCluster
    (Some (Ok [profileIn "x" "p" []; profileIn "y" "q" [clusterProfileAccessProviderName]])) "tenant" "cluster-a" =
  Ok (profileIn "y" "q" [clusterProfileAccessProviderName]).
Proof.
  apply (proj1 (clusterProfileForOCMCluster_choice
    [profileIn "x" "p" []; profileIn "y" "q" [clusterProfileAccessProviderName]] "tenant" "cluster-a")).
  right. split; [apply (bool_decide_unpack _); vm_compute; exact I|]. right. split.
  - intros [_ [q Hq]]. vm_compute in Hq. discriminate Hq.
  - vm_compute. reflexivity.
Defined.

End witnesses.
