(* ===== verification/NamespaceCaches.v ===== *)
(** * The cache of remote namespaces ([ClusterInventoryNamespaceResolver])

    The resolver keeps one informer per replica set and managed cluster in a
    map that several goroutines use under one mutex.  Creating a cache takes
    two critical sections with the client construction between them, so the
    operations are modelled as atomic sections and their interleaving as a
    step relation; the sequential operations are the sections in a row.
    Caches are shared through pointers: every cache that was ever allocated
    has an identity, and stopping one is visible to everybody who holds it. *)

From S2P Require Import Prelude GoStd ApiTypes Interfaces Reference Effects Samples.
From S2P Require Import Metadata Rbac ControllerAccess NamespaceResolver.
From Stdlib Require Import ZArith Lia.

(** ** State *)

(** The parent of a cache context: the context of the manager once [Start] has
    stored it, the background context before. *)
Inductive parentCtx := Background | ManagerCtx.

#[export] Instance parentCtx_eq : EqDecision parentCtx.
Proof. solve_decision. Defined.

Record remoteNamespaceCache := mkCache {
  rncSetUID : string;
  rncSetName : string;
  rncSetNS : string;
  rncCluster : string;
  rncParent : parentCtx;
  rncCancelled : bool;
}.

Record resolver := mkResolver {
  (** [namespaceEvents], [None] for the nil channel; oldest event first *)
  rsEvents : option (list NamespacedName);
  (** [caches]; the nil map is the empty one *)
  rsCaches : gmap string nat;
  (** every cache that was allocated *)
  rsObjects : gmap nat remoteNamespaceCache;
  (** whether [cacheParentCtx] is set, and whether that context is done *)
  rsParentSet : bool;
  rsManagerDone : bool;
}.

Definition with_events (st : resolver) x :=
  mkResolver x (rsCaches st) (rsObjects st) (rsParentSet st) (rsManagerDone st).
Definition with_caches (st : resolver) x y :=
  mkResolver (rsEvents st) x y (rsParentSet st) (rsManagerDone st).
Definition with_context (st : resolver) x y :=
  mkResolver (rsEvents st) (rsCaches st) (rsObjects st) x y.

Definition newResolver : resolver := mkResolver None ∅ ∅ false false.

(** [<-cache.done] is ready. *)
Definition cacheDone (st : resolver) (c : remoteNamespaceCache) : bool :=
  rncCancelled c || (bool_decide (rncParent c = ManagerCtx) && rsManagerDone st).

(** ** Operations *)

Definition eventCapacity : nat := 1024.

Definition ensureEventChannelLocked (st : resolver) : resolver :=
  match rsEvents st with
  | None => with_events st (Some [])
  | Some _ => st
  end.

Definition NamespaceEvents (st : resolver) : resolver := ensureEventChannelLocked st.

(** The send of the [select] with a default: dropped when the buffer is full
    or the channel nil. *)
Definition enqueueNamespaceEvent (owner : NamespacedName) (st : resolver) : resolver :=
  match rsEvents st with
  | None => st
  | Some q => if length q <? eventCapacity then with_events st (Some (q ++ [owner])) else st
  end.

Definition cacheParentContext (st : resolver) : parentCtx :=
  if rsParentSet st then ManagerCtx else Background.

Definition stopped (c : remoteNamespaceCache) : remoteNamespaceCache :=
  mkCache (rncSetUID c) (rncSetName c) (rncSetNS c) (rncCluster c) (rncParent c) true.

Definition stop (id : nat) (objects : gmap nat remoteNamespaceCache) : gmap nat remoteNamespaceCache :=
  alter stopped id objects.

(** The entries of the map a loop of the sources stops and deletes. *)
Definition dropped (p : string → remoteNamespaceCache → bool) (st : resolver) (kv : string * nat) : bool :=
  match rsObjects st !! kv.2 with
  | Some c => p kv.1 c
  | None => false
  end.

(** [for key, cache := range r.caches { if !p { continue }; cache.stop(); delete(r.caches, key) }] *)
Definition dropCaches (p : string → remoteNamespaceCache → bool) (st : resolver) : resolver :=
  with_caches st
    (filter (λ kv, dropped p st kv = false) (rsCaches st))
    (foldr stop (rsObjects st) (map snd (List.filter (dropped p st) (map_to_list (rsCaches st))))).

Definition cacheOfSet (set : ManagedServiceAccountReplicaSet) (c : remoteNamespaceCache) : bool :=
  bool_decide (rncSetUID c = setUID set) && bool_decide (rncSetNS c = setNamespace set)
  && bool_decide (rncSetName c = setName set).

Definition cacheOf (set : ManagedServiceAccountReplicaSet) (clusterName : string) (c : remoteNamespaceCache)
    : bool :=
  cacheOfSet set c && bool_decide (rncCluster c = clusterName).

(** The first critical section of [ensureNamespaceCache]. *)
Definition lookupCache (key : string) (st : resolver) : option nat * resolver :=
  match rsCaches st !! key with
  | Some existing => (Some existing, st)
  | None => (None, ensureEventChannelLocked st)
  end.

(** The cache object with its cancellable context. *)
Definition newCache (set : ManagedServiceAccountReplicaSet) (clusterName : string) (st : resolver)
    : nat * resolver :=
  let id := fresh (dom (rsObjects st)) in
  (id, with_caches st (rsCaches st)
         (<[id := mkCache (setUID set) (setName set) (setNamespace set) clusterName
                    (cacheParentContext st) false]> (rsObjects st))).

(** The second critical section: the cache is registered, unless another
    goroutine was faster; the caches of the same set and cluster under other
    keys go. *)
Definition publishCache (key : string) (set : ManagedServiceAccountReplicaSet) (clusterName : string)
    (id : nat) (st : resolver) : nat * resolver :=
  match rsCaches st !! key with
  | Some existing => (existing, with_caches st (rsCaches st) (stop id (rsObjects st)))
  | None =>
      (id, dropCaches (λ k c, negb (bool_decide (k = key)) && cacheOf set clusterName c)
             (with_caches st (<[key := id]> (rsCaches st)) (rsObjects st)))
  end.

(** [ensureNamespaceCache] run without interference; [clientErr] is the answer
    of [kubernetes.NewForConfig]. *)
Definition ensureNamespaceCache (clientErr : option error) (set : ManagedServiceAccountReplicaSet)
    (clusterName : string) (clusterProfile : ClusterProfile) (st : resolver) : result nat * resolver :=
  let key := namespaceCacheKey set clusterName clusterProfile in
  match lookupCache key st with
  | (Some existing, st) => (Ok existing, st)
  | (None, st) =>
      match clientErr with
      | Some e =>
          (Err (ErrWrap ("build remote namespace client for ClusterProfile "
                  +:+ omNamespace (cpMeta clusterProfile) +:+ "/" +:+ omName (cpMeta clusterProfile)
                  +:+ ": " +:+ Error e) e), st)
      | None =>
          let '(id, st) := newCache set clusterName st in
          let '(id, st) := publishCache key set clusterName id st in
          (Ok id, st)
      end
  end.

Definition StopNamespaceCaches (set : ManagedServiceAccountReplicaSet) (keepClusters : gset string)
    (st : resolver) : resolver :=
  dropCaches (λ _ c, cacheOfSet set c && negb (sets_Has keepClusters (rncCluster c))) st.

(** [Start]: the context is stored; when it is done every cache goes. *)
Definition startResolver (st : resolver) : resolver := with_context st true (rsManagerDone st).

Definition shutdownResolver (st : resolver) : resolver := dropCaches (λ _ _, true) st.

(** [waitForNamespaceCacheSync], from what it observes: whether the informer
    synced within the ten seconds, the error of the caller's context, and
    whether the cache was stopped. *)
Definition waitForNamespaceCacheSync (synced : bool) (ctxErr : option error) (done : bool) : option error :=
  if synced then None
  else match ctxErr with
       | Some e => Some e
       | None => if done then Some (ErrNew "cache stopped") else Some (ErrNew "cache sync timed out")
       end.

(** ** Resolving a selector *)

Section resolve.
Context `{LabelsLib}.
Context {restConfig : Type}.

(** What the resolver is connected to: its configuration, the local client,
    the access library, client-go and the stores of the informers.  An object
    of a store that is not a Namespace is [None]. *)
Record resolverEnv := mkResolverEnv {
  reAccessConfig : option AccessConfig;
  reProfiles : option (result (list ClusterProfile));
  reBuildConfigFromCP : heap → AccessConfig → ClusterProfile → result restConfig;
  reNewForConfig : restConfig → option error;
  reSynced : nat → bool;
  reCtxErr : option error;
  reStore : nat → list (option (string * labels_Set));
}.

Definition matchingNamespaces (selector : Selector) (objects : list (option (string * labels_Set)))
    : list string :=
  omap (λ object, match object with
                  | Some (name, lbls) => if Matches selector lbls then Some name else None
                  | None => None
                  end) objects.

Definition ResolveNamespaceSelector (env : resolverEnv) (set : ManagedServiceAccountReplicaSet)
    (clusterName : string) (selector : Selector) (h : heap) (st : resolver)
    : result (list string) * heap * resolver :=
  match reAccessConfig env with
  | None => (Err (ErrNew "controller namespace access is not configured"), h, st)
  | Some shared =>
      match clusterProfileForOCMCluster (reProfiles env) (setNamespace set) clusterName with
      | Err e => (Err e, h, st)
      | Ok clusterProfile =>
          match accessConfigForManagedServiceAccount h shared
                  (controllerAccessManagedServiceAccountName set) (omNamespace (cpMeta clusterProfile)) with
          | (h, Err e) => (Err e, h, st)
          | (h, Ok accessConfig) =>
              match reBuildConfigFromCP env h accessConfig clusterProfile with
              | Err e =>
                  (Err (ErrWrap ("waiting for controller access for ClusterProfile "
                          +:+ omNamespace (cpMeta clusterProfile) +:+ "/" +:+ omName (cpMeta clusterProfile)
                          +:+ ": " +:+ Error e) e), h, st)
              | Ok remoteConfig =>
                  match ensureNamespaceCache (reNewForConfig env remoteConfig) set clusterName clusterProfile st with
                  | (Err e, st) => (Err e, h, st)
                  | (Ok id, st) =>
                      let done := match rsObjects st !! id with Some c => cacheDone st c | None => false end in
                      match waitForNamespaceCacheSync (reSynced env id) (reCtxErr env) done with
                      | Some e =>
                          (Err (ErrWrap ("waiting for remote namespace cache for cluster " +:+ fmt_q clusterName
                                  +:+ ": " +:+ Error e) e), h, st)
                      | None => (Ok (matchingNamespaces selector (reStore env id)), h, st)
                      end
                  end
              end
          end
      end
  end.

End resolve.

(** ** Interleavings *)

(** A goroutine inside [ensureNamespaceCache]: between the two critical
    sections it first has no cache and then holds one of its own. *)
Record ensuring := mkEnsuring {
  enSet : ManagedServiceAccountReplicaSet;
  enCluster : string;
  enProfile : ClusterProfile;
  enCache : option nat;
}.

Definition enKey (t : ensuring) : string := namespaceCacheKey (enSet t) (enCluster t) (enProfile t).
Definition holding (t : ensuring) (id : nat) : ensuring :=
  mkEnsuring (enSet t) (enCluster t) (enProfile t) (Some id).

Record system := mkSystem { sysResolver : resolver; sysThreads : gmap nat ensuring }.

(** What a step hands to a caller of [ensureNamespaceCache]. *)
Inductive label :=
| LTau
| LReturn (set : ManagedServiceAccountReplicaSet) (clusterName : string) (profile : ClusterProfile) (id : nat).

Inductive sys_step : system → label → system → Prop :=
| step_hit st th set cl cp id st' :
    plain_names set cl cp →
    lookupCache (namespaceCacheKey set cl cp) st = (Some id, st') →
    sys_step (mkSystem st th) (LReturn set cl cp id) (mkSystem st' th)
| step_miss st th set cl cp st' i :
    plain_names set cl cp →
    lookupCache (namespaceCacheKey set cl cp) st = (None, st') → th !! i = None →
    sys_step (mkSystem st th) LTau (mkSystem st' (<[i := mkEnsuring set cl cp None]> th))
(** [kubernetes.NewForConfig] fails *)
| step_client_error st th i t :
    th !! i = Some t → enCache t = None →
    sys_step (mkSystem st th) LTau (mkSystem st (delete i th))
| step_new st th i t id st' :
    th !! i = Some t → enCache t = None → newCache (enSet t) (enCluster t) st = (id, st') →
    sys_step (mkSystem st th) LTau (mkSystem st' (<[i := holding t id]> th))
| step_publish st th i t id id' st' :
    th !! i = Some t → enCache t = Some id →
    publishCache (enKey t) (enSet t) (enCluster t) id st = (id', st') →
    sys_step (mkSystem st th) (LReturn (enSet t) (enCluster t) (enProfile t) id') (mkSystem st' (delete i th))
| step_stop st th set keep :
    sys_step (mkSystem st th) LTau (mkSystem (StopNamespaceCaches set keep st) th)
| step_start st th :
    sys_step (mkSystem st th) LTau (mkSystem (startResolver st) th)
| step_manager_done st th :
    sys_step (mkSystem st th) LTau (mkSystem (with_context st (rsParentSet st) true) th)
| step_shutdown st th :
    rsManagerDone st = true → rsParentSet st = true →
    sys_step (mkSystem st th) LTau (mkSystem (shutdownResolver st) th)
(** a namespace event of an informer *)
| step_event st th id c :
    rsObjects st !! id = Some c →
    sys_step (mkSystem st th) LTau
      (mkSystem (enqueueNamespaceEvent (mkNamespacedName (rncSetNS c) (rncSetName c)) st) th)
(** the controller subscribes, and receives *)
| step_subscribe st th :
    sys_step (mkSystem st th) LTau (mkSystem (NamespaceEvents st) th)
| step_receive st th owner q :
    rsEvents st = Some (owner :: q) →
    sys_step (mkSystem st th) LTau (mkSystem (with_events st (Some q)) th).

Inductive reachable : system → Prop :=
| reach_init : reachable (mkSystem newResolver ∅)
| reach_step s l s' : reachable s → sys_step s l s' → reachable s'.

(** ** Invariant *)

(** A cache that nobody stopped is in the map or held by a goroutine that has
    not published it yet. *)
Definition accounted (s : system) (id : nat) : Prop :=
  (∃ k, rsCaches (sysResolver s) !! k = Some id) ∨
  (∃ i t, sysThreads s !! i = Some t ∧ enCache t = Some id).

(** A registered or held cache is the one its key and its goroutine speak
    about, and was not stopped. *)
Definition cache_for (st : resolver) (id : nat) (set : ManagedServiceAccountReplicaSet) (cl : string) : Prop :=
  ∃ c, rsObjects st !! id = Some c ∧ cacheOf set cl c = true ∧ rncCancelled c = false.

Record sys_wf (s : system) : Prop := {
  inv_map k id : rsCaches (sysResolver s) !! k = Some id →
    ∃ set cl cp, k = namespaceCacheKey set cl cp ∧ plain_names set cl cp ∧ cache_for (sysResolver s) id set cl;
  inv_inj k k' id : rsCaches (sysResolver s) !! k = Some id → rsCaches (sysResolver s) !! k' = Some id → k = k';
  inv_plain i t : sysThreads s !! i = Some t → plain_names (enSet t) (enCluster t) (enProfile t);
  inv_held i t id : sysThreads s !! i = Some t → enCache t = Some id →
    cache_for (sysResolver s) id (enSet t) (enCluster t) ∧
    (∀ k, rsCaches (sysResolver s) !! k ≠ Some id) ∧
    (∀ i' t', sysThreads s !! i' = Some t' → enCache t' = Some id → i' = i);
  inv_accounted id c : rsObjects (sysResolver s) !! id = Some c → rncCancelled c = false → accounted s id;
  inv_channel : rsObjects (sysResolver s) ≠ ∅ ∨ sysThreads s ≠ ∅ → is_Some (rsEvents (sysResolver s));
  inv_bound q : rsEvents (sysResolver s) = Some q → length q <= eventCapacity;
}.

(** At most one cache per replica set and cluster is registered. *)
Definition one_each (st : resolver) : Prop :=
  ∀ k k' id id' c c',
    rsCaches st !! k = Some id → rsObjects st !! id = Some c →
    rsCaches st !! k' = Some id' → rsObjects st !! id' = Some c' →
    rncSetUID c = rncSetUID c' → rncSetNS c = rncSetNS c' → rncSetName c = rncSetName c' →
    rncCluster c = rncCluster c' → k = k'.

Definition sys_inv (s : system) : Prop := sys_wf s ∧ one_each (sysResolver s).

(** ** Stopping a group of caches *)

Lemma foldr_stop_lookup ids objects id :
  foldr stop objects ids !! id = (if decide (id ∈ ids) then stopped else λ c, c) <$> objects !! id.
Proof.
  induction ids as [|i ids IH]; cbn [foldr].
  - rewrite decide_False by (by intros ?%elem_of_nil). by destruct (objects !! id).
  - unfold stop at 1. destruct (decide (i = id)) as [->|Hne].
    + rewrite lookup_alter_eq, IH, (decide_True (P := id ∈ id :: ids)) by left.
      case_decide; by destruct (objects !! id).
    + rewrite lookup_alter_ne, IH by done.
      destruct (decide (id ∈ ids)) as [Hin|Hin].
      * by rewrite decide_True by (by right).
      * rewrite decide_False; [done|]. by intros [->|?]%elem_of_cons.
Qed.

Lemma dropCaches_map p st k id :
  rsCaches (dropCaches p st) !! k = Some id ↔
  rsCaches st !! k = Some id ∧ dropped p st (k, id) = false.
Proof. unfold dropCaches. cbn [rsCaches with_caches]. by rewrite map_lookup_filter_Some. Qed.

Lemma dropCaches_object p st id c :
  rsObjects (dropCaches p st) !! id = Some c → rncCancelled c = false →
  rsObjects st !! id = Some c ∧ ∀ k, rsCaches st !! k = Some id → dropped p st (k, id) = false.
Proof.
  unfold dropCaches. cbn [rsObjects with_caches]. rewrite foldr_stop_lookup. intros Hl Hc.
  case_decide as Hin.
  - destruct (rsObjects st !! id); simplify_eq/=.
  - split; [by destruct (rsObjects st !! id)|]. intros k Hk. apply not_true_is_false. intros Hd. apply Hin.
    apply list_elem_of_fmap. exists (k, id). split; [done|].
    apply list_elem_of_In, filter_In. split; [|done]. by apply list_elem_of_In, elem_of_map_to_list.
Qed.

Lemma dropCaches_kept p st id c :
  rsObjects st !! id = Some c → (∀ k, rsCaches st !! k = Some id → dropped p st (k, id) = false) →
  rsObjects (dropCaches p st) !! id = Some c.
Proof.
  intros Hl Hk. unfold dropCaches. cbn [rsObjects with_caches]. rewrite foldr_stop_lookup, Hl.
  rewrite decide_False; [done|]. intros ((k & id') & -> & Hin)%list_elem_of_fmap.
  apply list_elem_of_In, filter_In in Hin as [Hin Hd]. apply list_elem_of_In, elem_of_map_to_list in Hin.
  cbn [snd] in Hk. by rewrite (Hk k Hin) in Hd.
Qed.

Lemma dropCaches_stopped p st k id c :
  rsCaches st !! k = Some id → rsObjects st !! id = Some c → p k c = true →
  rsObjects (dropCaches p st) !! id = Some (stopped c).
Proof.
  intros Hk Hl Hp. unfold dropCaches. cbn [rsObjects with_caches]. rewrite foldr_stop_lookup, Hl.
  rewrite decide_True; [done|]. apply list_elem_of_fmap. exists (k, id). split; [done|].
  apply list_elem_of_In, filter_In. split; [by apply list_elem_of_In, elem_of_map_to_list|].
  unfold dropped. cbn [fst snd]. by rewrite Hl.
Qed.

Lemma dropCaches_dom p st id : is_Some (rsObjects (dropCaches p st) !! id) → is_Some (rsObjects st !! id).
Proof.
  unfold dropCaches. cbn [rsObjects with_caches]. rewrite foldr_stop_lookup.
  by destruct (rsObjects st !! id); [|intros [? ?]].
Qed.

Lemma map_nonempty {A} (m : gmap nat A) : m ≠ ∅ ↔ ∃ i x, m !! i = Some x.
Proof.
  split.
  - intros Hm. apply map_choose in Hm as (i & x & ?). eauto.
  - intros (i & x & Hi) ->. by rewrite lookup_empty in Hi.
Qed.

Lemma wf_drop p st th : sys_wf (mkSystem st th) → sys_wf (mkSystem (dropCaches p st) th).
Proof.
  intros [Hmap Hinj Hplain Hheld Hacc Hchan Hb]. cbn [sysResolver sysThreads] in *.
  assert (∀ k id, rsCaches st !! k = Some id → dropped p st (k, id) = false →
    ∀ k', rsCaches st !! k' = Some id → dropped p st (k', id) = false) as Hsame.
  { intros k id Hk Hd k' Hk'. by rewrite (Hinj k' k id Hk' Hk). }
  split; cbn [sysResolver sysThreads].
  - intros k id [Hk Hd]%dropCaches_map. destruct (Hmap k id Hk) as (set & cl & cp & Hkey & Hpn & c & Hc & Hof & Hlive).
    exists set, cl, cp. split_and!; [done|done|]. exists c. split_and!; [|done|done]. apply dropCaches_kept; eauto.
  - intros k k' id [Hk _]%dropCaches_map [Hk' _]%dropCaches_map. by eapply Hinj.
  - done.
  - intros i t id Ht Hid. destruct (Hheld i t id Ht Hid) as ((c & Hc & Hof & Hlive) & Hno & Hone).
    split_and!; [|intros k [Hk _]%dropCaches_map; by eapply Hno|done].
    exists c. split_and!; [|done|done]. apply dropCaches_kept; [done|]. intros k Hk. by destruct (Hno k).
  - intros id c Hc Hlive. destruct (dropCaches_object _ _ _ _ Hc Hlive) as [Hc' Hd].
    destruct (Hacc id c Hc' Hlive) as [[k Hk]|Hth]; [left|by right].
    exists k. apply dropCaches_map. split; [done|]. by apply Hd.
  - intros [(i & x & Hx)%map_nonempty|Hth]; apply Hchan; [left|by right].
    destruct (dropCaches_dom p st i) as [y Hy]; [by eexists|]. apply map_nonempty. eauto.
  - exact Hb.
Qed.

Lemma one_each_drop p st th : sys_wf (mkSystem st th) → one_each st → one_each (dropCaches p st).
Proof.
  intros Hwf Ho k k' id id' c c' [Hk Hd]%dropCaches_map Hc [Hk' Hd']%dropCaches_map Hc'.
  assert (∀ k id c, rsCaches st !! k = Some id → dropped p st (k, id) = false →
    rsObjects (dropCaches p st) !! id = Some c → rsObjects st !! id = Some c) as Hobj.
  { intros k0 id0 c0 Hk0 Hd0 Hc0. destruct (inv_map _ Hwf k0 id0 Hk0) as (set & cl & cp & _ & _ & c1 & Hc1 & _).
    cbn [sysResolver] in *. rewrite (dropCaches_kept p st id0 c1) in Hc0; [congruence|done|].
    intros k1 Hk1. by rewrite (inv_inj _ Hwf k1 k0 id0 Hk1 Hk0). }
  eapply Ho; eauto.
Qed.

(** ** Every step keeps the invariant *)

(** Only the channel, the contexts and the goroutines without a cache change. *)
Lemma wf_frame st st' th :
  rsCaches st' = rsCaches st → rsObjects st' = rsObjects st →
  (is_Some (rsEvents st) → is_Some (rsEvents st')) →
  (∀ q, rsEvents st' = Some q → length q <= eventCapacity) →
  sys_wf (mkSystem st th) → sys_wf (mkSystem st' th).
Proof.
  intros Hc Ho He Hq [Hmap Hinj Hplain Hheld Hacc Hchan Hb]. cbn [sysResolver sysThreads] in *.
  unfold cache_for, accounted in *. cbn [sysResolver sysThreads] in *.
  split; unfold cache_for, accounted; cbn [sysResolver sysThreads]; rewrite ?Hc, ?Ho; eauto.
Qed.

Lemma one_each_frame st st' :
  rsCaches st' = rsCaches st → rsObjects st' = rsObjects st → one_each st → one_each st'.
Proof. unfold one_each. by intros -> ->. Qed.

Lemma ensureEventChannelLocked_frame st :
  let st' := ensureEventChannelLocked st in
  rsCaches st' = rsCaches st ∧ rsObjects st' = rsObjects st ∧ is_Some (rsEvents st') ∧
  ((∀ q, rsEvents st = Some q → length q <= eventCapacity) →
   ∀ q, rsEvents st' = Some q → length q <= eventCapacity).
Proof.
  unfold ensureEventChannelLocked. destruct (rsEvents st) eqn:E; cbn; split_and!; try done.
  - intros Hq q. rewrite E. apply Hq.
  - intros _ q [= <-]. cbn. lia.
Qed.

Lemma wf_miss st th set cl cp i :
  sys_wf (mkSystem st th) → plain_names set cl cp → th !! i = None →
  sys_wf (mkSystem (ensureEventChannelLocked st) (<[i := mkEnsuring set cl cp None]> th)).
Proof.
  intros Hwf Hpn Hi. destruct (ensureEventChannelLocked_frame st) as (Hc & Ho & He & Hq).
  set (st' := ensureEventChannelLocked st) in *.
  assert (sys_wf (mkSystem st' th)) as [Hmap Hinj Hplain Hheld Hacc Hchan Hb].
  { eapply wf_frame; [exact Hc|exact Ho|done| |exact Hwf]. apply Hq, (inv_bound _ Hwf). }
  split; cbn [sysResolver sysThreads] in *; try done.
  - intros j t [[<- <-]|[_ Ht]]%lookup_insert_Some; [done|by eapply Hplain].
  - intros j t id [[<- <-]|[_ Ht]]%lookup_insert_Some Hid; [done|].
    destruct (Hheld j t id Ht Hid) as (? & ? & Hone). split_and!; [done|done|].
    intros j' t' [[<- <-]|[_ Ht']]%lookup_insert_Some Hid'; [done|by eapply Hone].
  - intros id c Hc1 Hlive. destruct (Hacc id c Hc1 Hlive) as [?|(j & t & Ht & Hid)]; [by left|right].
    exists j, t. split; [|done]. cbn in *. rewrite lookup_insert_ne by (intros ->; congruence). done.
Qed.

Lemma wf_client_error st th i t :
  sys_wf (mkSystem st th) → th !! i = Some t → enCache t = None → sys_wf (mkSystem st (delete i th)).
Proof.
  intros [Hmap Hinj Hplain Hheld Hacc Hchan Hb] Ht Hid. cbn [sysResolver sysThreads] in *.
  split; cbn [sysResolver sysThreads]; try done.
  - intros j t' [_ Ht']%lookup_delete_Some. by eapply Hplain.
  - intros j t' id [_ Ht']%lookup_delete_Some Hid'. destruct (Hheld j t' id Ht' Hid') as (? & ? & Hone).
    split_and!; [done|done|]. intros j2 t2 [_ Ht2]%lookup_delete_Some. by apply Hone.
  - intros id c Hc Hlive. destruct (Hacc id c Hc Hlive) as [?|(j & t' & Ht' & Hid')]; [by left|right].
    exists j, t'. split; [|done]. apply lookup_delete_Some. split; [|done]. cbn in Ht'. intros ->. congruence.
  - intros _. apply Hchan. right. apply map_nonempty. eauto.
Qed.

Lemma wf_new st th i t :
  sys_wf (mkSystem st th) → th !! i = Some t → enCache t = None →
  let r := newCache (enSet t) (enCluster t) st in
  sys_wf (mkSystem r.2 (<[i := holding t r.1]> th)).
Proof.
  intros [Hmap Hinj Hplain Hheld Hacc Hchan Hb] Ht Hnone. unfold newCache. cbn [fst snd sysResolver sysThreads] in *.
  set (id0 := fresh (dom (rsObjects st))).
  assert (rsObjects st !! id0 = None) as Hfresh by (apply not_elem_of_dom, is_fresh).
  set (c0 := mkCache _ _ _ _ _ _).
  assert (∀ id set cl, cache_for st id set cl →
    cache_for (with_caches st (rsCaches st) (<[id0 := c0]> (rsObjects st))) id set cl) as Hkeep.
  { intros id set cl (c & Hc & Hof & Hl). exists c. split_and!; [|done|done]. cbn.
    rewrite lookup_insert_ne by (intros ->; congruence). done. }
  split; cbn [sysResolver sysThreads rsCaches rsObjects rsEvents with_caches].
  - intros k id Hk. destruct (Hmap k id Hk) as (set & cl & cp & ? & ? & ?). exists set, cl, cp. auto.
  - done.
  - intros j t' [[<- <-]|[_ Ht']]%lookup_insert_Some; [exact (Hplain i t Ht)|by eapply Hplain].
  - intros j t' id [[<- <-]|[Hij Ht']]%lookup_insert_Some Hid.
    + injection Hid as <-. split_and!.
      * exists c0. cbn. rewrite lookup_insert_eq. split_and!; [done| |done].
        unfold cacheOf, cacheOfSet, c0. cbn. by rewrite !bool_decide_eq_true_2.
      * intros k Hk. destruct (Hmap k id0 Hk) as (? & ? & ? & _ & _ & c & Hc & _). congruence.
      * intros j' t2 [[<- <-]|[_ Ht2]]%lookup_insert_Some Hid2; [done|].
        destruct (Hheld j' t2 id0 Ht2 Hid2) as ((c & Hc & _) & _). congruence.
    + destruct (Hheld j t' id Ht' Hid) as (Hcf & Hno & Hone). split_and!; [by apply Hkeep|done|].
      intros j2 t2 [[<- <-]|[_ Ht2]]%lookup_insert_Some Hid2; [|by eapply Hone].
      injection Hid2 as <-. destruct Hcf as (c & Hc & _). congruence.
  - intros id c [[<- <-]|[Hne Hc]]%lookup_insert_Some Hlive.
    + right. exists i, (holding t id0). split; [apply lookup_insert_eq|done].
    + destruct (Hacc id c Hc Hlive) as [?|(j & t' & Ht' & Hid')]; [by left|right].
      exists j, t'. split; [|done]. cbn in *. rewrite lookup_insert_ne by (intros ->; congruence). done.
  - intros _. apply Hchan. right. apply map_nonempty. eauto.
  - exact Hb.
Qed.

(** A goroutine that lost the race stops the cache it held. *)
Lemma wf_publish_lost st th i t id :
  sys_wf (mkSystem st th) → th !! i = Some t → enCache t = Some id →
  sys_wf (mkSystem (with_caches st (rsCaches st) (stop id (rsObjects st))) (delete i th)).
Proof.
  intros [Hmap Hinj Hplain Hheld Hacc Hchan Hb] Ht Hid. cbn [sysResolver sysThreads] in *.
  destruct (Hheld i t id Ht Hid) as (_ & Hno & Hone).
  assert (∀ id' set cl, id' ≠ id → cache_for st id' set cl →
    cache_for (with_caches st (rsCaches st) (stop id (rsObjects st))) id' set cl) as Hkeep.
  { intros id' set cl Hne (c & Hc & Hof & Hl). exists c. split_and!; [|done|done]. cbn. unfold stop.
    by rewrite lookup_alter_ne. }
  split; cbn [sysResolver sysThreads rsCaches rsObjects rsEvents with_caches].
  - intros k id' Hk. destruct (Hmap k id' Hk) as (set & cl & cp & ? & ? & ?).
    exists set, cl, cp. split_and!; [done|done|]. apply Hkeep; [|done]. intros ->. by destruct (Hno k).
  - done.
  - intros j t' [_ Ht']%lookup_delete_Some. by eapply Hplain.
  - intros j t' id' [Hij Ht']%lookup_delete_Some Hid'. destruct (Hheld j t' id' Ht' Hid') as (Hcf & Hno' & Hone').
    split_and!; [|done|intros j2 t2 [_ Ht2]%lookup_delete_Some; by apply Hone'].
    apply Hkeep; [|done]. intros ->. by destruct Hij, (Hone j t').
  - intros id' c Hc Hlive. unfold stop in Hc. apply lookup_alter_Some in Hc as [(-> & c' & _ & ->)|[Hne Hc]]; [done|].
    destruct (Hacc id' c Hc Hlive) as [?|(j & t' & Ht' & Hid')]; [by left|right].
    exists j, t'. split; [|done]. apply lookup_delete_Some. split; [|done]. cbn in Ht'. intros ->. congruence.
  - intros _. apply Hchan. right. apply map_nonempty. eauto.
  - exact Hb.
Qed.

(** The winner moves its cache from its own hands into the map. *)
Lemma wf_publish_won st th i t id :
  sys_wf (mkSystem st th) → th !! i = Some t → enCache t = Some id → rsCaches st !! enKey t = None →
  sys_wf (mkSystem (with_caches st (<[enKey t := id]> (rsCaches st)) (rsObjects st)) (delete i th)).
Proof.
  intros [Hmap Hinj Hplain Hheld Hacc Hchan Hb] Ht Hid Hfree. cbn [sysResolver sysThreads] in *.
  destruct (Hheld i t id Ht Hid) as (Hcf & Hno & Hone).
  split; cbn [sysResolver sysThreads rsCaches rsObjects rsEvents with_caches].
  - intros k id' [[<- <-]|[_ Hk]]%lookup_insert_Some; [|by apply Hmap].
    exists (enSet t), (enCluster t), (enProfile t). split_and!; [done|exact (Hplain i t Ht)|exact Hcf].
  - intros k k' id' [[<- <-]|[_ Hk]]%lookup_insert_Some [[Hkk Hii]|[_ Hk']]%lookup_insert_Some.
    + congruence.
    + by destruct (Hno k').
    + subst id'. by destruct (Hno k).
    + by eapply Hinj.
  - intros j t' [_ Ht']%lookup_delete_Some. by eapply Hplain.
  - intros j t' id' [Hij Ht']%lookup_delete_Some Hid'. destruct (Hheld j t' id' Ht' Hid') as (Hcf' & Hno' & Hone').
    split_and!; [exact Hcf'| |intros j2 t2 [_ Ht2]%lookup_delete_Some; by apply Hone'].
    intros k [[<- <-]|[_ Hk]]%lookup_insert_Some; [by destruct Hij, (Hone j t')|by eapply Hno'].
  - intros id' c Hc Hlive. destruct (Hacc id' c Hc Hlive) as [[k Hk]|(j & t' & Ht' & Hid')]; cbn in *.
    + left. exists k. cbn. rewrite lookup_insert_ne; [done|]. intros <-. congruence.
    + destruct (decide (j = i)) as [->|Hij].
      * left. exists (enKey t). cbn. assert (id' = id) as -> by congruence. apply lookup_insert_eq.
      * right. exists j, t'. split; [|done]. apply lookup_delete_Some. done.
  - intros _. apply Hchan. right. apply map_nonempty. eauto.
  - exact Hb.
Qed.

Lemma cacheOf_spec set cl c :
  cacheOf set cl c = true ↔
  rncSetUID c = setUID set ∧ rncSetNS c = setNamespace set ∧ rncSetName c = setName set ∧ rncCluster c = cl.
Proof. unfold cacheOf, cacheOfSet. rewrite !andb_true_iff, !bool_decide_eq_true. tauto. Qed.

(** After a publication no second cache of the set and cluster is left. *)
Lemma one_each_publish st th key set cl id :
  sys_wf (mkSystem (with_caches st (<[key := id]> (rsCaches st)) (rsObjects st)) th) →
  one_each st → cache_for st id set cl → rsCaches st !! key = None →
  one_each (dropCaches (λ k c, negb (bool_decide (k = key)) && cacheOf set cl c)
              (with_caches st (<[key := id]> (rsCaches st)) (rsObjects st))).
Proof.
  intros Hwf Ho (c0 & Hc0 & Hof & _) Hfree.
  set (st1 := with_caches st (<[key := id]> (rsCaches st)) (rsObjects st)) in *.
  set (p := λ k c, negb (bool_decide (k = key)) && cacheOf set cl c).
  intros k k' id1 id2 c c' [Hk Hd]%dropCaches_map Hc [Hk' Hd']%dropCaches_map Hc' Hu Hns Hn Hcl.
  assert (∀ k id c, rsCaches st1 !! k = Some id → dropped p st1 (k, id) = false →
    rsObjects (dropCaches p st1) !! id = Some c → rsObjects st !! id = Some c) as Hobj.
  { intros k0 id0 c1 Hk0 Hd0 Hc1. destruct (inv_map _ Hwf k0 id0 Hk0) as (? & ? & ? & _ & _ & c2 & Hc2 & _).
    cbn [sysResolver] in *. rewrite (dropCaches_kept p st1 id0 c2) in Hc1; [change (rsObjects st !! id0 = Some c2) in Hc2; congruence|done|].
    intros k1 Hk1. by rewrite (inv_inj _ Hwf k1 k0 id0 Hk1 Hk0). }
  pose proof (Hobj _ _ _ Hk Hd Hc) as Hc1. pose proof (Hobj _ _ _ Hk' Hd' Hc') as Hc1'.
  unfold dropped, p in Hd, Hd'. cbn [fst snd] in Hd, Hd'. change (rsObjects st1) with (rsObjects st) in *.
  rewrite Hc1 in Hd. rewrite Hc1' in Hd'.
  apply cacheOf_spec in Hof. unfold st1 in Hk, Hk'. cbn [rsCaches with_caches] in Hk, Hk'.
  apply lookup_insert_Some in Hk as [[<- <-]|[Hne Hk]], Hk' as [[<- <-]|[Hne' Hk']]; [done| | |by eapply Ho].
  - assert (c = c0) as -> by congruence. rewrite bool_decide_eq_false_2 in Hd' by done. cbn in Hd'.
    apply not_true_iff_false in Hd'. destruct Hd'. apply cacheOf_spec. naive_solver congruence.
  - assert (c' = c0) as -> by congruence. rewrite bool_decide_eq_false_2 in Hd by done. cbn in Hd.
    apply not_true_iff_false in Hd. destruct Hd. apply cacheOf_spec. naive_solver congruence.
Qed.

Lemma inv_step s l s' : sys_inv s → sys_step s l s' → sys_inv s'.
Proof.
  intros [Hwf Ho] Hstep. destruct Hstep; unfold sys_inv; cbn [sysResolver] in *.
  - unfold lookupCache in *. destruct (rsCaches st !! _); simplify_eq. done.
  - unfold lookupCache in *. destruct (rsCaches st !! _); simplify_eq. split; [by apply wf_miss|].
    destruct (ensureEventChannelLocked_frame st) as (Hc & Hob & _). by eapply one_each_frame.
  - split; [by eapply wf_client_error|done].
  - pose proof (wf_new st th i t Hwf) as Hn. rewrite H1 in Hn. split; [by apply Hn|].
    unfold newCache in *. simplify_eq. intros k k' id id' c c' Hk Hc Hk' Hc'. cbn in *.
    assert (∀ k id, rsCaches st !! k = Some id → id ≠ fresh (dom (rsObjects st))) as Hold.
    { intros k0 id0 Hk0 ->. destruct (inv_map _ Hwf k0 _ Hk0) as (? & ? & ? & _ & _ & c0 & Hc0 & _).
      eapply (is_fresh (dom (rsObjects st))). by apply elem_of_dom. }
    rewrite lookup_insert_ne in Hc by (symmetry; by eapply Hold).
    rewrite lookup_insert_ne in Hc' by (symmetry; by eapply Hold). by eapply Ho.
  - unfold publishCache in *. destruct (rsCaches st !! enKey t) as [e|] eqn:Ek; simplify_eq.
    + split; [by eapply wf_publish_lost|]. intros k k' id1 id2 c c' Hk Hc Hk' Hc'. cbn in *.
      destruct (inv_held _ Hwf i t id) as (_ & Hno & _); [done|done|]. cbn in Hno. unfold stop in *.
      rewrite lookup_alter_ne in Hc by (intros ->; by destruct (Hno k)).
      rewrite lookup_alter_ne in Hc' by (intros ->; by destruct (Hno k')). by eapply Ho.
    + pose proof (wf_publish_won st th i t id' Hwf) as Hw. split; [by apply wf_drop, Hw|].
      eapply one_each_publish; [by apply Hw|done| |done]. by apply (inv_held _ Hwf i t id').
  - split; [by apply wf_drop|by eapply one_each_drop].
  - split; [by apply (wf_frame st); [..|apply (inv_bound _ Hwf)|]|done].
  - split; [by apply (wf_frame st); [..|apply (inv_bound _ Hwf)|]|done].
  - split; [by apply wf_drop|by eapply one_each_drop].
  - unfold enqueueNamespaceEvent. destruct (rsEvents st) as [q|] eqn:Eq; [|done].
    destruct (length q <? eventCapacity) eqn:El; [|done]. split; [|done].
    apply (wf_frame st); [done|done|done| |exact Hwf]. intros q' [= <-]. apply Nat.ltb_lt in El.
    rewrite length_app. cbn. lia.
  - destruct (ensureEventChannelLocked_frame st) as (Hc & Hob & He & Hq). split; [|by eapply one_each_frame].
    eapply wf_frame; [exact Hc|exact Hob|done| |exact Hwf]. apply Hq, (inv_bound _ Hwf).
  - split; [|done]. apply (wf_frame st); [done|done|by eexists| |exact Hwf]. intros q' [= <-].
    pose proof (inv_bound _ Hwf _ H) as Hl. cbn in Hl. lia.
Qed.

Lemma reachable_inv s : reachable s → sys_inv s.
Proof.
  induction 1; [|by eapply inv_step]. split; [|by intros ????????].
  split; cbn; try done.
  - intros [Hn|Hn]; by destruct Hn.
Qed.

(** ** Properties *)

(** C14: in every interleaving of goroutines that resolve selectors, stop
    caches and shut down: a replica set and cluster never have two registered
    caches; a registered cache was not stopped; and no informer leaks, every
    cache that was not stopped is registered, where stopping finds it, or in
    the hands of a goroutine that is about to publish it. *)
Theorem namespace_caches_consistent s :
  reachable s →
  one_each (sysResolver s) ∧
  (∀ k id, rsCaches (sysResolver s) !! k = Some id →
     ∃ c, rsObjects (sysResolver s) !! id = Some c ∧ rncCancelled c = false) ∧
  (∀ id c, rsObjects (sysResolver s) !! id = Some c → rncCancelled c = false → accounted s id).
Proof.
  intros [Hwf Ho]%reachable_inv. split_and!; [done| |apply (inv_accounted _ Hwf)].
  intros k id Hk. destruct (inv_map _ Hwf k id Hk) as (? & ? & ? & _ & _ & c & ? & _ & ?). eauto.
Qed.

(** The cache registered under the key of a set, cluster and profile is one of
    that set and cluster. *)
Lemma registered_for st th set cl cp id :
  sys_wf (mkSystem st th) → plain_names set cl cp →
  rsCaches st !! namespaceCacheKey set cl cp = Some id → cache_for st id set cl.
Proof.
  intros Hwf Hpn Hk. destruct (inv_map _ Hwf _ _ Hk) as (set' & cl' & cp' & Heq & Hpn' & c & Hc & Hof & Hl).
  destruct (namespaceCacheKey_inj _ _ _ _ _ _ Hpn Hpn' Heq) as (Hu & Hns & Hn & -> & _).
  exists c. split_and!; [done| |done]. apply cacheOf_spec in Hof. apply cacheOf_spec. naive_solver congruence.
Qed.

Lemma return_own_cache s set cl cp id s' :
  reachable s → sys_step s (LReturn set cl cp id) s' →
  rsCaches (sysResolver s') !! namespaceCacheKey set cl cp = Some id ∧ cache_for (sysResolver s') id set cl.
Proof.
  intros Hr Hstep. pose proof (reachable_inv _ (reach_step _ _ _ Hr Hstep)) as [Hwf' _].
  apply reachable_inv in Hr as [Hwf _].
  assert (plain_names set cl cp ∧ rsCaches (sysResolver s') !! namespaceCacheKey set cl cp = Some id) as [Hpn Hk].
  { inversion Hstep; subst; cbn [sysResolver] in *.
    - unfold lookupCache in *. split; [done|]. destruct (rsCaches st !! _) eqn:E; simplify_eq. done.
    - split; [by apply (inv_plain _ Hwf i)|]. unfold publishCache in *. fold (enKey t).
      destruct (rsCaches st !! enKey t) as [e|] eqn:E; simplify_eq; [exact E|].
      apply dropCaches_map. cbn [rsCaches with_caches]. split; [apply lookup_insert_eq|].
      unfold dropped. cbn [fst snd]. case_goal; [|done]. by rewrite bool_decide_eq_true_2. }
  split; [done|]. destruct s' as [st' th']. exact (registered_for _ _ _ _ _ _ Hwf' Hpn Hk).
Qed.

(** C13: a caller of [ensureNamespaceCache] always gets the cache that is
    registered for its own replica set, cluster and profile, whatever the other
    goroutines do: the namespaces of another tenant's cache are never
    returned, and neither is a cache that was stopped before. *)
Theorem ensureNamespaceCache_own_cache s set cl cp id s' :
  reachable s → sys_step s (LReturn set cl cp id) s' →
  rsCaches (sysResolver s') !! namespaceCacheKey set cl cp = Some id ∧
  ∃ c, rsObjects (sysResolver s') !! id = Some c ∧ rncCancelled c = false ∧
    rncSetUID c = setUID set ∧ rncSetNS c = setNamespace set ∧ rncSetName c = setName set ∧ rncCluster c = cl.
Proof.
  intros Hr Hstep. destruct (return_own_cache _ _ _ _ _ _ Hr Hstep) as (Hk & c & Hc & Hof & Hl).
  split; [done|]. exists c. apply cacheOf_spec in Hof as (? & ? & ? & ?). done.
Qed.

(** [StopNamespaceCaches] stops exactly the caches of the set for the
    clusters that are not kept: they leave the map and are cancelled; every
    other cache stays registered and untouched. *)
Theorem StopNamespaceCaches_exact st th set keep :
  reachable (mkSystem st th) →
  let st' := StopNamespaceCaches set keep st in
  ∀ k id c, rsCaches st !! k = Some id → rsObjects st !! id = Some c →
    (cacheOfSet set c = true ∧ rncCluster c ∉ keep →
       rsCaches st' !! k = None ∧ rsObjects st' !! id = Some (stopped c)) ∧
    (¬ (cacheOfSet set c = true ∧ rncCluster c ∉ keep) →
       rsCaches st' !! k = Some id ∧ rsObjects st' !! id = Some c).
Proof.
  intros [Hwf _]%reachable_inv st' k id c Hk Hc. unfold st', StopNamespaceCaches.
  set (p := λ (_ : string) c, cacheOfSet set c && negb (sets_Has keep (rncCluster c))).
  assert (p k c = true ↔ cacheOfSet set c = true ∧ rncCluster c ∉ keep) as Hp.
  { unfold p. rewrite andb_true_iff, negb_true_iff, sets_Has_false. done. }
  assert (∀ k', rsCaches st !! k' = Some id → dropped p st (k', id) = p k c) as Hd.
  { intros k' Hk'. rewrite (inv_inj _ Hwf k' k id Hk' Hk). unfold dropped. cbn [fst snd]. by rewrite Hc. }
  rewrite <- Hp. fold p. split; intros Hpc.
  - split; [|by apply (dropCaches_stopped p st k)]. apply eq_None_not_Some. intros [id' [Hk' Hd']%dropCaches_map].
    assert (id' = id) as -> by congruence. rewrite (Hd k Hk) in Hd'. congruence.
  - apply not_true_is_false in Hpc. split.
    + apply dropCaches_map. split; [done|]. by rewrite (Hd k Hk).
    + apply dropCaches_kept; [done|]. intros k' Hk'. by rewrite (Hd k' Hk').
Qed.

(** C35: after the shutdown of [Start] no cache is registered, and every
    informer is stopped, except one that a goroutine built before [Start]
    stored the manager's context and has not published yet. *)
Theorem shutdown_stops_all st th :
  reachable (mkSystem st th) → rsManagerDone st = true →
  let st' := shutdownResolver st in
  rsCaches st' = ∅ ∧
  ∀ id c, rsObjects st' !! id = Some c → cacheDone st' c = false →
    rncParent c = Background ∧ ∃ i t, th !! i = Some t ∧ enCache t = Some id.
Proof.
  intros Hr Hdone st'. apply reachable_inv in Hr as [Hwf Ho].
  pose proof (wf_drop (λ _ _, true) st th Hwf) as Hwf'. change (dropCaches (λ _ _, true) st) with st' in Hwf'.
  assert (rsCaches st' = ∅) as Hempty.
  { apply map_eq. intros k. rewrite lookup_empty. apply eq_None_not_Some. intros [id [Hk Hd]%dropCaches_map].
    destruct (inv_map _ Hwf k id Hk) as (? & ? & ? & _ & _ & c & Hc & _). unfold dropped in Hd.
    cbn [fst snd sysResolver] in *. by rewrite Hc in Hd. }
  split; [done|]. intros id c Hc Hd. unfold cacheDone in Hd. apply orb_false_iff in Hd as [Hl Hp].
  change (rsManagerDone st') with (rsManagerDone st) in Hp. rewrite Hdone, andb_true_r in Hp.
  split; [apply bool_decide_eq_false in Hp; by destruct (rncParent c)|].
  destruct (inv_accounted _ Hwf' id c Hc Hl) as [[k Hk]|?]; [|done].
  cbn [sysResolver] in Hk. by rewrite Hempty, lookup_empty in Hk.
Qed.

(** C36: a namespace event of any cache ever created reaches the work queue's
    channel unless 1024 events are waiting there already: the channel exists
    before the first informer does, it never holds more than its capacity, and
    the waiting events keep their order. *)
Theorem namespace_events_bounded st th id c :
  reachable (mkSystem st th) → rsObjects st !! id = Some c →
  let owner := mkNamespacedName (rncSetNS c) (rncSetName c) in
  ∃ q, rsEvents st = Some q ∧ length q <= 1024 ∧
    rsEvents (enqueueNamespaceEvent owner st) = Some (if length q <? 1024 then q ++ [owner] else q).
Proof.
  intros [Hwf _]%reachable_inv Hc owner.
  destruct (inv_channel _ Hwf) as [q Hq]; [left; apply map_nonempty; eauto|]. cbn [sysResolver] in Hq.
  exists q. split_and!; [done|by apply (inv_bound _ Hwf)|].
  unfold enqueueNamespaceEvent. rewrite Hq. change eventCapacity with 1024. by destruct (length q <? 1024).
Qed.

(** Run without interference, [ensureNamespaceCache] is a sequence of steps
    that ends in its return. *)
Lemma ensureNamespaceCache_steps clientErr set cl cp st th r st' :
  reachable (mkSystem st th) → plain_names set cl cp →
  ensureNamespaceCache clientErr set cl cp st = (r, st') →
  reachable (mkSystem st' th) ∧
  ∀ id, r = Ok id → ∃ s0, reachable s0 ∧ sys_step s0 (LReturn set cl cp id) (mkSystem st' th).
Proof.
  intros Hr Hpn. unfold ensureNamespaceCache.
  destruct (lookupCache (namespaceCacheKey set cl cp) st) as [[id|] st1] eqn:El.
  { intros [= <- <-]. pose proof (step_hit st th set cl cp id st1 Hpn El) as Hs.
    split; [by eapply reach_step|]. intros ? [= <-]. eauto. }
  set (i := fresh (dom th)). assert (th !! i = None) as Hi by (apply not_elem_of_dom, is_fresh).
  set (t := mkEnsuring set cl cp None).
  assert (reachable (mkSystem st1 (<[i := t]> th))) as Hr1 by (by eapply reach_step, step_miss).
  assert (∀ x, delete i (<[i := x]> th) = th) as Hdel by (intros x; by rewrite delete_insert_id).
  destruct clientErr as [e|].
  { intros [= <- <-]. split; [|done]. rewrite <- (Hdel t). eapply reach_step; [exact Hr1|].
    eapply step_client_error; [apply lookup_insert_eq|done]. }
  destruct (newCache set cl st1) as [id st2] eqn:En.
  assert (reachable (mkSystem st2 (<[i := holding t id]> th))) as Hr2.
  { rewrite <- (insert_insert_eq th i (holding t id) t). eapply reach_step; [exact Hr1|].
    eapply step_new; [apply lookup_insert_eq|done|exact En]. }
  destruct (publishCache _ set cl id st2) as [id' st3] eqn:Ep. intros [= <- <-].
  assert (sys_step (mkSystem st2 (<[i := holding t id]> th)) (LReturn set cl cp id') (mkSystem st3 th)) as Hs.
  { rewrite <- (Hdel (holding t id)) at 2.
    apply (step_publish st2 _ i (holding t id) id id' st3); [apply lookup_insert_eq|done|exact Ep]. }
  split; [by eapply reach_step|]. intros ? [= <-]. eauto.
Qed.

Lemma waitForNamespaceCacheSync_unsynced ctxErr done :
  ∃ e, waitForNamespaceCacheSync false ctxErr done = Some e.
Proof. destruct ctxErr, done; by eexists. Qed.

Section selector.
Context `{LabelsLib} {restConfig : Type}.

(** The names of the list are those of the namespaces of the store, in store
    order, whose labels match. *)
Definition selected_by (sel : Selector) (store : list (option (string * labels_Set))) (names : list string) : Prop :=
  names `sublist_of` map fst (omap id store) ∧
  ∀ n, n ∈ names ↔ ∃ lbls, Some (n, lbls) ∈ store ∧ Matches sel lbls = true.

Lemma matchingNamespaces_selected sel store : selected_by sel store (matchingNamespaces sel store).
Proof.
  split.
  - induction store as [|[[n lbls]|] store IH]; cbn; [done| |exact IH].
    destruct (Matches sel lbls); [by apply sublist_skip|by apply sublist_cons].
  - intros n. unfold matchingNamespaces. rewrite list_elem_of_omap. split.
    + intros ([[n' lbls]|] & Hin & Hx); [|done]. destruct (Matches sel lbls) eqn:Em; [|done].
      injection Hx as ->. by exists lbls.
    + intros (lbls & Hin & Hm). exists (Some (n, lbls)). by rewrite Hm.
Qed.

(** C27: [ResolveNamespaceSelector] is sound when it runs without interference
    from other goroutines: whatever it was connected to, a list it returns
    holds a name exactly when the store of a synced cache, which is registered
    for this replica set and this cluster, has a namespace of that name whose
    labels match the selector, in store order; and what was allocated before,
    the shared access configuration included, is unchanged, whether it returns
    a list or an error. *)
Theorem ResolveNamespaceSelector_sound (env : resolverEnv (restConfig := restConfig)) set cl sel h st th :
  reachable (mkSystem st th) →
  (∀ items cp, reProfiles env = Some (Ok items) → cp ∈ items → plain_names set cl cp) →
  let '(r, h', st') := ResolveNamespaceSelector env set cl sel h st in
  h ⊆ h' ∧ reachable (mkSystem st' th) ∧
  ∀ names, r = Ok names → ∃ k id c, rsCaches st' !! k = Some id ∧ rsObjects st' !! id = Some c ∧
    cacheOf set cl c = true ∧ rncCancelled c = false ∧ reSynced env id = true ∧
    selected_by sel (reStore env id) names.
Proof.
  intros Hr Hpn. unfold ResolveNamespaceSelector.
  destruct (reAccessConfig env) as [shared|]; [|by split_and!].
  destruct (clusterProfileForOCMCluster (reProfiles env) (setNamespace set) cl) as [cp|e] eqn:Ecp; [|by split_and!].
  assert (plain_names set cl cp) as Hcp.
  { destruct (clusterProfileForOCMCluster_elem _ _ _ _ Ecp) as (items & Hi & Hin). by eapply Hpn. }
  pose proof (accessConfig_extends h shared (controllerAccessManagedServiceAccountName set)
                (omNamespace (cpMeta cp))) as Hsub.
  destruct (accessConfigForManagedServiceAccount h shared _ _) as [h' [ac|e]]; cbn [fst] in Hsub; [|by split_and!].
  destruct (reBuildConfigFromCP env h' ac cp) as [rc|e]; [|by split_and!].
  destruct (ensureNamespaceCache (reNewForConfig env rc) set cl cp st) as [[id|e] st'] eqn:Ee;
    destruct (ensureNamespaceCache_steps _ _ _ _ _ _ _ _ Hr Hcp Ee) as [Hr' Hret]; [|by split_and!].
  destruct (Hret id eq_refl) as (s0 & Hr0 & Hs0).
  destruct (return_own_cache _ _ _ _ _ _ Hr0 Hs0) as (Hk & c & Hc & Hof & Hl).
  cbv zeta. destruct (reSynced env id) eqn:Es; cycle 1.
  { match goal with |- context [waitForNamespaceCacheSync false ?e ?d] =>
      destruct (waitForNamespaceCacheSync_unsynced e d) as [x ->] end. by split_and!. }
  cbn [waitForNamespaceCacheSync]. split_and!; [done|done|]. intros names [= <-].
  exists (namespaceCacheKey set cl cp), id, c. split_and!; [done..|apply matchingNamespaces_selected].
Qed.

End selector.

(** ** The theorems on a small system *)

Section witnesses.

Definition sampleProfile : ClusterProfile :=
  profileIn "tenant" "cluster-a" [clusterProfileAccessProviderName].

Lemma samplePlain : plain_names sampleSet "cluster-a" sampleProfile.
Proof. split; vm_compute; repeat (split; [discriminate|]); exact I. Qed.

(** One cache, created by the only goroutine so far. *)
Definition sampleResolver : resolver :=
  (ensureNamespaceCache None sampleSet "cluster-a" sampleProfile newResolver).2.

Lemma sampleResolver_reachable : reachable (mkSystem sampleResolver ∅).
Proof.
  destruct (ensureNamespaceCache_steps None sampleSet "cluster-a" sampleProfile newResolver ∅
    (ensureNamespaceCache None sampleSet "cluster-a" sampleProfile newResolver).1 sampleResolver
    reach_init samplePlain (surjective_pairing _)) as [Hr _]. exact Hr.
Qed.

Definition sampleCacheKey : string := namespaceCacheKey sampleSet "cluster-a" sampleProfile.
Definition sampleCache : remoteNamespaceCache :=
  mkCache "set-uid" "set" "tenant" "cluster-a" Background false.

Lemma namespace_caches_consistent_witness :
  rsCaches sampleResolver !! sampleCacheKey = Some 0 ∧
  ∃ c, rsObjects sampleResolver !! 0 = Some c ∧ rncCancelled c = false.
Proof.
  assert (rsCaches sampleResolver !! sampleCacheKey = Some 0) as Hk by (vm_compute; reflexivity).
  split; [exact Hk|].
  destruct (namespace_caches_consistent _ sampleResolver_reachable) as (_ & Hlive & _). exact (Hlive _ _ Hk).
Defined.

(** A second caller hits the cache of the first. *)
Lemma ensureNamespaceCache_own_cache_witness :
  rsCaches sampleResolver !! sampleCacheKey = Some 0.
Proof.
  refine (proj1 (ensureNamespaceCache_own_cache (mkSystem sampleResolver ∅) sampleSet "cluster-a" sampleProfile 0
    (mkSystem sampleResolver ∅) sampleResolver_reachable _)).
  apply step_hit; [exact samplePlain|vm_compute; reflexivity].
Defined.

Lemma StopNamespaceCaches_exact_witness :
  rsCaches (StopNamespaceCaches sampleSet {["cluster-b"]} sampleResolver) !! sampleCacheKey = None ∧
  rsObjects (StopNamespaceCaches sampleSet {["cluster-b"]} sampleResolver) !! 0 = Some (stopped sampleCache).
Proof.
  apply (proj1 (StopNamespaceCaches_exact sampleResolver ∅ sampleSet {["cluster-b"]} sampleResolver_reachable
    sampleCacheKey 0 sampleCache ltac:(vm_compute; reflexivity) ltac:(vm_compute; reflexivity))).
  split; [vm_compute; reflexivity|]. apply (bool_decide_unpack _). vm_compute. exact I.
Defined.

Definition doneResolver : resolver := with_context sampleResolver false true.

Lemma shutdown_stops_all_witness :
  rsManagerDone doneResolver = true ∧ rsCaches (shutdownResolver doneResolver) = ∅.
Proof.
  split; [reflexivity|].
  refine (proj1 (shutdown_stops_all doneResolver ∅ _ eq_refl)).
  exact (reach_step _ _ _ sampleResolver_reachable (step_manager_done sampleResolver ∅)).
Defined.

Lemma namespace_events_bounded_witness :
  ∃ q, rsEvents sampleResolver = Some q ∧ length q <= 1024.
Proof.
  destruct (namespace_events_bounded sampleResolver ∅ 0 sampleCache sampleResolver_reachable
    ltac:(vm_compute; reflexivity)) as (q & Hq & Hl & _).
  exists q. split; [exact Hq|exact Hl].
Defined.

Import Ref.

(** One namespace of two matches. *)
Definition sampleResolverEnv : resolverEnv (restConfig := unit) :=
  mkResolverEnv (Some sampleAccess) (Some (Ok [sampleProfile])) (λ _ _ _, Ok tt) (λ _, None) (λ _, true) None
    (λ _, [Some ("app-a", {["env" := "prod"]}); None; Some ("app-b", ∅)]).

Lemma ResolveNamespaceSelector_sound_witness :
  (ResolveNamespaceSelector sampleResolverEnv sampleSet "cluster-a"
     (SelectorFromValidatedSet {["env" := "prod"]}) sampleHeap newResolver).1.1 = Ok ["app-a"] ∧
  reachable (mkSystem (ResolveNamespaceSelector sampleResolverEnv sampleSet "cluster-a"
     (SelectorFromValidatedSet {["env" := "prod"]}) sampleHeap newResolver).2 ∅).
Proof.
  split; [vm_compute; reflexivity|].
  pose proof (ResolveNamespaceSelector_sound sampleResolverEnv sampleSet "cluster-a"
    (SelectorFromValidatedSet {["env" := "prod"]}) sampleHeap newResolver ∅ reach_init) as Ht.
  destruct (ResolveNamespaceSelector sampleResolverEnv sampleSet "cluster-a"
    (SelectorFromValidatedSet {["env" := "prod"]}) sampleHeap newResolver) as [[r h'] st'].
  apply Ht. intros items cp [= <-] ->%list_elem_of_singleton. exact samplePlain.
Defined.

End witnesses.
