(* ===== verification/CacheRegistry.v ===== *)
(** * The caches of the resolver refine a registry

    What [ClusterInventoryNamespaceResolver] promises to its callers, without
    keys, profiles, critical sections and cache objects: a registry that holds
    at most one live cache per replica set and cluster, hands it out, replaces
    it, and drops those of a set or all of them; a cache that was dropped or
    replaced is retired and is never handed out again.  Every interleaving of
    the resolver is an execution of that registry. *)

From S2P Require Import Prelude GoStd ApiTypes Interfaces Reference Effects Samples.
From S2P Require Import Metadata Rbac ControllerAccess NamespaceResolver NamespaceCaches.
From Stdlib Require Import ZArith Lia.

(** ** The specification *)

(** UID, namespace and name of a replica set, and a managed cluster. *)
Abbreviation owner := (string * string * string * string)%type.

Definition ownerFor (set : ManagedServiceAccountReplicaSet) (cl : string) : owner :=
  (setUID set, setNamespace set, setName set, cl).

Definition ownerOf (c : remoteNamespaceCache) : owner :=
  (rncSetUID c, rncSetNS c, rncSetName c, rncCluster c).

Record registry := mkRegistry {
  regLive : gmap owner nat;
  regRetired : gset nat;
}.

Definition emptyRegistry : registry := mkRegistry ∅ ∅.

(** The identities of the entries that satisfy [P]. *)
Definition droppedIds (P : owner → bool) (m : gmap owner nat) : gset nat :=
  list_to_set (map snd (map_to_list (filter (λ kv, P kv.1 = true) m))).

Definition dropOwners (P : owner → bool) (a : registry) : registry :=
  mkRegistry (filter (λ kv, P kv.1 = false) (regLive a)) (droppedIds P (regLive a) ∪ regRetired a).

(** The clusters of a set that are not kept. *)
Definition stoppedOwner (set : ManagedServiceAccountReplicaSet) (keep : gset string) (o : owner) : bool :=
  bool_decide (o.1 = (ownerFor set "").1) && negb (sets_Has keep o.2).

(** Steps of the registry, labelled with the cache a caller receives. *)
Inductive registry_step : registry → option (owner * nat) → registry → Prop :=
| registry_idle a : registry_step a None a
| registry_hit a o id : regLive a !! o = Some id → registry_step a (Some (o, id)) a
| registry_replace a o id :
    id ∉ regRetired a → (∀ o', regLive a !! o' ≠ Some id) →
    registry_step a (Some (o, id))
      (mkRegistry (<[o := id]> (regLive a)) (option_to_set (regLive a !! o) ∪ regRetired a))
| registry_stop a set keep : registry_step a None (dropOwners (stoppedOwner set keep) a)
| registry_shutdown a : registry_step a None (dropOwners (λ _, true) a).

(** Executions, most recent label last. *)
Inductive registry_exec : list (option (owner * nat)) → registry → Prop :=
| registry_exec_nil : registry_exec [] emptyRegistry
| registry_exec_snoc ls a l a' : registry_exec ls a → registry_step a l a' → registry_exec (ls ++ [l]) a'.

(** Executions of the resolver. *)
Inductive sys_exec : list label → system → Prop :=
| sys_exec_nil : sys_exec [] (mkSystem newResolver ∅)
| sys_exec_snoc ls s l s' : sys_exec ls s → sys_step s l s' → sys_exec (ls ++ [l]) s'.

(** What a caller sees of a step. *)
Definition observed (l : label) : option (owner * nat) :=
  match l with
  | LTau => None
  | LReturn set cl _ id => Some (ownerFor set cl, id)
  end.

(** ** The simulation relation *)

(** [id] is registered for [o]. *)
Definition registered (st : resolver) (o : owner) (id : nat) : Prop :=
  ∃ k c, rsCaches st !! k = Some id ∧ rsObjects st !! id = Some c ∧ ownerOf c = o.

Definition retired (st : resolver) (id : nat) : Prop :=
  ∃ c, rsObjects st !! id = Some c ∧ rncCancelled c = true.

Record simulates (s : system) (a : registry) : Prop := mkSimulates {
  sim_live o id : regLive a !! o = Some id ↔ registered (sysResolver s) o id;
  sim_retired id : id ∈ regRetired a → retired (sysResolver s) id;
}.

Lemma cacheOf_owner set cl c : cacheOf set cl c = true ↔ ownerOf c = ownerFor set cl.
Proof. rewrite cacheOf_spec. unfold ownerOf, ownerFor. naive_solver congruence. Qed.

Lemma registered_fun st th o id id' :
  sys_inv (mkSystem st th) → registered st o id → registered st o id' → id = id'.
Proof.
  intros [_ Ho] (k & c & Hk & Hc & <-) (k' & c' & Hk' & Hc' & Heq). cbn [sysResolver] in Ho.
  unfold ownerOf in Heq. injection Heq as Hu Hns Hn Hcl.
  assert (k = k') as -> by (by eapply Ho; eauto). congruence.
Qed.

(** Steps that touch neither the map nor the objects. *)
Lemma simulates_frame st st' th th' a :
  rsCaches st' = rsCaches st → rsObjects st' = rsObjects st →
  simulates (mkSystem st th) a → simulates (mkSystem st' th') a.
Proof.
  intros Hc Ho [Hl Hr]. cbn [sysResolver] in *. split; cbn [sysResolver]; unfold registered, retired in *.
  - intros o id. rewrite Hc, Ho. apply Hl.
  - intros id. rewrite Ho. apply Hr.
Qed.

(** Stopping leaves a stopped cache stopped. *)
Lemma retired_stop st id ids :
  retired st id → ∃ c, foldr stop (rsObjects st) ids !! id = Some c ∧ rncCancelled c = true.
Proof.
  intros (c & Hc & Hx). rewrite foldr_stop_lookup, Hc. cbn. eexists. split; [done|]. by case_decide.
Qed.

(** Dropping the caches of the owners that satisfy [P]. *)
Lemma registered_drop (p : string → remoteNamespaceCache → bool) P st th o id :
  (∀ k c, p k c = P (ownerOf c)) → sys_wf (mkSystem st th) →
  registered (dropCaches p st) o id ↔ registered st o id ∧ P o = false.
Proof.
  intros Hp Hwf.
  assert (∀ k c, rsCaches st !! k = Some id → rsObjects st !! id = Some c →
    ∀ k', rsCaches st !! k' = Some id → dropped p st (k', id) = P (ownerOf c)) as Hd.
  { intros k c Hk Hc k' Hk'. unfold dropped. cbn [fst snd]. by rewrite Hc, Hp. }
  split.
  - intros (k & c & [Hk Hdr]%dropCaches_map & Hc & <-).
    destruct (inv_map _ Hwf k id Hk) as (? & ? & ? & _ & _ & c0 & Hc0 & _). cbn [sysResolver] in Hc0.
    rewrite (Hd k c0 Hk Hc0 k Hk) in Hdr.
    rewrite (dropCaches_kept p st id c0) in Hc; [|done|intros k' Hk'; by rewrite (Hd k c0 Hk Hc0 k' Hk')].
    injection Hc as <-. split; [|done]. by exists k, c0.
  - intros [(k & c & Hk & Hc & <-) HP]. exists k, c. split_and!; [|apply dropCaches_kept; [done|]|done].
    + apply dropCaches_map. split; [done|]. by rewrite (Hd k c Hk Hc k Hk).
    + intros k' Hk'. by rewrite (Hd k c Hk Hc k' Hk').
Qed.

Lemma simulates_drop p P st th a :
  (∀ k c, p k c = P (ownerOf c)) → sys_wf (mkSystem st th) → simulates (mkSystem st th) a →
  simulates (mkSystem (dropCaches p st) th) (dropOwners P a).
Proof.
  intros Hp Hwf [Hl Hr]. cbn [sysResolver] in *. split; cbn [sysResolver].
  - intros o id. rewrite (registered_drop p P st th o id Hp Hwf), <- Hl. cbn [regLive dropOwners].
    by rewrite map_lookup_filter_Some.
  - intros id [Hin|Hin]%elem_of_union; [|apply retired_stop, Hr, Hin].
    apply elem_of_list_to_set, list_elem_of_fmap in Hin as ([o id'] & -> & Hin).
    apply elem_of_map_to_list, map_lookup_filter_Some in Hin as [Hin HP]. cbn [fst snd] in *.
    apply Hl in Hin as (k & c & Hk & Hc & <-). exists (stopped c). split; [|done].
    apply (dropCaches_stopped _ st k); [done|done|]. by rewrite Hp.
Qed.

(** A new cache object is nobody's yet. *)
Lemma simulates_new st th th' set cl a :
  sys_wf (mkSystem st th) → simulates (mkSystem st th) a →
  simulates (mkSystem (newCache set cl st).2 th') a.
Proof.
  intros Hwf [Hl Hr]. cbn [sysResolver] in *. unfold newCache. cbn [snd].
  set (id0 := fresh (dom (rsObjects st))).
  assert (rsObjects st !! id0 = None) as Hfresh by (apply not_elem_of_dom, is_fresh).
  split; cbn [sysResolver]; unfold registered, retired; cbn [rsCaches rsObjects with_caches].
  - intros o id. rewrite Hl. unfold registered. f_equiv. intros k. split; intros (c & Hk & Hc & Ho); exists c.
    + split_and!; [done| |done]. rewrite lookup_insert_ne; [done|]. intros <-. congruence.
    + split_and!; [done| |done]. rewrite lookup_insert_ne in Hc; [done|]. intros <-.
      destruct (inv_map _ Hwf k id0 Hk) as (? & ? & ? & _ & _ & c0 & Hc0 & _). cbn [sysResolver] in Hc0. congruence.
  - intros id Hin. destruct (Hr id Hin) as (c & Hc & Hx). exists c. split; [|done].
    rewrite lookup_insert_ne; [done|]. intros <-. congruence.
Qed.

(** The loser of a race only stops its own cache. *)
Lemma simulates_lost st th th' i t id a :
  sys_wf (mkSystem st th) → th !! i = Some t → enCache t = Some id → simulates (mkSystem st th) a →
  simulates (mkSystem (with_caches st (rsCaches st) (stop id (rsObjects st))) th') a.
Proof.
  intros Hwf Ht Hid [Hl Hr]. cbn [sysResolver] in *. destruct (inv_held _ Hwf i t id Ht Hid) as (_ & Hno & _).
  cbn [sysResolver] in Hno. split; cbn [sysResolver]; unfold registered, retired; cbn [rsCaches rsObjects with_caches].
  - intros o id'. rewrite Hl. unfold registered, stop. f_equiv. intros k. split; intros (c & Hk & Hc & Ho); exists c.
    + split_and!; [done| |done]. rewrite lookup_alter_ne; [done|]. intros ->. by destruct (Hno k).
    + split_and!; [done| |done]. rewrite lookup_alter_ne in Hc; [done|]. intros ->. by destruct (Hno k).
  - intros id' Hin. apply (retired_stop st id' [id]), Hr, Hin.
Qed.

(** The winner's cache becomes the one of its owner; the one it replaces is
    retired. *)
Lemma simulates_won st th i t id a :
  let set := enSet t in let cl := enCluster t in
  let st1 := with_caches st (<[enKey t := id]> (rsCaches st)) (rsObjects st) in
  sys_wf (mkSystem st th) → th !! i = Some t → enCache t = Some id → rsCaches st !! enKey t = None →
  simulates (mkSystem st th) a →
  simulates (mkSystem (dropCaches (λ k c, negb (bool_decide (k = enKey t)) && cacheOf set cl c) st1) (delete i th))
    (mkRegistry (<[ownerFor set cl := id]> (regLive a))
       (option_to_set (regLive a !! ownerFor set cl) ∪ regRetired a)).
Proof.
  intros set cl st1 Hwf Ht Hid Hfree [Hl Hr]. cbn [sysResolver] in *.
  destruct (inv_held _ Hwf i t id Ht Hid) as ((c0 & Hc0 & Hof & Hlive) & Hno & _). cbn [sysResolver] in *.
  pose proof (wf_publish_won st th i t id Hwf Ht Hid Hfree) as Hwf1. fold st1 in Hwf1.
  set (p := λ k c, negb (bool_decide (k = enKey t)) && cacheOf set cl c).
  apply cacheOf_owner in Hof. fold set cl in Hof.
  assert (∀ k id' c, rsCaches st1 !! k = Some id' → rsObjects st !! id' = Some c →
    dropped p st1 (k, id') = negb (bool_decide (k = enKey t)) && bool_decide (ownerOf c = ownerFor set cl)) as Hd.
  { intros k id' c Hk Hc. unfold dropped. cbn [fst snd]. change (rsObjects st1) with (rsObjects st). rewrite Hc.
    unfold p. f_equal. apply eq_true_iff_eq. by rewrite cacheOf_owner, bool_decide_eq_true. }
  assert (∀ k id' c, rsCaches st1 !! k = Some id' → dropped p st1 (k, id') = false →
    rsObjects (dropCaches p st1) !! id' = Some c ↔ rsObjects st !! id' = Some c) as Hobj.
  { intros k id' c Hk Hdr. destruct (inv_map _ Hwf1 k id' Hk) as (? & ? & ? & _ & _ & c1 & Hc1 & _).
    cbn [sysResolver] in Hc1. rewrite (dropCaches_kept p st1 id' c1); [|done|].
    - change (rsObjects st !! id' = Some c1) in Hc1. by rewrite Hc1.
    - intros k' Hk'. by rewrite (inv_inj _ Hwf1 k' k id' Hk' Hk). }
  split; cbn [sysResolver regLive regRetired].
  - intros o id'. rewrite lookup_insert_Some, Hl. split.
    + intros [[<- <-]|[Hne (k & c & Hk & Hc & Ho)]].
      * assert (rsCaches st1 !! enKey t = Some id) as Hk by apply lookup_insert_eq.
        assert (dropped p st1 (enKey t, id) = false) as Hdr by (rewrite (Hd _ _ _ Hk Hc0), bool_decide_eq_true_2; done).
        exists (enKey t), c0. split_and!; [by apply dropCaches_map|by apply (Hobj (enKey t))|done].
      * assert (rsCaches st1 !! k = Some id') as Hk1 
          by (apply lookup_insert_Some; right; split; [intros <-; congruence|done]).
        assert (dropped p st1 (k, id') = false) as Hdr
          by (rewrite (Hd _ _ _ Hk1 Hc), (bool_decide_eq_false_2 (ownerOf c = _)), andb_false_r by congruence; done).
        exists k, c. split_and!; [by apply dropCaches_map|by apply (Hobj k)|done].
    + intros (k & c & [Hk Hdr]%dropCaches_map & Hc & Ho). apply (Hobj k id' c Hk Hdr) in Hc.
      rewrite (Hd _ _ _ Hk Hc) in Hdr. change (<[enKey t := id]> (rsCaches st) !! k = Some id') in Hk.
      apply lookup_insert_Some in Hk as [[<- <-]|[Hne Hk]]; [left; split; congruence|right].
      rewrite (bool_decide_eq_false_2 (k = _)) in Hdr by done. cbn in Hdr. apply bool_decide_eq_false in Hdr.
      split; [congruence|]. by exists k, c.
  - intros id' [Hin|Hin]%elem_of_union; [|apply retired_stop, Hr, Hin].
    apply elem_of_option_to_set, Hl in Hin as (k & c & Hk & Hc & Ho). exists (stopped c). split; [|done].
    assert (k ≠ enKey t) as Hne by congruence.
    apply (dropCaches_stopped p st1 k); [apply lookup_insert_Some; by right|done|].
    unfold p. rewrite bool_decide_eq_false_2 by done. cbn. by apply cacheOf_owner.
Qed.

(** A registered key speaks about its owner. *)
Lemma registered_key st th set cl cp id :
  sys_wf (mkSystem st th) → plain_names set cl cp →
  rsCaches st !! namespaceCacheKey set cl cp = Some id → registered st (ownerFor set cl) id.
Proof.
  intros Hwf Hpn Hk. destruct (registered_for _ _ _ _ _ _ Hwf Hpn Hk) as (c & Hc & Hof & _).
  exists (namespaceCacheKey set cl cp), c. split_and!; [done|done|]. by apply cacheOf_owner.
Qed.

(** ** Every step is a step of the registry *)

Lemma step_simulated s l s' a :
  reachable s → simulates s a → sys_step s l s' →
  ∃ a', registry_step a (observed l) a' ∧ simulates s' a'.
Proof.
  intros Hreach Hsim Hstep. pose proof (reachable_inv _ Hreach) as [Hwf _].
  destruct Hstep as [st th set cl cp id st' Hpn Hlk|st th set cl cp st' i Hpn Hlk Hi|st th i t Ht Hn
    |st th i t id st' Ht Hn Hnew|st th i t id id' st' Ht Hid Hpub|st th set keep|st th|st th|st th Hd Hp
    |st th id c Hc|st th|st th own q Hq]; cbn [observed].
  - unfold lookupCache in Hlk. destruct (rsCaches st !! _) as [e|] eqn:Ek; simplify_eq.
    exists a. split; [|done]. apply registry_hit, (sim_live _ _ Hsim). by eapply registered_key.
  - unfold lookupCache in Hlk. destruct (rsCaches st !! _); simplify_eq. exists a. split; [constructor|].
    destruct (ensureEventChannelLocked_frame st) as (Hc & Ho & _). by apply (simulates_frame st _ th).
  - exists a. split; [constructor|]. by apply (simulates_frame st _ th).
  - exists a. split; [constructor|]. replace st' with (newCache (enSet t) (enCluster t) st).2 by (by rewrite Hnew).
    by eapply simulates_new.
  - unfold publishCache in Hpub. pose proof (inv_plain _ Hwf i t Ht) as Hpn.
    destruct (rsCaches st !! enKey t) as [e|] eqn:Ek; simplify_eq.
    + exists a. split; [|by eapply simulates_lost]. apply registry_hit, (sim_live _ _ Hsim).
      by eapply registered_key.
    + destruct (inv_held _ Hwf i t id' Ht Hid) as ((c0 & Hc0 & _ & Hlive) & Hno & _). cbn [sysResolver] in *.
      eexists. split; [|by apply (simulates_won st th i t id' a)]. apply registry_replace.
      * intros (c & Hc & Hx)%(sim_retired _ _ Hsim). cbn [sysResolver] in Hc. congruence.
      * intros o (k & c & Hk & _)%(sim_live _ _ Hsim). by destruct (Hno k).
  - eexists. split; [apply (registry_stop a set keep)|]. apply simulates_drop; [|done|done].
    intros k c. unfold stoppedOwner, cacheOfSet, ownerOf, ownerFor. cbn [fst snd]. f_equal.
    apply eq_true_iff_eq. rewrite !andb_true_iff, !bool_decide_eq_true. naive_solver congruence.
  - exists a. split; [constructor|]. by apply (simulates_frame st _ th).
  - exists a. split; [constructor|]. by apply (simulates_frame st _ th).
  - eexists. split; [apply registry_shutdown|]. by apply simulates_drop.
  - exists a. split; [constructor|]. apply (simulates_frame st _ th); [..|exact Hsim]; unfold enqueueNamespaceEvent; by repeat case_goal.
  - exists a. split; [constructor|]. destruct (ensureEventChannelLocked_frame st) as (Hc & Ho & _). by apply (simulates_frame st _ th).
  - exists a. split; [constructor|]. by apply (simulates_frame st _ th).
Qed.

Lemma sys_exec_reachable ls s : sys_exec ls s → reachable s.
Proof. induction 1 as [|ls s l s' _ IH Hstep]; [constructor|by eapply reach_step]. Qed.

Lemma simulates_init : simulates (mkSystem newResolver ∅) emptyRegistry.
Proof.
  split.
  - intros o id. cbn [regLive emptyRegistry]. rewrite lookup_empty. split; [done|]. intros (k & c & Hk & _).
    cbn [sysResolver rsCaches newResolver] in Hk. by rewrite lookup_empty in Hk.
  - intros id Hin. by apply elem_of_empty in Hin.
Qed.

(** C15: the namespace caches refine a registry with at most one live cache per
    replica set and cluster: for every interleaving of the goroutines there is
    an execution of the registry with the same answers to the callers, in the
    same order.  In particular a caller receives the live cache of its own set
    and cluster, and a cache that was replaced, stopped or shut down is never
    handed out again; at the end the live caches of the registry are exactly
    the registered ones, and the retired ones are stopped. *)
Theorem caches_refine_registry ls s :
  sys_exec ls s →
  ∃ a, registry_exec (map observed ls) a ∧
    (∀ o id, regLive a !! o = Some id ↔
       ∃ k c, rsCaches (sysResolver s) !! k = Some id ∧ rsObjects (sysResolver s) !! id = Some c ∧ ownerOf c = o) ∧
    (∀ id, id ∈ regRetired a → ∃ c, rsObjects (sysResolver s) !! id = Some c ∧ rncCancelled c = true).
Proof.
  intros Hexec.
  enough (∃ a, registry_exec (map observed ls) a ∧ simulates s a) as (a & Ha & [Hl Hr]) by eauto.
  induction Hexec as [|ls s l s' Hexec (a & Ha & Hsim) Hstep].
  { exists emptyRegistry. split; [constructor|apply simulates_init]. }
  destruct (step_simulated s l s' a (sys_exec_reachable _ _ Hexec) Hsim Hstep) as (a' & Hs' & Hsim').
  exists a'. split; [|done]. rewrite map_app. by eapply registry_exec_snoc.
Qed.

(** ** A small execution *)

Section witnesses.

(** A goroutine creates the cache of the sample set, and a second caller gets
    the same one. *)
Definition sampleLabels : list label :=
  [LTau; LTau; LReturn sampleSet "cluster-a" sampleProfile 0; LReturn sampleSet "cluster-a" sampleProfile 0].

Lemma sample_exec : sys_exec sampleLabels (mkSystem sampleResolver ∅).
Proof.
  set (st1 := ensureEventChannelLocked newResolver).
  set (t := mkEnsuring sampleSet "cluster-a" sampleProfile None).
  set (st2 := (newCache sampleSet "cluster-a" st1).2).
  assert (sys_exec [LTau] (mkSystem st1 {[0 := t]})) as He1.
  { apply (sys_exec_snoc [] (mkSystem newResolver ∅)); [constructor|].
    apply (step_miss newResolver ∅ sampleSet "cluster-a" sampleProfile st1 0); [exact samplePlain|done|done]. }
  assert (sys_exec [LTau; LTau] (mkSystem st2 {[0 := holding t 0]})) as He2.
  { apply (sys_exec_snoc [LTau] _ LTau _ He1).
    replace ({[0 := holding t 0]} : gmap nat ensuring) with (<[0 := holding t 0]> ({[0 := t]} : gmap nat ensuring))
      by (vm_compute; reflexivity).
    apply (step_new st1 _ 0 t 0 st2); [done|done|vm_compute; reflexivity]. }
  assert (sys_exec [LTau; LTau; LReturn sampleSet "cluster-a" sampleProfile 0] (mkSystem sampleResolver ∅)) as He3.
  { apply (sys_exec_snoc [LTau; LTau] _ _ _ He2).
    replace (∅ : gmap nat ensuring) with (delete 0 ({[0 := holding t 0]} : gmap nat ensuring)) by (vm_compute; reflexivity).
    apply (step_publish st2 _ 0 (holding t 0) 0 0 sampleResolver); [done|done|vm_compute; reflexivity]. }
  apply (sys_exec_snoc _ _ _ _ He3). apply step_hit; [exact samplePlain|vm_compute; reflexivity].
Qed.

Lemma caches_refine_registry_witness :
  ∃ a, registry_exec [None; None; Some (ownerFor sampleSet "cluster-a", 0); Some (ownerFor sampleSet "cluster-a", 0)] a.
Proof.
  destruct (caches_refine_registry sampleLabels _ sample_exec) as (a & Ha & _). exists a. exact Ha.
Defined.

End witnesses.
