(* ===== verification/Manager.v ===== *)
(** * The manager (cmd/manager/main.go and [SetupWithManager])

    How the process comes up: the command line, the manager with its options,
    the optional namespace resolver, the controller with its index and watches,
    the health checks, and the start.  controller-runtime is a party that
    answers each operation with an error or not, in any way it likes; what is
    shown is which operations [main] asks for, in which order, and with which
    exit code the process ends.

    The command line is parsed by Go's [flag] package, modelled here after its
    documentation; the flags that zap and controller-runtime add to it are a
    parameter. *)

From S2P Require Import Prelude GoStd ApiTypes Interfaces Reference Effects Samples Store.
From S2P Require Import Metadata Rbac ControllerAccess Validation Conditions Children Placement Rollout.
From S2P Require Import Cleanup ReconcileChildren Reconcile Watches.
From Stdlib Require Import Ascii Lia.

(** ** The command line *)

(** The variables [main] binds to its own flags. *)
Record options := mkOptions {
  metricsAddr : string;
  healthAddr : string;
  leaderElect : bool;
  clusterProfileProviderFile : string;
}.

Definition defaultOptions : options := mkOptions ":8080" ":8081" false "".

#[export] Instance options_eq_dec : EqDecision options.
Proof. solve_decision. Defined.

(** The errors of [flag.Parse]. *)
Inductive flagError :=
| BadSyntax (arg : string)
| NotDefined (name : string)
| NeedsArgument (name : string)
| InvalidValue (value name : string).

(** How [flag.Parse] ends: [Help] and [Rejected] end the process with the
    codes 0 and 2 (flag.ExitOnError). *)
Inductive parseOutcome :=
| Parsed (o : options) (rest : list string)
| Help
| Rejected (e : flagError).

(** A flag: whether it may stand without a value, and what setting it does. *)
Record flagValue := mkFlag {
  IsBoolFlag : bool;
  flagSet : string → options → option options;
}.

(** The flags that libraries bind to the same command line: which names they
    have, which of these are boolean, and which values they accept. *)
Class LibraryFlags := {
  library_flag : string → option bool;
  library_accepts : string → string → bool;
}.

Section flags.
Context `{LibraryFlags}.

(** strconv.ParseBool. *)
Definition ParseBool (s : string) : option bool :=
  if bool_decide (s ∈ ["1"; "t"; "T"; "true"; "TRUE"; "True"]) then Some true
  else if bool_decide (s ∈ ["0"; "f"; "F"; "false"; "FALSE"; "False"]) then Some false
  else None.

Definition StringVar (write : string → options → options) : flagValue :=
  mkFlag false (λ v o, Some (write v o)).

Definition BoolVar (write : bool → options → options) : flagValue :=
  mkFlag true (λ v o, b ← ParseBool v; Some (write b o)).

Definition libraryVar (name : string) (isBool : bool) : flagValue :=
  mkFlag isBool (λ v o, if library_accepts name v then Some o else None).

(** The formal flags of flag.CommandLine. *)
Definition formalFlag (name : string) : option flagValue :=
  if bool_decide (name = "metrics-bind-address") then
    Some (StringVar (λ v o, mkOptions v (healthAddr o) (leaderElect o) (clusterProfileProviderFile o)))
  else if bool_decide (name = "health-probe-bind-address") then
    Some (StringVar (λ v o, mkOptions (metricsAddr o) v (leaderElect o) (clusterProfileProviderFile o)))
  else if bool_decide (name = "leader-elect") then
    Some (BoolVar (λ b o, mkOptions (metricsAddr o) (healthAddr o) b (clusterProfileProviderFile o)))
  else if bool_decide (name = "clusterprofile-provider-file") then
    Some (StringVar (λ v o, mkOptions (metricsAddr o) (healthAddr o) (leaderElect o) v))
  else libraryVar name <$> library_flag name.

(** The part before the first [=], and the part behind it if there is one. *)
Fixpoint cutEq (s : string) : string * option string :=
  match s with
  | EmptyString => ("", None)
  | String c s' =>
      if Ascii.eqb c "="%char then ("", Some s')
      else let '(name, value) := cutEq s' in (String c name, value)
  end.

(** One step of the parser: no more flags, a flag was set, or the end. *)
Inductive parseStep :=
| Stop (rest : list string)
| Seen (o : options) (rest : list string)
| HelpWanted
| Failed (e : flagError).

Definition assignFlag (fl : flagValue) (o : options) (name value : string) (rest : list string) : parseStep :=
  match flagSet fl value o with
  | Some o' => Seen o' rest
  | None => Failed (InvalidValue value name)
  end.

Definition setFlag (o : options) (name : string) (value : option string) (rest : list string) : parseStep :=
  match formalFlag name with
  | None => if bool_decide (name = "help" ∨ name = "h") then HelpWanted else Failed (NotDefined name)
  | Some fl =>
      if IsBoolFlag fl then assignFlag fl o name (default "true" value) rest
      else match value, rest with
           | Some v, _ => assignFlag fl o name v rest
           | None, v :: rest' => assignFlag fl o name v rest'
           | None, [] => Failed (NeedsArgument name)
           end
  end.

(** [arg] without its dashes; an [=] cannot be first. *)
Definition namedFlag (o : options) (arg name : string) (rest : list string) : parseStep :=
  match name with
  | EmptyString => Failed (BadSyntax arg)
  | String c tail =>
      if bool_decide (c = "-"%char ∨ c = "="%char) then Failed (BadSyntax arg)
      else let '(n, value) := cutEq tail in setFlag o (String c n) value rest
  end.

Definition parseOne (o : options) (args : list string) : parseStep :=
  match args with
  | (String c0 (String c1 tail) as arg) :: rest =>
      if negb (Ascii.eqb c0 "-"%char) then Stop args
      else if Ascii.eqb c1 "-"%char then
        if bool_decide (tail = "") then Stop rest else namedFlag o arg tail rest
      else namedFlag o arg (String c1 tail) rest
  | _ => Stop args
  end.

(** The loop of Parse; each flag takes an argument at least, so the length of
    the command line is fuel enough ([parseLoop_fuel]). *)
Fixpoint parseLoop (fuel : nat) (o : options) (args : list string) : parseOutcome :=
  match parseOne o args with
  | Stop rest => Parsed o rest
  | HelpWanted => Help
  | Failed e => Rejected e
  | Seen o' rest =>
      match fuel with
      | 0 => Parsed o' rest
      | S fuel' => parseLoop fuel' o' rest
      end
  end.

Definition Parse (args : list string) : parseOutcome := parseLoop (length args) defaultOptions args.

End flags.

(** ** The manager *)

(** What the reconciler's fields are filled with. *)
Inductive dependency :=
| ManagerClient
| ManagerAPIReader
| ManagerEventRecorder (name : string)
| ManagerScheme
| Supplied (what : string).

(** A namespace resolver, by the optional interfaces it implements. *)
Record resolverKind := mkResolverKind {
  isNamespaceEventSource : bool;
  isNamespaceCacheJanitor : bool;
}.

(** ClusterInventoryNamespaceResolver has NamespaceEvents and
    StopNamespaceCaches. *)
Definition clusterInventoryResolver : resolverKind := mkResolverKind true true.

(** ManagedServiceAccountReplicaSetReconciler. *)
Record reconcilerFields := mkReconciler {
  rClient : option dependency;
  rAPIReader : option dependency;
  rScheme : option dependency;
  rRecorder : option dependency;
  rNamespaceSelectorResolver : option resolverKind;
}.

(** The fields as [Reconcile] consults them. *)
Definition configOf (r : reconcilerFields) : reconcilerConfig :=
  mkConfig (bool_decide (is_Some (rNamespaceSelectorResolver r)))
    (from_option isNamespaceCacheJanitor false (rNamespaceSelectorResolver r))
    (bool_decide (is_Some (rRecorder r))).

(** The kinds of events the builder subscribes to. *)
Inductive watchKind :=
| KindSet | KindPlacement | KindPlacementDecision | KindManagedServiceAccount
| KindManifestWork | KindClusterProfile | KindNamespaceEvent.

#[export] Instance watchKind_eq_dec : EqDecision watchKind.
Proof. solve_decision. Defined.

Definition kindOf (obj : watchedObject) : watchKind :=
  match obj with
  | WatchSet _ => KindSet
  | WatchPlacement _ => KindPlacement
  | WatchPlacementDecision _ => KindPlacementDecision
  | WatchManagedServiceAccount _ => KindManagedServiceAccount
  | WatchManifestWork _ => KindManifestWork
  | WatchClusterProfile _ => KindClusterProfile
  | WatchNamespaceEvent _ => KindNamespaceEvent
  end.

(** The API groups of the scheme, by the package that registers them. *)
Inductive schemeGroup := ClientGo | AuthV1alpha1 | ClusterV1beta1 | MsaV1beta1 | WorkV1 | CiV1alpha1.

#[export] Instance schemeGroup_eq_dec : EqDecision schemeGroup.
Proof. solve_decision. Defined.

(** The group of the object a subscription is about. *)
Definition groupOf (k : watchKind) : schemeGroup :=
  match k with
  | KindSet | KindNamespaceEvent => AuthV1alpha1
  | KindPlacement | KindPlacementDecision => ClusterV1beta1
  | KindManagedServiceAccount => MsaV1beta1
  | KindManifestWork => WorkV1
  | KindClusterProfile => CiV1alpha1
  end.

(** ctrl.Options; the filter is filters.WithAuthenticationAndAuthorization. *)
Record managerOptions := mkManagerOptions {
  moMetricsBindAddress : string;
  moMetricsSecureServing : bool;
  moMetricsAuthFilter : bool;
  moHealthProbeBindAddress : string;
  moLeaderElection : bool;
  moLeaderElectionID : string;
}.

(** The operations of controller-runtime and of the access library that can
    fail, in the terms of their arguments. *)
Inductive bootOp :=
| OpAddToScheme (group : schemeGroup)
| OpGetConfig
| OpNewManager (o : managerOptions)
| OpNewFromFile (file : string)
| OpAddRunnable (resolver : resolverKind)
| OpIndexField (field : string)
| OpComplete (watches : list watchKind) (r : reconcilerFields)
| OpAddHealthzCheck (name : string)
| OpAddReadyzCheck (name : string)
| OpStart.

(** A program of the process: it extends the history of operations and returns
    a value or ends the process with an exit code. *)
Definition boot (A : Type) : Type := list bootOp → list bootOp * (A + nat).

#[export] Instance boot_ret : MRet boot := λ A a h, (h, inl a).
#[export] Instance boot_bind : MBind boot := λ A B k m h,
  match m h with
  | (h', inl a) => k a h'
  | (h', inr code) => (h', inr code)
  end.

Definition osExit {A} (code : nat) : boot A := λ h, (h, inr code).

Section main.
Context `{LibraryFlags}.
(** How the other side answers an operation after a history of operations. *)
Context (answer : list bootOp → bootOp → option error).

Definition ask (o : bootOp) : boot (option error) := λ h, (h ++ [o], inl (answer h o)).

Definition exitWith (code : nat) (m : boot (option error)) : boot unit :=
  err ← m;
  match err with
  | Some _ => osExit code
  | None => mret tt
  end.

(** [if err := ...; err != nil { os.Exit(1) }]. *)
Definition orExit : boot (option error) → boot unit := exitWith 1.

(** utilruntime.Must panics, and a panic ends the process with code 2. *)
Definition Must : boot (option error) → boot unit := exitWith 2.

(** The package's [init]: the scheme. *)
Definition initScheme : boot unit :=
  _ ← Must (ask (OpAddToScheme ClientGo));
  _ ← Must (ask (OpAddToScheme AuthV1alpha1));
  _ ← Must (ask (OpAddToScheme ClusterV1beta1));
  _ ← Must (ask (OpAddToScheme MsaV1beta1));
  _ ← Must (ask (OpAddToScheme WorkV1));
  Must (ask (OpAddToScheme CiV1alpha1)).

Definition orElse (field : option dependency) (d : dependency) : option dependency :=
  match field with None => Some d | Some _ => field end.

(** The defaulting at the head of SetupWithManager. *)
Definition defaultFields (r : reconcilerFields) : reconcilerFields :=
  mkReconciler (orElse (rClient r) ManagerClient) (orElse (rAPIReader r) ManagerAPIReader)
    (orElse (rScheme r) ManagerScheme) (orElse (rRecorder r) (ManagerEventRecorder controllerName))
    (rNamespaceSelectorResolver r).

(** The subscriptions of the builder: For, five Watches, and the raw source
    when the resolver emits namespace events. *)
Definition builderWatches (r : reconcilerFields) : list watchKind :=
  [KindSet; KindPlacement; KindPlacementDecision; KindManagedServiceAccount; KindManifestWork; KindClusterProfile]
  ++ (if from_option isNamespaceEventSource false (rNamespaceSelectorResolver r)
      then [KindNamespaceEvent] else []).

Definition SetupWithManager (r : reconcilerFields) : boot (option error) :=
  let r := defaultFields r in
  err ← ask (OpIndexField indexPlacementRefNames);
  match err with
  | Some e => mret (Some e)
  | None => ask (OpComplete (builderWatches r) r)
  end.

Definition leaderElectionID : string :=
  "ocm-managed-serviceaccount-replicaset-controller.authentication.appthrust.io".

(** The part of [main] that makes the namespace resolver. *)
Definition setupResolver (o : options) : boot (option resolverKind) :=
  if bool_decide (clusterProfileProviderFile o = "") then mret None
  else
    _ ← orExit (ask (OpNewFromFile (clusterProfileProviderFile o)));
    _ ← orExit (ask (OpAddRunnable clusterInventoryResolver));
    mret (Some clusterInventoryResolver).

(** [main] behind the command line. *)
Definition runManager (o : options) : boot unit :=
  _ ← orExit (ask OpGetConfig);
  _ ← orExit (ask (OpNewManager
        (mkManagerOptions (metricsAddr o) true true (healthAddr o) (leaderElect o) leaderElectionID)));
  namespaceResolver ← setupResolver o;
  _ ← orExit (SetupWithManager (mkReconciler None None None None namespaceResolver));
  _ ← orExit (ask (OpAddHealthzCheck "healthz"));
  _ ← orExit (ask (OpAddReadyzCheck "readyz"));
  orExit (ask OpStart).

(** [main] with the arguments behind the name of the program. *)
Definition main_ (args : list string) : boot unit :=
  match Parse args with
  | Help => osExit 0
  | Rejected _ => osExit 2
  | Parsed o _ => runManager o
  end.

(** The process: [init], then [main]. *)
Definition process (args : list string) : boot unit := _ ← initScheme; main_ args.

(** The exit code of the process: 0 when [main] returns. *)
Definition exitCode (args : list string) : nat :=
  match (process args []).2 with inl _ => 0 | inr code => code end.

Definition performed (args : list string) : list bootOp := (process args []).1.

End main.

(** ** Readiness *)

(** The goroutine that waits for the informer cache, the channel it closes,
    and the readiness probe, which looks at nothing but the channel. *)
Inductive waiter := Waiting | Closing | Finished.

Record readiness := mkReadiness { rdWaiter : waiter; rdClosed : bool }.

Definition startReadiness : readiness := mkReadiness Waiting false.

(** What happens to them: the wait returns, the channel is closed, a probe is
    answered. *)
Inductive readyEvent := EvSynced (ok : bool) | EvClosed | EvProbed (answer : option error).

Definition errNotSynced : error := ErrNew "informer cache has not yet synced".

Definition readyz (s : readiness) : option error := if rdClosed s then None else Some errNotSynced.

(** Closing a closed channel would be a panic; [readyz_honest] shows it never
    happens. *)
Inductive ready_step : readiness → readyEvent → readiness → Prop :=
| step_synced ok c :
    ready_step (mkReadiness Waiting c) (EvSynced ok) (mkReadiness (if ok : bool then Closing else Finished) c)
| step_closed c : ready_step (mkReadiness Closing c) EvClosed (mkReadiness Finished true)
| step_probed s : ready_step s (EvProbed (readyz s)) s.

Inductive ready_run : readiness → list readyEvent → readiness → Prop :=
| run_nil s : ready_run s [] s
| run_snoc s es s1 e s2 : ready_run s es s1 → ready_step s1 e s2 → ready_run s (es ++ [e]) s2.

(** ** The command line: lemmas *)

(** A change of the options, and the ways to write it on a command line: one
    or two dashes, and the value behind an [=] or as the next argument (a
    boolean has no such second form; true may be left out). *)
Inductive setting :=
| SetMetrics (v : string) | SetHealth (v : string) | SetLeaderElect (b : bool) | SetProviderFile (v : string).

Definition applySetting (o : options) (s : setting) : options :=
  match s with
  | SetMetrics v => mkOptions v (healthAddr o) (leaderElect o) (clusterProfileProviderFile o)
  | SetHealth v => mkOptions (metricsAddr o) v (leaderElect o) (clusterProfileProviderFile o)
  | SetLeaderElect b => mkOptions (metricsAddr o) (healthAddr o) b (clusterProfileProviderFile o)
  | SetProviderFile v => mkOptions (metricsAddr o) (healthAddr o) (leaderElect o) v
  end.

Record spelling := mkSpelling { twoDashes : bool; inline : bool }.

Definition spellString (sp : spelling) (name v : string) : list string :=
  let flag := (if twoDashes sp then "--" else "-") +:+ name in
  if inline sp then [flag +:+ "=" +:+ v] else [flag; v].

Definition spellBool (sp : spelling) (name : string) (b : bool) : list string :=
  let flag := (if twoDashes sp then "--" else "-") +:+ name in
  if inline sp || negb b then [flag +:+ "=" +:+ (if b then "true" else "false")] else [flag].

Definition spell (sp : spelling) (s : setting) : list string :=
  match s with
  | SetMetrics v => spellString sp "metrics-bind-address" v
  | SetHealth v => spellString sp "health-probe-bind-address" v
  | SetLeaderElect b => spellBool sp "leader-elect" b
  | SetProviderFile v => spellString sp "clusterprofile-provider-file" v
  end.

Definition commandLine (l : list (spelling * setting)) : list string :=
  concat (map (λ p, spell p.1 p.2) l).

Section flag_lemmas.
Context `{LibraryFlags}.

(** A flag that is seen takes arguments away. *)
Lemma setFlag_shorter o name value rest o' rest' :
  setFlag o name value rest = Seen o' rest' → length rest' ≤ length rest.
Proof. unfold setFlag, assignFlag. intros E. repeat case_match; simplify_eq/=; lia. Qed.

Lemma namedFlag_shorter o arg name rest o' rest' :
  namedFlag o arg name rest = Seen o' rest' → length rest' ≤ length rest.
Proof.
  unfold namedFlag. intros E. repeat case_match; simplify_eq; by eapply setFlag_shorter.
Qed.

Lemma parseOne_shorter o args o' rest :
  parseOne o args = Seen o' rest → length rest < length args.
Proof.
  unfold parseOne. intros E. destruct args as [|[|c0 [|c1 tail]] args]; try done.
  repeat case_match; try done; apply namedFlag_shorter in E; cbn [length]; lia.
Qed.

Lemma parseLoop_fuel n m o args :
  length args ≤ n → length args ≤ m → parseLoop n o args = parseLoop m o args.
Proof.
  revert m o args. induction n as [|n IH]; intros [|m] o args Hn Hm; cbn [parseLoop]; try done;
    destruct (parseOne o args) as [|o' rest| |] eqn:E; try done; apply parseOne_shorter in E; try lia.
  apply IH; lia.
Qed.

(** One turn of the loop, with the fuel out of the way. *)
Lemma parse_seen n o args o' rest :
  length args ≤ n → parseOne o args = Seen o' rest →
  parseLoop n o args = parseLoop (length rest) o' rest.
Proof.
  intros Hn E. pose proof (parseOne_shorter _ _ _ _ E) as Hlt.
  destruct n as [|n]; [lia|]. cbn [parseLoop]. rewrite E. apply parseLoop_fuel; lia.
Qed.

Lemma parseOne_spell o sp s rest :
  parseOne o (spell sp s ++ rest) = Seen (applySetting o s) rest.
Proof. by destruct sp as [[] []], s as [v|v|[]|v]. Qed.

Lemma parse_commandLine n o l rest :
  length (commandLine l ++ rest) ≤ n →
  parseLoop n o (commandLine l ++ rest) = parseLoop (length rest) (foldl applySetting o (map snd l)) rest.
Proof.
  revert n o. induction l as [|[sp s] l IH]; intros n o Hn; [by apply parseLoop_fuel|].
  unfold commandLine in *. cbn [map concat fst snd foldl] in *. rewrite <- app_assoc in *.
  rewrite (parse_seen _ _ _ _ _ Hn (parseOne_spell _ _ _ _)). by apply IH.
Qed.

(** The command line round-trips: however the settings are spelled, in
    whatever order and however often, [flag.Parse] ends with the defaults
    updated by the settings from left to right, at the end of the arguments or
    at [--], and hands the arguments behind that on untouched. *)
Theorem Parse_commandLine l rest :
  Parse (commandLine l) = Parsed (foldl applySetting defaultOptions (map snd l)) [] ∧
  Parse (commandLine l ++ "--" :: rest) = Parsed (foldl applySetting defaultOptions (map snd l)) rest.
Proof.
  unfold Parse. split.
  - pose proof (parse_commandLine (length (commandLine l)) defaultOptions l []) as Hp.
    rewrite app_nil_r in Hp. by rewrite Hp.
  - by rewrite parse_commandLine.
Qed.

(** A boolean does not take the next argument: [-leader-elect false] turns
    leader election on and hides the flags behind it. *)
Example leader_elect_takes_no_argument args :
  Parse ("--leader-elect" :: "false" :: args) =
  Parsed (mkOptions ":8080" ":8081" true "") ("false" :: args).
Proof. done. Qed.

End flag_lemmas.

(** ** The process: lemmas *)

(** The declarative counterpart of [process]: a list of operations to carry
    out in turn, and the code to end with. *)
Definition schemeOps : list bootOp :=
  map OpAddToScheme [ClientGo; AuthV1alpha1; ClusterV1beta1; MsaV1beta1; WorkV1; CiV1alpha1].

Definition resolverOf (o : options) : option resolverKind :=
  if bool_decide (clusterProfileProviderFile o = "") then None else Some clusterInventoryResolver.

(** The reconciler that [main] hands to the builder. *)
Definition reconcilerOf (o : options) : reconcilerFields :=
  mkReconciler (Some ManagerClient) (Some ManagerAPIReader) (Some ManagerScheme)
    (Some (ManagerEventRecorder controllerName)) (resolverOf o).

Definition managerOps (o : options) : list bootOp :=
  [OpGetConfig;
   OpNewManager (mkManagerOptions (metricsAddr o) true true (healthAddr o) (leaderElect o) leaderElectionID)] ++
  (if bool_decide (clusterProfileProviderFile o = "") then []
   else [OpNewFromFile (clusterProfileProviderFile o); OpAddRunnable clusterInventoryResolver]) ++
  [OpIndexField indexPlacementRefNames;
   OpComplete (builderWatches (reconcilerOf o)) (reconcilerOf o);
   OpAddHealthzCheck "healthz"; OpAddReadyzCheck "readyz"; OpStart].

Section process_lemmas.
Context `{LibraryFlags} (answer : list bootOp → bootOp → option error).

Definition bootOps (args : list string) : list bootOp :=
  schemeOps ++ match Parse args with Parsed o _ => managerOps o | _ => [] end.

Definition lastCode (args : list string) : nat :=
  match Parse args with Rejected _ => 2 | _ => 0 end.

(** A panic of [init] ends with 2, an error of [main] with 1. *)
Definition failureCode (o : bootOp) : nat :=
  match o with OpAddToScheme _ => 2 | _ => 1 end.

(** Every operation of the list was answered without an error. *)
Definition accepted (ops : list bootOp) : Prop :=
  ∀ before o after, ops = before ++ o :: after → answer before o = None.

(** [m] carries out [ops] from a history on, up to the first error, and goes
    on with [k]. *)
Fixpoint carriedOut (ops : list bootOp) (k : boot unit) (h : list bootOp) : list bootOp * (unit + nat) :=
  match ops with
  | [] => k h
  | o :: ops' =>
      match answer h o with
      | Some _ => (h ++ [o], inr (failureCode o))
      | None => carriedOut ops' k (h ++ [o])
      end
  end.

Lemma carriedOut_app ops1 ops2 k h :
  carriedOut (ops1 ++ ops2) k h = carriedOut ops1 (carriedOut ops2 k) h.
Proof.
  revert h. induction ops1 as [|o ops1 IH]; intros h; [done|]. cbn [app carriedOut]. by rewrite IH.
Qed.

(** A program that is such a list, whatever comes before and behind it. *)
Definition carries (m : boot unit) (ops : list bootOp) (k : boot unit) : Prop :=
  ∀ h, m h = carriedOut ops k h.

Lemma carries_ret k : carries k [] k.
Proof. done. Qed.

Lemma carries_step code o ops m k :
  failureCode o = code → carries m ops k →
  carries (exitWith code (ask answer o) ≫= λ _, m) (o :: ops) k.
Proof.
  intros <- Hm h. unfold exitWith, ask, mbind, boot_bind. cbn [carriedOut].
  by destruct (answer h o); [|apply Hm].
Qed.

Lemma carries_last code o : failureCode o = code → carries (exitWith code (ask answer o)) [o] (mret tt).
Proof.
  intros <- h. unfold exitWith, ask, mbind, boot_bind. cbn [carriedOut]. by destruct (answer h o).
Qed.

Lemma carries_bind m1 ops1 m2 ops2 k :
  carries m1 ops1 (mret tt) → carries m2 ops2 k → carries (m1 ≫= λ _, m2) (ops1 ++ ops2) k.
Proof.
  intros H1 H2 h. unfold mbind, boot_bind. rewrite H1. clear H1 m1.
  revert h. induction ops1 as [|o ops1 IH]; intros h; cbn [carriedOut app]; [apply H2|].
  destruct (answer h o); [done|]. apply IH.
Qed.

(** SetupWithManager, whose error its caller turns into the exit. *)
Lemma carries_setup r ops m k :
  carries m ops k →
  carries (orExit (SetupWithManager answer r) ≫= λ _, m)
    (OpIndexField indexPlacementRefNames ::
     OpComplete (builderWatches (defaultFields r)) (defaultFields r) :: ops) k.
Proof.
  intros Hm h. unfold orExit, exitWith, SetupWithManager, ask, mbind, boot_bind. cbn [carriedOut].
  destruct (answer h _); [done|]. destruct (answer (h ++ _) _); [done|]. apply Hm.
Qed.

Lemma carries_resolver o ops (m : option resolverKind → boot unit) k :
  carries (m (resolverOf o)) ops k →
  carries (setupResolver answer o ≫= m)
    ((if bool_decide (clusterProfileProviderFile o = "") then []
      else [OpNewFromFile (clusterProfileProviderFile o); OpAddRunnable clusterInventoryResolver]) ++ ops) k.
Proof.
  unfold resolverOf, setupResolver. case_bool_decide; intros Hm h; [apply Hm|].
  unfold orExit, exitWith, ask, mbind, boot_bind. cbn [carriedOut app].
  destruct (answer h _); [done|]. cbn. destruct (answer (h ++ _) _); [done|]. apply Hm.
Qed.

Lemma runManager_carries o : carries (runManager answer o) (managerOps o) (mret tt).
Proof.
  apply carries_step; [done|]. apply carries_step; [done|].
  apply carries_resolver. apply (carries_setup (mkReconciler None None None None (resolverOf o))).
  do 2 (apply carries_step; [done|]). by apply carries_last.
Qed.

Lemma initScheme_carries : carries (initScheme answer) schemeOps (mret tt).
Proof. unfold initScheme. do 5 (apply carries_step; [done|]). by apply carries_last. Qed.

(** The end of a process that met no error. *)
Definition endOf (args : list string) : boot unit :=
  match Parse args with Parsed _ _ => mret tt | Help => osExit 0 | Rejected _ => osExit 2 end.

Lemma process_carries args : carries (process answer args) (bootOps args) (endOf args).
Proof.
  apply carries_bind; [apply initScheme_carries|]. unfold main_, endOf.
  destruct (Parse args); [apply runManager_carries|apply carries_ret..].
Qed.

(** How a list of operations ends: all of them answered, or at the first error. *)
Lemma carriedOut_cases ops k before :
  accepted before →
  (accepted (before ++ ops) ∧ carriedOut ops k before = k (before ++ ops)) ∨
  (∃ ops1 o ops2 e, ops = ops1 ++ o :: ops2 ∧ accepted (before ++ ops1) ∧
     answer (before ++ ops1) o = Some e ∧
     carriedOut ops k before = (before ++ ops1 ++ [o], inr (failureCode o))).
Proof.
  revert before. induction ops as [|o ops IH]; intros before Hacc; cbn [carriedOut].
  { left. by rewrite app_nil_r. }
  destruct (answer before o) as [e|] eqn:E.
  { right. exists [], o, ops, e. by rewrite app_nil_r. }
  destruct (IH (before ++ [o])) as [[Ha Hk]|(ops1 & o' & ops2 & e & -> & Ha & He & Hk)].
  - intros p o' q Hq. destruct q as [|x q _] using rev_ind.
    + apply app_inj_tail in Hq as [-> ->]. done.
    + rewrite app_comm_cons, app_assoc in Hq. apply app_inj_tail in Hq as [-> _]. by eapply Hacc.
  - left. by rewrite <- app_assoc in Ha, Hk.
  - right. exists (o :: ops1), o', ops2, e. rewrite <- !app_assoc in Ha, He, Hk. done.
Qed.

(** C12: the process comes up in one order and stops at the first error.  For
    every command line and every way the manager answers: either every
    operation of the plan succeeded, all of them were carried out in the order
    of the plan, and the process ends with 0 (2 for a rejected command line);
    or the operations up to the first one that failed were carried out, none
    behind it, and the process ends with 1 (2 for a panic in [init]). *)
Theorem process_fails_fast args :
  (accepted (bootOps args) ∧ performed answer args = bootOps args ∧ exitCode answer args = lastCode args) ∨
  (∃ before o after e, bootOps args = before ++ o :: after ∧ accepted before ∧ answer before o = Some e ∧
     performed answer args = before ++ [o] ∧ exitCode answer args = failureCode o).
Proof.
  unfold performed, exitCode. pose proof (process_carries args []) as Hrun.
  destruct (carriedOut_cases (bootOps args) (endOf args) []) as [[Ha Hk]|(p & o & q & e & Hp & Ha & He & Hk)];
    [|rewrite Hk in Hrun..].
  - intros p o q Hq. by apply app_cons_not_nil in Hq.
  - left. split; [done|]. rewrite Hrun. unfold endOf, lastCode. by destruct (Parse args).
  - right. exists p, o, q, e. split_and!; try done; by rewrite Hrun.
Qed.

(** What was carried out is a prefix of the plan. *)
Lemma performed_prefix args : performed answer args `prefix_of` bootOps args.
Proof.
  unfold performed. pose proof (process_carries args []) as Hrun.
  destruct (carriedOut_cases (bootOps args) (endOf args) []) as [[_ Hk]|(p & o & q & e & Hp & _ & _ & Hk)];
    [intros p o q Hq; by apply app_cons_not_nil in Hq|..]; rewrite Hk in Hrun; rewrite Hrun.
  - unfold endOf. by destruct (Parse args).
  - rewrite Hp. exists q. cbn. by rewrite <- app_assoc.
Qed.

End process_lemmas.

(** A prefix that reaches an element holds everything before it. *)
Lemma prefix_reaches {A} (l a b : list A) x y :
  l `prefix_of` a ++ x :: b → x ∉ a → x ∈ l → y ∈ a → y ∈ l.
Proof.
  intros [q Hq] Ha Hx Hy. apply app_eq_inv in Hq as [(k & -> & _)|(k & -> & _)].
  - destruct Ha. apply elem_of_app. by left.
  - apply elem_of_app. by left.
Qed.

(** The operations of [main] before the builder completes the controller. *)
Definition beforeComplete (o : options) : list bootOp :=
  schemeOps ++
  [OpGetConfig;
   OpNewManager (mkManagerOptions (metricsAddr o) true true (healthAddr o) (leaderElect o) leaderElectionID)] ++
  (if bool_decide (clusterProfileProviderFile o = "") then []
   else [OpNewFromFile (clusterProfileProviderFile o); OpAddRunnable clusterInventoryResolver]) ++
  [OpIndexField indexPlacementRefNames].

Lemma beforeComplete_no_controller o watches r : OpComplete watches r ∉ beforeComplete o.
Proof. unfold beforeComplete, schemeOps. case_bool_decide; cbn; set_solver. Qed.

Lemma beforeComplete_manager o mo :
  OpNewManager mo ∈ beforeComplete o →
  moMetricsSecureServing mo = true ∧ moMetricsAuthFilter mo = true ∧ moLeaderElection mo = leaderElect o.
Proof.
  intros Hin. assert (mo = mkManagerOptions (metricsAddr o) true true (healthAddr o) (leaderElect o) leaderElectionID)
    as ->; [|done].
  unfold beforeComplete, schemeOps in Hin. case_bool_decide; cbn in Hin; set_solver.
Qed.

Lemma beforeComplete_runnable o :
  OpAddRunnable clusterInventoryResolver ∈ beforeComplete o ↔ clusterProfileProviderFile o ≠ "".
Proof. unfold beforeComplete, schemeOps. case_bool_decide; cbn; set_solver. Qed.

(** C34: What a controller that comes up is wired to.  When the builder
    completes a controller, it is subscribed to every kind of object, to the
    namespace events exactly when a provider file is configured; the groups of all objects it subscribes to are in
    the scheme, the index that the placement watches query is registered, every
    field of the reconciler is filled from the manager, and the namespace
    resolver is a field of the reconciler, a source of wake-ups, a janitor and
    a runnable of the manager exactly when a provider file is configured.  The
    metrics endpoint is served over TLS with authentication and authorization,
    and leader election follows its flag. *)
Theorem controller_wiring `{LibraryFlags} answer args o rest watches r :
  Parse args = Parsed o rest →
  OpComplete watches r ∈ performed answer args →
  let configured := bool_decide (clusterProfileProviderFile o ≠ "") in
  (∀ k, k ∈ watches ↔ (k ≠ KindNamespaceEvent ∨ configured = true)) ∧
  (∀ k, k ∈ watches → OpAddToScheme (groupOf k) ∈ performed answer args) ∧
  OpIndexField indexPlacementRefNames ∈ performed answer args ∧
  rClient r = Some ManagerClient ∧ rAPIReader r = Some ManagerAPIReader ∧ rScheme r = Some ManagerScheme ∧
  rRecorder r = Some (ManagerEventRecorder controllerName) ∧
  configOf r = mkConfig configured configured true ∧
  (OpAddRunnable clusterInventoryResolver ∈ performed answer args ↔ configured = true) ∧
  (∀ mo, OpNewManager mo ∈ performed answer args →
     moMetricsSecureServing mo = true ∧ moMetricsAuthFilter mo = true ∧ moLeaderElection mo = leaderElect o).
Proof.
  intros Hparse Hin configured. pose proof (performed_prefix answer args) as Hpre.
  assert (bootOps args = beforeComplete o ++ OpComplete (builderWatches (reconcilerOf o)) (reconcilerOf o) ::
    [OpAddHealthzCheck "healthz"; OpAddReadyzCheck "readyz"; OpStart]) as Hops.
  { unfold bootOps, beforeComplete, managerOps. rewrite Hparse. by rewrite <- !app_assoc. }
  rewrite Hops in Hpre.
  assert (watches = builderWatches (reconcilerOf o) ∧ r = reconcilerOf o) as [-> ->].
  { pose proof (elem_of_prefix _ _ _ Hin Hpre) as [Hb|[[= -> ->]|Hr]%elem_of_cons]%elem_of_app; [|done|].
    - by apply beforeComplete_no_controller in Hb.
    - exfalso. set_solver. }
  assert (∀ y, y ∈ beforeComplete o → y ∈ performed answer args) as Hbefore.
  { intros y. apply (prefix_reaches _ _ _ _ _ Hpre); [apply beforeComplete_no_controller|done]. }
  assert (∀ g, OpAddToScheme g ∈ performed answer args) as Hgroups.
  { intros []; apply Hbefore; unfold beforeComplete, schemeOps; cbn; set_solver. }
  split_and!; try done.
  - intros k. unfold builderWatches, reconcilerOf, resolverOf, configured.
    case_bool_decide; rewrite bool_decide_eq_true; destruct k; cbn; set_solver.
  - apply Hbefore. unfold beforeComplete. rewrite !elem_of_app. do 3 right. left.
  - unfold configOf, reconcilerOf, resolverOf, configured.
    by destruct (clusterProfileProviderFile o).
  - unfold configured. rewrite bool_decide_eq_true, <- beforeComplete_runnable. split; [|apply Hbefore].
    intros Hrun. pose proof (elem_of_prefix _ _ _ Hrun Hpre) as [?|Hr]%elem_of_app; [done|].
    exfalso. set_solver.
  - intros mo Hrun. pose proof (elem_of_prefix _ _ _ Hrun Hpre) as [?|Hr]%elem_of_app;
      [by apply beforeComplete_manager|]. exfalso. set_solver.
Qed.

(** ** Readiness: lemmas *)

(** What the history says about the state. *)
Definition ready_inv (es : list readyEvent) (s : readiness) : Prop :=
  (rdClosed s = true ↔ EvClosed ∈ es) ∧
  match rdWaiter s with
  | Waiting => (EvClosed ∉ es) ∧ ∀ ok, EvSynced ok ∉ es
  | Closing => (EvClosed ∉ es) ∧ EvSynced true ∈ es ∧ EvSynced false ∉ es
  | Finished => (EvClosed ∈ es ↔ EvSynced true ∈ es) ∧ (EvSynced true ∈ es ↔ EvSynced false ∉ es)
  end.

Lemma ready_inv_step es s e s' : ready_inv es s → ready_step s e s' → ready_inv (es ++ [e]) s'.
Proof.
  intros [Hc Hw] Hs. unfold ready_inv.
  destruct Hs as [[] c|c|[[] c]]; cbn in *; setoid_rewrite elem_of_app; setoid_rewrite list_elem_of_singleton;
    naive_solver.
Qed.

Lemma ready_run_inv es s : ready_run startReadiness es s → ready_inv es s.
Proof.
  remember startReadiness as s0. induction 1; subst; [|by eapply ready_inv_step; eauto].
  unfold ready_inv. cbn. set_solver.
Qed.

(** Readiness is honest: in every schedule of the waiting goroutine and of
    probes, the probe succeeds exactly from the close of the channel on, the
    channel is closed only after the informer cache reported that it synced
    (never after it reported a cancelled wait), and it is not closed twice. *)
Theorem readyz_honest es s :
  ready_run startReadiness es s →
  (readyz s = None ↔ EvClosed ∈ es) ∧
  (EvClosed ∈ es → EvSynced true ∈ es ∧ EvSynced false ∉ es) ∧
  (∀ s', ready_step s EvClosed s' → rdClosed s = false).
Proof.
  intros Hrun%ready_run_inv. destruct s as [wt c], Hrun as [Hc Hw]. cbn in *. unfold readyz; cbn.
  split_and!; [destruct c; naive_solver|destruct wt; naive_solver|].
  inversion 1; subst. destruct c; naive_solver.
Qed.

(** ** The theorems on concrete command lines *)

Section witnesses.

(** controller-runtime's kubeconfig flag and one of zap's, as an instance of
    the parameter. *)
#[local] Instance someLibraryFlags : LibraryFlags := {
  library_flag n := if bool_decide (n = "zap-devel") then Some true
                    else if bool_decide (n = "kubeconfig") then Some false else None;
  library_accepts n v := bool_decide (n = "kubeconfig") || bool_decide (is_Some (ParseBool v));
}.

(** The arguments of config/manager/manager.yaml, with a provider file. *)
Definition deployedArgs : list string :=
  ["--metrics-bind-address=:8080"; "--health-probe-bind-address=:8081"; "--leader-elect";
   "--clusterprofile-provider-file=/etc/providers.yaml"].

Definition deployedOptions : options := mkOptions ":8080" ":8081" true "/etc/providers.yaml".

Example deployedArgs_parse : Parse deployedArgs = Parsed deployedOptions [].
Proof. vm_compute. reflexivity. Qed.

Example library_flags_parse :
  Parse ["-zap-devel"; "--kubeconfig"; "/k"; "-leader-elect=T"; "rest"] =
    Parsed (mkOptions ":8080" ":8081" true "") ["rest"] ∧
  Parse ["-zap-devel=maybe"] = Rejected (InvalidValue "maybe" "zap-devel") ∧
  Parse ["--kubeconfig"] = Rejected (NeedsArgument "kubeconfig") ∧
  Parse ["---x"] = Rejected (BadSyntax "---x") ∧ Parse ["-h"] = Help ∧
  Parse ["--nope=1"] = Rejected (NotDefined "nope").
Proof. vm_compute. split_and!; reflexivity. Qed.

Lemma controller_wiring_witness :
  configOf (reconcilerOf deployedOptions) = mkConfig true true true ∧
  OpAddRunnable clusterInventoryResolver ∈ performed (λ _ _, None) deployedArgs.
Proof.
  pose proof (controller_wiring (λ _ _, None) deployedArgs deployedOptions [] (builderWatches (reconcilerOf deployedOptions))
    (reconcilerOf deployedOptions)) as Hw.
  destruct Hw as (_ & _ & _ & _ & _ & _ & _ & Hc & Hr & _); [vm_compute; reflexivity| |].
  - vm_compute. do 11 right. left.
  - split; [exact Hc|]. apply Hr. vm_compute. reflexivity.
Defined.

(** A schedule in which a probe comes too early and one after the sync. *)
Example readyz_schedule :
  ready_run startReadiness
    [EvProbed (Some errNotSynced); EvSynced true; EvProbed (Some errNotSynced); EvClosed; EvProbed None]
    (mkReadiness Finished true).
Proof.
  change [EvProbed (Some errNotSynced); EvSynced true; EvProbed (Some errNotSynced); EvClosed; EvProbed None]
    with ((((([] ++ [EvProbed (Some errNotSynced)]) ++ [EvSynced true]) ++ [EvProbed (Some errNotSynced)])
           ++ [EvClosed]) ++ [EvProbed None]).
  repeat econstructor.
Qed.

End witnesses.
